(* ===== verification/_CoqProject ===== *)
-Q . S2P
Prelude.v
Mem.v
Own.v
Target.v
ModeSpec.v
Sm4.v
Sm3.v
AesTables.v
Aes.v
Stream.v
Modes.v
CfbR.v
Cbc.v
AesModes.v
Ctr32.v
KeyWrap.v
MirAesTables.v
MirAes.v
Wrapper.v
MsList.v
CStr.v
LpConfig.v
Curve.v
Sm2.v
Sm2Key.v
WrapperSm2.v
BigNum.v
BigAdd.v
BigMul.v
BigDiv.v
BigLong.v
BigDivide.v
BigEnv.v
BigBytes.v
