(* ===== verification/Prelude.v ===== *)
(** * CryptoWrapper: a verification library

    A model of the C code of the repository, with the theorems that make it correct. The
    program is a library, [src/BaseLib/CryptoWrapper], that offers symmetric encryption with
    SM4 or AES and public-key encryption with SM2 behind one interface,
    [src/CryptoWrapper.c]; and C helpers of the programs that use it, [src/common]. Below,
    file names are relative to these two directories.

    ** How the parts interact

    The interface checks its arguments, pads the input, calls the block cipher and appends
    check data ([EncryptSM4], [DecryptSM4], [EncryptAES], [DecryptAES]), or moves keys
    between buffers and calls [src/sm2/sm2.c] ([CreateSecretKeySM2], [EncryptSM2],
    [DecryptSM2]). SM4 is [src/sm4/sm4.c]; AES is [src/aes/aes_core.c] with the entry points
    of [aes_misc.c], from OpenSSL. [sm2.c] has the signature, encryption and key agreement
    of the SM2 standard; it hashes with [src/sm2/sm3.c], computes on the curve with MIRACL
    ([src/sm2/mr*.c]) and hides its random numbers with MIRACL's own AES ([mraes.c]).

    ** Files and what they model

    - [Prelude] (this file): words, bytes, loops, tactics and general lemmas.
    - [Mem]: the memory of C. An object is a block of cells, a cell a byte or indeterminate; a
      pointer is null or a block and an offset. A computation of the monad [C] is undefined,
      [None], when it reads or writes outside an object or reads what was never written,
      and when [memcpy] is given regions that overlap.
      Regions, disjointness, frames ([mframe]) and the steps of memory operations.
    - [Own]: a weakest precondition and the assertion [st], which lists the regions a
      function owns with their contents and those it only reads; local objects, calls.
    - [Target]: what differs between the builds, as a class: the width of [unsigned long] and
      [size_t], a shift by 32 places, the sign of [char]. Instances for 64-bit Windows, 32-bit
      ARM and 64-bit Linux.
    - [ModeSpec]: ECB, CBC, CFB and OFB as functions of byte lists; the class [BlockCipher] is
      what a cipher promises to the modes and to the interface, [BlockMap] what the modes that
      only encrypt rely on, [BlockFun] what code that is given a block function relies on.
    - [Sm4]: [src/sm4/sm4.c]. Module [Sm4Spec] is the standard; [sm4_setkey], [sm4_one_round],
      [sm4_crypt_ecb] and [sm4_crypt_cbc] are the functions of those names.
    - [Sm3]: [src/sm2/sm3.c]. Module [Sm3Spec] is the standard; [SM3_Init], [SM3_Update],
      [SM3_Final], [sm3_block] and [sm3] are the functions of those names.
    - [AesTables], [Aes]: [src/aes/aes_core.c] and [aes_misc.c]. Module [AesSpec] is FIPS-197.
    - [Stream]: the loops that [src/aes/cfb128.c], [ofb128.c] and [ctr128.c] share, over what a
      mode does to a byte and to a word; the class [StreamMode] is what a mode promises to them.
    - [Modes]: these three files, an instance of [StreamMode] each. [Ctr32], [CfbR]: the other
      function of [ctr128.c], and the bit and byte segments of [cfb128.c].
    - [Cbc]: [src/aes/cbc128.c]. [AesModes]: the functions that give AES to the modes
      ([aes_ecb.c], [aes_cbc.c], [aes_cfb.c], [aes_ofb.c], [aes_ctr.c]).
    - [KeyWrap]: [src/aes/aes_wrap.c] and [mem_clr.c].
    - [MirAesTables], [MirAes]: [src/sm2/mraes.c], the structure [aes], its keys, block
      functions and modes.
    - [Wrapper], [WrapperSm2]: the symmetric and the SM2 functions of [src/CryptoWrapper.c].
      Module [SealSpec] is what the symmetric functions promise: padding, blocks, check data.
    - [Curve]: what [sm2.c] asks of MIRACL's numbers and points, as functions of the curve
      parameters, and the class [EllipticGroup]: the points form a group with a base point of
      prime order. Proved for a small curve, on which the concrete runs are computed.
    - [Sm2]: hashing, key generation, signature, key derivation and encryption of [sm2.c].
    - [Sm2Key]: its key agreement, and the secrets at rest ([enrand], [derand]).
    - [BigNum], [BigAdd], [BigMul], [BigDiv]: MIRACL's numbers, [src/sm2/mrcore.c] and
      [mrarth0.c] to [mrarth2.c], as programs of the monad [BigNum.M] on variables that hold a
      length and an array of words and may be the same; [BigLong], [BigDivide]: the proofs
      about division. [BigBytes]: division by an [int] and numbers as bytes.
    - [BigEnv]: sequences of calls of this arithmetic as sequences of integer operations.
    - [MsList]: the doubly linked list of [common/Common.c], on a heap of nodes.
    - [CStr]: [char] arrays with checked accesses, and the library functions on them.
    - [LpConfig]: the configuration files of [common/LpConfig.c], for the build without
      [HAVE_SQLITE3] and [_MSC_VER]; the parser works on its arrays of [MAX_LEN] characters
      and is proved equal to [file_effect], which works on the lines as lists.

    A definition has the name of the function it translates; a loop or a step that is proved
    on its own has a name of its own, with the statement it stands for in its comment.
    Functions that work on bytes in place are computations of [C] where the memory matters
    (overlap, bounds, indeterminate bytes, frees), and functions of lists where it does not.

    ** What the theorems show

    - Against the standards: the ciphers and hashes compute SM4, SM3 and FIPS-197 for every
      key and input, the tables included, and the two AES agree; known answers are examples.
    - The modes of OpenSSL: a message in two calls, cut anywhere, in place or not, with or
      without the loops on words, is CFB, OFB or CTR of the whole message; the two loops of
      CTR agree where the counter wraps around; the key wrap is that of RFC 3394.
    - Round trips: blocks, ECB, CBC, CFB, OFB, key wrap and MIRACL's feedback modes; [DecryptSM4] after
      [EncryptSM4], [DecryptSM2] after [EncryptSM2] after [CreateSecretKeySM2]; signatures
      verify; the two sides of the key agreement reach one key and confirm it; configurations
      that the format can carry are read back as they were written; integers survive storing
      as text.
    - The interface on inputs of less than 2^31 bytes: what [EncryptSM4], [DecryptSM4] and
      [DecryptAES] return and leave in memory, refused inputs included.
    - MIRACL's numbers: the predicate [holds] ties the words of a variable to an integer; each
      function computes its integer operation, Knuth's division with its corrected guesses
      included, whichever of its arguments are the same variable; [calls_ok] does it for whole
      sequences of calls; the method for squares agrees with the ordinary one; bytes are read
      and written as the contract in [Sm2] says.
    - Memory: no undefined behaviour under the stated validity and disjointness conditions,
      nothing written but the outputs, every local and [malloc]ed object released.
    - Data structures: the list operations refine those of lists and preserve the invariant
      of the links; the configuration refines a finite map of sections and keys; loops end.
    - Where the code fails: [EncryptAES] dereferences null; the SM3 of a 64-bit [unsigned
      long] is not the standard's; a signature that has to be made again verifies only by
      coincidence; the encryption of an empty message is still running after any numbers drawn; short coordinates overflow a buffer;
      unwrapping an empty key copies four gigabytes; the SM2 functions of the interface report
      success for failures; a number of too many bytes leaves a length beyond its array; a
      division that overflows loses signs. These are theorems too, and findings.

    ** Bounds and fuel

    Loops of known length are [for_loop] or recursion on their count. [expand_loop] of
    [MirAes] has as much fuel as the schedule has words, which is more than its turns;
    [sign_loop], [encrypt_loop] and [draw_key] recurse on the list of numbers drawn. When it is
    used up [encrypt_loop] gives the state of the loop, which tells a loop that goes on from
    undefined behaviour; [sm2_sign], [sm2_encrypt] and [draw_key] are undefined then, so that a
    theorem that they return says how many numbers are enough. The loops of the modes over blocks have the number of bytes as fuel, one turn for
    every 16 of them. Reading a configuration has as many turns
    as the file has characters, and one, since each turn takes at least one. In
    [BigAdd] and [BigDiv] the loops that end on a condition have fuel: [psub_loop] two turns
    more than words, [div_subtract] five (at most four subtractions), [div_correct] four (the
    guess is at most two too large). Running out of fuel is undefined, so that the theorems
    show it is enough. Lengths are
    bounded as the types of the code make it: an SM3 message below 2^29 bytes, [int] lengths
    below 2^31, names below 8192 bytes, which is what two bytes of a bit length can hold.

    ** Not modelled

    - The rest of MIRACL: [mirsys] and the allocation of variables, the extended Euclidean
      algorithm, Montgomery arithmetic and the curve ([mrxgcd.c], [mrmonty.c], [mrcurve.c]);
      the contract of these is [Curve]. The parts for a number base other than a full word,
      and in assembler, are not compiled. That the curve of the standard satisfies
      [EllipticGroup] is a theorem of number theory and a primality proof, taken as a
      hypothesis.
    - Random numbers are arguments: the values [bigrand] reduces, the bytes [rand] gives.
    - What is printed; [malloc] failing; timing.
    - The other files of OpenSSL under [src/aes] (GCM, CCM, XTS, cipher text stealing, IGE, big
      numbers, error queues, memory debugging, object tables, I/O), which the interface never
      calls, and the copy of the library in [src/BaseLib/AES].
    - The C++ programs [src/relayserver], [src/localproxy] and the C++ files of
      [src/common]: sockets, threads and event loops. *)

From Stdlib Require Export ZArith Lia Btauto Bool.
From stdpp Require Export base list numbers gmap option.

#[global] Open Scope Z_scope.

(** ** Machine words *)

(** Truncation to [w] bits: what a conversion to an unsigned [w]-bit type does. *)
Definition wrap (w x : Z) : Z := x mod 2 ^ w.

(** The two's-complement reading of the low [w] bits: what gcc, clang and MSVC
    give for a conversion to a signed [w]-bit type. *)
Definition to_signed (w x : Z) : Z :=
  let y := wrap w x in if decide (y < 2 ^ (w - 1)) then y else y - 2 ^ w.

(** Rotation of a 32-bit word, as the standards write it. *)
Definition rotl32 (x n : Z) : Z := Z.lor (wrap 32 (Z.shiftl x n)) (Z.shiftr x (32 - n)).

Definition is_word (w x : Z) : Prop := 0 <= x < 2 ^ w.

Abbreviation is_byte := (is_word 8).
Abbreviation is_bytes := (Forall (is_word 8)).
Abbreviation is_words := (Forall (is_word 32)).

#[global] Instance is_word_dec w x : Decision (is_word w x).
Proof. unfold is_word. apply _. Defined.

(** The counting loop [for (i = lo; i < hi; i++) s = body(i, s)]. *)
Definition for_loop {S} (lo hi : nat) (body : nat → S → S) (s : S) : S :=
  foldl (λ s i, body i s) s (seq lo (hi - lo)).

(** Big-endian 32-bit words and bytes, the encoding of the cipher standards. *)
Definition be_bytes (x : Z) : list Z :=
  [Z.land (Z.shiftr x 24) 255; Z.land (Z.shiftr x 16) 255;
   Z.land (Z.shiftr x 8) 255; Z.land x 255].

Definition be_word (b0 b1 b2 b3 : Z) : Z :=
  Z.lor (Z.lor (Z.lor (Z.shiftl b0 24) (Z.shiftl b1 16)) (Z.shiftl b2 8)) b3.

(** [chunks n l]: the consecutive pieces of [n] elements of [l]; the last one
    holds what is left. *)
Fixpoint chunks_fuel {A} (fuel n : nat) (l : list A) : list (list A) :=
  match fuel, l with
  | O, _ | _, [] => []
  | S fuel, _ => take n l :: chunks_fuel fuel n (drop n l)
  end.
Definition chunks {A} (n : nat) (l : list A) : list (list A) := chunks_fuel (length l) n l.

(** A function of blocks of [n] elements applied block after block. *)
Definition blockwise (f : list Z → list Z) (n : nat) (l : list Z) : list Z :=
  mjoin (f <$> chunks n l).

(** Pointwise exclusive or of two byte lists (the shorter length). *)
Definition xor_list (xs ys : list Z) : list Z := zip_with Z.lxor xs ys.

#[global] Arguments wrap : simpl never.
#[global] Arguments be_word : simpl never.
#[global] Arguments be_bytes : simpl never.
#[global] Arguments rotl32 : simpl never.
#[global] Arguments chunks : simpl never.
#[global] Arguments blockwise : simpl never.
#[global] Arguments for_loop : simpl never.

(** Two machine words that agree on their low 32 bits. *)
Definition eq32 (x y : Z) : Prop := wrap 32 x = wrap 32 y.
Infix "≡₃₂" := eq32 (at level 70).

(** ** Bits *)

Create HintDb zbits.

Lemma testbit_wrap w x i :
  0 <= w → 0 <= i → Z.testbit (wrap w x) i = (i <? w) && Z.testbit x i.
Proof.
  intros Hw Hi. unfold wrap. destruct (Z.ltb_spec i w).
  - by rewrite Z.mod_pow2_bits_low by lia.
  - by rewrite Z.mod_pow2_bits_high by lia.
Qed.

Lemma testbit_shiftl x n i :
  0 <= i → Z.testbit (Z.shiftl x n) i = (n <=? i) && Z.testbit x (i - n).
Proof.
  intros Hi. rewrite Z.shiftl_spec by done. destruct (Z.leb_spec n i); [done|].
  by rewrite Z.testbit_neg_r by lia.
Qed.

Lemma testbit_shiftr x n i :
  0 <= i → Z.testbit (Z.shiftr x n) i = Z.testbit x (i + n).
Proof. intros. by rewrite Z.shiftr_spec. Qed.

Lemma testbit_ones w i : 0 <= w → 0 <= i → Z.testbit (Z.ones w) i = (i <? w).
Proof.
  intros Hw Hi. destruct (Z.ltb_spec i w).
  - by rewrite Z.ones_spec_low by lia.
  - by rewrite Z.ones_spec_high by lia.
Qed.

Lemma testbit_lnot x i : 0 <= i → Z.testbit (Z.lnot x) i = negb (Z.testbit x i).
Proof. intros. by rewrite Z.lnot_spec. Qed.

Lemma testbit_high w x i : is_word w x → w <= i → Z.testbit x i = false.
Proof.
  intros [? Hx] Hi. destruct (decide (0 <= w)).
  - rewrite <- (Z.mod_small x (2 ^ w)) by lia. by rewrite Z.mod_pow2_bits_high by lia.
  - rewrite Z.pow_neg_r in Hx by lia. lia.
Qed.

#[export] Hint Rewrite Z.lxor_spec Z.land_spec Z.lor_spec Z.testbit_0_l : zbits.
#[export] Hint Rewrite testbit_wrap testbit_shiftl testbit_shiftr testbit_ones testbit_lnot
  using lia : zbits.

(** [bitwise]: two integers are equal because they agree on every bit. Masks of
    the shape [2^n - 1] are read as [Z.ones n]; the bits above the width of a
    word known by a hypothesis [is_word w x] are zero. *)
Ltac masks_to_ones :=
  change 255 with (Z.ones 8) in *; change 65535 with (Z.ones 16) in *;
  change 4294967295 with (Z.ones 32) in *.

Ltac same_index :=
  match goal with
  | |- context [Z.testbit ?x ?i] =>
      match goal with
      | |- context [Z.testbit x ?j] =>
          assert_fails (constr_eq i j); replace (Z.testbit x j) with (Z.testbit x i) by (f_equal; lia)
      end
  end.

Ltac bitwise_cases :=
  repeat match goal with
    | |- context [?a <? ?b] => destruct (Z.ltb_spec a b); try (exfalso; lia); cbn [andb orb negb xorb]
    | |- context [?a <=? ?b] => destruct (Z.leb_spec a b); try (exfalso; lia); cbn [andb orb negb xorb]
    end.

Ltac clear_high_bits :=
  repeat match goal with
    | H : is_word ?w ?x |- context [Z.testbit ?x ?i] =>
        rewrite (testbit_high w x i H) by lia
    end.

Ltac bitwise :=
  masks_to_ones;
  apply Z.bits_inj'; let i := fresh "i" in let Hi := fresh "Hi" in intros i Hi;
  repeat (progress (autorewrite with zbits; bitwise_cases));
  clear_high_bits; repeat same_index; try done; try btauto.

(** ** Words *)

Lemma wrap_is_word w x : 0 <= w → is_word w (wrap w x).
Proof. intros. unfold is_word, wrap. apply Z.mod_pos_bound. lia. Qed.

Lemma wrap_small w x : is_word w x → wrap w x = x.
Proof. intros ?. unfold wrap. by apply Z.mod_small. Qed.

Lemma wrap_wrap w v x : 0 <= w <= v → wrap w (wrap v x) = wrap w x.
Proof. intros. bitwise. Qed.

Lemma is_word_bits w x :
  0 <= w → (∀ i, w <= i → Z.testbit x i = false) → is_word w x.
Proof.
  intros Hw Hb. replace x with (wrap w x); [by apply wrap_is_word|].
  apply Z.bits_inj'. intros i Hi. rewrite testbit_wrap by done.
  destruct (Z.ltb_spec i w); [done|]. by rewrite Hb.
Qed.

Lemma is_word_weaken w v x : w <= v → is_word w x → is_word v x.
Proof.
  intros ? [? ?]. split; [done|]. eapply Z.lt_le_trans; [done|].
  by apply Z.pow_le_mono_r.
Qed.

Lemma is_word_lxor w x y : 0 <= w → is_word w x → is_word w y → is_word w (Z.lxor x y).
Proof.
  intros ? Hx Hy. apply is_word_bits; [done|]. intros i ?. rewrite Z.lxor_spec.
  by rewrite (testbit_high w x), (testbit_high w y).
Qed.

Lemma is_word_lor w x y : 0 <= w → is_word w x → is_word w y → is_word w (Z.lor x y).
Proof.
  intros ? Hx Hy. apply is_word_bits; [done|]. intros i ?. rewrite Z.lor_spec.
  by rewrite (testbit_high w x), (testbit_high w y).
Qed.

Lemma is_word_land w x y : 0 <= w → is_word w x → is_word w (Z.land x y).
Proof.
  intros ? Hx. apply is_word_bits; [done|]. intros i ?. rewrite Z.land_spec.
  by rewrite (testbit_high w x).
Qed.

Lemma is_word_shiftr w x n : 0 <= w → 0 <= n → is_word w x → is_word w (Z.shiftr x n).
Proof.
  intros ? ? Hx. apply is_word_bits; [done|]. intros i ?. rewrite Z.shiftr_spec by lia.
  rewrite (testbit_high w x); [done..|lia].
Qed.

Lemma is_word_rotl32 x n : 0 <= n <= 32 → is_word 32 x → is_word 32 (rotl32 x n).
Proof.
  intros. unfold rotl32.
  apply is_word_lor; [lia|by apply wrap_is_word|apply is_word_shiftr; [lia..|done]].
Qed.

Lemma land_255_is_byte x : is_byte (Z.land x 255).
Proof. rewrite Z.land_comm. by apply is_word_land; [|unfold is_word]. Qed.

Lemma be_bytes_are_bytes x : is_bytes (be_bytes x).
Proof. unfold be_bytes. repeat constructor; apply land_255_is_byte. Qed.

Lemma be_word_is_word b0 b1 b2 b3 :
  is_byte b0 → is_byte b1 → is_byte b2 → is_byte b3 → is_word 32 (be_word b0 b1 b2 b3).
Proof.
  intros. apply is_word_bits; [done|]. intros i ?. unfold be_word.
  autorewrite with zbits. bitwise_cases. by clear_high_bits.
Qed.

Lemma be_word_bytes x : is_word 32 x →
  be_word (Z.land (Z.shiftr x 24) 255) (Z.land (Z.shiftr x 16) 255)
    (Z.land (Z.shiftr x 8) 255) (Z.land x 255) = x.
Proof. intros. unfold be_word. bitwise. Qed.

Lemma be_bytes_word b0 b1 b2 b3 :
  is_byte b0 → is_byte b1 → is_byte b2 → is_byte b3 →
  be_bytes (be_word b0 b1 b2 b3) = [b0; b1; b2; b3].
Proof. intros. unfold be_bytes, be_word. repeat f_equal; bitwise. Qed.

Lemma wrap_lxor w x y : 0 <= w → wrap w (Z.lxor x y) = Z.lxor (wrap w x) (wrap w y).
Proof. intros. bitwise. Qed.

Lemma wrap_lor w x y : 0 <= w → wrap w (Z.lor x y) = Z.lor (wrap w x) (wrap w y).
Proof. intros. bitwise. Qed.

Lemma wrap_land w x y : 0 <= w → wrap w (Z.land x y) = Z.land (wrap w x) (wrap w y).
Proof. intros. bitwise. Qed.

Lemma wrap_add w x y : wrap w (x + y) = wrap w (wrap w x + wrap w y).
Proof. unfold wrap. by rewrite Zplus_mod. Qed.

Lemma land_255 x : Z.land x 255 = wrap 8 x.
Proof. bitwise. Qed.

#[export] Instance eq32_equiv : Equivalence eq32.
Proof. split; unfold eq32; [done| |]; intros ?; intros; congruence. Qed.

#[export] Instance lxor_eq32 : Proper (eq32 ==> eq32 ==> eq32) Z.lxor.
Proof. intros x x' Hx y y' Hy. unfold eq32 in *. rewrite !wrap_lxor by done. congruence. Qed.

#[export] Instance wrap_eq32 : Proper (eq32 ==> eq) (wrap 32).
Proof. by intros ???. Qed.

Lemma wrap32_eq32 x : wrap 32 x ≡₃₂ x.
Proof. by apply wrap_wrap. Qed.

Lemma eq32_word x y : x ≡₃₂ y → is_word 32 y → wrap 32 x = y.
Proof. intros -> ?. by apply wrap_small. Qed.

(** ** Counting loops *)

Lemma for_loop_nil {S} lo hi (body : nat → S → S) s : (hi ≤ lo)%nat → for_loop lo hi body s = s.
Proof. intros. unfold for_loop. by replace (hi - lo)%nat with 0%nat by lia. Qed.

Lemma for_loop_last {S} lo hi (body : nat → S → S) s :
  (lo ≤ hi)%nat → for_loop lo (Datatypes.S hi) body s = body hi (for_loop lo hi body s).
Proof.
  intros. unfold for_loop. replace (Datatypes.S hi - lo)%nat with (Datatypes.S (hi - lo)) by lia.
  rewrite seq_S, foldl_app. simpl. f_equal. lia.
Qed.

Lemma for_loop_ind {S} (P : nat → S → Prop) lo hi (body : nat → S → S) s :
  (lo ≤ hi)%nat → P lo s →
  (∀ i s, (lo ≤ i < hi)%nat → P i s → P (Datatypes.S i) (body i s)) →
  P hi (for_loop lo hi body s).
Proof.
  intros Hle H0 Hstep. induction hi as [|hi IH].
  - rewrite for_loop_nil by lia. by replace 0%nat with lo by lia.
  - destruct (decide (lo = Datatypes.S hi)) as [<-|]; [by rewrite for_loop_nil|].
    rewrite for_loop_last by lia. apply Hstep; [lia|]. apply IH; [lia|]. intros. apply Hstep; [lia|done].
Qed.

(** [explode l n]: a list known to have [n] elements becomes an explicit one. *)
Ltac explode l n :=
  lazymatch n with
  | O => destruct l as [|? ?]; [|exfalso; simpl in *; lia]
  | S ?k => destruct l as [|? l]; [exfalso; simpl in *; lia|]; explode l k
  end.

Lemma lookup_total_app_l' {A} `{!Inhabited A} (l k : list A) (i : nat) :
  (i < length l)%nat → (l ++ k) !!! i = l !!! i.
Proof. intros. by rewrite lookup_total_app_l. Qed.

(** ** Byte lists *)

Lemma xor_list_length xs ys : length xs = length ys → length (xor_list xs ys) = length xs.
Proof. intros. unfold xor_list. rewrite length_zip_with. lia. Qed.

Lemma xor_list_involutive xs ys :
  length xs = length ys → xor_list (xor_list xs ys) ys = xs.
Proof.
  unfold xor_list. revert ys. induction xs as [|x xs IH]; intros [|y ys] ?; simplify_eq/=; [done|].
  rewrite IH by done. by rewrite Z.lxor_assoc, Z.lxor_nilpotent, Z.lxor_0_r.
Qed.

Lemma xor_list_comm xs ys : xor_list xs ys = xor_list ys xs.
Proof.
  unfold xor_list. revert ys. induction xs as [|x xs IH]; intros [|y ys]; [done..|]. cbn. by rewrite Z.lxor_comm, IH.
Qed.

Lemma xor_list_bytes xs ys : is_bytes xs → is_bytes ys → is_bytes (xor_list xs ys).
Proof.
  unfold xor_list. intros Hx. revert ys. induction Hx as [|x xs ? _ IH]; intros ys Hy; [constructor|].
  destruct Hy; simpl; constructor; [by apply is_word_lxor|by apply IH].
Qed.

Lemma chunks_fuel_mono {A} f n (l : list A) :
  (0 < n)%nat → (length l ≤ f)%nat → chunks_fuel f n l = chunks_fuel (length l) n l.
Proof.
  intros Hn. revert l. induction f as [f IH] using lt_wf_ind. intros l Hl.
  destruct l as [|x l]; [by destruct f|]. destruct f as [|f]; [simpl in Hl; lia|].
  cbn [chunks_fuel length]. f_equal.
  rewrite IH by (rewrite ?length_drop; simpl in *; lia).
  destruct (decide (f = length l)) as [->|].
  - symmetry. apply IH; rewrite ?length_drop; simpl in *; lia.
  - symmetry. apply IH; rewrite ?length_drop; simpl in *; lia.
Qed.

Lemma chunks_unfold {A} n (l : list A) :
  (0 < n)%nat → l ≠ [] → chunks n l = take n l :: chunks n (drop n l).
Proof.
  intros Hn Hl. unfold chunks. destruct l as [|x l]; [done|]. cbn [chunks_fuel length].
  f_equal. apply chunks_fuel_mono; [done|]. rewrite length_drop. simpl. lia.
Qed.

Lemma chunks_nil {A} n : chunks n ([] : list A) = [].
Proof. done. Qed.

Lemma chunks_app {A} n (l k : list A) :
  (0 < n)%nat → length l = n → chunks n (l ++ k) = l :: chunks n k.
Proof.
  intros. rewrite chunks_unfold; [|done|destruct l; simpl in *; [lia|done]].
  by rewrite take_app_length', drop_app_length' by done.
Qed.

Lemma Forall_lookup_total_default {A} `{!Inhabited A} (P : A → Prop) (l : list A) i :
  Forall P l → P inhabitant → P (l !!! i).
Proof.
  intros Hl Hd. destruct (decide (i < length l)%nat).
  - by apply Forall_lookup_total_1.
  - by rewrite list_lookup_total_alt, lookup_ge_None_2 by lia.
Qed.

(** [words]: a bit expression of [w]-bit words is a [w]-bit word. *)
Ltac words :=
  repeat first
    [ assumption
    | apply is_word_lxor; [lia| |]
    | apply is_word_lor; [lia| |]
    | apply is_word_rotl32; [lia|]
    | apply is_word_shiftr; [lia|lia|]
    | apply is_word_land; [lia|]
    | apply wrap_is_word; lia
    | apply land_255_is_byte ].

(** [decide_by_compute]: the goal is decidable and evaluates to true. *)
Ltac decide_by_compute := apply (bool_decide_unpack _); vm_compute; exact I.

Lemma bytes_lookup_total (bs : list Z) (i : nat) : is_bytes bs → is_byte (bs !!! i).
Proof. intros. apply Forall_lookup_total_default; [done|]. done. Qed.

(** [split_Forall]: a [Forall] over an explicit list, element by element. *)
Ltac split_Forall :=
  repeat match goal with
    | H : Forall _ (_ :: _) |- _ => apply Forall_cons_1 in H as [? H]
    | H : Forall _ [] |- _ => clear H
    end.

Lemma blockwise_nil f n : blockwise f n [] = [].
Proof. done. Qed.

Lemma blockwise_cons f n l k :
  (0 < n)%nat → length l = n → blockwise f n (l ++ k) = f l ++ blockwise f n k.
Proof. intros. unfold blockwise. by rewrite chunks_app. Qed.

(** Induction on a list of whole blocks. *)
Lemma block_ind {A} (n : nat) (P : list A → Prop) :
  P [] → (∀ l k, length l = n → P k → P (l ++ k)) →
  ∀ j l, length l = (n * j)%nat → P l.
Proof.
  intros H0 Hs j. induction j as [|j IH]; intros l Hl.
  - rewrite Nat.mul_0_r in Hl. by apply nil_length_inv in Hl as ->.
  - rewrite <- (take_drop n l). apply Hs; [rewrite length_take; lia|].
    apply IH. rewrite length_drop. lia.
Qed.

Lemma blockwise_length f n j l :
  (0 < n)%nat → (∀ b, length b = n → length (f b) = n) →
  length l = (n * j)%nat → length (blockwise f n l) = length l.
Proof.
  intros Hn Hf Hl. revert l Hl. apply (block_ind n); [done|]. intros b k Hb IH.
  rewrite blockwise_cons by done. rewrite !length_app, IH, Hf by done. lia.
Qed.

Lemma blockwise_inverse f g n j l :
  (0 < n)%nat → (∀ b, length b = n → is_bytes b → length (f b) = n ∧ g (f b) = b) →
  is_bytes l → length l = (n * j)%nat → blockwise g n (blockwise f n l) = l.
Proof.
  intros Hn Hf Hb Hl. revert Hb. revert l Hl. apply (block_ind n (λ l, is_bytes l → blockwise g n (blockwise f n l) = l)); [done|].
  intros b k Hb IH [Hbb Hkb]%Forall_app. destruct (Hf b) as [Hlen Hg]; [done..|].
  rewrite blockwise_cons by done. rewrite blockwise_cons by done. by rewrite Hg, IH.
Qed.

Lemma first_block {A} (n j : nat) (l : list A) :
  length l = (n * S j)%nat → ∃ b k, l = b ++ k ∧ length b = n ∧ length k = (n * j)%nat.
Proof.
  intros Hl. exists (take n l), (drop n l). rewrite take_drop, length_take, length_drop.
  split; [done|]. lia.
Qed.

Lemma no_block {A} (n : nat) (l : list A) : length l = (n * 0)%nat → l = [].
Proof. rewrite Nat.mul_0_r. apply nil_length_inv. Qed.

Lemma blockwise_ext f g n j l :
  (0 < n)%nat → (∀ b, length b = n → is_bytes b → f b = g b) →
  is_bytes l → length l = (n * j)%nat → blockwise f n l = blockwise g n l.
Proof.
  intros Hn Hf. revert l. induction j as [|j IH]; intros l Hb Hl; [by apply no_block in Hl as ->|].
  apply first_block in Hl as (b & k & -> & Hlb & Hlk). apply Forall_app in Hb as [Hb Hk].
  rewrite !blockwise_cons by done. by rewrite Hf, IH.
Qed.

Lemma for_loop_ext {S} lo hi (f g : nat → S → S) s :
  (∀ i s, (lo ≤ i < hi)%nat → f i s = g i s) → for_loop lo hi f s = for_loop lo hi g s.
Proof.
  intros Hfg. destruct (decide (lo ≤ hi)%nat); [|by rewrite !for_loop_nil by lia].
  apply (for_loop_ind (λ i s', (i ≤ hi)%nat → s' = for_loop lo i g s) lo hi f s); [lia| | |lia].
  - intros _. by rewrite for_loop_nil.
  - intros i s' Hi IH _. rewrite for_loop_last by lia. rewrite IH, Hfg by lia. done.
Qed.

Lemma for_loop_split {S} lo mid hi (f : nat → S → S) s :
  (lo ≤ mid ≤ hi)%nat → for_loop lo hi f s = for_loop mid hi f (for_loop lo mid f s).
Proof.
  intros. unfold for_loop. replace (hi - lo)%nat with ((mid - lo) + (hi - mid))%nat by lia.
  rewrite seq_app, foldl_app. by replace (lo + (mid - lo))%nat with mid by lia.
Qed.

Lemma wrap_to_signed w x : 0 <= w → wrap w (to_signed w x) = wrap w x.
Proof.
  intros. unfold to_signed. cbv zeta. case_decide; [by apply wrap_wrap|].
  unfold wrap. rewrite Zminus_mod, Z.mod_same, Z.sub_0_r, Zmod_mod by lia. by rewrite Zmod_mod.
Qed.

Lemma to_signed_small w x : 0 < w → 0 <= x < 2 ^ (w - 1) → to_signed w x = x.
Proof.
  intros Hw Hx. assert (2 ^ (w - 1) <= 2 ^ w) by (apply Z.pow_le_mono_r; lia).
  unfold to_signed. rewrite wrap_small by (unfold is_word; lia). cbv zeta. by rewrite decide_True by lia.
Qed.

Lemma list_eq_total {A} `{!Inhabited A} (l k : list A) :
  length l = length k → (∀ i, (i < length l)%nat → l !!! i = k !!! i) → l = k.
Proof.
  intros Hl Hi. apply list_eq. intros i. destruct (decide (i < length l)%nat).
  - rewrite !list_lookup_lookup_total_lt by lia. f_equal. by apply Hi.
  - by rewrite !lookup_ge_None_2 by lia.
Qed.

Lemma for_loop_shift {S} k lo hi (f : nat → S → S) s :
  for_loop (lo + k) (hi + k) f s = for_loop lo hi (λ i, f (i + k)%nat) s.
Proof.
  unfold for_loop. replace (hi + k - (lo + k))%nat with (hi - lo)%nat by lia.
  generalize (hi - lo)%nat. intros n. revert lo s.
  induction n as [|n IH]; intros lo s; [done|]. cbn [seq foldl]. apply (IH (Datatypes.S lo)).
Qed.

Lemma chunks_seq {A} n m : ∀ (l : list A),
  (0 < n)%nat → length l = (n * m)%nat →
  chunks n l = (λ j, take n (drop (n * j) l)) <$> seq 0 m.
Proof.
  induction m as [|m IH]; intros l Hn Hl; [by apply no_block in Hl as ->|].
  apply first_block in Hl as (b & k & -> & Hb & Hk). rewrite chunks_app, (IH k) by done.
  cbn [seq]. rewrite fmap_cons, <- fmap_S_seq, <- list_fmap_compose. f_equal.
  - by rewrite Nat.mul_0_r, drop_0, take_app_length'.
  - apply list_fmap_ext. intros i j _. cbn [compose]. f_equal.
    by rewrite Nat.mul_succ_r, Nat.add_comm, <- drop_drop, drop_app_length'.
Qed.

Lemma blockwise_app f n j l k :
  (0 < n)%nat → length l = (n * j)%nat → blockwise f n (l ++ k) = blockwise f n l ++ blockwise f n k.
Proof.
  intros Hn. revert l. induction j as [|j IH]; intros l Hl; [by apply no_block in Hl as ->|].
  apply first_block in Hl as (b & l' & -> & Hb & Hl'). rewrite <- app_assoc.
  rewrite (blockwise_cons f n b (l' ++ k)), (blockwise_cons f n b l'), IH, app_assoc by done. done.
Qed.

Lemma blockwise_bytes f n j l :
  (0 < n)%nat → (∀ b, is_bytes (f b)) → length l = (n * j)%nat → is_bytes (blockwise f n l).
Proof.
  intros Hn Hf. revert l. apply (block_ind n); [by constructor|]. intros b k Hb IH.
  rewrite blockwise_cons by done. by apply Forall_app_2.
Qed.

(** ** Bytes of numbers, the most significant first *)

Definition be_num (bs : list Z) : Z := foldl (λ v b, 256 * v + b) 0 bs.

(** [k] bytes of a number. *)
Fixpoint num_bytes (k : nat) (v : Z) : list Z :=
  match k with O => [] | S k => num_bytes k (v / 256) ++ [v mod 256] end.

Lemma num_bytes_length k : ∀ v, length (num_bytes k v) = k.
Proof. induction k as [|k IH]; intros v; [done|]. cbn. rewrite length_app, IH. cbn. lia. Qed.

Lemma num_bytes_is_bytes k : ∀ v, is_bytes (num_bytes k v).
Proof.
  induction k as [|k IH]; intros v; [constructor|]. cbn. apply List.Forall_app. split; [done|].
  constructor; [|constructor]. apply Z.mod_pos_bound. lia.
Qed.

Lemma be_num_app l1 c : be_num (l1 ++ [c]) = 256 * be_num l1 + c.
Proof. unfold be_num. by rewrite foldl_app. Qed.

Lemma be_num_bytes k : ∀ v, 0 <= v < 256 ^ Z.of_nat k → be_num (num_bytes k v) = v.
Proof.
  induction k as [|k IH]; intros v Hv; [cbn in *; lia|]. cbn [num_bytes]. rewrite be_num_app.
  rewrite IH; [symmetry; apply Z.div_mod; lia|].
  rewrite Nat2Z.inj_succ, Z.pow_succ_r in Hv by lia.
  split; [apply Z.div_pos; lia|apply Z.div_lt_upper_bound; lia].
Qed.

Lemma be_num_bound bs : is_bytes bs → 0 <= be_num bs < 256 ^ Z.of_nat (length bs).
Proof.
  induction bs as [|c l IH] using rev_ind; intros H; [done|]. rewrite be_num_app, length_app.
  apply List.Forall_app in H as [Hl Hc]. inversion Hc as [|? ? Hb _]. specialize (IH Hl). unfold is_word in Hb. cbn [length].
  rewrite Nat.add_1_r, Nat2Z.inj_succ, Z.pow_succ_r by lia. change (2 ^ 8) with 256 in Hb. lia.
Qed.

(** The bytes of a number are those of its remainder. *)
Lemma num_bytes_mod k : ∀ v, num_bytes k (v mod 256 ^ Z.of_nat k) = num_bytes k v.
Proof.
  induction k as [|k IH]; intros v; [done|]. cbn [num_bytes]. rewrite Nat2Z.inj_succ, Z.pow_succ_r by lia.
  rewrite Z.rem_mul_r by lia. f_equal.
  - rewrite <- (IH (v / 256)). f_equal. rewrite (Z.mul_comm 256), Z.div_add by lia. rewrite (Z.div_small (v mod 256)) by (apply Z.mod_pos_bound; lia). lia.
  - f_equal. rewrite (Z.mul_comm 256), Z.mod_add by lia. by rewrite Z.mod_mod by lia.
Qed.

Lemma num_bytes_app k j v : num_bytes (k + j) v = num_bytes k (v / 256 ^ Z.of_nat j) ++ num_bytes j v.
Proof.
  revert v. induction j as [|j IH]; intros v.
  - rewrite Nat.add_0_r, Z.div_1_r. cbn [num_bytes]. by rewrite app_nil_r.
  - rewrite Nat.add_succ_r. cbn [num_bytes]. rewrite IH, app_assoc, Z.div_div by lia. do 3 f_equal. rewrite Nat2Z.inj_succ, Z.pow_succ_r by lia. done.
Qed.

Lemma be_num_cat l1 l2 : be_num (l1 ++ l2) = 256 ^ Z.of_nat (length l2) * be_num l1 + be_num l2.
Proof.
  induction l2 as [|x l2 IH] using rev_ind; [rewrite app_nil_r; cbn [length]; change (be_num []) with 0; lia|].
  rewrite app_assoc, !be_num_app, IH, length_app. cbn [length]. rewrite Nat.add_1_r, Nat2Z.inj_succ, Z.pow_succ_r by lia. lia.
Qed.

Lemma num_bytes_be_num bs : is_bytes bs → num_bytes (length bs) (be_num bs) = bs.
Proof.
  induction bs as [|b bs IH] using rev_ind; intros Hb; [done|]. apply List.Forall_app in Hb as [Hb Hc]. inversion Hc as [|? ? Hx _]; subst.
  rewrite length_app, be_num_app. cbn [length]. rewrite Nat.add_1_r. cbn [num_bytes]. unfold is_word in Hx. change (2 ^ 8) with 256 in Hx.
  rewrite (Z.mul_comm 256), Z.div_add_l by lia. rewrite (Z.div_small b), Z.add_0_r, IH by done. by rewrite Z.add_comm, Z.mod_add, Z.mod_small by lia.
Qed.
