(* ===== verification/Mem.v ===== *)
(** * Mem: the C memory the byte-level code works on

    Objects are blocks of cells; a cell holds a byte or is indeterminate. A
    pointer is null or an offset in a block. Every access is checked: an access
    through a null pointer, outside its object or to an indeterminate cell is
    undefined behaviour, the value [None] of the monad [C]. *)

From S2P Require Import Prelude.

Inductive ptr := Null | Ptr (b : positive) (o : Z).

#[export] Instance ptr_eq_dec : EqDecision ptr.
Proof. solve_decision. Defined.

Abbreviation cell := (option Z).
Abbreviation mem := (gmap positive (list cell)).

(** [p + n] on [unsigned char *]. *)
Definition padd (p : ptr) (n : Z) : ptr :=
  match p with Null => Null | Ptr b o => Ptr b (o + n) end.

Definition in_range (cells : list cell) (o : Z) (n : nat) : Prop :=
  0 <= o ∧ o + Z.of_nat n <= Z.of_nat (length cells).
#[export] Instance in_range_dec cells o n : Decision (in_range cells o n).
Proof. unfold in_range. apply _. Defined.

Definition mread (m : mem) (p : ptr) (n : nat) : option (list Z) :=
  match p with
  | Null => None
  | Ptr b o =>
      cells ← m !! b;
      if decide (in_range cells o n) then mapM id (take n (drop (Z.to_nat o) cells)) else None
  end.

Definition splice {A} (o : nat) (new old : list A) : list A :=
  take o old ++ new ++ drop (o + length new) old.

Definition mwrite (m : mem) (p : ptr) (bs : list Z) : option mem :=
  match p with
  | Null => None
  | Ptr b o =>
      cells ← m !! b;
      if decide (in_range cells o (length bs))
      then Some (<[b := splice (Z.to_nat o) (Some <$> bs) cells]> m) else None
  end.

(** ** The monad of C code: [None] is undefined behaviour. *)

Definition C (A : Type) : Type := mem → option (A * mem).

#[export] Instance C_ret : MRet C := λ A a m, Some (a, m).
#[export] Instance C_bind : MBind C := λ A B k c m,
  match c m with Some (a, m') => k a m' | None => None end.

Definition undefined {A} : C A := λ _, None.

Definition load (p : ptr) (n : nat) : C (list Z) := λ m,
  match mread m p n with Some bs => Some (bs, m) | None => None end.

Definition store (p : ptr) (bs : list Z) : C unit := λ m,
  match mwrite m p bs with Some m' => Some (tt, m') | None => None end.

Definition load_byte (p : ptr) : C Z := bs ← load p 1; mret (hd 0 bs).

(** [memset(p, v, n)]: [v] is converted to [unsigned char]. *)
Definition memset (p : ptr) (v : Z) (n : nat) : C unit := store p (replicate n (wrap 8 v)).

(** A local array or a heap object of [n] indeterminate bytes, and its end of life. *)
Definition alloc (n : nat) : C ptr := λ m,
  let b := fresh (dom m) in Some (Ptr b 0, <[b := replicate n None]> m).

Definition dealloc (p : ptr) : C unit := λ m,
  match p with
  | Ptr b 0 => match m !! b with Some _ => Some (tt, delete b m) | None => None end
  | _ => None
  end.

(** [for (i = 0; i < n; i++) dst[i] = a[i] ^ b[i];] byte after byte. *)
Fixpoint xor_loop (n : nat) (dst a b : ptr) : C unit :=
  match n with
  | O => mret tt
  | S n =>
      x ← load_byte a; y ← load_byte b; store dst [Z.lxor x y];;
      xor_loop n (padd dst 1) (padd a 1) (padd b 1)
  end.

(** ** What a region is, and when two are apart *)

Definition mvalid (m : mem) (p : ptr) (n : nat) : Prop :=
  match p with
  | Null => False
  | Ptr b o => ∃ cells, m !! b = Some cells ∧ in_range cells o n
  end.

Definition pdisj (p : ptr) (n : nat) (q : ptr) (k : nat) : Prop :=
  match p, q with
  | Ptr b o, Ptr b' o' => b ≠ b' ∨ o + Z.of_nat n <= o' ∨ o' + Z.of_nat k <= o
  | _, _ => True
  end.

#[export] Instance pdisj_dec p n q k : Decision (pdisj p n q k).
Proof. destruct p, q; simpl; apply _. Defined.

(** [memcpy(dst, src, n)] for [n] a [size_t]: undefined where the two regions overlap. *)
Definition copy_bytes (dst src : ptr) (n : nat) : C unit := bs ← load src n; store dst bs.
Definition memcpy (dst src : ptr) (n : nat) : C unit :=
  if decide (pdisj dst n src n) then copy_bytes dst src n else undefined.

(** A set of regions, and a region apart from all of them. *)
Abbreviation regions := (list (ptr * nat)).
Definition apart (rs : regions) (q : ptr) (k : nat) : Prop :=
  Forall (λ r, pdisj r.1 r.2 q k) rs.

(** A source of a byte loop is the destination itself or is apart from it. *)
Definition same_or_apart (dst : ptr) (src : ptr) (n : nat) : Prop :=
  src = dst ∨ pdisj dst n src n.

#[export] Instance same_or_apart_dec dst src n : Decision (same_or_apart dst src n).
Proof. unfold same_or_apart. apply _. Defined.

(** [memcpy] where the code may give it the same pointer twice. The letter of the standard
    leaves this copy undefined too; compilers promise that it does nothing, as the assignment
    of a structure to itself needs it. *)
Definition memcpy_same (dst src : ptr) (n : nat) : C unit :=
  if decide (same_or_apart dst src n) then copy_bytes dst src n else undefined.

#[export] Instance mvalid_dec m p n : Decision (mvalid m p n).
Proof.
  destruct p as [|b o]; [right; by intros []|]. simpl. destruct (m !! b) as [cells|].
  - destruct (decide (in_range cells o n)); [left; eauto|right; naive_solver].
  - right. naive_solver.
Defined.
#[export] Instance apart_dec rs q k : Decision (apart rs q k).
Proof. unfold apart. apply _. Defined.

(** [mframe rs m m']: going from [m] to [m'] only the bytes of the regions [rs]
    may have changed, among the objects that were alive in [m]. *)
Record mframe (rs : regions) (m m' : mem) : Prop := {
  mframe_valid q k : mvalid m q k → mvalid m' q k;
  mframe_read q k : mvalid m q k → apart rs q k → mread m' q k = mread m q k;
}.

(** The regions [rs'] cover the regions [rs]. *)
Definition covers (rs' rs : regions) : Prop := ∀ q k, apart rs' q k → apart rs q k.

(** ** Reading and writing *)

Lemma mapM_id_length {A} (l : list (option A)) k : mapM id l = Some k → length l = length k.
Proof. intros H. by apply length_mapM in H. Qed.

Lemma mapM_id_app {A} (l1 l2 : list (option A)) :
  mapM id (l1 ++ l2) = (k1 ← mapM id l1; k2 ← mapM id l2; Some (k1 ++ k2)).
Proof.
  induction l1 as [|[x|] l1 IH]; simpl; [by destruct (mapM id l2)| |done].
  rewrite IH. destruct (mapM id l1); simpl; [|done]. by destruct (mapM id l2).
Qed.

Lemma mapM_id_fmap_Some {A} (l : list A) : mapM id (Some <$> l) = Some l.
Proof. induction l as [|x l IH]; [done|]. cbn. cbn in IH. by rewrite IH. Qed.

Lemma splice_length {A} o (new old : list A) :
  (o + length new ≤ length old)%nat → length (splice o new old) = length old.
Proof. intros. unfold splice. rewrite !length_app, length_take, length_drop. lia. Qed.

Lemma splice_get {A} o (new old : list A) :
  (o + length new ≤ length old)%nat → take (length new) (drop o (splice o new old)) = new.
Proof.
  intros. unfold splice. rewrite drop_app_length' by (rewrite length_take; lia).
  by rewrite take_app_length.
Qed.

Lemma splice_lookup_outside {A} o (new old : list A) i :
  (o + length new ≤ length old)%nat → (i < o ∨ o + length new ≤ i)%nat →
  splice o new old !! i = old !! i.
Proof.
  intros ? [?|?]; unfold splice.
  - rewrite lookup_app_l by (rewrite length_take; lia). by apply lookup_take_lt.
  - rewrite lookup_app_r by (rewrite length_take; lia).
    rewrite length_take, lookup_app_r by lia. rewrite lookup_drop. f_equal. lia.
Qed.

Lemma splice_get_outside {A} o (new old : list A) i n :
  (o + length new ≤ length old)%nat → (i + n ≤ o ∨ o + length new ≤ i)%nat →
  take n (drop i (splice o new old)) = take n (drop i old).
Proof.
  intros. apply list_eq. intros j. destruct (decide (j < n)%nat).
  - rewrite !lookup_take_lt, !lookup_drop by done. apply splice_lookup_outside; lia.
  - by rewrite !lookup_take_ge by lia.
Qed.

Lemma splice_app {A} o (n1 n2 old : list A) :
  (o + length n1 + length n2 ≤ length old)%nat →
  splice o (n1 ++ n2) old = splice (o + length n1) n2 (splice o n1 old).
Proof.
  intros. unfold splice. rewrite length_app.
  replace (take (o + length n1) (take o old ++ n1 ++ drop (o + length n1) old))
    with (take o old ++ n1).
  2:{ rewrite (app_assoc (take o old)).
      rewrite take_app_length' by (rewrite length_app, length_take; lia). done. }
  rewrite (app_assoc (take o old) n1 (drop _ _)).
  rewrite drop_app_ge by (rewrite length_app, length_take; lia).
  rewrite drop_drop, length_app, length_take, <- !app_assoc.
  do 3 f_equal. f_equal. lia.
Qed.

Lemma mread_length m p n bs : mread m p n = Some bs → length bs = n.
Proof.
  unfold mread. destruct p as [|b o]; [done|]. destruct (m !! b) as [cells|]; simpl; [|done].
  case_decide as Hr; [|done]. intros H. apply mapM_id_length in H.
  rewrite <- H, length_take, length_drop. unfold in_range in Hr. lia.
Qed.

Lemma mread_mvalid m p n bs : mread m p n = Some bs → mvalid m p n.
Proof.
  unfold mread, mvalid. destruct p as [|b o]; [done|].
  destruct (m !! b) as [cells|]; simpl; [|done]. case_decide; [eauto|done].
Qed.

Lemma mwrite_mvalid m p bs m' : mwrite m p bs = Some m' → mvalid m p (length bs).
Proof.
  unfold mwrite, mvalid. destruct p as [|b o]; [done|].
  destruct (m !! b) as [cells|]; simpl; [|done]. case_decide; [eauto|done].
Qed.

Lemma mvalid_mwrite m p bs : mvalid m p (length bs) → ∃ m', mwrite m p bs = Some m'.
Proof.
  unfold mwrite, mvalid. destruct p as [|b o]; [done|]. intros (cells & -> & ?). simpl.
  rewrite decide_True by done. eauto.
Qed.

Lemma mread_mwrite m p bs m' : mwrite m p bs = Some m' → mread m' p (length bs) = Some bs.
Proof.
  unfold mwrite, mread. destruct p as [|b o]; [done|].
  destruct (m !! b) as [cells|]; simpl; [|done]. case_decide as Hr; [|done].
  intros [= <-]. rewrite lookup_insert_eq. simpl. unfold in_range in Hr.
  assert (Hl : (Z.to_nat o + length (Some <$> bs) ≤ length cells)%nat)
    by (rewrite length_fmap; lia).
  rewrite decide_True by (unfold in_range; rewrite (splice_length _ _ _ Hl); lia).
  rewrite <- (length_fmap Some bs), splice_get by done. apply mapM_id_fmap_Some.
Qed.

Lemma mvalid_mwrite_iff m p bs m' q k : mwrite m p bs = Some m' → mvalid m' q k ↔ mvalid m q k.
Proof.
  unfold mwrite, mvalid. destruct p as [|b o]; [done|].
  destruct (m !! b) as [cells|] eqn:Hb; simpl; [|done]. case_decide as Hr; [|done].
  intros [= <-]. destruct q as [|b' o']; [done|]. unfold in_range in *.
  assert (Hl : length (splice (Z.to_nat o) (Some <$> bs) cells) = length cells)
    by (apply splice_length; rewrite length_fmap; lia).
  destruct (decide (b = b')) as [->|].
  - rewrite lookup_insert_eq, Hb. split; intros (c & [= <-] & ?); eexists; split; eauto; lia.
  - by rewrite lookup_insert_ne.
Qed.

Lemma mread_mwrite_disj m p bs m' q k :
  mwrite m p bs = Some m' → pdisj p (length bs) q k → mread m' q k = mread m q k.
Proof.
  unfold mwrite, mread. destruct p as [|b o]; [done|].
  destruct (m !! b) as [cells|] eqn:Hb; simpl; [|done]. case_decide as Hr; [|done].
  intros [= <-] Hd. destruct q as [|b' o']; [done|]. simpl in Hd. unfold in_range in Hr.
  destruct (decide (b = b')) as [->|]; [|by rewrite lookup_insert_ne].
  rewrite lookup_insert_eq, Hb. simpl.
  assert (Hl : (Z.to_nat o + length (Some <$> bs) ≤ length cells)%nat)
    by (rewrite length_fmap; lia).
  rewrite (decide_ext _ (in_range cells o' k)) by (unfold in_range; by rewrite (splice_length _ _ _ Hl)).
  case_decide as Hk; [|done]. unfold in_range in Hk.
  rewrite splice_get_outside; [done|done|rewrite length_fmap; lia].
Qed.

Lemma mwrite_mframe m p bs m' : mwrite m p bs = Some m' → mframe [(p, length bs)] m m'.
Proof.
  intros H. split; intros q k Hv; [by eapply mvalid_mwrite_iff|].
  intros [Hd _]%Forall_cons_1. by eapply mread_mwrite_disj.
Qed.

Lemma mwrite_app m p bs1 bs2 :
  mwrite m p (bs1 ++ bs2) =
  (m1 ← mwrite m p bs1; mwrite m1 (padd p (Z.of_nat (length bs1))) bs2).
Proof.
  unfold mwrite. destruct p as [|b o]; [done|]. simpl.
  destruct (m !! b) as [cells|] eqn:Hb; simpl; [|done].
  assert (Hl : in_range cells o (length bs1) →
    length (splice (Z.to_nat o) (Some <$> bs1) cells) = length cells)
    by (unfold in_range; intros; apply splice_length; rewrite length_fmap; lia).
  rewrite length_app. destruct (decide _) as [Hr|Hr]; unfold in_range in Hr.
  - rewrite decide_True by (unfold in_range; lia). simpl. rewrite lookup_insert_eq. simpl.
    rewrite decide_True by (unfold in_range in *; rewrite Hl by lia; lia).
    rewrite insert_insert_eq. do 2 f_equal. rewrite fmap_app, splice_app by (rewrite !length_fmap; lia).
    rewrite length_fmap. f_equal. lia.
  - case_decide as Hr1; [|done]. simpl. rewrite lookup_insert_eq. simpl.
    rewrite decide_False; [done|]. unfold in_range in *. rewrite Hl by done. lia.
Qed.

Lemma mwrite_nil m p m' : mwrite m p [] = Some m' → m' = m.
Proof.
  unfold mwrite. destruct p as [|b o]; [done|].
  destruct (m !! b) as [c|] eqn:Hb; simpl; [|done]. case_decide; [|done].
  intros [= <-]. unfold splice. simpl. rewrite Nat.add_0_r, take_drop. by apply insert_id.
Qed.

Lemma mread_app m p n k :
  mread m p (n + k) =
  (bs1 ← mread m p n; bs2 ← mread m (padd p (Z.of_nat n)) k; Some (bs1 ++ bs2)).
Proof.
  unfold mread. destruct p as [|b o]; [done|]. simpl.
  destruct (m !! b) as [cells|] eqn:Hb; simpl; [|done].
  destruct (decide (in_range cells o (n + k))) as [Hr|Hr]; unfold in_range in Hr.
  - rewrite !decide_True by (unfold in_range; lia). replace (Z.to_nat (o + Z.of_nat n)) with (Z.to_nat o + n)%nat by lia.
    rewrite <- take_take_drop, mapM_id_app, drop_drop. reflexivity.
  - destruct (decide (in_range cells o n)) as [Hn|]; [|done]. unfold in_range in Hn. simpl.
    rewrite decide_False by (unfold in_range; lia). by destruct (mapM id _).
Qed.

Lemma mread_nil m p : mvalid m p 0 → mread m p 0 = Some [].
Proof.
  intros [m1 Hw]%(mvalid_mwrite m p []). pose proof (mread_mwrite _ _ _ _ Hw) as H.
  by rewrite (mwrite_nil _ _ _ Hw) in H.
Qed.

Lemma mread_split m p n k bs :
  mread m p (n + k) = Some bs →
  ∃ b1 b2, bs = b1 ++ b2 ∧ length b1 = n ∧
    mread m p n = Some b1 ∧ mread m (padd p (Z.of_nat n)) k = Some b2.
Proof.
  rewrite mread_app. destruct (mread m p n) as [b1|] eqn:H1; [|done]. cbn.
  destruct (mread m _ k) as [b2|] eqn:H2; [|done]. cbn. intros [= <-].
  exists b1, b2. split_and!; try done. by eapply mread_length.
Qed.

(** ** Sub-regions *)

Lemma padd_add p i j : padd (padd p i) j = padd p (i + j).
Proof. destruct p as [|b o]; simpl; [done|]. f_equal. lia. Qed.

Lemma padd_0 p : padd p 0 = p.
Proof. destruct p as [|b o]; simpl; [done|]. f_equal. lia. Qed.

Lemma mvalid_sub m p n i j :
  mvalid m p n → (i + j ≤ n)%nat → mvalid m (padd p (Z.of_nat i)) j.
Proof.
  destruct p as [|b o]; simpl; [done|]. intros (cells & ? & ?) ?. exists cells.
  split; [done|]. unfold in_range in *. lia.
Qed.

Lemma mvalid_take m p n j : mvalid m p n → (j ≤ n)%nat → mvalid m p j.
Proof. intros Hv ?. rewrite <- (padd_0 p). by apply (mvalid_sub m p n 0). Qed.

Lemma mvalid_join m p n k :
  mvalid m p n → mvalid m (padd p (Z.of_nat n)) k → mvalid m p (n + k).
Proof.
  destruct p as [|b o]; simpl; [done|]. intros (c & Hc & Hn) (c' & Hc' & Hk).
  exists c. split; [done|]. simplify_eq. unfold in_range in *. lia.
Qed.

Lemma mread_sub m p n bs i j :
  mread m p n = Some bs → (i + j ≤ n)%nat →
  mread m (padd p (Z.of_nat i)) j = Some (take j (drop i bs)).
Proof.
  intros Hr Hij. replace n with (i + (j + (n - i - j)))%nat in Hr by lia.
  rewrite mread_app in Hr. destruct (mread m p i) as [b1|] eqn:H1; simpl in Hr; [|done].
  rewrite mread_app in Hr. destruct (mread _ (padd p (Z.of_nat i)) j) as [b2|] eqn:H2; simpl in Hr; [|done].
  destruct (mread _ _ (n - i - j)) as [b3|]; simpl in Hr; [|done]. simplify_eq Hr. intros <-.
  rewrite drop_app_length' by (by rewrite (mread_length _ _ _ _ H1)).
  by rewrite take_app_length' by (by rewrite (mread_length _ _ _ _ H2)).
Qed.

Lemma mread_take m p n bs j :
  mread m p n = Some bs → (j ≤ n)%nat → mread m p j = Some (take j bs).
Proof. intros Hr ?. rewrite <- (padd_0 p) at 1. by apply (mread_sub m p n bs 0). Qed.

Lemma mread_join m p n k bs1 bs2 :
  mread m p n = Some bs1 → mread m (padd p (Z.of_nat n)) k = Some bs2 →
  mread m p (n + k) = Some (bs1 ++ bs2).
Proof. intros H1 H2. rewrite mread_app, H1. simpl. by rewrite H2. Qed.

(** Some bytes of a region written, the region read. *)
Lemma mread_splice m p n cs i bs m' : mread m p n = Some cs → mwrite m (padd p (Z.of_nat i)) bs = Some m' → (i + length bs <= n)%nat →
  mread m' p n = Some (splice i bs cs).
Proof.
  destruct p as [|b o]; [done|]. cbn [padd]. intros Hr Hw Hl. pose proof (mread_length _ _ _ _ Hr) as Lc.
  pose proof (mread_sub _ _ _ _ 0 i Hr ltac:(lia)) as R1. rewrite padd_0, drop_0 in R1.
  pose proof (mread_sub _ _ _ _ (i + length bs) (n - (i + length bs)) Hr ltac:(lia)) as R3. rewrite (take_ge (drop _ cs)) in R3 by (rewrite length_drop; lia).
  replace n with (i + (length bs + (n - (i + length bs))))%nat at 1 by lia. unfold splice.
  apply mread_join; [|apply mread_join; [exact (mread_mwrite _ _ _ _ Hw)|]]; [|rewrite padd_add; replace (Z.of_nat i + Z.of_nat (length bs)) with (Z.of_nat (i + length bs)) by lia].
  - rewrite (mread_mwrite_disj _ _ _ _ _ _ Hw); [done|]. simpl. lia.
  - rewrite (mread_mwrite_disj _ _ _ _ _ _ Hw); [done|]. simpl. lia.
Qed.

Lemma pdisj_sym p n q k : pdisj p n q k → pdisj q k p n.
Proof. destruct p, q; simpl; naive_solver lia. Qed.

Lemma pdisj_sub p n q k i j :
  pdisj p n q k → (i + j ≤ n)%nat → pdisj (padd p (Z.of_nat i)) j q k.
Proof. destruct p, q; simpl; intros; try done. intuition lia. Qed.

Lemma pdisj_take p n q k j : pdisj p n q k → (j ≤ n)%nat → pdisj p j q k.
Proof. intros. rewrite <- (padd_0 p). by apply (pdisj_sub p n q k 0). Qed.

Lemma pdisj_next p (n i k : nat) :
  (n ≤ i)%nat → pdisj p n (padd p (Z.of_nat i)) k.
Proof. destruct p; simpl; [done|]. lia. Qed.

(** ** Frames *)

#[export] Instance mframe_refl rs : Reflexive (mframe rs).
Proof. done. Qed.

#[export] Instance mframe_trans rs : Transitive (mframe rs).
Proof.
  intros m1 m2 m3 [V12 R12] [V23 R23]. split; intros q k Hv; [by apply V23, V12|].
  intros Hd. rewrite R23, R12; [done..|by apply V12|done].
Qed.

#[export] Instance covers_refl : Reflexive covers.
Proof. by intros rs q k. Qed.

Lemma mframe_mono rs rs' m m' : mframe rs m m' → covers rs' rs → mframe rs' m m'.
Proof. intros [V R] Hc. split; [done|]. intros q k Hv Hd. apply R; [done|]. by apply Hc. Qed.

Lemma apart_1 p n q k : apart [(p, n)] q k ↔ pdisj p n q k.
Proof. unfold apart. rewrite Forall_singleton. done. Qed.

Lemma covers_sub rs p n i j :
  (p, n) ∈ rs → (i + j ≤ n)%nat → covers rs [(padd p (Z.of_nat i), j)].
Proof.
  intros Hin ? q k Ha. apply apart_1. eapply pdisj_sub; [|done].
  unfold apart in Ha. rewrite Forall_forall in Ha. apply (Ha (p, n)). by apply list_elem_of_In || done.
Qed.

Lemma covers_take rs p n j : (p, n) ∈ rs → (j ≤ n)%nat → covers rs [(p, j)].
Proof. intros ? ?. rewrite <- (padd_0 p) at 1. by apply (covers_sub rs p n 0 j). Qed.

Lemma covers_cons rs r rs' : covers rs [r] → covers rs rs' → covers rs (r :: rs').
Proof.
  intros H1 H2 q k Ha. apply Forall_cons_2; [|by apply H2].
  apply H1 in Ha. destruct r. by apply apart_1.
Qed.

Lemma covers_nil rs : covers rs [].
Proof. intros q k _. by constructor. Qed.

(** ** Computing with the monad *)

Lemma bind_Some {A B} (c : C A) (k : A → C B) m a m' :
  c m = Some (a, m') → (x ← c; k x) m = k a m'.
Proof. intros H. unfold mbind, C_bind. by rewrite H. Qed.

Lemma bind_inv {A B} (c : C A) (k : A → C B) m r : (c ≫= k) m = Some r → ∃ a m1, c m = Some (a, m1) ∧ k a m1 = Some r.
Proof. unfold mbind, C_bind. destruct (c m) as [[a m1]|]; [|done]. intros H. by exists a, m1. Qed.

Lemma load_Some p n m bs : mread m p n = Some bs → load p n m = Some (bs, m).
Proof. intros H. unfold load. by rewrite H. Qed.

Lemma store_Some p bs m m' : mwrite m p bs = Some m' → store p bs m = Some (tt, m').
Proof. intros H. unfold store. by rewrite H. Qed.

Lemma load_inv p n m bs m' : load p n m = Some (bs, m') → mread m p n = Some bs ∧ m' = m.
Proof. unfold load. destruct (mread m p n); naive_solver. Qed.

Lemma load_None p n m : ¬ mvalid m p n → load p n m = None.
Proof.
  intros H. unfold load. destruct (mread m p n) as [bs|] eqn:E; [|done].
  by apply mread_mvalid in E.
Qed.

Lemma store_None p bs m : ¬ mvalid m p (length bs) → store p bs m = None.
Proof.
  intros H. unfold store. destruct (mwrite m p bs) as [m'|] eqn:E; [|done].
  by apply mwrite_mvalid in E.
Qed.

(** ** Local objects *)

Lemma alloc_fresh m n :
  ∃ b, m !! b = None ∧ alloc n m = Some (Ptr b 0, <[b := replicate n None]> m).
Proof.
  exists (fresh (dom m)). split; [|done]. apply not_elem_of_dom, is_fresh.
Qed.

Lemma mvalid_alloc m b cells : mvalid (<[b := cells]> m) (Ptr b 0) (length cells).
Proof. exists cells. rewrite lookup_insert_eq. unfold in_range. split; [done|lia]. Qed.

(** The object [b] is alive and [m] does not know it: a local of the callee. *)
Lemma mframe_alloc rs m b cells :
  m !! b = None → mframe rs m (<[b := cells]> m).
Proof.
  intros Hb. split; intros q k Hv.
  - destruct q as [|b' o]; [done|]. destruct Hv as (c & Hc & ?). exists c.
    by rewrite lookup_insert_ne by congruence.
  - intros _. destruct q as [|b' o]; [done|]. destruct Hv as (c & Hc & ?). simpl.
    by rewrite lookup_insert_ne by congruence.
Qed.

Lemma mframe_delete rs m m' b :
  m !! b = None → mframe rs m m' → mframe rs m (delete b m').
Proof.
  intros Hb [V R]. split; intros q k Hv.
  - specialize (V q k Hv). destruct q as [|b' o]; [done|]. destruct Hv as (c & Hc & ?).
    destruct V as (c' & ? & ?). exists c'. by rewrite lookup_delete_ne by congruence.
  - intros Hd. rewrite <- (R q k Hv Hd). destruct q as [|b' o]; [done|].
    destruct Hv as (c & Hc & ?). simpl. by rewrite lookup_delete_ne by congruence.
Qed.

Lemma apart_read m m' rs q k bs : mframe rs m m' → apart rs q k → mread m q k = Some bs → mread m' q k = Some bs.
Proof. intros Hf Ha Hr. rewrite (mframe_read _ _ _ Hf) by (done || by eapply mread_mvalid). done. Qed.

(** A write to a local object is invisible to the objects of the caller. *)
Lemma mframe_local rs b o k m m1 m2 :
  m !! b = None → mframe rs m m1 → mframe ((Ptr b o, k) :: rs) m1 m2 → mframe rs m m2.
Proof.
  intros Hb [V1 R1] [V2 R2]. split; intros q j Hv; [by apply V2, V1|].
  intros Hd. rewrite R2, R1; [done..|by apply V1|]. apply Forall_cons_2; [|done].
  destruct q as [|b' o']; [done|]. destruct Hv as (c & Hc & ?). simpl. left. congruence.
Qed.

Lemma mread_delete m b q k :
  match q with Ptr b' _ => b ≠ b' | Null => True end → mread (delete b m) q k = mread m q k.
Proof. destruct q as [|b' o]; simpl; intros; [done|]. by rewrite lookup_delete_ne. Qed.

Lemma mvalid_fresh_ne m b b' o n : m !! b = None → mvalid m (Ptr b' o) n → b ≠ b'.
Proof. intros ? (c & ? & ?). congruence. Qed.

(** ** Byte loops *)

Lemma mvalid_store m p bs :
  mvalid m p (length bs) → ∃ m', mwrite m p bs = Some m' ∧ store p bs m = Some (tt, m').
Proof. intros [m' H]%mvalid_mwrite. exists m'. by rewrite (store_Some _ _ _ m'). Qed.

Lemma mread_cons m p n bs :
  mread m p (S n) = Some bs →
  ∃ x bs', bs = x :: bs' ∧ mread m p 1 = Some [x] ∧ mread m (padd p 1) n = Some bs'.
Proof.
  intros H. destruct bs as [|x bs']; [by apply mread_length in H|].
  exists x, bs'. split; [done|]. split.
  - by apply (mread_take m p (S n) (x :: bs') 1) in H; [|lia].
  - assert (Hl := mread_length _ _ _ _ H). simpl in Hl.
    apply (mread_sub m p (S n) (x :: bs') 1 n) in H; [|lia].
    change (drop 1 (x :: bs')) with bs' in H. rewrite take_ge in H by lia. done.
Qed.

Lemma copy_bytes_Some dst src n m bs m' : mread m src n = Some bs → mwrite m dst bs = Some m' → copy_bytes dst src n m = Some (tt, m').
Proof. intros Hr Hw. unfold copy_bytes. rewrite (bind_Some _ _ m bs m (load_Some _ _ _ _ Hr)). by apply store_Some. Qed.

Lemma memcpy_Some dst src n m bs m' : pdisj dst n src n → mread m src n = Some bs → mwrite m dst bs = Some m' → memcpy dst src n m = Some (tt, m').
Proof. intros Hd Hr Hw. unfold memcpy. rewrite decide_True by done. by apply (copy_bytes_Some _ _ _ _ bs). Qed.

Lemma memcpy_same_Some dst src n m bs m' : same_or_apart dst src n → mread m src n = Some bs → mwrite m dst bs = Some m' → memcpy_same dst src n m = Some (tt, m').
Proof. intros Hd Hr Hw. unfold memcpy_same. rewrite decide_True by done. by apply (copy_bytes_Some _ _ _ _ bs). Qed.

Lemma memcpy_inv dst src n m t m' : memcpy dst src n m = Some (t, m') → ∃ bs, mread m src n = Some bs ∧ mwrite m dst bs = Some m'.
Proof.
  unfold memcpy, copy_bytes. case_decide; [|done]. intros (bs & m1 & [Hr ->]%load_inv & Hs)%bind_inv. exists bs. split; [done|].
  unfold store in Hs. destruct (mwrite m dst bs) as [m2|]; [|done]. by injection Hs as _ ->.
Qed.

(** A copy that reads what is not there is undefined. *)
Lemma memcpy_unreadable dst src n m : mread m src n = None → memcpy dst src n m = None.
Proof.
  intros H. destruct (memcpy dst src n m) as [[t m']|] eqn:E; [|done]. apply memcpy_inv in E as (bs & E & _). congruence.
Qed.

Lemma load_byte_Some m p x : mread m p 1 = Some [x] → load_byte p m = Some (x, m).
Proof. intros H. unfold load_byte. by rewrite (bind_Some _ _ m [x] m) by by apply load_Some. Qed.

Lemma same_or_apart_take dst src n k :
  same_or_apart dst src n → (k ≤ n)%nat → same_or_apart dst src k.
Proof.
  intros [->|Hd] ?; [by left|right]. apply pdisj_sym. eapply pdisj_take; [|done].
  apply pdisj_sym. by eapply pdisj_take.
Qed.

Lemma same_or_apart_drop dst src k n :
  same_or_apart dst src (k + n) →
  same_or_apart (padd dst (Z.of_nat k)) (padd src (Z.of_nat k)) n.
Proof.
  intros [->|Hd]; [by left|right]. destruct dst, src; simpl in *; try done. intuition lia.
Qed.

Lemma same_or_apart_step m dst src xs n bs m1 :
  same_or_apart dst src (length xs + n) → mwrite m dst xs = Some m1 →
  mread m (padd src (Z.of_nat (length xs))) n = Some bs →
  same_or_apart (padd dst (Z.of_nat (length xs))) (padd src (Z.of_nat (length xs))) n ∧
  mread m1 (padd src (Z.of_nat (length xs))) n = Some bs.
Proof.
  intros Hs Hw Hr. split.
  - by apply same_or_apart_drop.
  - erewrite mread_mwrite_disj; [done..|]. destruct Hs as [->|Hd].
    + destruct dst; simpl; [done|]. lia.
    + destruct dst, src; simpl in *; try done. intuition lia.
Qed.

Lemma xor_loop_ok n dst a b m xs ys :
  mread m a n = Some xs → mread m b n = Some ys → mvalid m dst n →
  same_or_apart dst a n → same_or_apart dst b n →
  ∃ m', mwrite m dst (xor_list xs ys) = Some m' ∧ xor_loop n dst a b m = Some (tt, m').
Proof.
  revert dst a b m xs ys. induction n as [|n IH]; intros dst a b m xs ys Ha Hb Hv Sa Sb.
  - apply mread_length in Ha as ->%nil_length_inv. cbn. apply (mvalid_mwrite m dst []) in Hv as [m' Hm].
    exists m'. split; [done|]. by rewrite (mwrite_nil _ _ _ Hm).
  - apply mread_cons in Ha as (x & xs' & -> & Hx & Ha). apply mread_cons in Hb as (y & ys' & -> & Hy & Hb).
    cbn [xor_loop xor_list zip_with].
    rewrite (bind_Some _ _ m x m) by by apply load_byte_Some.
    rewrite (bind_Some _ _ m y m) by by apply load_byte_Some.
    destruct (mvalid_store m dst [Z.lxor x y]) as (m1 & Hw & Hst); [eapply mvalid_take; [done|simpl; lia]|].
    rewrite (bind_Some _ _ m tt m1) by done.
    destruct (same_or_apart_step _ _ _ [_] _ _ _ Sa Hw Ha) as [Sa1 Ha1].
    destruct (same_or_apart_step _ _ _ [_] _ _ _ Sb Hw Hb) as [Sb1 Hb1].
    destruct (IH (padd dst 1) (padd a 1) (padd b 1) m1 xs' ys') as (m' & Hm' & Hrun); [done..| |done|done|].
    { eapply mvalid_mwrite_iff; [done|]. apply (mvalid_sub m dst (S n) 1 n); [done|lia]. }
    exists m'. split; [|done].
    change (Z.lxor x y :: zip_with Z.lxor xs' ys') with ([Z.lxor x y] ++ xor_list xs' ys').
    rewrite mwrite_app, Hw. done.
Qed.

(** [solve_pdisj]: two regions are apart because the hypotheses say so. *)
Ltac solve_pdisj :=
  unfold same_or_apart in *;
  repeat match goal with
    | H : ?T |- _ =>
        lazymatch T with
        | pdisj _ _ _ _ => fail | _ ∨ _ => fail | _ = _ :> ptr => fail
        | length _ = _ => fail | _ = length _ => fail
        | (_ ≤ _)%nat => fail | (_ < _)%nat => fail | _ => clear H
        end
    end;
  repeat match goal with p : ptr |- _ => destruct p as [|? ?] end; cbn [pdisj padd fst snd] in *;
  try exact I;
  repeat match goal with
    | H : @eq ptr _ _ ∨ _ |- _ => destruct H as [H|H]; [injection H as ? ?; subst|]
    | H : @eq ptr _ _ |- _ => injection H as ? ?; subst
    end;
  lia.

(** [solve_covers]: the regions on the left contain those on the right. *)
Ltac solve_covers :=
  let Ha := fresh "Ha" in
  intros ? ? Ha;
  repeat match goal with H : pdisj _ _ _ _ |- _ => clear H | H : same_or_apart _ _ _ |- _ => clear H end;
  unfold apart in *; split_Forall; cbn [fst snd] in *;
  repeat (apply Forall_cons_2; cbn [fst snd]); try apply Forall_nil_2; solve_pdisj.

(** [read_back]: a read after a chain of writes, moved before the writes that do
    not touch it. *)
Ltac read_back :=
  repeat match goal with
    | H : mwrite ?m ?p ?bs = Some ?m1 |- mread ?m1 ?p ?n = _ =>
        replace n with (length bs) by lia; apply (mread_mwrite _ _ _ _ H)
    | H : mwrite ?m ?p ?bs = Some ?m1 |- mread ?m1 ?q ?k = _ =>
        rewrite (mread_mwrite_disj _ _ _ _ q k H) by solve_pdisj
    | H : mwrite ?m ?p ?bs = Some ?m1 |- mvalid ?m1 ?q ?k =>
        apply (mvalid_mwrite_iff _ _ _ _ q k H)
    end.

(** [frame_back]: the frame of a chain of writes and of calls. *)
Ltac frame_back :=
  repeat match goal with
    | |- mframe _ ?m ?m => reflexivity
    | H : mwrite ?m ?p ?bs = Some ?m1 |- mframe ?rs ?m0 ?m1 =>
        transitivity m; [|eapply mframe_mono; [exact (mwrite_mframe _ _ _ _ H)|solve_covers]]
    | H : mframe ?rs' ?m ?m1 |- mframe ?rs ?m0 ?m1 =>
        transitivity m; [|apply (mframe_mono _ _ _ _ H); solve_covers]
    end.

(** The frame of one write, within a region. *)
Lemma mwrite_frame rs m p bs m' n :
  mwrite m p bs = Some m' → (p, n) ∈ rs → (length bs ≤ n)%nat → mframe rs m m'.
Proof.
  intros Hw Hin Hl. eapply mframe_mono; [by apply mwrite_mframe|]. by eapply covers_take.
Qed.

(** A new object is apart from all that was there. *)
Lemma fresh_pdisj m b q k n : m !! b = None → mvalid m q k → pdisj (Ptr b 0) n q k.
Proof. intros Hb Hv. destruct q as [|b' o]; [done|]. left. by eapply mvalid_fresh_ne. Qed.

(** Regions that do not overlap, two by two. *)
Fixpoint pairwise (rs : regions) : Prop :=
  match rs with [] => True | r :: rs => Forall (λ s, pdisj r.1 r.2 s.1 s.2) rs ∧ pairwise rs end.
#[export] Instance pairwise_dec rs : Decision (pairwise rs).
Proof. induction rs; apply _. Defined.
