(* ===== verification/Own.v ===== *)
(** * Own: reasoning about functions that use many regions of memory

    A weakest precondition for the monad of [Mem], and an assertion [st] that lists the
    regions a function may write, each with its content or without, which do not overlap, and
    the regions it only reads, which are apart from those. A write changes one line of the
    list; nothing has to be said about the others. Local objects are lines that come and go,
    and a call is given the lines it needs. *)

From S2P Require Import Prelude Mem.

(** The code returns, and then [Q] holds. *)
Definition wp {A} (c : C A) (m : mem) (Q : A → mem → Prop) : Prop := ∃ r m', c m = Some (r, m') ∧ Q r m'.

Lemma wp_ret {A} (a : A) m (Q : A → mem → Prop) : Q a m → wp (mret a) m Q.
Proof. intros H. by exists a, m. Qed.

Lemma wp_bind {A B} (c : C A) (k : A → C B) m Q : wp c m (λ r m', wp (k r) m' Q) → wp (c ≫= k) m Q.
Proof. intros (r & m' & E & r' & m'' & E' & H). exists r', m''. split; [|done]. by rewrite (bind_Some _ _ _ _ _ E). Qed.

Lemma wp_mono {A} (c : C A) m Q Q' : wp c m Q → (∀ r m', Q r m' → Q' r m') → wp c m Q'.
Proof. intros (r & m' & E & H) HQ. exists r, m'. auto. Qed.

Lemma wp_step {A} (c : C A) m r m' (Q : A → mem → Prop) : c m = Some (r, m') → Q r m' → wp c m Q.
Proof. intros E H. by exists r, m'. Qed.

(** A local object of [n] bytes, for the time of [body]. *)
Definition local {A} (n : nat) (body : ptr → C A) : C A := q ← alloc n; r ← body q; dealloc q;; mret r.

(** A local object: the caller's memory is as the body leaves it. *)
Lemma local_ok {A} n (body : ptr → C A) rs m (P : A → mem → Prop) :
  (∀ b m1, m !! b = None → mframe [] m m1 → mvalid m1 (Ptr b 0) n → (∀ q k, mvalid m q k → pdisj (Ptr b 0) n q k) →
    ∃ r m2, body (Ptr b 0) m1 = Some (r, m2) ∧ mframe ((Ptr b 0, n) :: rs) m1 m2 ∧
      ∀ m3, (∀ q k, mvalid m q k → mread m3 q k = mread m2 q k) → P r m3) →
  ∃ r m', local n body m = Some (r, m') ∧ mframe rs m m' ∧ P r m'.
Proof.
  intros Hbody. destruct (alloc_fresh m n) as (b & Hb & Ea). set (m1 := <[b := replicate n None]> m) in *.
  assert (mvalid m1 (Ptr b 0) n) as V1 by (rewrite <- (length_replicate n (None : cell)); apply mvalid_alloc).
  destruct (Hbody b m1 Hb (mframe_alloc [] m b _ Hb) V1) as (r & m2 & R & F & HP); [intros; by apply (fresh_pdisj m)|].
  pose proof (mframe_valid _ _ _ F _ _ V1) as (cells & Hcells & _).
  assert (mframe rs m m2) as Fm by (apply (mframe_local rs b 0 n m m1 m2 Hb); [by apply mframe_alloc|done]).
  exists r, (delete b m2). split; [|split].
  - unfold local. rewrite (bind_Some _ _ m _ m1 Ea), (bind_Some _ _ m1 _ m2 R), (bind_Some _ _ m2 tt (delete b m2)); [done|]. cbn. by rewrite Hcells.
  - by apply mframe_delete.
  - apply HP. intros q k Hv. rewrite mread_delete; [done|]. destruct q as [|b' o]; [done|]. by apply (mvalid_fresh_ne m b b' o k).
Qed.

(** ** Regions with their contents *)

Record entry := Entry { eptr : ptr; elen : nat; econt : option (list Z) }.
Definition reg (e : entry) : ptr * nat := (eptr e, elen e).

(** [bs] are at [q], of which there are [n]; or [n] bytes can be written there. *)
Abbreviation known q n bs := (Entry q n (Some bs)).
Abbreviation space q n := (Entry q n None).

Definition entry_ok (m : mem) (e : entry) : Prop :=
  match econt e with Some bs => mread m (eptr e) (elen e) = Some bs | None => mvalid m (eptr e) (elen e) end.

Definition input_ok (m : mem) (W : list entry) (r : ptr * list Z) : Prop :=
  mread m r.1 (length r.2) = Some r.2 ∧ apart (reg <$> W) r.1 (length r.2).

(** The object of the entry is not one of [m0]: it is a local. *)
Definition unborn (m0 : mem) (q : ptr) : Prop := match q with Ptr b _ => m0 !! b = None | Null => False end.

(** From [m0] to [m] only [F] was written; now the regions [W] hold what they say and can be
    written, and [R] can be read. *)
Record st (m0 : mem) (F : regions) (W : list entry) (R : list (ptr * list Z)) (m : mem) : Prop := {
  st_frame : mframe F m0 m;
  st_pairwise : pairwise (reg <$> W);
  st_entries : Forall (entry_ok m) W;
  st_inputs : Forall (input_ok m W) R;
  st_owner : Forall (λ e, reg e ∈ F ∨ unborn m0 (eptr e)) W;
}.

Lemma entry_ok_valid m e : entry_ok m e → mvalid m (eptr e) (elen e).
Proof. unfold entry_ok. destruct (econt e); [by apply mread_mvalid|done]. Qed.

Lemma pairwise_lookup rs i j r s : pairwise rs → rs !! i = Some r → rs !! j = Some s → i ≠ j → pdisj r.1 r.2 s.1 s.2.
Proof.
  revert i j. induction rs as [|t rs IH]; intros i j; [done|]. intros [Ht Hp] Hi Hj Hne.
  destruct i as [|i], j as [|j]; cbn in Hi, Hj; [done| | |].
  - injection Hi as <-. by apply (Forall_lookup_1 _ _ _ _ Ht Hj).
  - injection Hj as <-. apply pdisj_sym. by apply (Forall_lookup_1 _ _ _ _ Ht Hi).
  - eapply IH; [done..|lia].
Qed.

Lemma pairwise_app rs1 rs2 : pairwise (rs1 ++ rs2) ↔
  pairwise rs1 ∧ pairwise rs2 ∧ Forall (λ r, Forall (λ s, pdisj r.1 r.2 s.1 s.2) rs2) rs1.
Proof.
  induction rs1 as [|r rs1 IH]; cbn [app pairwise]; [naive_solver|].
  rewrite IH, List.Forall_app, List.Forall_cons_iff. naive_solver.
Qed.

(** An untouched region keeps its entry. *)
Lemma entry_ok_frame rs m m' e : mframe rs m m' → apart rs (eptr e) (elen e) → entry_ok m e → entry_ok m' e.
Proof.
  intros Hf Ha He. pose proof (entry_ok_valid _ _ He) as Hv. unfold entry_ok in *.
  destruct (econt e); [by rewrite (mframe_read _ _ _ Hf)|by apply Hf].
Qed.

Lemma input_ok_frame rs m m' W W' r : mframe rs m m' → apart rs r.1 (length r.2) → reg <$> W' = reg <$> W →
  input_ok m W r → input_ok m' W' r.
Proof.
  intros Hf Ha Hreg [Hr Hw]. split; [|by rewrite Hreg].
  rewrite (mframe_read _ _ _ Hf); [done|by eapply mread_mvalid|done].
Qed.

(** What was written belongs to the function or to its locals. *)
Lemma mframe_owned F rs m0 m m' : mframe F m0 m → mframe rs m m' → Forall (λ r, r ∈ F ∨ unborn m0 r.1) rs → mframe F m0 m'.
Proof.
  intros [V1 R1] [V2 R2] Ho. split; intros q k Hv; [by apply V2, V1|]. intros Ha. rewrite R2, R1; [done|done|done|by apply V1|].
  eapply list.Forall_impl; [exact Ho|]. intros r [Hin|Hun].
  - by apply (proj1 (list.Forall_forall _ _) Ha).
  - destruct r as [[|b o] n]; [done|]. destruct q as [|b' o']; [done|]. left. cbn in Hun. by apply (mvalid_fresh_ne m0 b b' o' k).
Qed.

Section st.
Context (m0 : mem) (F : regions).

(** Something wrote the region of one entry, and it now holds [c']. *)
Lemma st_write W R m m' i q n c c' : st m0 F W R m → W !! i = Some (Entry q n c) →
  mframe [(q, n)] m m' → entry_ok m' (Entry q n c') → st m0 F (<[i := Entry q n c']> W) R m'.
Proof.
  intros [Hf Hp He Hi Ho] Hlk Hf' Hr. assert (reg <$> <[i := Entry q n c']> W = reg <$> W) as Hreg.
  { rewrite list_fmap_insert. apply list_insert_id. rewrite list_lookup_fmap, Hlk. done. }
  assert (∀ j e, W !! j = Some e → j ≠ i → pdisj q n (eptr e) (elen e)) as Hd.
  { intros j e Hj Hne. apply (pairwise_lookup (reg <$> W) i j (q, n) (reg e) Hp); [by rewrite list_lookup_fmap, Hlk|by rewrite list_lookup_fmap, Hj|done]. }
  split.
  - apply (mframe_owned F _ m0 m m' Hf Hf'). constructor; [|done]. exact (Forall_lookup_1 _ _ _ _ Ho Hlk).
  - by rewrite Hreg.
  - apply Forall_lookup. intros j e Hj. destruct (decide (j = i)) as [->|Hne].
    + rewrite list_lookup_insert_eq in Hj by (by eapply lookup_lt_Some). by injection Hj as <-.
    + rewrite list_lookup_insert_ne in Hj by done. apply (entry_ok_frame _ m m' e Hf'); [by apply apart_1, (Hd j)|].
      by apply (Forall_lookup_1 _ _ _ _ He Hj).
  - eapply list.Forall_impl; [exact Hi|]. intros r Hr'. apply (input_ok_frame _ m m' W _ r Hf'); [|done|done].
    apply apart_1. destruct Hr' as [_ Ha]. apply (Forall_lookup_1 _ _ i (q, n) Ha). by rewrite list_lookup_fmap, Hlk.
  - apply Forall_insert; [done|]. apply (Forall_lookup_1 _ _ _ _ Ho Hlk).
Qed.

Lemma st_update W R m m' i q n c bs : st m0 F W R m → W !! i = Some (Entry q n c) →
  mframe [(q, n)] m m' → mread m' q n = Some bs → st m0 F (<[i := known q n bs]> W) R m'.
Proof. intros Hs Hi Hf Hr. by eapply st_write. Qed.

Lemma st_touch W R m m' i q n c : st m0 F W R m → W !! i = Some (Entry q n c) →
  mframe [(q, n)] m m' → st m0 F (<[i := space q n]> W) R m'.
Proof.
  intros Hs Hi Hf. eapply st_write; [done..|]. apply Hf.
  exact (entry_ok_valid m _ (Forall_lookup_1 _ _ _ _ (st_entries _ _ _ _ _ Hs) Hi)).
Qed.

Lemma st_disjoint W R m i j e e' : st m0 F W R m → W !! i = Some e → W !! j = Some e' → i ≠ j →
  pdisj (eptr e) (elen e) (eptr e') (elen e').
Proof.
  intros Hs Hi Hj Hne. apply (pairwise_lookup (reg <$> W) i j (reg e) (reg e') (st_pairwise _ _ _ _ _ Hs)); [..|done].
  - by rewrite list_lookup_fmap, Hi.
  - by rewrite list_lookup_fmap, Hj.
Qed.

Lemma st_entry W R m i e : st m0 F W R m → W !! i = Some e → entry_ok m e.
Proof. intros Hs Hi. exact (Forall_lookup_1 _ _ _ _ (st_entries _ _ _ _ _ Hs) Hi). Qed.

Lemma st_input W R m q bs : st m0 F W R m → (q, bs) ∈ R → mread m q (length bs) = Some bs.
Proof. intros Hs Hi. exact (proj1 (proj1 (list.Forall_forall _ _) (st_inputs _ _ _ _ _ Hs) _ Hi)). Qed.

(** A function that writes one region. *)
Lemma wp_call {A} (c : C A) W R m i q n x r bs (Q : A → mem → Prop) : st m0 F W R m → W !! i = Some (Entry q n x) →
  (mvalid m q n → ∃ m', c m = Some (r, m') ∧ mread m' q n = Some bs ∧ mframe [(q, n)] m m') →
  (∀ m', st m0 F (<[i := known q n bs]> W) R m' → Q r m') → wp c m Q.
Proof.
  intros Hs Hi Hc HQ. destruct Hc as (m' & E & Hr & Hf); [by apply (entry_ok_valid m (Entry q n x)), (st_entry W R m i)|].
  exists r, m'. split; [done|]. apply HQ. by eapply st_update.
Qed.

(** A function that writes in one region, and makes [P] hold. *)
Lemma wp_touch {A} (c : C A) W R m i q n x r (P : mem → Prop) (Q : A → mem → Prop) : st m0 F W R m → W !! i = Some (Entry q n x) →
  (mvalid m q n → ∃ m', c m = Some (r, m') ∧ P m' ∧ mframe [(q, n)] m m') →
  (∀ m', P m' → st m0 F (<[i := space q n]> W) R m' → Q r m') → wp c m Q.
Proof.
  intros Hs Hi Hc HQ. destruct Hc as (m' & E & HP & Hf); [by apply (entry_ok_valid m (Entry q n x)), (st_entry W R m i)|].
  exists r, m'. split; [done|]. apply HQ; [done|]. by eapply st_touch.
Qed.

Lemma wp_store W R m i q n x bs (Q : unit → mem → Prop) : st m0 F W R m → W !! i = Some (Entry q n x) → length bs = n →
  (∀ m', st m0 F (<[i := known q n bs]> W) R m' → Q tt m') → wp (store q bs) m Q.
Proof.
  intros Hs Hi Hl HQ. eapply wp_call; [done|done| |done]. intros Hv. subst n.
  destruct (mvalid_store _ _ _ Hv) as (m' & W' & E). exists m'. split; [done|]. split; [by eapply mread_mwrite|].
  by apply mwrite_mframe.
Qed.

Lemma wp_read W R m q bs (Q : list Z → mem → Prop) n : st m0 F W R m → (q, bs) ∈ R → n = length bs →
  Q bs m → wp (load q n) m Q.
Proof. intros Hs Hi -> HQ. eapply wp_step; [apply load_Some; by eapply st_input|done]. Qed.

Lemma wp_load W R m i q n bs (Q : list Z → mem → Prop) : st m0 F W R m → W !! i = Some (known q n bs) →
  Q bs m → wp (load q n) m Q.
Proof. intros Hs Hi HQ. eapply wp_step; [apply load_Some; exact (st_entry W R m i _ Hs Hi)|done]. Qed.

(** ** Locals *)

Lemma unborn_frame m b : m !! b = None → mframe F m0 m → m0 !! b = None.
Proof.
  intros Hb Hf. destruct (m0 !! b) as [cells|] eqn:E; [|done]. exfalso.
  destruct (mframe_valid _ _ _ Hf (Ptr b 0) 0) as (c & Hc & _); [|congruence]. exists cells. split; [done|]. unfold in_range. lia.
Qed.

Lemma wp_local {A} n (body : ptr → C A) W W' R m (Q : A → mem → Prop) : st m0 F W R m → reg <$> W' = reg <$> W →
  (∀ q m1, st m0 F (space q n :: W) R m1 →
     wp (body q) m1 (λ r m2, (∃ k c L, st m0 F (Entry q k c :: L ++ W') R m2) ∧ ∀ m3, st m0 F W' R m3 → Q r m3)) →
  wp (local n body) m Q.
Proof.
  intros Hs Hreg Hbody. destruct (alloc_fresh m n) as (b & Hb & Ea). set (m1 := <[b := replicate n None]> m) in *.
  pose proof Hs as [Hf Hp He Hi Ho]. pose proof (unborn_frame m b Hb Hf) as Hb0. unfold local. apply wp_bind.
  eapply wp_step; [exact Ea|]. apply wp_bind. pose proof (mframe_alloc [] m b (replicate n None) Hb) as Fa. fold m1 in Fa.
  assert (mvalid m1 (Ptr b 0) n) as V1 by (rewrite <- (length_replicate n (None : cell)); apply mvalid_alloc).
  assert (st m0 F (space (Ptr b 0) n :: W) R m1) as Hs1.
  { assert (∀ q k, mvalid m q k → pdisj (Ptr b 0) n q k) as Hd by (intros; by apply (fresh_pdisj m)).
    split.
    - transitivity m; [done|]. eapply mframe_mono; [exact Fa|apply covers_nil].
    - split; [|done]. apply Forall_fmap. eapply list.Forall_impl; [exact He|]. intros e He'. by apply Hd, entry_ok_valid.
    - constructor; [done|]. eapply list.Forall_impl; [exact He|]. intros e. by apply (entry_ok_frame [] m m1), Forall_nil_2.
    - eapply list.Forall_impl; [exact Hi|]. intros r [Hr Ha]. split.
      + rewrite (mframe_read _ _ _ Fa); [done|by eapply mread_mvalid|by apply Forall_nil_2].
      + apply Forall_cons_2; [|done]. by eapply Hd, mread_mvalid.
    - constructor; [by right|done]. }
  eapply wp_mono; [by apply Hbody|]. cbn beta. intros r m2 [(k & c & L & [Hf2 Hp2 He2 Hi2 Ho2]) HQ].
  apply List.Forall_cons_iff in He2 as [Hlive%entry_ok_valid He2]. apply List.Forall_app in He2 as [_ He2].
  destruct Hlive as (cells & Hcells & _). cbn [eptr] in *. apply wp_bind. apply (wp_step _ _ tt (delete b m2)); [by cbn; rewrite Hcells|].
  apply wp_ret, HQ. clear HQ.
  assert (∀ q k, mvalid m q k → match q with Ptr b' _ => b ≠ b' | Null => True end) as Hne.
  { intros q k' Hv. destruct q as [|b' o]; [done|]. by apply (mvalid_fresh_ne m b b' o k'). }
  cbn [fmap list_fmap app pairwise] in Hp2. destruct Hp2 as [_ Hp2]. rewrite fmap_app in Hp2. apply pairwise_app in Hp2 as (_ & Hp2 & _).
  split.
  - by apply mframe_delete.
  - done.
  - apply Forall_lookup. intros j e Hj. pose proof (Forall_lookup_1 _ _ _ _ He2 Hj) as Hok.
    assert (mvalid m (eptr e) (elen e)) as Hv.
    { assert ((reg <$> W) !! j = Some (reg e)) as Hw by (rewrite <- Hreg, list_lookup_fmap, Hj; done).
      rewrite list_lookup_fmap in Hw. destruct (W !! j) as [e'|] eqn:Hj'; [|done]. injection Hw as E1 E2.
      rewrite <- E1, <- E2. by apply entry_ok_valid, (Forall_lookup_1 _ _ _ _ He Hj'). }
    specialize (Hne _ _ Hv). unfold entry_ok in *. destruct (econt e); [by rewrite mread_delete|].
    destruct (eptr e) as [|b' o]; [done|]. cbn. by rewrite lookup_delete_ne.
  - apply Forall_lookup. intros j r' Hj. destruct (Forall_lookup_1 _ _ _ _ Hi2 Hj) as [Hr Ha].
    destruct (Forall_lookup_1 _ _ _ _ Hi Hj) as [Hr0 _]. split.
    + rewrite mread_delete; [done|]. by eapply Hne, mread_mvalid.
    + cbn [fmap list_fmap] in Ha. apply List.Forall_cons_iff in Ha as [_ Ha]. rewrite fmap_app in Ha. by apply List.Forall_app in Ha as [_ Ha].
  - apply List.Forall_cons_iff in Ho2 as [_ Ho2]. by apply List.Forall_app in Ho2 as [_ Ho2].
Qed.

End st.

(** ** Calls *)

(** The entries whose content is known, as inputs. *)
Definition inputs_of (W : list entry) : list (ptr * list Z) :=
  omap (λ e, match econt e with Some bs => Some (eptr e, bs) | None => None end) W.

(** A state of its own for a callee that writes only [W]. *)
Lemma st_focus m0 F W1 W W2 R m : st m0 F (W1 ++ W ++ W2) R m →
  st m (reg <$> W) W (R ++ inputs_of W1 ++ inputs_of W2) m ∧
  ∀ W' m', reg <$> W' = reg <$> W → st m (reg <$> W) W' (R ++ inputs_of W1 ++ inputs_of W2) m' →
    st m0 F (W1 ++ W' ++ W2) R m'.
Proof.
  intros [Hf Hp He Hi Ho]. rewrite !fmap_app in Hp. pose proof Hp as Hp'.
  apply pairwise_app in Hp as (P1 & P & D1). apply pairwise_app in P as (PW & P2 & D2).
  apply List.Forall_app in He as [E1 [EW E2]%List.Forall_app]. apply List.Forall_app in Ho as [O1 [OW O2]%List.Forall_app].
  assert (∀ W0, Forall (λ e, Forall (λ s, pdisj (eptr e) (elen e) s.1 s.2) (reg <$> W)) W0 → Forall (entry_ok m) W0 →
    Forall (λ r, input_ok m W r) (inputs_of W0)) as Hin.
  { intros W0 HD HE. induction HD as [|e W0 Hd _ IH]; [constructor|]. apply List.Forall_cons_iff in HE as [He HE].
    specialize (IH HE). unfold inputs_of in *. cbn [omap list_omap]. unfold entry_ok in He. destruct (econt e) as [bs|]; [|done].
    constructor; [|done]. pose proof (mread_length _ _ _ _ He) as Hl. split; cbn [fst snd]; rewrite Hl; [done|].
    eapply list.Forall_impl; [exact Hd|]. intros s Hs. by apply pdisj_sym. }
  assert (Forall (λ e, Forall (λ s, pdisj (eptr e) (elen e) s.1 s.2) (reg <$> W)) W1) as HD1.
  { apply Forall_fmap in D1. eapply list.Forall_impl; [exact D1|]. intros e H. cbn in H. by apply List.Forall_app in H as [H _]. }
  assert (Forall (λ e, Forall (λ s, pdisj (eptr e) (elen e) s.1 s.2) (reg <$> W)) W2) as HD2.
  { apply Forall_lookup. intros j e Hj. apply Forall_lookup. intros i s Hs.
    assert (Forall (λ t, pdisj s.1 s.2 t.1 t.2) (reg <$> W2)) as H by (exact (Forall_lookup_1 _ _ _ _ D2 Hs)).
    apply pdisj_sym. apply (Forall_lookup_1 _ _ j (reg e) H). by rewrite list_lookup_fmap, Hj. }
  assert (Forall (input_ok m W) R) as HR.
  { eapply list.Forall_impl; [exact Hi|]. intros r [Hr Ha]. split; [done|]. rewrite !fmap_app in Ha.
    by apply List.Forall_app in Ha as [_ [Ha _]%List.Forall_app]. }
  split.
  - split; [reflexivity|done|done| |].
    + apply List.Forall_app. split; [done|]. apply List.Forall_app. split; by apply Hin.
    + apply Forall_lookup. intros j e Hj. left. apply list_elem_of_fmap. exists e. split; [done|]. by eapply list_elem_of_lookup_2.
  - intros W' m' Hreg [Hf' _ He' Hi' _].
    assert (∀ W0, Forall (λ e, Forall (λ s, pdisj (eptr e) (elen e) s.1 s.2) (reg <$> W)) W0 → Forall (entry_ok m) W0 →
      Forall (entry_ok m') W0) as Hkeep.
    { intros W0 HD HE. apply Forall_lookup. intros j e Hj. pose proof (Forall_lookup_1 _ _ _ _ HD Hj) as Hd.
      apply (entry_ok_frame _ m m' e Hf'); [|by apply (Forall_lookup_1 _ _ _ _ HE Hj)].
      eapply list.Forall_impl; [exact Hd|]. intros s Hs. by apply pdisj_sym. }
    assert (reg <$> (W1 ++ W' ++ W2) = reg <$> (W1 ++ W ++ W2)) as Hregs by (by rewrite !fmap_app, Hreg).
    split.
    + apply (mframe_owned F _ m0 m m' Hf Hf'). by apply Forall_fmap.
    + by rewrite Hregs, !fmap_app.
    + apply List.Forall_app. split; [by apply Hkeep|]. apply List.Forall_app. split; [done|by apply Hkeep].
    + apply List.Forall_app in Hi' as [Hi' _]. apply Forall_lookup. intros j r Hj.
      destruct (Forall_lookup_1 _ _ _ _ Hi Hj) as [_ Ha]. destruct (Forall_lookup_1 _ _ _ _ Hi' Hj) as [Hr _].
      split; [done|by rewrite Hregs].
    + apply List.Forall_app. split; [done|]. apply List.Forall_app. split; [|done].
      apply Forall_lookup. intros j e Hj. assert ((reg <$> W) !! j = Some (reg e)) as Hw by (rewrite <- Hreg, list_lookup_fmap, Hj; done).
      rewrite list_lookup_fmap in Hw. destruct (W !! j) as [e'|] eqn:Hj'; [|done]. injection Hw as E1' E2'.
      pose proof (Forall_lookup_1 _ _ _ _ OW Hj') as H. unfold reg in *. by rewrite <- E1', <- E2'.
Qed.

(** The regions a caller provides. *)
Definition spaces (rs : regions) : list entry := (λ r, space r.1 r.2) <$> rs.

Lemma reg_spaces rs : reg <$> spaces rs = rs.
Proof. induction rs as [|[q n] rs IH]; [done|]. cbn. by f_equal. Qed.

Lemma st_start F R m : pairwise F → Forall (λ r, mvalid m r.1 r.2) F →
  Forall (λ r, mread m r.1 (length r.2) = Some r.2 ∧ apart F r.1 (length r.2)) R → st m F (spaces F) R m.
Proof.
  intros Hp Hv Hr. split; rewrite ?reg_spaces; [reflexivity|done| | |].
  - by apply Forall_fmap.
  - eapply list.Forall_impl; [exact Hr|]. intros r [H1 H2]. split; [done|by rewrite reg_spaces].
  - apply list.Forall_forall. intros e He. left. rewrite <- (reg_spaces F). by apply list_elem_of_fmap_2.
Qed.

(** A callee that writes only [W], in the state of its caller. *)
Lemma wp_focus {A} (c : C A) m0 F W1 W W' W2 R m (P : A → Prop) (Q : A → mem → Prop) : st m0 F (W1 ++ W ++ W2) R m → reg <$> W' = reg <$> W →
  (st m (reg <$> W) W (R ++ inputs_of W1 ++ inputs_of W2) m →
   wp c m (λ r m', P r ∧ st m (reg <$> W) W' (R ++ inputs_of W1 ++ inputs_of W2) m')) →
  (∀ r m', P r → st m0 F (W1 ++ W' ++ W2) R m' → Q r m') → wp c m Q.
Proof.
  intros Hs Hreg Hc HQ. destruct (st_focus _ _ _ _ _ _ _ Hs) as [H1 H2]. eapply wp_mono; [by apply Hc|]. cbn beta.
  intros r m' [HP H']. apply HQ; [done|]. by apply H2.
Qed.

Lemma run_focus {A} (c : C A) m0 F W1 W W' W2 R m (P : A → Prop) : st m0 F (W1 ++ W ++ W2) R m → reg <$> W' = reg <$> W →
  (st m (reg <$> W) W (R ++ inputs_of W1 ++ inputs_of W2) m →
   wp c m (λ r m', P r ∧ st m (reg <$> W) W' (R ++ inputs_of W1 ++ inputs_of W2) m')) →
  ∃ r m', c m = Some (r, m') ∧ P r ∧ st m0 F (W1 ++ W' ++ W2) R m'.
Proof. intros Hs Hreg Hc. by apply (wp_focus c m0 F W1 W W' W2 R m P). Qed.

(** A region that can be written is not at the null pointer. *)
Lemma st_not_null m0 F W R m i q n x : st m0 F W R m → W !! i = Some (Entry q n x) → q ≠ Null.
Proof. intros Hs Hi. pose proof (entry_ok_valid _ _ (st_entry m0 F W R m i _ Hs Hi)) as V. by intros ->. Qed.

Lemma st_input_apart m0 F W R m i q n x r bs : st m0 F W R m → W !! i = Some (Entry q n x) → (r, bs) ∈ R → pdisj q n r (length bs).
Proof.
  intros Hs Hi Hr. destruct (proj1 (list.Forall_forall _ _) (st_inputs _ _ _ _ _ Hs) _ Hr) as [_ Ha].
  apply (Forall_lookup_1 _ _ i (q, n) Ha). by rewrite list_lookup_fmap, Hi.
Qed.

Lemma st_input_not_null m0 F W R m r bs : st m0 F W R m → (r, bs) ∈ R → bs ≠ [] → r ≠ Null.
Proof. intros Hs Hr Hb ->. pose proof (st_input m0 F W R m _ _ Hs Hr) as H. by destruct bs. Qed.

(** [wrote m H' H]: the memory after a write, in place of the one before. *)
Ltac wrote m H' H := clear H; intros m H'; cbn [insert list_insert] in H'.

(** An element of a list that is written out, found by its pointer. *)
Ltac member := repeat lazymatch goal with
  | |- (?q, _) ∈ (?q, _) :: _ => exact (list_elem_of_here _ _)
  | |- _ ∈ _ :: _ => apply list_elem_of_further
  end.
