(* ===== verification/Target.v ===== *)
(** * Target: the integer types that differ between the platforms

    The sources use [unsigned long] for 32-bit words. It has 32 bits on the
    Windows, Android and 32-bit ARM builds and 64 bits on the Linux x86-64
    build, so the definitions that use it take the platform as a class
    argument. The class also says what the processor leaves in a 32-bit
    register shifted by 32 places, which C leaves undefined and [sm3.c] does,
    how many bytes a [size_t] has and whether a plain [char] is signed. *)

From S2P Require Import Prelude Mem.

Class Target := {
  ulong_bits : Z;
  ulong_bits_ok : ulong_bits = 32 ∨ ulong_bits = 64;
  shift_by_32 : Z → Z;
  shift_by_32_ok x : shift_by_32 x = x ∨ shift_by_32 x = 0;
  size_bytes : nat;
  size_bytes_ok : size_bytes = 4%nat ∨ size_bytes = 8%nat;
  char_signed : bool;
}.

(** 64-bit Windows: the shifter takes its count modulo 32. *)
Definition LLP64_x86 : Target :=
  {| ulong_bits := 32; ulong_bits_ok := or_introl eq_refl;
     shift_by_32 x := x; shift_by_32_ok x := or_introl eq_refl;
     size_bytes := 8; size_bytes_ok := or_intror eq_refl; char_signed := true |}.

(** 32-bit ARM, the Android build: a register shifted by 32 is zero. *)
Definition ILP32_arm : Target :=
  {| ulong_bits := 32; ulong_bits_ok := or_introl eq_refl;
     shift_by_32 x := 0; shift_by_32_ok x := or_intror eq_refl;
     size_bytes := 4; size_bytes_ok := or_introl eq_refl; char_signed := false |}.

(** Linux on x86-64, the build of [build/linux/Makefile]. *)
Definition LP64_x86 : Target :=
  {| ulong_bits := 64; ulong_bits_ok := or_intror eq_refl;
     shift_by_32 x := x; shift_by_32_ok x := or_introl eq_refl;
     size_bytes := 8; size_bytes_ok := or_intror eq_refl; char_signed := true |}.

Section ulong.
Context {tgt : Target}.

(** Conversion to [unsigned long], and the operators that can overflow it. *)
Definition ulong (x : Z) : Z := wrap ulong_bits x.
Definition ulong_shl (x n : Z) : Z := ulong (Z.shiftl x n).
Definition ulong_add (x y : Z) : Z := ulong (x + y).
Definition ulong_not (x : Z) : Z := ulong (Z.lnot x).

Lemma ulong_bits_32 : 32 <= ulong_bits.
Proof. destruct ulong_bits_ok as [-> | ->]; done. Qed.

Lemma ulong_eq32 x : ulong x ≡₃₂ x.
Proof. unfold ulong, eq32. apply wrap_wrap. pose proof ulong_bits_32. lia. Qed.

Lemma ulong_is_word x : is_word ulong_bits (ulong x).
Proof. apply wrap_is_word. pose proof ulong_bits_32. lia. Qed.

Lemma ulong_small x : is_word 32 x → ulong x = x.
Proof.
  intros. apply wrap_small. eapply is_word_weaken; [apply ulong_bits_32|done].
Qed.

Lemma ulong_word32 x : is_word 32 x → is_word ulong_bits x.
Proof. intros. eapply is_word_weaken; [apply ulong_bits_32|done]. Qed.
End ulong.

(** ** [size_t]: arithmetic, and objects of this type in memory (little-endian) *)

Section size.
Context {tgt : Target}.

Definition size_bits : Z := 8 * Z.of_nat size_bytes.
Definition size (x : Z) : Z := wrap size_bits x.

Definition le_bytes (n : nat) (x : Z) : list Z := (λ i, wrap 8 (Z.shiftr x (8 * Z.of_nat i))) <$> seq 0 n.
Definition le_word (bs : list Z) : Z := foldr (λ b x, b + 256 * x) 0 bs.

Definition load_size (p : ptr) : C Z := bs ← load p size_bytes; mret (le_word bs).
Definition store_size (p : ptr) (x : Z) : C unit := store p (le_bytes size_bytes (size x)).

Lemma le_bytes_length n x : length (le_bytes n x) = n.
Proof. unfold le_bytes. by rewrite length_fmap, length_seq. Qed.

Lemma le_bytes_S n x : le_bytes (S n) x = wrap 8 x :: le_bytes n (Z.shiftr x 8).
Proof.
  unfold le_bytes. cbn [seq]. rewrite fmap_cons, <- fmap_S_seq, <- list_fmap_compose. f_equal.
  apply list_fmap_ext. intros i j _. cbn [compose]. rewrite Z.shiftr_shiftr by lia. do 2 f_equal. lia.
Qed.

Lemma le_word_bytes n : ∀ x, le_word (le_bytes n x) = wrap (8 * Z.of_nat n) x.
Proof.
  induction n as [|n IH]; intros x; [by unfold wrap; rewrite Z.mod_1_r|].
  rewrite le_bytes_S. cbn [le_word foldr]. fold (le_word (le_bytes n (Z.shiftr x 8))). rewrite IH.
  rewrite Z.shiftr_div_pow2 by lia. unfold wrap. replace (8 * Z.of_nat (S n)) with (8 + 8 * Z.of_nat n) by lia.
  rewrite Z.pow_add_r, Z.rem_mul_r by lia. done.
Qed.

Lemma size_bits_32 : 32 <= size_bits.
Proof. unfold size_bits. destruct size_bytes_ok as [-> | ->]; lia. Qed.

Lemma size_small x : 0 <= x < 2 ^ 32 → size x = x.
Proof.
  intros Hx. apply wrap_small. apply (is_word_weaken 32); [apply size_bits_32|done].
Qed.

Lemma load_size_Some m p x :
  mread m p size_bytes = Some (le_bytes size_bytes (size x)) → load_size p m = Some (size x, m).
Proof.
  intros H. unfold load_size. rewrite (bind_Some _ _ m _ m (load_Some _ _ _ _ H)).
  rewrite le_word_bytes. fold size_bits. unfold size. rewrite wrap_wrap; [done|].
  pose proof size_bits_32. lia.
Qed.
End size.

(** ** Objects of type [int], and words as lists of bytes *)

(** [*len = v], an [int] of four bytes, and its value read as unsigned. *)
Definition store_int (q : ptr) (v : Z) : C unit := store q (le_bytes 4 v).
Definition load_uint (q : ptr) : C Z := bs ← load q 4; mret (le_word bs).

Lemma store_int_ok q v m : mvalid m q 4 → ∃ m', mwrite m q (le_bytes 4 v) = Some m' ∧ store_int q v m = Some (tt, m').
Proof. intros Hq. rewrite <- (le_bytes_length 4 v) in Hq. by apply mvalid_store. Qed.

Lemma load_uint_Some q v m : 0 <= v < 2 ^ 32 → mread m q 4 = Some (le_bytes 4 v) → load_uint q m = Some (v, m).
Proof.
  intros Hv H. unfold load_uint. rewrite (bind_Some _ _ m _ m (load_Some _ _ _ _ H)). rewrite le_word_bytes. by rewrite wrap_small.
Qed.

Lemma byte_add_lxor b x : is_byte b → b + 256 * x = Z.lxor b (Z.shiftl x 8).
Proof.
  intros Hb. rewrite Z.shiftl_mul_pow2 by lia. rewrite Z.mul_comm. apply Z.add_nocarry_lxor.
  change 256 with (2 ^ 8). rewrite <- Z.shiftl_mul_pow2 by lia. bitwise.
Qed.

Lemma le_bytes_word bs : is_bytes bs → le_bytes (length bs) (le_word bs) = bs.
Proof.
  induction 1 as [|b bs Hb _ IH]; [done|]. cbn [length le_word foldr]. fold (le_word bs). rewrite le_bytes_S, byte_add_lxor by done.
  f_equal; [bitwise|]. transitivity (le_bytes (length bs) (le_word bs)); [|done]. f_equal. bitwise.
Qed.

Lemma le_word_lxor xs : ∀ ys, is_bytes xs → is_bytes ys → length xs = length ys →
  Z.lxor (le_word xs) (le_word ys) = le_word (xor_list xs ys).
Proof.
  induction xs as [|x xs IH]; intros [|y ys] Hx Hy Hl; try done. apply List.Forall_cons_iff in Hx as [Hx Hxs]. apply List.Forall_cons_iff in Hy as [Hy Hys].
  unfold xor_list in *. cbn [le_word foldr zip_with]. fold (le_word xs) (le_word ys) (le_word (zip_with Z.lxor xs ys)).
  rewrite <- IH by (done || by injection Hl). rewrite !byte_add_lxor by (done || by apply is_word_lxor). bitwise.
Qed.

Lemma le_word_is_word bs : is_bytes bs → is_word (8 * Z.of_nat (length bs)) (le_word bs).
Proof.
  intros Hb. rewrite <- (le_bytes_word bs Hb), le_word_bytes, le_bytes_length. apply wrap_is_word. lia.
Qed.

Section size_bytes.
Context {tgt : Target}.

Lemma load_size_bytes p bs m : mread m p size_bytes = Some bs → load_size p m = Some (le_word bs, m).
Proof. intros H. unfold load_size. by rewrite (bind_Some _ _ m _ m (load_Some _ _ _ _ H)). Qed.

Lemma store_size_bytes p bs : is_bytes bs → length bs = size_bytes → store_size p (le_word bs) = store p bs.
Proof.
  intros Hb Hl. unfold store_size, size. rewrite wrap_small; [by rewrite <- Hl, le_bytes_word|].
  unfold size_bits. rewrite <- Hl. by apply le_word_is_word.
Qed.

(** The exclusive or of two words is that of their bytes. *)
Lemma store_size_xor p xs ys : is_bytes xs → is_bytes ys → length xs = size_bytes → length ys = size_bytes →
  store_size p (Z.lxor (le_word xs) (le_word ys)) = store p (xor_list xs ys).
Proof.
  intros Hx Hy Lx Ly. rewrite le_word_lxor by (done || congruence). apply store_size_bytes; [by apply xor_list_bytes|].
  rewrite xor_list_length; congruence.
Qed.
End size_bytes.
