(* ===== verification/ModeSpec.v ===== *)
(** * ModeSpec: the block cipher modes as functions of byte lists

    What the mode loops of the sources have to compute, for a block function
    [E] on 16 bytes and its inverse [D], written block after block; and what code
    that is given a cipher relies on, as classes. *)

From S2P Require Import Prelude Mem.

(** CBC on a list of blocks: the output and the next chaining value. *)
Fixpoint cbc_enc (E : list Z → list Z) (iv : list Z) (bl : list (list Z)) : list Z * list Z :=
  match bl with
  | [] => ([], iv)
  | b :: bl => let c := E (xor_list b iv) in let '(r, iv') := cbc_enc E c bl in (c ++ r, iv')
  end.

Fixpoint cbc_dec (D : list Z → list Z) (iv : list Z) (bl : list (list Z)) : list Z * list Z :=
  match bl with
  | [] => ([], iv)
  | c :: bl => let '(r, iv') := cbc_dec D c bl in (xor_list (D c) iv ++ r, iv')
  end.

Definition cbc_encrypt (E : list Z → list Z) (iv bs : list Z) : list Z * list Z :=
  cbc_enc E iv (chunks 16 bs).
Definition cbc_decrypt (D : list Z → list Z) (iv bs : list Z) : list Z * list Z :=
  cbc_dec D iv (chunks 16 bs).

(** The modes with a register: its image is xored to the block and gives, with the block,
    the next register. In CFB that is the block of cipher text, in OFB the image itself. *)
Fixpoint feedback_blocks (E : list Z → list Z) (next : list Z → list Z → list Z) (iv : list Z) (bl : list (list Z)) : list Z :=
  match bl with [] => [] | b :: bl => let x := E iv in xor_list x b ++ feedback_blocks E next (next x b) bl end.

Definition cfb_blocks (E : list Z → list Z) (enc : bool) := feedback_blocks E (if enc then xor_list else λ _ b, b).
Definition ofb_blocks (E : list Z → list Z) := feedback_blocks E (λ x _, x).

(** A pair of block functions on 16 bytes, the second undoing the first. *)
Class BlockCipher (E D : list Z → list Z) : Prop := {
  block_length b : length (E b) = 16%nat;
  block_bytes b : is_bytes (E b);
  block_inverse b : length b = 16%nat → is_bytes b → D (E b) = b;
}.

(** What the modes that only encrypt rely on. *)
Class BlockMap (E : list Z → list Z) : Prop := {
  map_length b : length (E b) = 16%nat;
  map_bytes b : is_bytes (E b);
}.
#[export] Instance cipher_map E D `{!BlockCipher E D} : BlockMap E.
Proof. split; intros b; [apply block_length|apply block_bytes]. Qed.

(** What the mode code relies on of the block function it is given, a function of
    an input and an output pointer: it reads 16 bytes, which may overlap the
    output, and writes their image under [E]. *)
Class BlockFun (block : ptr → ptr → C unit) (E : list Z → list Z) : Prop :=
  block_run inp out m b :
    mread m inp 16 = Some b → is_bytes b → mvalid m out 16 →
    ∃ m', block inp out m = Some (tt, m') ∧ mwrite m out (E b) = Some m'.

Section modes.
Context (E D : list Z → list Z) `{!BlockCipher E D}.

Lemma cbc_encrypt_nil iv : cbc_encrypt E iv [] = ([], iv).
Proof. done. Qed.

Lemma cbc_encrypt_cons iv b k :
  length b = 16%nat →
  cbc_encrypt E iv (b ++ k) =
  (let c := E (xor_list b iv) in let '(r, iv') := cbc_encrypt E c k in (c ++ r, iv')).
Proof. intros. unfold cbc_encrypt. by rewrite chunks_app by lia. Qed.

Lemma cbc_decrypt_cons iv c k :
  length c = 16%nat →
  cbc_decrypt D iv (c ++ k) =
  (let '(r, iv') := cbc_decrypt D c k in (xor_list (D c) iv ++ r, iv')).
Proof. intros. unfold cbc_decrypt. by rewrite chunks_app by lia. Qed.

Lemma cbc_encrypt_length n : ∀ iv bs,
  length bs = (16 * n)%nat → length iv = 16%nat →
  length (cbc_encrypt E iv bs).1 = (16 * n)%nat ∧ length (cbc_encrypt E iv bs).2 = 16%nat.
Proof.
  induction n as [|n IH]; intros iv bs Hl Hiv; [by apply no_block in Hl as ->|].
  apply first_block in Hl as (b & k & -> & Hb & Hk). rewrite cbc_encrypt_cons by done.
  destruct (IH (E (xor_list b iv)) k) as [H1 H2]; [done|apply block_length|].
  cbv zeta. destruct (cbc_encrypt E _ k) as [r iv']. cbn [fst snd] in *.
  rewrite length_app, block_length, H1. split; [lia|done].
Qed.

Lemma cbc_decrypt_length n : ∀ iv bs,
  length bs = (16 * n)%nat → length iv = 16%nat → (∀ b, length (D b) = 16%nat) →
  length (cbc_decrypt D iv bs).1 = (16 * n)%nat ∧ length (cbc_decrypt D iv bs).2 = 16%nat.
Proof.
  induction n as [|n IH]; intros iv bs Hl Hiv HD; [by apply no_block in Hl as ->|].
  apply first_block in Hl as (b & k & -> & Hb & Hk). rewrite cbc_decrypt_cons by done.
  destruct (IH b k) as [H1 H2]; [done..|].
  destruct (cbc_decrypt D b k) as [r iv']. cbn [fst snd] in *.
  rewrite length_app, xor_list_length, HD, H1 by (by rewrite HD, Hiv). split; [lia|done].
Qed.

(** Decrypting what was encrypted gives the message back and leaves the same
    chaining value. *)
Lemma cbc_roundtrip n : ∀ iv bs,
  length bs = (16 * n)%nat → length iv = 16%nat → is_bytes bs → is_bytes iv →
  cbc_decrypt D iv (cbc_encrypt E iv bs).1 = (bs, (cbc_encrypt E iv bs).2).
Proof.
  induction n as [|n IH]; intros iv bs Hl Hiv Hbb Hvb; [by apply no_block in Hl as ->|].
  apply first_block in Hl as (b & k & -> & Hb & Hk). apply Forall_app in Hbb as [Hbb Hkb].
  rewrite cbc_encrypt_cons by done. cbv zeta.
  pose proof (IH (E (xor_list b iv)) k Hk (block_length _) Hkb (block_bytes _)) as IHk.
  destruct (cbc_encrypt E _ k) as [r iv']. cbn [fst snd] in *.
  rewrite cbc_decrypt_cons by apply block_length. rewrite IHk.
  rewrite block_inverse by (by apply xor_list_bytes || (rewrite xor_list_length; lia)).
  by rewrite xor_list_involutive by lia.
Qed.

Lemma cbc_encrypt_ext E' n : ∀ iv bs,
  (∀ b, length b = 16%nat → is_bytes b → E' b = E b) → is_bytes iv → length iv = 16%nat →
  is_bytes bs → length bs = (16 * n)%nat → cbc_encrypt E' iv bs = cbc_encrypt E iv bs.
Proof.
  induction n as [|n IH]; intros iv bs HE Hiv Hliv Hb Hl; [by apply no_block in Hl as ->|].
  apply first_block in Hl as (b & k & -> & Hlb & Hlk). apply Forall_app in Hb as [Hb Hk].
  unfold cbc_encrypt. rewrite !chunks_app by lia. cbn [cbc_enc]. cbv zeta.
  rewrite HE by (by apply xor_list_bytes || (rewrite xor_list_length; lia)).
  fold (cbc_encrypt E' (E (xor_list b iv)) k). fold (cbc_encrypt E (E (xor_list b iv)) k).
  rewrite IH; [done..|apply block_bytes|apply block_length|done|done].
Qed.
End modes.

(** The blocks of a first part and those of the rest. *)
Lemma cbc_enc_app E k bs tl : ∀ iv, length bs = (16 * k)%nat →
  cbc_enc E iv (chunks 16 (bs ++ tl)) =
  (let '(cs, iv1) := cbc_enc E iv (chunks 16 bs) in let '(cs', iv2) := cbc_enc E iv1 (chunks 16 tl) in (cs ++ cs', iv2)).
Proof.
  intros iv Hl. revert bs Hl iv. induction k as [|k IH]; intros bs Hl iv.
  - apply no_block in Hl as ->. cbn [app]. rewrite chunks_nil. cbn [cbc_enc]. by destruct (cbc_enc E iv (chunks 16 tl)).
  - apply first_block in Hl as (b & bs' & -> & Lb & Lbs). rewrite <- app_assoc, (chunks_app 16 b (bs' ++ tl)), (chunks_app 16 b bs') by (done || lia). cbn [cbc_enc]. cbv zeta.
    rewrite IH by done. destruct (cbc_enc E _ (chunks 16 bs')) as [cs1 iv1]. destruct (cbc_enc E iv1 _) as [cs2 iv2]. by rewrite app_assoc.
Qed.

Lemma cbc_dec_app D k bs tl : ∀ iv, length bs = (16 * k)%nat →
  cbc_dec D iv (chunks 16 (bs ++ tl)) =
  (let '(cs, iv1) := cbc_dec D iv (chunks 16 bs) in let '(cs', iv2) := cbc_dec D iv1 (chunks 16 tl) in (cs ++ cs', iv2)).
Proof.
  intros iv Hl. revert bs Hl iv. induction k as [|k IH]; intros bs Hl iv.
  - apply no_block in Hl as ->. cbn [app]. rewrite chunks_nil. cbn [cbc_dec]. by destruct (cbc_dec D iv (chunks 16 tl)).
  - apply first_block in Hl as (b & bs' & -> & Lb & Lbs). rewrite <- app_assoc, (chunks_app 16 b (bs' ++ tl)), (chunks_app 16 b bs') by (done || lia). cbn [cbc_dec].
    rewrite IH by done. destruct (cbc_dec D _ (chunks 16 bs')) as [cs1 iv1]. destruct (cbc_dec D iv1 _) as [cs2 iv2]. by rewrite app_assoc.
Qed.

Lemma cbc_encrypt_bytes E `{!BlockMap E} n : ∀ iv bs, length bs = (16 * n)%nat → is_bytes (cbc_encrypt E iv bs).1.
Proof.
  induction n as [|n IH]; intros iv bs Hl; [by apply no_block in Hl as ->|]. apply first_block in Hl as (b & k & -> & Hb & Hk).
  rewrite cbc_encrypt_cons by done. cbv zeta. specialize (IH (E (xor_list b iv)) k Hk). destruct (cbc_encrypt E _ k) as [r iv']. cbn [fst] in *.
  apply Forall_app_2; [apply map_bytes|done].
Qed.
