(* ===== verification/Sm4.v ===== *)
(** * Sm4: the SM4 block cipher ([src/sm4/sm4.c])

    The words of the cipher are [unsigned long], 64 bits wide on some targets,
    and the code does not clear the upper half of what [ROTL] shifts there. The
    module [Sm4] follows the code on any target; [Sm4Spec] is the cipher of
    GM/T 0002-2012 on 32-bit words. *)

From S2P Require Import Prelude Target Mem ModeSpec.

Definition SM4_ENCRYPT : Z := 1.
Definition SM4_DECRYPT : Z := 0.

(** [sm4_context]: the direction (never read) and the 32 round keys. *)
Record sm4_context := { mode : Z; sk : list Z }.

(** Sbox table, row after row. *)
Definition SboxTable : list Z :=
  [
   0xd6; 0x90; 0xe9; 0xfe; 0xcc; 0xe1; 0x3d; 0xb7; 0x16; 0xb6; 0x14; 0xc2; 0x28; 0xfb; 0x2c; 0x05;
   0x2b; 0x67; 0x9a; 0x76; 0x2a; 0xbe; 0x04; 0xc3; 0xaa; 0x44; 0x13; 0x26; 0x49; 0x86; 0x06; 0x99;
   0x9c; 0x42; 0x50; 0xf4; 0x91; 0xef; 0x98; 0x7a; 0x33; 0x54; 0x0b; 0x43; 0xed; 0xcf; 0xac; 0x62;
   0xe4; 0xb3; 0x1c; 0xa9; 0xc9; 0x08; 0xe8; 0x95; 0x80; 0xdf; 0x94; 0xfa; 0x75; 0x8f; 0x3f; 0xa6;
   0x47; 0x07; 0xa7; 0xfc; 0xf3; 0x73; 0x17; 0xba; 0x83; 0x59; 0x3c; 0x19; 0xe6; 0x85; 0x4f; 0xa8;
   0x68; 0x6b; 0x81; 0xb2; 0x71; 0x64; 0xda; 0x8b; 0xf8; 0xeb; 0x0f; 0x4b; 0x70; 0x56; 0x9d; 0x35;
   0x1e; 0x24; 0x0e; 0x5e; 0x63; 0x58; 0xd1; 0xa2; 0x25; 0x22; 0x7c; 0x3b; 0x01; 0x21; 0x78; 0x87;
   0xd4; 0x00; 0x46; 0x57; 0x9f; 0xd3; 0x27; 0x52; 0x4c; 0x36; 0x02; 0xe7; 0xa0; 0xc4; 0xc8; 0x9e;
   0xea; 0xbf; 0x8a; 0xd2; 0x40; 0xc7; 0x38; 0xb5; 0xa3; 0xf7; 0xf2; 0xce; 0xf9; 0x61; 0x15; 0xa1;
   0xe0; 0xae; 0x5d; 0xa4; 0x9b; 0x34; 0x1a; 0x55; 0xad; 0x93; 0x32; 0x30; 0xf5; 0x8c; 0xb1; 0xe3;
   0x1d; 0xf6; 0xe2; 0x2e; 0x82; 0x66; 0xca; 0x60; 0xc0; 0x29; 0x23; 0xab; 0x0d; 0x53; 0x4e; 0x6f;
   0xd5; 0xdb; 0x37; 0x45; 0xde; 0xfd; 0x8e; 0x2f; 0x03; 0xff; 0x6a; 0x72; 0x6d; 0x6c; 0x5b; 0x51;
   0x8d; 0x1b; 0xaf; 0x92; 0xbb; 0xdd; 0xbc; 0x7f; 0x11; 0xd9; 0x5c; 0x41; 0x1f; 0x10; 0x5a; 0xd8;
   0x0a; 0xc1; 0x31; 0x88; 0xa5; 0xcd; 0x7b; 0xbd; 0x2d; 0x74; 0xd0; 0x12; 0xb8; 0xe5; 0xb4; 0xb0;
   0x89; 0x69; 0x97; 0x4a; 0x0c; 0x96; 0x77; 0x7e; 0x65; 0xb9; 0xf1; 0x09; 0xc5; 0x6e; 0xc6; 0x84;
   0x18; 0xf0; 0x7d; 0xec; 0x3a; 0xdc; 0x4d; 0x20; 0x79; 0xee; 0x5f; 0x3e; 0xd7; 0xcb; 0x39; 0x48].

(** System parameter. *)
Definition FK : list Z := [0xa3b1bac6; 0x56aa3350; 0x677d9197; 0xb27022dc].

(** Fixed parameter. *)
Definition CK : list Z :=
  [
   0x00070e15; 0x1c232a31; 0x383f464d; 0x545b6269;
   0x70777e85; 0x8c939aa1; 0xa8afb6bd; 0xc4cbd2d9;
   0xe0e7eef5; 0xfc030a11; 0x181f262d; 0x343b4249;
   0x50575e65; 0x6c737a81; 0x888f969d; 0xa4abb2b9;
   0xc0c7ced5; 0xdce3eaf1; 0xf8ff060d; 0x141b2229;
   0x30373e45; 0x4c535a61; 0x686f767d; 0x848b9299;
   0xa0a7aeb5; 0xbcc3cad1; 0xd8dfe6ed; 0xf4fb0209;
   0x10171e25; 0x2c333a41; 0x484f565d; 0x646b7279].

(** ** The cipher of the standard *)
Module Sm4Spec.
Definition tau (x : Z) : Z :=
  let S i := SboxTable !!! Z.to_nat (be_bytes x !!! i) in
  be_word (S 0%nat) (S 1%nat) (S 2%nat) (S 3%nat).

Definition L (b : Z) : Z :=
  Z.lxor (Z.lxor (Z.lxor (Z.lxor b (rotl32 b 2)) (rotl32 b 10)) (rotl32 b 18)) (rotl32 b 24).
Definition L' (b : Z) : Z := Z.lxor (Z.lxor b (rotl32 b 13)) (rotl32 b 23).

Definition T (x : Z) : Z := L (tau x).
Definition T' (x : Z) : Z := L' (tau x).

(** Four consecutive words of the state. *)
Definition quad : Type := Z * Z * Z * Z.

Definition round (x : quad) (rk : Z) : quad :=
  let '(x0, x1, x2, x3) := x in
  (x1, x2, x3, Z.lxor x0 (T (Z.lxor (Z.lxor (Z.lxor x1 x2) x3) rk))).

Definition reverse_quad (x : quad) : quad := let '(x0, x1, x2, x3) := x in (x3, x2, x1, x0).

Definition crypt (rks : list Z) (x : quad) : quad := reverse_quad (foldl round x rks).

(** The key schedule: the state and the round keys produced so far. *)
Definition key_round (s : quad * list Z) (ck : Z) : quad * list Z :=
  let '((k0, k1, k2, k3), rks) := s in
  let rk := Z.lxor k0 (T' (Z.lxor (Z.lxor (Z.lxor k1 k2) k3) ck)) in
  ((k1, k2, k3, rk), rks ++ [rk]).

Definition lxor_quad (x y : quad) : quad :=
  let '(x0, x1, x2, x3) := x in let '(y0, y1, y2, y3) := y in
  (Z.lxor x0 y0, Z.lxor x1 y1, Z.lxor x2 y2, Z.lxor x3 y3).

(** Sixteen bytes as four big-endian words, and back. *)
Definition quad_of_bytes (bs : list Z) : quad :=
  let w i := be_word (bs !!! i) (bs !!! S i) (bs !!! S (S i)) (bs !!! S (S (S i))) in
  (w 0%nat, w 4%nat, w 8%nat, w 12%nat).

Definition bytes_of_quad (x : quad) : list Z :=
  let '(x0, x1, x2, x3) := x in be_bytes x0 ++ be_bytes x1 ++ be_bytes x2 ++ be_bytes x3.

Definition first_quad (key : list Z) : quad :=
  lxor_quad (quad_of_bytes key) (0xa3b1bac6, 0x56aa3350, 0x677d9197, 0xb27022dc).

Definition round_keys (key : list Z) : list Z := (foldl key_round (first_quad key, []) CK).2.

Definition encrypt_block (key block : list Z) : list Z :=
  bytes_of_quad (crypt (round_keys key) (quad_of_bytes block)).
Definition decrypt_block (key block : list Z) : list Z :=
  bytes_of_quad (crypt (reverse (round_keys key)) (quad_of_bytes block)).
End Sm4Spec.

(** ** The code *)
Section Sm4.
Context {tgt : Target}.

(** [GET_ULONG_BE(n,b,i)]: the value given to [n]. *)
Definition GET_ULONG_BE (b : list Z) (i : nat) : Z :=
  Z.lor (Z.lor (Z.lor (ulong_shl (b !!! i) 24) (ulong_shl (b !!! (i + 1)%nat) 16))
               (ulong_shl (b !!! (i + 2)%nat) 8))
        (ulong (b !!! (i + 3)%nat)).

(** [PUT_ULONG_BE(n,b,i)]: the array [b] afterwards. *)
Definition PUT_ULONG_BE (n : Z) (b : list Z) (i : nat) : list Z :=
  <[(i + 3)%nat := wrap 8 n]> (<[(i + 2)%nat := wrap 8 (Z.shiftr n 8)]>
    (<[(i + 1)%nat := wrap 8 (Z.shiftr n 16)]> (<[i := wrap 8 (Z.shiftr n 24)]> b))).

Definition SHL (x n : Z) : Z := ulong_shl (Z.land x 0xFFFFFFFF) n.
Definition ROTL (x n : Z) : Z := Z.lor (SHL x n) (Z.shiftr x (32 - n)).

Definition sm4Sbox (inch : Z) : Z := SboxTable !!! Z.to_nat inch.

(** The S-box on the four bytes of a word: the common part of [sm4Lt] and
    [sm4CalciRK]. *)
Definition sm4Bytes (ka : Z) : Z :=
  let a := PUT_ULONG_BE ka (replicate 4 0) 0 in
  let b := [sm4Sbox (a !!! 0%nat); sm4Sbox (a !!! 1%nat);
            sm4Sbox (a !!! 2%nat); sm4Sbox (a !!! 3%nat)] in
  GET_ULONG_BE b 0.

Definition sm4Lt (ka : Z) : Z :=
  let bb := sm4Bytes ka in
  Z.lxor (Z.lxor (Z.lxor (Z.lxor bb (ROTL bb 2)) (ROTL bb 10)) (ROTL bb 18)) (ROTL bb 24).

Definition sm4F (x0 x1 x2 x3 rk : Z) : Z :=
  Z.lxor x0 (sm4Lt (Z.lxor (Z.lxor (Z.lxor x1 x2) x3) rk)).

Definition sm4CalciRK (ka : Z) : Z :=
  let bb := sm4Bytes ka in
  Z.lxor (Z.lxor bb (ROTL bb 13)) (ROTL bb 23).

(** One turn of the loop of [sm4_setkey]: the arrays [k] and [SK]. *)
Definition sm4_setkey_step (i : nat) (s : list Z * list Z) : list Z * list Z :=
  let '(k, SK) := s in
  let v := Z.lxor (k !!! i)
    (sm4CalciRK (Z.lxor (Z.lxor (Z.lxor (k !!! (i + 1)%nat) (k !!! (i + 2)%nat))
                                (k !!! (i + 3)%nat)) (CK !!! i))) in
  (<[(i + 4)%nat := v]> k, <[i := v]> SK).

(** [sm4_setkey]: what it leaves in [SK], an array of 32. *)
Definition sm4_setkey (SK : list Z) (key : list Z) : list Z :=
  let k := [Z.lxor (GET_ULONG_BE key 0) (FK !!! 0%nat);
            Z.lxor (GET_ULONG_BE key 4) (FK !!! 1%nat);
            Z.lxor (GET_ULONG_BE key 8) (FK !!! 2%nat);
            Z.lxor (GET_ULONG_BE key 12) (FK !!! 3%nat)] ++ replicate 32 0 in
  (for_loop 0 32 sm4_setkey_step (k, SK)).2.

(** One turn of the loop of [sm4_one_round]: the array [ulbuf]. *)
Definition sm4_round_step (sk : list Z) (i : nat) (ulbuf : list Z) : list Z :=
  <[(i + 4)%nat := sm4F (ulbuf !!! i) (ulbuf !!! (i + 1)%nat) (ulbuf !!! (i + 2)%nat)
                        (ulbuf !!! (i + 3)%nat) (sk !!! i)]> ulbuf.

(** [sm4_one_round]: all 32 rounds, from the input to the output block. The code
    reads the whole input before it writes the output. *)
Definition sm4_one_round (sk : list Z) (input : list Z) : list Z :=
  let ulbuf := [GET_ULONG_BE input 0; GET_ULONG_BE input 4;
                GET_ULONG_BE input 8; GET_ULONG_BE input 12] ++ replicate 32 0 in
  let ulbuf := for_loop 0 32 (sm4_round_step sk) ulbuf in
  PUT_ULONG_BE (ulbuf !!! 32%nat) (PUT_ULONG_BE (ulbuf !!! 33%nat)
    (PUT_ULONG_BE (ulbuf !!! 34%nat) (PUT_ULONG_BE (ulbuf !!! 35%nat)
      (replicate 16 0) 0) 4) 8) 12.

Definition sm4_setkey_enc (ctx : sm4_context) (key : list Z) : sm4_context :=
  {| mode := SM4_ENCRYPT; sk := sm4_setkey (sk ctx) key |}.

(** [SWAP(ctx->sk[i], ctx->sk[31-i])]. *)
Definition SWAP (i : nat) (sk : list Z) : list Z :=
  let t := sk !!! i in <[(31 - i)%nat := t]> (<[i := sk !!! (31 - i)%nat]> sk).

Definition sm4_setkey_dec (ctx : sm4_context) (key : list Z) : sm4_context :=
  {| mode := SM4_ENCRYPT; sk := for_loop 0 16 SWAP (sm4_setkey (sk ctx) key) |}.

(** [sm4_one_round(ctx->sk, input, output)] on the memory. *)
Definition sm4_block (sk : list Z) (input output : ptr) : C unit :=
  x ← load input 16; store output (sm4_one_round sk x).

(** The loop of [sm4_crypt_ecb]; each turn takes 16 off [length]. *)
Fixpoint sm4_ecb_loop (fuel : nat) (sk : list Z) (length : Z) (input output : ptr) : C unit :=
  if decide (0 < length) then
    match fuel with
    | O => undefined
    | S fuel =>
        sm4_block sk input output;;
        sm4_ecb_loop fuel sk (length - 16) (padd input 16) (padd output 16)
    end
  else mret tt.

Definition sm4_crypt_ecb (ctx : sm4_context) (mode length : Z) (input output : ptr) : C unit :=
  sm4_ecb_loop (Z.to_nat length) (sk ctx) length input output.

(** The two loops of [sm4_crypt_cbc]. *)
Fixpoint sm4_cbc_encrypt_loop (fuel : nat) (sk : list Z) (length : Z)
    (iv input output : ptr) : C unit :=
  if decide (0 < length) then
    match fuel with
    | O => undefined
    | S fuel =>
        xor_loop 16 output input iv;;
        sm4_block sk output output;;
        memcpy iv output 16;;
        sm4_cbc_encrypt_loop fuel sk (length - 16) iv (padd input 16) (padd output 16)
    end
  else mret tt.

Fixpoint sm4_cbc_decrypt_loop (fuel : nat) (sk : list Z) (length : Z)
    (iv input output : ptr) : C unit :=
  if decide (0 < length) then
    match fuel with
    | O => undefined
    | S fuel =>
        temp ← load input 16;
        sm4_block sk input output;;
        xor_loop 16 output output iv;;
        store iv temp;;
        sm4_cbc_decrypt_loop fuel sk (length - 16) iv (padd input 16) (padd output 16)
    end
  else mret tt.

Definition sm4_crypt_cbc (ctx : sm4_context) (mode length : Z) (iv input output : ptr) : C unit :=
  if decide (mode = SM4_ENCRYPT)
  then sm4_cbc_encrypt_loop (Z.to_nat length) (sk ctx) length iv input output
  else sm4_cbc_decrypt_loop (Z.to_nat length) (sk ctx) length iv input output.
End Sm4.

(** ** The standard: rounds and their inverse *)
Module Sm4SpecFacts.
Import Sm4Spec.

Definition word_quad (x : quad) : Prop :=
  let '(x0, x1, x2, x3) := x in is_word 32 x0 ∧ is_word 32 x1 ∧ is_word 32 x2 ∧ is_word 32 x3.

Lemma sbox_bytes : is_bytes SboxTable.
Proof. decide_by_compute. Qed.

Lemma sbox_lookup_byte i : is_byte (SboxTable !!! i).
Proof. apply bytes_lookup_total, sbox_bytes. Qed.

Lemma tau_word x : is_word 32 (tau x).
Proof. unfold tau. cbv zeta beta. apply be_word_is_word; apply sbox_lookup_byte. Qed.

Lemma L_word x : is_word 32 x → is_word 32 (L x).
Proof. intros. unfold L. words. Qed.

Lemma L'_word x : is_word 32 x → is_word 32 (L' x).
Proof. intros. unfold L'. words. Qed.

Lemma T_word x : is_word 32 (T x).
Proof. apply L_word, tau_word. Qed.

Lemma T'_word x : is_word 32 (T' x).
Proof. apply L'_word, tau_word. Qed.

Lemma round_word x rk : word_quad x → word_quad (round x rk).
Proof.
  destruct x as [[[x0 x1] x2] x3]. simpl. intuition.
  apply is_word_lxor; [done..|apply T_word].
Qed.

Lemma rounds_word rks x : word_quad x → word_quad (foldl round x rks).
Proof. revert x. induction rks; simpl; intros; [done|]. by apply IHrks, round_word. Qed.

Lemma reverse_quad_word x : word_quad x → word_quad (reverse_quad x).
Proof. destruct x as [[[? ?] ?] ?]. simpl. naive_solver. Qed.

Lemma reverse_quad_involutive x : reverse_quad (reverse_quad x) = x.
Proof. by destruct x as [[[? ?] ?] ?]. Qed.

(** A round is undone by the same round on the reversed state. *)
Lemma round_reverse x rk :
  round (reverse_quad (round x rk)) rk = reverse_quad x.
Proof.
  destruct x as [[[x0 x1] x2] x3]. simpl. f_equal.
  rewrite (Z.lxor_comm x3 x2), (Z.lxor_assoc x2 x3 x1), (Z.lxor_comm x3 x1),
    <- (Z.lxor_assoc x2 x1 x3), (Z.lxor_comm x2 x1).
  by rewrite Z.lxor_assoc, Z.lxor_nilpotent, Z.lxor_0_r.
Qed.

Lemma rounds_reverse rks x :
  foldl round (reverse_quad (foldl round x rks)) (reverse rks) = reverse_quad x.
Proof.
  revert x. induction rks as [|rk rks IH]; intros x; [done|].
  simpl. rewrite reverse_cons, foldl_app, IH. simpl. apply round_reverse.
Qed.

Lemma crypt_inverse rks x : crypt (reverse rks) (crypt rks x) = x.
Proof. unfold crypt. by rewrite rounds_reverse, reverse_quad_involutive. Qed.

Lemma quad_of_bytes_word bs : is_bytes bs → word_quad (quad_of_bytes bs).
Proof.
  intros H. pose proof (λ i, bytes_lookup_total bs i H).
  simpl. repeat split_and; by apply be_word_is_word.
Qed.

Lemma quad_of_bytes_of_quad x : word_quad x → quad_of_bytes (bytes_of_quad x) = x.
Proof.
  destruct x as [[[x0 x1] x2] x3]. simpl. intros (? & ? & ? & ?).
  unfold quad_of_bytes. simpl. by rewrite !be_word_bytes.
Qed.

Lemma bytes_of_quad_of_bytes bs :
  is_bytes bs → length bs = 16%nat → bytes_of_quad (quad_of_bytes bs) = bs.
Proof.
  intros Hb Hl. explode bs 16%nat. split_Forall.
  unfold quad_of_bytes, bytes_of_quad. cbn -[be_word be_bytes].
  by rewrite !be_bytes_word.
Qed.

Lemma bytes_of_quad_length x : length (bytes_of_quad x) = 16%nat.
Proof. by destruct x as [[[? ?] ?] ?]. Qed.

Lemma bytes_of_quad_bytes x : is_bytes (bytes_of_quad x).
Proof.
  destruct x as [[[? ?] ?] ?]. unfold bytes_of_quad.
  repeat (apply Forall_app; split); apply be_bytes_are_bytes.
Qed.

End Sm4SpecFacts.

(** ** The code computes the cipher of the standard, on every target *)
Section Sm4Facts.
Context {tgt : Target}.
Import Sm4Spec Sm4SpecFacts.

Lemma GET_ULONG_BE_word (b : list Z) i :
  is_bytes b →
  GET_ULONG_BE b i = be_word (b !!! i) (b !!! (i + 1)%nat) (b !!! (i + 2)%nat) (b !!! (i + 3)%nat).
Proof.
  intros Hb. pose proof (λ i, bytes_lookup_total b i Hb) as Hi. unfold GET_ULONG_BE, be_word.
  pose proof ulong_bits_32. unfold ulong_shl, ulong.
  pose proof (Hi i). pose proof (Hi (i + 1)%nat). pose proof (Hi (i + 2)%nat). pose proof (Hi (i + 3)%nat).
  clear Hi. bitwise.
Qed.

Lemma PUT_ULONG_BE_word n b0 b1 b2 b3 :
  PUT_ULONG_BE n [b0; b1; b2; b3] 0 = be_bytes (wrap 32 n).
Proof. unfold PUT_ULONG_BE, be_bytes. cbn -[wrap Z.land Z.shiftr]. repeat f_equal; bitwise. Qed.

Lemma sm4Bytes_tau ka : sm4Bytes ka = tau (wrap 32 ka).
Proof.
  unfold sm4Bytes, tau. cbn [replicate]. rewrite PUT_ULONG_BE_word. cbv zeta.
  rewrite GET_ULONG_BE_word; [done|]. repeat constructor; apply sbox_lookup_byte.
Qed.

Lemma ROTL_rotl32 x n : 0 <= n <= 32 → is_word 32 x → ROTL x n ≡₃₂ rotl32 x n.
Proof.
  intros. unfold eq32, ROTL, SHL, rotl32, ulong_shl, ulong. pose proof ulong_bits_32. bitwise.
Qed.

Lemma sm4Lt_T ka : sm4Lt ka ≡₃₂ T (wrap 32 ka).
Proof.
  unfold sm4Lt, T, L. rewrite sm4Bytes_tau. pose proof (tau_word (wrap 32 ka)).
  by rewrite !ROTL_rotl32 by (assumption || lia).
Qed.

Lemma sm4CalciRK_T' ka : sm4CalciRK ka ≡₃₂ T' (wrap 32 ka).
Proof.
  unfold sm4CalciRK, T', L'. rewrite sm4Bytes_tau. pose proof (tau_word (wrap 32 ka)).
  by rewrite !ROTL_rotl32 by (assumption || lia).
Qed.

(** Four consecutive elements of an array of [unsigned long] agree with a state. *)
Definition quad_at (buf : list Z) (i : nat) (x : quad) : Prop :=
  let '(x0, x1, x2, x3) := x in
  buf !!! i ≡₃₂ x0 ∧ buf !!! (i + 1)%nat ≡₃₂ x1 ∧ buf !!! (i + 2)%nat ≡₃₂ x2 ∧ buf !!! (i + 3)%nat ≡₃₂ x3.

Lemma quad_at_step buf i x v y3 x0 x1 x2 x3 :
  x = (x0, x1, x2, x3) → quad_at buf i x → (i + 4 < length buf)%nat → v ≡₃₂ y3 →
  quad_at (<[(i + 4)%nat := v]> buf) (S i) (x1, x2, x3, y3).
Proof.
  intros -> (? & ? & ? & ?) ? Hv. unfold quad_at.
  replace (S i) with (i + 1)%nat by lia. replace (i + 1 + 1)%nat with (i + 2)%nat by lia.
  replace (i + 1 + 2)%nat with (i + 3)%nat by lia. replace (i + 1 + 3)%nat with (i + 4)%nat by lia.
  rewrite !(list_lookup_total_insert_ne _ (i + 4)) by lia.
  by rewrite list_lookup_total_insert_eq by lia.
Qed.

Lemma sm4_rounds_quad sk rks ulbuf x :
  length ulbuf = 36%nat → length rks = 32%nat → is_words rks → word_quad x →
  (∀ j, (j < 32)%nat → sk !!! j ≡₃₂ rks !!! j) → quad_at ulbuf 0 x →
  quad_at (for_loop 0 32 (sm4_round_step sk) ulbuf) 32 (foldl round x rks).
Proof.
  intros Hl Hr Hrw Hx Hsk H0. rewrite <- (take_ge rks 32) by lia.
  apply (for_loop_ind (λ i buf, quad_at buf i (foldl round x (take i rks)) ∧ length buf = 36%nat));
    [lia|done|].
  intros i buf [_ ?] [Hq Hbuf]. unfold sm4_round_step. rewrite length_insert. split; [|done].
  rewrite (take_S_r _ _ (rks !!! i)) by (apply list_lookup_lookup_total_lt; lia).
  pose proof (rounds_word (take i rks) x Hx) as Hw.
  rewrite foldl_app. destruct (foldl round x (take i rks)) as [[[x0 x1] x2] x3].
  cbn [foldl round]. eapply quad_at_step; [reflexivity|done|lia|].
  destruct Hq as (E0 & E1 & E2 & E3), Hw as (? & ? & ? & ?). unfold sm4F.
  rewrite E0, sm4Lt_T, E1, E2, E3, (Hsk i) by lia.
  rewrite wrap_small; [done|]. words. apply Forall_lookup_total_1; [done|lia].
Qed.

(** The state and the two arrays of the key schedule after [i] turns. *)
Definition setkey_inv (x : quad) (i : nat) (s : list Z * list Z) : Prop :=
  let '(q, rks) := foldl key_round (x, []) (take i CK) in
  quad_at s.1 i q ∧ word_quad q ∧ length s.1 = 36%nat ∧ length s.2 = 32%nat ∧
  length rks = i ∧ is_words rks ∧ ∀ j, (j < i)%nat → s.2 !!! j ≡₃₂ rks !!! j.

Lemma setkey_inv_step x i s :
  (i < 32)%nat → setkey_inv x i s → setkey_inv x (S i) (sm4_setkey_step i s).
Proof.
  intros Hi. unfold setkey_inv.
  rewrite (take_S_r _ _ (CK !!! i)) by (apply list_lookup_lookup_total_lt; by cbn [CK length]).
  rewrite foldl_app. destruct (foldl key_round (x, []) (take i CK)) as [[[[x0 x1] x2] x3] rks].
  destruct s as [k SK]. cbn [foldl key_round sm4_setkey_step fst snd].
  intros (Hq & Hw & Hk & HSK & Hr & Hrw & Hj).
  assert (Hck : is_word 32 (CK !!! i)).
  { apply Forall_lookup_total_1; [|by cbn [CK length]]. decide_by_compute. }
  destruct Hw as (? & ? & ? & ?). set (y := Z.lxor x0 (T' _)).
  assert (Hy : is_word 32 y) by (apply is_word_lxor; [lia|done|apply T'_word]).
  assert (Hv : Z.lxor (k !!! i) (sm4CalciRK (Z.lxor (Z.lxor (Z.lxor (k !!! (i + 1)%nat)
    (k !!! (i + 2)%nat)) (k !!! (i + 3)%nat)) (CK !!! i))) ≡₃₂ y).
  { destruct Hq as (E0 & E1 & E2 & E3). rewrite sm4CalciRK_T', E0, E1, E2, E3.
    rewrite wrap_small; [done|]. words. }
  split_and!; rewrite ?length_insert, ?length_app; simpl; try done; try lia.
  - eapply quad_at_step; [reflexivity|done|lia|done].
  - apply Forall_app_2; [done|by constructor].
  - intros j Hlt. destruct (decide (i = j)) as [<-|].
    + rewrite list_lookup_total_insert_eq by lia.
      rewrite lookup_total_app_r by lia. by rewrite Hr, Nat.sub_diag.
    + rewrite list_lookup_total_insert_ne by done. rewrite lookup_total_app_l by lia.
      apply Hj. lia.
Qed.

(** The array the code starts the key schedule from. *)
Definition first_k (key : list Z) : list Z :=
  [Z.lxor (GET_ULONG_BE key 0) (FK !!! 0%nat); Z.lxor (GET_ULONG_BE key 4) (FK !!! 1%nat);
   Z.lxor (GET_ULONG_BE key 8) (FK !!! 2%nat); Z.lxor (GET_ULONG_BE key 12) (FK !!! 3%nat)]
  ++ replicate 32 0.
Lemma first_quad_at key : is_bytes key → quad_at (first_k key) 0 (first_quad key).
Proof.
  intros. unfold first_k. rewrite !GET_ULONG_BE_word by done. cbn [quad_at first_quad lxor_quad quad_of_bytes].
  split_and!; reflexivity.
Qed.

Lemma first_quad_word key : is_bytes key → word_quad (first_quad key).
Proof.
  intros Hk. destruct (quad_of_bytes_word key Hk) as (? & ? & ? & ?).
  cbn [first_quad lxor_quad quad_of_bytes word_quad]. split_and!; apply is_word_lxor; done.
Qed.

Lemma setkey_inv_init SK key :
  length SK = 32%nat → is_bytes key → setkey_inv (first_quad key) 0 (first_k key, SK).
Proof.
  intros. unfold setkey_inv. cbn [take foldl fst snd].
  split_and!; [by apply first_quad_at|by apply first_quad_word|done|done|done|by constructor|].
  intros. lia.
Qed.

Lemma sm4_setkey_loop SK key :
  sm4_setkey SK key = (for_loop 0 32 sm4_setkey_step (first_k key, SK)).2.
Proof. reflexivity. Qed.

Lemma sm4_setkey_round_keys SK key :
  length SK = 32%nat → is_bytes key →
  length (round_keys key) = 32%nat ∧ is_words (round_keys key) ∧
  length (sm4_setkey SK key) = 32%nat ∧
  ∀ j, (j < 32)%nat → sm4_setkey SK key !!! j ≡₃₂ round_keys key !!! j.
Proof.
  intros HSK Hkey.
  unfold round_keys. rewrite sm4_setkey_loop.
  assert (H0 : setkey_inv (first_quad key) 32 (for_loop 0 32 sm4_setkey_step (first_k key, SK))).
  { apply for_loop_ind; [lia|by apply setkey_inv_init|].
    intros i s [_ Hi]. by apply setkey_inv_step. }
  revert H0. generalize (for_loop 0 32 sm4_setkey_step (first_k key, SK)). intros s.
  unfold setkey_inv. rewrite (take_ge CK 32) by (cbn [CK length]; lia).
  destruct (foldl key_round (first_quad key, []) CK) as [q rks]. cbn [snd].
  intros (_ & _ & _ & ? & ? & ? & ?). done.
Qed.

Lemma byte_of_word n k :
  0 <= k <= 24 → wrap 8 (Z.shiftr n k) = Z.land (Z.shiftr (wrap 32 n) k) 255.
Proof. intros. bitwise. Qed.

Lemma low_byte_of_word n : wrap 8 n = Z.land (wrap 32 n) 255.
Proof. bitwise. Qed.

Lemma PUT_ULONG_BE_block n0 n1 n2 n3 :
  PUT_ULONG_BE n3 (PUT_ULONG_BE n2 (PUT_ULONG_BE n1 (PUT_ULONG_BE n0 (replicate 16 0) 0) 4) 8) 12 =
  bytes_of_quad (wrap 32 n0, wrap 32 n1, wrap 32 n2, wrap 32 n3).
Proof.
  unfold PUT_ULONG_BE. rewrite !byte_of_word by lia. rewrite !(low_byte_of_word n0),
    !(low_byte_of_word n1), !(low_byte_of_word n2), !(low_byte_of_word n3).
  reflexivity.
Qed.

Lemma sm4_one_round_crypt sk rks block :
  length rks = 32%nat → is_words rks → is_bytes block →
  (∀ j, (j < 32)%nat → sk !!! j ≡₃₂ rks !!! j) →
  sm4_one_round sk block = bytes_of_quad (crypt rks (quad_of_bytes block)).
Proof.
  intros Hr Hrw Hb Hsk. unfold sm4_one_round. cbv zeta.
  match goal with |- context [for_loop 0 32 _ ?b] => set (buf := b) end.
  assert (Hq : quad_at buf 0 (quad_of_bytes block)).
  { subst buf. rewrite !GET_ULONG_BE_word by done. done. }
  apply (sm4_rounds_quad sk rks) in Hq; [|done..|by apply quad_of_bytes_word|done].
  pose proof (rounds_word rks _ (quad_of_bytes_word block Hb)) as Hw. unfold crypt.
  destruct (foldl round (quad_of_bytes block) rks) as [[[x0 x1] x2] x3].
  destruct Hq as (E0 & E1 & E2 & E3), Hw as (W0 & W1 & W2 & W3).
  rewrite PUT_ULONG_BE_block. cbn [Nat.add] in *. cbn [reverse_quad].
  by rewrite (eq32_word _ _ E0), (eq32_word _ _ E1), (eq32_word _ _ E2), (eq32_word _ _ E3).
Qed.

Lemma setkey_dec_reverse SK :
  length SK = 32%nat → for_loop 0 16 SWAP SK = reverse SK.
Proof. intros. explode SK 32%nat. reflexivity. Qed.

Lemma sm4_setkey_enc_crypt ctx key block :
  length (sk ctx) = 32%nat → is_bytes key → is_bytes block →
  sm4_one_round (sk (sm4_setkey_enc ctx key)) block = encrypt_block key block.
Proof.
  intros Hc Hk Hb. destruct (sm4_setkey_round_keys (sk ctx) key Hc Hk) as (? & ? & ? & ?).
  by apply sm4_one_round_crypt.
Qed.

Lemma sm4_setkey_dec_crypt ctx key block :
  length (sk ctx) = 32%nat → is_bytes key → is_bytes block →
  sm4_one_round (sk (sm4_setkey_dec ctx key)) block = decrypt_block key block.
Proof.
  intros Hc Hk Hb. destruct (sm4_setkey_round_keys (sk ctx) key Hc Hk) as (Hr & ? & Hs & Hj).
  cbn [sk sm4_setkey_dec]. rewrite setkey_dec_reverse by done.
  apply sm4_one_round_crypt; rewrite ?length_reverse; [done|by apply Forall_reverse|done|].
  intros j Hlt. rewrite !list_lookup_total_alt, !reverse_lookup by lia. rewrite Hr, Hs.
  rewrite <- !list_lookup_total_alt. apply Hj. lia.
Qed.

Lemma sm4_one_round_length sk block : length (sm4_one_round sk block) = 16%nat.
Proof.
  unfold sm4_one_round, PUT_ULONG_BE. cbv zeta. by rewrite !length_insert, length_replicate.
Qed.

Lemma sm4_one_round_bytes sk block : is_bytes (sm4_one_round sk block).
Proof.
  unfold sm4_one_round. cbv zeta. rewrite PUT_ULONG_BE_block. apply bytes_of_quad_bytes.
Qed.

Lemma sm4_block_ok sk input output m x :
  mread m input 16 = Some x → mvalid m output 16 →
  ∃ m', mwrite m output (sm4_one_round sk x) = Some m' ∧
        sm4_block sk input output m = Some (tt, m').
Proof.
  intros Hr Hv. rewrite <- (sm4_one_round_length sk x) in Hv.
  destruct (mvalid_store _ _ _ Hv) as (m' & Hw & Hst). exists m'. split; [done|].
  unfold sm4_block. by rewrite (bind_Some _ _ m x m) by by apply load_Some.
Qed.

Lemma sm4_ecb_loop_ok sk n : ∀ fuel input output m bs,
  (n ≤ fuel)%nat → mread m input (16 * n) = Some bs → mvalid m output (16 * n) →
  same_or_apart output input (16 * n) →
  ∃ m', mwrite m output (blockwise (sm4_one_round sk) 16 bs) = Some m' ∧
        sm4_ecb_loop fuel sk (Z.of_nat (16 * n)) input output m = Some (tt, m').
Proof.
  induction n as [|n IH]; intros fuel input output m bs Hf Hr Hv Ha.
  - assert (Hl := mread_length _ _ _ _ Hr). apply nil_length_inv in Hl as ->.
    apply (mvalid_mwrite m output []) in Hv as [m' Hw]. exists m'. split; [done|].
    rewrite (mwrite_nil _ _ _ Hw). by destruct fuel.
  - destruct fuel as [|fuel]; [lia|]. replace (16 * S n)%nat with (16 + 16 * n)%nat in * by lia.
    apply mread_split in Hr as (x & xs & -> & Hlen & Hx & Hxs).
    destruct (sm4_block_ok sk input output m x Hx) as (m1 & Hw & Hrun);
      [by eapply mvalid_take; [done|lia]|].
    assert (Hlx := sm4_one_round_length sk x).
    destruct (same_or_apart_step m output input (sm4_one_round sk x) (16 * n) xs m1)
      as [Ha1 Hr1]; rewrite ?Hlx; [done..|].
    rewrite Hlx in Ha1, Hr1.
    destruct (IH fuel (padd input 16) (padd output 16) m1 xs) as (m' & Hw' & Hrun'); [lia|done| |done|].
    { eapply mvalid_mwrite_iff; [done|]. by apply (mvalid_sub m output (16 + 16 * n) 16). }
    exists m'. split.
    + rewrite blockwise_cons by (lia || done).
      rewrite mwrite_app, Hw, Hlx. done.
    + cbn [sm4_ecb_loop]. rewrite decide_True by lia. rewrite (bind_Some _ _ m tt m1) by done.
      replace (Z.of_nat (16 + 16 * n) - 16) with (Z.of_nat (16 * n)) by lia. done.
Qed.

Lemma sm4_cbc_encrypt_loop_ok sk n : ∀ fuel iv input output m bs v,
  (n ≤ fuel)%nat → mread m input (16 * n) = Some bs → mread m iv 16 = Some v →
  mvalid m output (16 * n) → same_or_apart output input (16 * n) →
  pdisj output (16 * n) iv 16 → pdisj iv 16 input (16 * n) →
  ∃ m', sm4_cbc_encrypt_loop fuel sk (Z.of_nat (16 * n)) iv input output m = Some (tt, m') ∧
        mread m' output (16 * n) = Some (cbc_encrypt (sm4_one_round sk) v bs).1 ∧
        mread m' iv 16 = Some (cbc_encrypt (sm4_one_round sk) v bs).2 ∧
        mframe [(output, 16 * n)%nat; (iv, 16%nat)] m m'.
Proof.
  induction n as [|n IH]; intros fuel iv input output m bs v Hf Hr Hiv Hv Ha Hoi Hii.
  - assert (Hl := mread_length _ _ _ _ Hr). apply no_block in Hl as ->. exists m.
    split_and!; [by destruct fuel| |done|done].
    by apply mread_nil.
  - destruct fuel as [|fuel]; [lia|]. replace (16 * S n)%nat with (16 + 16 * n)%nat in * by lia.
    apply mread_split in Hr as (x & xs & -> & Hlen & Hx & Hxs).
    assert (Hlv := mread_length _ _ _ _ Hiv).
    assert (Hv16 : mvalid m output 16) by (eapply mvalid_take; [done|lia]).
    destruct (xor_loop_ok 16 output input iv m x v) as (m1 & Hw1 & Hrun1);
      [done..|eapply same_or_apart_take; [done|lia]|right; solve_pdisj|].
    assert (Hl1 : length (xor_list x v) = 16%nat) by (rewrite xor_list_length; lia).
    destruct (sm4_block_ok sk output output m1 (xor_list x v)) as (m2 & Hw2 & Hrun2); [by read_back..|].
    set (c := sm4_one_round sk (xor_list x v)) in *.
    assert (Hlc : length c = 16%nat) by apply sm4_one_round_length.
    destruct (mvalid_store m2 iv c) as (m3 & Hw3 & Hrun3).
    { rewrite Hlc. read_back. by eapply mread_mvalid. }
    destruct (IH fuel iv (padd input 16) (padd output 16) m3 xs c)
      as (m' & Hrun' & Hout & Hiv' & Hfr);
      [lia|read_back; done|read_back| |exact (same_or_apart_drop _ _ 16 _ Ha)|solve_pdisj|solve_pdisj|].
    { read_back. by apply (mvalid_sub m output (16 + 16 * n) 16). }
    exists m'. rewrite cbc_encrypt_cons by done. cbv zeta. fold c.
    destruct (cbc_encrypt _ c xs) as [r iv']. cbn [fst snd] in *. split_and!.
    + cbn [sm4_cbc_encrypt_loop]. rewrite decide_True by lia.
      rewrite (bind_Some _ _ m tt m1) by done. rewrite (bind_Some _ _ m1 tt m2) by done.
      rewrite (bind_Some _ _ m2 tt m3).
      { by replace (Z.of_nat (16 + 16 * n) - 16) with (Z.of_nat (16 * n)) by lia. }
      apply (memcpy_Some _ _ _ _ c); [solve_pdisj|read_back|done].
    + apply mread_join; [|done]. rewrite (mframe_read _ _ _ Hfr); [read_back| |].
      * read_back. done.
      * repeat constructor; cbn [fst snd]; solve_pdisj.
    + done.
    + frame_back.
Qed.

Lemma sm4_cbc_decrypt_loop_ok sk n : ∀ fuel iv input output m bs v,
  (n ≤ fuel)%nat → mread m input (16 * n) = Some bs → mread m iv 16 = Some v →
  mvalid m output (16 * n) → same_or_apart output input (16 * n) →
  pdisj output (16 * n) iv 16 → pdisj iv 16 input (16 * n) →
  ∃ m', sm4_cbc_decrypt_loop fuel sk (Z.of_nat (16 * n)) iv input output m = Some (tt, m') ∧
        mread m' output (16 * n) = Some (cbc_decrypt (sm4_one_round sk) v bs).1 ∧
        mread m' iv 16 = Some (cbc_decrypt (sm4_one_round sk) v bs).2 ∧
        mframe [(output, 16 * n)%nat; (iv, 16%nat)] m m'.
Proof.
  induction n as [|n IH]; intros fuel iv input output m bs v Hf Hr Hiv Hv Ha Hoi Hii.
  - assert (Hl := mread_length _ _ _ _ Hr). apply no_block in Hl as ->. exists m.
    split_and!; [by destruct fuel| |done|done].
    by apply mread_nil.
  - destruct fuel as [|fuel]; [lia|]. replace (16 * S n)%nat with (16 + 16 * n)%nat in * by lia.
    apply mread_split in Hr as (x & xs & -> & Hlen & Hx & Hxs).
    assert (Hlv := mread_length _ _ _ _ Hiv).
    assert (Hv16 : mvalid m output 16) by (eapply mvalid_take; [done|lia]).
    destruct (sm4_block_ok sk input output m x) as (m1 & Hw1 & Hrun1); [done..|].
    set (y := sm4_one_round sk x) in *.
    assert (Hly : length y = 16%nat) by apply sm4_one_round_length.
    destruct (xor_loop_ok 16 output output iv m1 y v) as (m2 & Hw2 & Hrun2);
      [by read_back..|by left|right; solve_pdisj|].
    assert (Hl2 : length (xor_list y v) = 16%nat) by (rewrite xor_list_length; lia).
    destruct (mvalid_store m2 iv x) as (m3 & Hw3 & Hrun3).
    { rewrite Hlen. read_back. by eapply mread_mvalid. }
    destruct (IH fuel iv (padd input 16) (padd output 16) m3 xs x)
      as (m' & Hrun' & Hout & Hiv' & Hfr);
      [lia|read_back; done|read_back| |exact (same_or_apart_drop _ _ 16 _ Ha)|solve_pdisj|solve_pdisj|].
    { read_back. by apply (mvalid_sub m output (16 + 16 * n) 16). }
    exists m'. rewrite cbc_decrypt_cons by done.
    destruct (cbc_decrypt _ x xs) as [r iv']. cbn [fst snd] in *. split_and!.
    + cbn [sm4_cbc_decrypt_loop]. rewrite decide_True by lia.
      rewrite (bind_Some _ _ m x m) by by apply load_Some.
      rewrite (bind_Some _ _ m tt m1) by done. rewrite (bind_Some _ _ m1 tt m2) by done.
      rewrite (bind_Some _ _ m2 tt m3) by done.
      by replace (Z.of_nat (16 + 16 * n) - 16) with (Z.of_nat (16 * n)) by lia.
    + apply mread_join; [|done]. rewrite (mframe_read _ _ _ Hfr); [read_back| |].
      * read_back. done.
      * repeat constructor; cbn [fst snd]; solve_pdisj.
    + done.
    + frame_back.
Qed.
End Sm4Facts.

(** ** Properties *)
Section Sm4Properties.
Context {tgt : Target}.
Import Sm4Spec Sm4SpecFacts.

Lemma sm4_block_cipher ctx ctx' key :
  length (sk ctx) = 32%nat → length (sk ctx') = 32%nat → is_bytes key →
  BlockCipher (sm4_one_round (sk (sm4_setkey_enc ctx key)))
              (sm4_one_round (sk (sm4_setkey_dec ctx' key))).
Proof.
  intros Hc Hc' Hk. split.
  - intros. apply sm4_one_round_length.
  - intros. apply sm4_one_round_bytes.
  - intros b Hl Hb. rewrite sm4_setkey_dec_crypt by (done || apply sm4_one_round_bytes).
    rewrite sm4_setkey_enc_crypt by done. unfold decrypt_block, encrypt_block.
    rewrite quad_of_bytes_of_quad, crypt_inverse.
    + by apply bytes_of_quad_of_bytes.
    + apply reverse_quad_word, rounds_word, quad_of_bytes_word. done.
Qed.

(** C2: with the key schedules of [sm4_setkey_enc] and [sm4_setkey_dec], the block
    function [sm4_one_round] computes SM4 encryption and decryption as GM/T
    0002-2012 defines them on 32-bit words. It does so on every target, also where
    [unsigned long] has 64 bits and the upper halves of the round keys and of the
    state hold garbage. *)
Theorem sm4_block_refines_standard ctx key block :
  length (sk ctx) = 32%nat → is_bytes key → is_bytes block →
  sm4_one_round (sk (sm4_setkey_enc ctx key)) block = encrypt_block key block ∧
  sm4_one_round (sk (sm4_setkey_dec ctx key)) block = decrypt_block key block.
Proof.
  intros. split; [by apply sm4_setkey_enc_crypt|by apply sm4_setkey_dec_crypt].
Qed.

(** Decryption of a block undoes its encryption with the same key, whatever the
    two contexts held before. *)
Theorem sm4_block_roundtrip ctx ctx' key block :
  length (sk ctx) = 32%nat → length (sk ctx') = 32%nat → is_bytes key →
  is_bytes block → length block = 16%nat →
  sm4_one_round (sk (sm4_setkey_dec ctx' key)) (sm4_one_round (sk (sm4_setkey_enc ctx key)) block)
  = block.
Proof.
  intros Hc Hc' Hk ? ?. pose proof (sm4_block_cipher ctx ctx' key Hc Hc' Hk). by apply block_inverse.
Qed.

(** C24: [sm4_crypt_ecb] on whole blocks, in place or between separate buffers, has
    no undefined behaviour, writes the standard's ECB encryption to the output and
    nothing else, and a second call with the decryption context gives the
    plaintext back. *)
Theorem sm4_ecb_roundtrip ctx ctx' key n input output result m bs :
  length (sk ctx) = 32%nat → length (sk ctx') = 32%nat → is_bytes key → is_bytes bs →
  mread m input (16 * n) = Some bs → mvalid m output (16 * n) → mvalid m result (16 * n) →
  same_or_apart output input (16 * n) → same_or_apart result output (16 * n) →
  ∃ m1 m2,
    sm4_crypt_ecb (sm4_setkey_enc ctx key) SM4_ENCRYPT (Z.of_nat (16 * n)) input output m
      = Some (tt, m1) ∧
    mwrite m output (blockwise (encrypt_block key) 16 bs) = Some m1 ∧
    sm4_crypt_ecb (sm4_setkey_dec ctx' key) SM4_DECRYPT (Z.of_nat (16 * n)) output result m1
      = Some (tt, m2) ∧
    mwrite m1 result bs = Some m2.
Proof.
  intros Hc Hc' Hk Hb Hr Hvo Hvr Hoi Hro.
  pose proof (sm4_block_cipher ctx ctx' key Hc Hc' Hk) as HE.
  set (E := sm4_one_round (sk (sm4_setkey_enc ctx key))) in HE.
  set (D := sm4_one_round (sk (sm4_setkey_dec ctx' key))) in HE.
  assert (Hlen := mread_length _ _ _ _ Hr).
  destruct (sm4_ecb_loop_ok (sk (sm4_setkey_enc ctx key)) n (Z.to_nat (Z.of_nat (16 * n)))
    input output m bs) as (m1 & Hw1 & Hrun1); [lia|done..|].
  fold E in Hw1.
  assert (HlE : length (blockwise E 16 bs) = (16 * n)%nat).
  { rewrite <- Hlen. eapply blockwise_length; [lia|intros; apply block_length|done]. }
  destruct (sm4_ecb_loop_ok (sk (sm4_setkey_dec ctx' key)) n (Z.to_nat (Z.of_nat (16 * n)))
    output result m1 (blockwise E 16 bs)) as (m2 & Hw2 & Hrun2); [lia|by read_back..|done|].
  fold D in Hw2. exists m1, m2. split_and!; [done| |done|].
  - rewrite <- Hw1. f_equal. apply (blockwise_ext _ _ 16 n); [lia| |done|done].
    intros b Hlb Hbb. symmetry. by apply sm4_setkey_enc_crypt.
  - rewrite <- Hw2. f_equal. symmetry. apply (blockwise_inverse E D 16 n); [lia| |done|done].
    intros b Hlb Hbb. split; [apply block_length|by apply block_inverse].
Qed.

(** C26: [sm4_crypt_cbc] with [SM4_ENCRYPT] and then with [SM4_DECRYPT] on whole blocks,
    in place or between separate buffers: no undefined behaviour, the output is the
    CBC encryption, the chaining buffer is left with the last ciphertext block by
    both directions, and the plaintext comes back when decryption starts from the
    same chaining value. *)
Theorem sm4_cbc_roundtrip ctx ctx' key n iv iv' input output result m bs v :
  length (sk ctx) = 32%nat → length (sk ctx') = 32%nat → is_bytes key → is_bytes bs →
  is_bytes v → mread m input (16 * n) = Some bs → mread m iv 16 = Some v →
  mread m iv' 16 = Some v → mvalid m output (16 * n) → mvalid m result (16 * n) →
  same_or_apart output input (16 * n) → same_or_apart result output (16 * n) →
  apart [(output, 16 * n)%nat; (iv', 16%nat); (input, 16 * n)%nat] iv 16 →
  apart [(output, 16 * n)%nat; (result, 16 * n)%nat] iv' 16 →
  ∃ m1 m2,
    let c := cbc_encrypt (encrypt_block key) v bs in
    sm4_crypt_cbc (sm4_setkey_enc ctx key) SM4_ENCRYPT (Z.of_nat (16 * n)) iv input output m
      = Some (tt, m1) ∧
    mread m1 output (16 * n) = Some c.1 ∧ mread m1 iv 16 = Some c.2 ∧
    mframe [(output, 16 * n)%nat; (iv, 16%nat)] m m1 ∧
    sm4_crypt_cbc (sm4_setkey_dec ctx' key) SM4_DECRYPT (Z.of_nat (16 * n)) iv' output result m1
      = Some (tt, m2) ∧
    mread m2 result (16 * n) = Some bs ∧ mread m2 iv' 16 = Some c.2 ∧
    mframe [(result, 16 * n)%nat; (iv', 16%nat)] m1 m2.
Proof.
  intros Hc Hc' Hk Hb Hvb Hr Hiv Hiv' Hvo Hvr Hoi Hro Hap Hap'.
  unfold apart in Hap, Hap'. split_Forall. cbn [fst snd] in *.
  pose proof (sm4_block_cipher ctx ctx' key Hc Hc' Hk) as HE.
  set (E := sm4_one_round (sk (sm4_setkey_enc ctx key))) in HE.
  set (D := sm4_one_round (sk (sm4_setkey_dec ctx' key))) in HE.
  assert (Hlen := mread_length _ _ _ _ Hr). assert (Hlv := mread_length _ _ _ _ Hiv).
  assert (Heq : cbc_encrypt (encrypt_block key) v bs = cbc_encrypt E v bs).
  { apply (cbc_encrypt_ext E D _ n); [|done..].
    intros b Hlb Hbb. symmetry. by apply sm4_setkey_enc_crypt. }
  destruct (sm4_cbc_encrypt_loop_ok (sk (sm4_setkey_enc ctx key)) n (Z.to_nat (Z.of_nat (16 * n)))
    iv input output m bs v) as (m1 & Hrun1 & Hout1 & Hiv1 & Hfr1); [lia|done..|by apply pdisj_sym|].
  fold E in Hout1, Hiv1. rewrite Heq.
  destruct (sm4_cbc_decrypt_loop_ok (sk (sm4_setkey_dec ctx' key)) n (Z.to_nat (Z.of_nat (16 * n)))
    iv' output result m1 (cbc_encrypt E v bs).1 v) as (m2 & Hrun2 & Hout2 & Hiv2 & Hfr2);
    [lia|done| |by eapply mframe_valid|done|done|by apply pdisj_sym|].
  { rewrite (mframe_read _ _ _ Hfr1); [done|by eapply mread_mvalid|].
    by repeat constructor; [|apply pdisj_sym]. }
  fold D in Hout2, Hiv2.
  rewrite (cbc_roundtrip E D n) in Hout2, Hiv2 by done.
  exists m1, m2. split_and!; done.
Qed.

Lemma sm4_ecb_loop_overrun sk r n : ∀ fuel input output m,
  0 < r <= 16 → ¬ mvalid m input (16 * S n) →
  sm4_ecb_loop fuel sk (Z.of_nat (16 * n) + r) input output m = None.
Proof.
  induction n as [|n IH]; intros fuel input output m Hr Hnv;
    (destruct fuel as [|fuel]; cbn [sm4_ecb_loop]; rewrite decide_True by lia; [done|]);
    unfold sm4_block, mbind, C_bind.
  - by rewrite load_None.
  - destruct (load input 16 m) as [[x m0]|] eqn:Hx; [|done].
    apply load_inv in Hx as [Hx ->]. unfold store.
    destruct (mwrite m output _) as [m1|] eqn:Hw; [|done].
    replace (Z.of_nat (16 * S n) + r - 16) with (Z.of_nat (16 * n) + r) by lia.
    apply IH; [done|]. intros Hv%(mvalid_mwrite_iff _ _ _ _ _ _ Hw). apply Hnv.
    replace (16 * S (S n))%nat with (16 + 16 * S n)%nat by lia.
    apply mvalid_join; [by eapply mread_mvalid|done].
Qed.

(** For a length that is not a multiple of 16 [sm4_crypt_ecb] processes a whole
    last block all the same: when the input object ends before it, the call reads
    outside the object. The length of the input data must be rounded up by the
    caller. *)
Theorem sm4_ecb_partial_block_overrun ctx mode length input output m :
  0 < length → length mod 16 ≠ 0 →
  ¬ mvalid m input (16 * S (Z.to_nat (length / 16))) →
  sm4_crypt_ecb ctx mode length input output m = None.
Proof.
  intros Hl Hmod Hnv. unfold sm4_crypt_ecb. pose proof (Z.div_mod length 16).
  pose proof (Z.mod_pos_bound length 16). pose proof (Z.div_pos length 16).
  replace length with (Z.of_nat (16 * Z.to_nat (length / 16)) + length mod 16) at 2 by lia.
  by apply sm4_ecb_loop_overrun; [lia|].
Qed.
End Sm4Properties.

(** ** Witnesses: the test vector of the standard, also the first one in the
    source's header comment *)
Definition example_key : list Z :=
  [0x01; 0x23; 0x45; 0x67; 0x89; 0xab; 0xcd; 0xef; 0xfe; 0xdc; 0xba; 0x98; 0x76; 0x54; 0x32; 0x10].
Definition example_ctx : sm4_context := {| mode := 0; sk := replicate 32 0 |}.
(** Two blocks of plaintext, two output buffers, a chaining buffer for each direction. *)
Definition example_mem : mem :=
  {[ 1%positive := Some <$> (example_key ++ example_key); 2%positive := replicate 32 None;
     3%positive := replicate 32 None; 4%positive := Some <$> replicate 16 7;
     5%positive := Some <$> replicate 16 7 ]}.

Example sm4_standard_vector :
  Sm4Spec.encrypt_block example_key example_key =
  [0x68; 0x1e; 0xdf; 0x34; 0xd2; 0x06; 0x96; 0x5e; 0x86; 0xb3; 0xe9; 0x4f; 0x53; 0x6e; 0x42; 0x46].
Proof. vm_compute. reflexivity. Qed.

Lemma sm4_block_refines_standard_witness :
  @sm4_one_round LP64_x86 (sk (@sm4_setkey_enc LP64_x86 example_ctx example_key)) example_key
    = Sm4Spec.encrypt_block example_key example_key ∧
  @sm4_one_round LP64_x86 (sk (@sm4_setkey_dec LP64_x86 example_ctx example_key)) example_key
    = Sm4Spec.decrypt_block example_key example_key.
Proof. apply sm4_block_refines_standard; [reflexivity|decide_by_compute..]. Defined.

Lemma sm4_block_roundtrip_witness :
  @sm4_one_round LP64_x86 (sk (@sm4_setkey_dec LP64_x86 example_ctx example_key))
    (@sm4_one_round LP64_x86 (sk (@sm4_setkey_enc LP64_x86 example_ctx example_key)) example_key)
  = example_key.
Proof. apply sm4_block_roundtrip; [reflexivity|reflexivity|decide_by_compute..|reflexivity]. Defined.

Lemma sm4_ecb_roundtrip_witness :
  ∃ m1 m2,
    @sm4_crypt_ecb LP64_x86 (@sm4_setkey_enc LP64_x86 example_ctx example_key) SM4_ENCRYPT 32
      (Ptr 1 0) (Ptr 2 0) example_mem = Some (tt, m1) ∧
    mwrite example_mem (Ptr 2 0)
      (blockwise (Sm4Spec.encrypt_block example_key) 16 (example_key ++ example_key)) = Some m1 ∧
    @sm4_crypt_ecb LP64_x86 (@sm4_setkey_dec LP64_x86 example_ctx example_key) SM4_DECRYPT 32
      (Ptr 2 0) (Ptr 3 0) m1 = Some (tt, m2) ∧
    mwrite m1 (Ptr 3 0) (example_key ++ example_key) = Some m2.
Proof.
  apply (sm4_ecb_roundtrip (tgt := LP64_x86) example_ctx example_ctx example_key 2);
    [reflexivity|reflexivity|decide_by_compute..].
Defined.

Lemma sm4_cbc_roundtrip_witness :
  ∃ m1 m2,
    let c := cbc_encrypt (Sm4Spec.encrypt_block example_key) (replicate 16 7)
               (example_key ++ example_key) in
    @sm4_crypt_cbc LP64_x86 (@sm4_setkey_enc LP64_x86 example_ctx example_key) SM4_ENCRYPT 32
      (Ptr 4 0) (Ptr 1 0) (Ptr 2 0) example_mem = Some (tt, m1) ∧
    mread m1 (Ptr 2 0) 32 = Some c.1 ∧ mread m1 (Ptr 4 0) 16 = Some c.2 ∧
    mframe [(Ptr 2 0, 32%nat); (Ptr 4 0, 16%nat)] example_mem m1 ∧
    @sm4_crypt_cbc LP64_x86 (@sm4_setkey_dec LP64_x86 example_ctx example_key) SM4_DECRYPT 32
      (Ptr 5 0) (Ptr 2 0) (Ptr 3 0) m1 = Some (tt, m2) ∧
    mread m2 (Ptr 3 0) 32 = Some (example_key ++ example_key) ∧ mread m2 (Ptr 5 0) 16 = Some c.2 ∧
    mframe [(Ptr 3 0, 32%nat); (Ptr 5 0, 16%nat)] m1 m2.
Proof.
  apply (sm4_cbc_roundtrip (tgt := LP64_x86) example_ctx example_ctx example_key 2);
    [reflexivity|reflexivity|decide_by_compute..].
Defined.

Lemma sm4_ecb_partial_block_overrun_witness :
  @sm4_crypt_ecb LP64_x86 (@sm4_setkey_enc LP64_x86 example_ctx example_key) SM4_ENCRYPT 20
    (Ptr 1 8) (Ptr 2 0) example_mem = None.
Proof.
  apply sm4_ecb_partial_block_overrun; [reflexivity|discriminate|].
  decide_by_compute.
Defined.
