(* ===== verification/Sm3.v ===== *)
(** * Sm3: the SM3 hash ([src/sm2/sm3.c])

    As in [Sm4], the words are [unsigned long]; [Sm3Spec] is the hash of GM/T
    0004-2012 on 32-bit words. Here the upper halves do matter: with a 64-bit
    [unsigned long] the right shift of [ROTATE] brings them down. *)

From S2P Require Import Prelude Target Mem.

Definition SM3_CBLOCK : nat := 64.
Definition SM3_LAST_BLOCK : Z := 56.

(** [SM3_CTX]. *)
Record SM3_CTX := {
  h : list Z;       (* unsigned long h[8] *)
  Nl : Z; Nh : Z;   (* the length in bits, low and high word *)
  data : list Z;    (* unsigned long data[16] *)
  num : Z;          (* unsigned int *)
}.

(** The working registers [a] to [h] of [sm3_block]. *)
Record regs := { ra : Z; rb : Z; rc : Z; rd : Z; re : Z; rf : Z; rg : Z; rh : Z }.

(** ** The hash of the standard *)
Module Sm3Spec.

Definition P0 (x : Z) : Z := Z.lxor (Z.lxor x (rotl32 x 9)) (rotl32 x 17).
Definition P1 (x : Z) : Z := Z.lxor (Z.lxor x (rotl32 x 15)) (rotl32 x 23).
Definition FF (j : nat) (x y z : Z) : Z :=
  if decide (j < 16)%nat then Z.lxor (Z.lxor x y) z
  else Z.lor (Z.lor (Z.land x y) (Z.land x z)) (Z.land y z).
Definition GG (j : nat) (x y z : Z) : Z :=
  if decide (j < 16)%nat then Z.lxor (Z.lxor x y) z
  else Z.lor (Z.land x y) (Z.land (wrap 32 (Z.lnot x)) z).
Definition T (j : nat) : Z := if decide (j < 16)%nat then 0x79cc4519 else 0x7a879d8a.

Definition add32 (x y : Z) : Z := wrap 32 (x + y).

(** Message expansion: [W] grows by one word per turn, 68 in the end. *)
Definition expand_step (W : list Z) (j : nat) : list Z :=
  W ++ [Z.lxor (Z.lxor (P1 (Z.lxor (Z.lxor (W !!! (j - 16)%nat) (W !!! (j - 9)%nat))
                             (rotl32 (W !!! (j - 3)%nat) 15)))
                 (rotl32 (W !!! (j - 13)%nat) 7)) (W !!! (j - 6)%nat)].
Definition expand (B : list Z) : list Z := foldl expand_step B (seq 16 52).
Definition W' (W : list Z) (j : nat) : Z := Z.lxor (W !!! j) (W !!! (j + 4)%nat).

Definition round (W : list Z) (r : regs) (j : nat) : regs :=
  let SS1 := rotl32 (add32 (add32 (rotl32 (ra r) 12) (re r)) (rotl32 (T j) (Z.of_nat j mod 32))) 7 in
  let SS2 := Z.lxor SS1 (rotl32 (ra r) 12) in
  let TT1 := add32 (add32 (add32 (FF j (ra r) (rb r) (rc r)) (rd r)) SS2) (W' W j) in
  let TT2 := add32 (add32 (add32 (GG j (re r) (rf r) (rg r)) (rh r)) SS1) (W !!! j) in
  {| ra := TT1; rb := ra r; rc := rotl32 (rb r) 9; rd := rc r;
     re := P0 TT2; rf := re r; rg := rotl32 (rf r) 19; rh := rg r |}.

Definition lxor_regs (V r : regs) : regs :=
  {| ra := Z.lxor (ra V) (ra r); rb := Z.lxor (rb V) (rb r); rc := Z.lxor (rc V) (rc r);
     rd := Z.lxor (rd V) (rd r); re := Z.lxor (re V) (re r); rf := Z.lxor (rf V) (rf r);
     rg := Z.lxor (rg V) (rg r); rh := Z.lxor (rh V) (rh r) |}.

Definition CF (V : regs) (B : list Z) : regs :=
  lxor_regs V (foldl (round (expand B)) V (seq 0 64)).

Definition IV : regs :=
  {| ra := 0x7380166f; rb := 0x4914b2b9; rc := 0x172442d7; rd := 0xda8a0600;
     re := 0xa96f30bc; rf := 0x163138aa; rg := 0xe38dee4d; rh := 0xb0fb0e4e |}.

(** A block of 64 bytes as 16 big-endian words. *)
Definition words_of_block (b : list Z) : list Z :=
  (λ i, be_word (b !!! (4 * i)%nat) (b !!! (4 * i + 1)%nat)
                (b !!! (4 * i + 2)%nat) (b !!! (4 * i + 3)%nat)) <$> seq 0 16.

(** Padding: a one bit, zeros up to 56 modulo 64 bytes, the length in bits. *)
Definition pad_zeros (n : nat) : nat := Z.to_nat ((55 - Z.of_nat n) mod 64).
Definition pad (m : list Z) : list Z :=
  m ++ [0x80] ++ replicate (pad_zeros (length m)) 0
    ++ be_bytes (wrap 32 (Z.shiftr (8 * Z.of_nat (length m)) 32))
    ++ be_bytes (wrap 32 (8 * Z.of_nat (length m))).

Definition digest (r : regs) : list Z :=
  be_bytes (ra r) ++ be_bytes (rb r) ++ be_bytes (rc r) ++ be_bytes (rd r) ++
  be_bytes (re r) ++ be_bytes (rf r) ++ be_bytes (rg r) ++ be_bytes (rh r).

Definition hash (m : list Z) : list Z :=
  digest (foldl (λ V b, CF V (words_of_block b)) IV (chunks 64 (pad m))).

End Sm3Spec.

(** ** The code *)
Section Sm3.
Context {tgt : Target}.

(** [c_2_nl(c)] at offset [i] of [d]: an [int], negative when the first byte is
    128 or more. *)
Definition c_2_nl (d : list Z) (i : nat) : Z :=
  to_signed 32 (Z.lor (Z.lor (Z.lor (Z.shiftl (d !!! i) 24) (Z.shiftl (d !!! (i + 1)%nat) 16))
                             (Z.shiftl (d !!! (i + 2)%nat) 8)) (d !!! (i + 3)%nat)).

(** [nl2c(l,c)]: the four bytes written. *)
Definition nl2c (l : Z) : list Z :=
  [wrap 8 (Z.land (Z.shiftr l 24) 0xff); wrap 8 (Z.land (Z.shiftr l 16) 0xff);
   wrap 8 (Z.land (Z.shiftr l 8) 0xff); wrap 8 (Z.land l 0xff)].

(** [ROTATE(X, C)] for [X] an [unsigned long]. *)
Definition ROTATE (x n : Z) : Z := Z.lor (ulong_shl x n) (Z.shiftr x (32 - n)).

(** [ROTATE(X, C)] for [X] a positive [int] constant: the shifts are those of
    [int], and one of them is by 32 when [C] is 0 or 32. *)
Definition int_shl (x n : Z) : Z :=
  if decide (n = 32) then shift_by_32 x else to_signed 32 (Z.shiftl x n).
Definition int_shr (x n : Z) : Z := if decide (n = 32) then shift_by_32 x else Z.shiftr x n.
Definition ROTATE_int (x n : Z) : Z := Z.lor (int_shl x n) (int_shr x (32 - n)).

Definition TH : Z := 0x79cc4519.
Definition TL : Z := 0x7a879d8a.
Definition FFH (x y z : Z) : Z := Z.lxor (Z.lxor x y) z.
Definition FFL (x y z : Z) : Z := Z.lor (Z.lor (Z.land x y) (Z.land x z)) (Z.land y z).
Definition GGH (x y z : Z) : Z := Z.lxor (Z.lxor x y) z.
Definition GGL (x y z : Z) : Z := Z.lor (Z.land x y) (Z.land (ulong_not x) z).
Definition P0 (x : Z) : Z :=
  Z.lxor (Z.lxor x (Z.lor (ulong_shl x 9) (Z.shiftr x 23))) (Z.lor (ulong_shl x 17) (Z.shiftr x 15)).
Definition P1 (x : Z) : Z :=
  Z.lxor (Z.lxor x (Z.lor (ulong_shl x 15) (Z.shiftr x 17))) (Z.lor (ulong_shl x 23) (Z.shiftr x 9)).

(** The three loops that fill [w[132]]: the 16 words of the block, the 52 words
    of the expansion, the 64 words [w[j] ^ w[j+4]]. *)
Definition w_copy (d : list Z) (j : nat) (w : list Z) : list Z := <[j := d !!! j]> w.
Definition w_expand (j : nat) (w : list Z) : list Z :=
  let t := Z.lxor (Z.lxor (w !!! (j - 16)%nat) (w !!! (j - 9)%nat)) (ROTATE (w !!! (j - 3)%nat) 15) in
  <[j := Z.lxor (Z.lxor (P1 t) (ROTATE (w !!! (j - 13)%nat) 7)) (w !!! (j - 6)%nat)]> w.
Definition w_second (j : nat) (w : list Z) : list Z :=
  <[(j + 68)%nat := Z.lxor (w !!! j) (w !!! (j + 4)%nat)]> w.
Definition sm3_w (d : list Z) : list Z :=
  for_loop 0 64 w_second (for_loop 16 68 w_expand (for_loop 0 16 (w_copy d) (replicate 132 0))).

(** One turn of the three round loops: they differ in the boolean functions and
    in the constant added. *)
Definition sm3_round (FF GG : Z → Z → Z → Z) (Tj : nat → Z) (w : list Z)
    (j : nat) (r : regs) : regs :=
  let ss1 := ROTATE (ulong_add (ulong_add (ROTATE (ra r) 12) (re r)) (ulong (Tj j))) 7 in
  let ss2 := Z.lxor ss1 (ROTATE (ra r) 12) in
  let tt1 := ulong_add (ulong_add (ulong_add (FF (ra r) (rb r) (rc r)) (rd r)) ss2)
               (w !!! (68 + j)%nat) in
  let tt2 := ulong_add (ulong_add (ulong_add (GG (re r) (rf r) (rg r)) (rh r)) ss1) (w !!! j) in
  {| rd := rc r; rc := ROTATE (rb r) 9; rb := ra r; ra := tt1;
     rh := rg r; rg := ROTATE (rf r) 19; rf := re r; re := P0 tt2 |}.

Definition sm3_rounds (w : list Z) (r : regs) : regs :=
  for_loop 33 64 (sm3_round FFL GGL (λ j, ROTATE_int TL (Z.of_nat (j - 32))) w)
    (for_loop 16 33 (sm3_round FFL GGL (λ j, ROTATE_int TL (Z.of_nat j)) w)
      (for_loop 0 16 (sm3_round FFH GGH (λ j, ROTATE_int TH (Z.of_nat j)) w) r)).

Definition regs_of (l : list Z) : regs :=
  {| ra := l !!! 0%nat; rb := l !!! 1%nat; rc := l !!! 2%nat; rd := l !!! 3%nat;
     re := l !!! 4%nat; rf := l !!! 5%nat; rg := l !!! 6%nat; rh := l !!! 7%nat |}.
Definition regs_list (r : regs) : list Z := [ra r; rb r; rc r; rd r; re r; rf r; rg r; rh r].

Definition sm3_block (ctx : SM3_CTX) : SM3_CTX :=
  let r := sm3_rounds (sm3_w (data ctx)) (regs_of (h ctx)) in
  {| h := zip_with Z.lxor (h ctx) (regs_list r);
     Nl := Nl ctx; Nh := Nh ctx; data := data ctx; num := num ctx |}.

Definition SM3_Init (ctx : SM3_CTX) : SM3_CTX :=
  {| h := [0x7380166f; 0x4914b2b9; 0x172442d7; 0xda8a0600;
           0xa96f30bc; 0x163138aa; 0xe38dee4d; 0xb0fb0e4e];
     Nl := 0; Nh := 0; data := data ctx; num := 0 |}.

Definition set_data (ctx : SM3_CTX) (d : list Z) : SM3_CTX :=
  {| h := h ctx; Nl := Nl ctx; Nh := Nh ctx; data := d; num := num ctx |}.

(** [memset(ctx->data, 0, n)]: it counts bytes, and a word has 8 of them where
    [unsigned long] has 64 bits. *)
Definition memset_data (n : Z) (d : list Z) : list Z :=
  let words := Z.to_nat (8 * n / ulong_bits) in replicate words 0 ++ drop words d.

(** The length counters after [len] more bytes. *)
Definition sm3_count (ctx : SM3_CTX) (len : Z) : SM3_CTX :=
  let l := Z.land (ulong_add (Nl ctx) (wrap 32 (Z.shiftl len 3))) 0xffffffff in
  let nh := if decide (l < Nl ctx) then ulong_add (Nh ctx) 1 else Nh ctx in
  {| h := h ctx; Nl := l; Nh := ulong_add nh (Z.shiftr len 29);
     data := data ctx; num := num ctx |}.

(** [while (len >= SM3_CBLOCK)]: the context and the bytes that are left. *)
Fixpoint sm3_update_blocks (fuel : nat) (ctx : SM3_CTX) (d : list Z) : SM3_CTX * list Z :=
  match fuel with
  | O => (ctx, d)
  | S fuel =>
      if decide (SM3_CBLOCK ≤ length d)%nat then
        let ctx := set_data ctx ((λ k, ulong (c_2_nl d (4 * k))) <$> seq 0 16) in
        sm3_update_blocks fuel (sm3_block ctx) (drop SM3_CBLOCK d)
      else (ctx, d)
  end.

(** The switch on [sc]: the word with the last bytes and the one bit after them. *)
Definition sm3_last_word (d : list Z) (sw : nat) (sc : Z) : Z :=
  let b i := d !!! (4 * sw + i)%nat in
  if decide (sc = 0) then 0x80000000
  else if decide (sc = 1) then ulong (to_signed 32 (Z.lor (Z.shiftl (b 0%nat) 24) 0x800000))
  else if decide (sc = 2) then
    ulong (to_signed 32 (Z.lor (Z.lor (Z.shiftl (b 0%nat) 24) (Z.shiftl (b 1%nat) 16)) 0x8000))
  else ulong (to_signed 32 (Z.lor (Z.lor (Z.lor (Z.shiftl (b 0%nat) 24) (Z.shiftl (b 1%nat) 16))
                                          (Z.shiftl (b 2%nat) 8)) 0x80)).

(** The last, partial block [d], between 1 and 63 bytes. *)
Definition sm3_update_rest (ctx : SM3_CTX) (d : list Z) : SM3_CTX :=
  let len := Z.of_nat (length d) in
  let sw := Z.to_nat (Z.shiftr len 2) in
  let sc := Z.land len 0x3 in
  let words := for_loop 0 sw (λ i l, <[i := ulong (c_2_nl d (4 * i))]> l)
                 (memset_data 64 (data ctx)) in
  {| h := h ctx; Nl := Nl ctx; Nh := Nh ctx;
     data := <[sw := sm3_last_word d sw sc]> words; num := len + 1 |}.

(** [SM3_Update(ctx, data, len)] on the [len] bytes [d]. *)
Definition SM3_Update (ctx : SM3_CTX) (d : list Z) : SM3_CTX :=
  if decide (length d = 0%nat) then ctx
  else
    let ctx := sm3_count ctx (Z.of_nat (length d)) in
    let '(ctx, rest) := sm3_update_blocks (length d) ctx d in
    if decide (0 < length rest)%nat then sm3_update_rest ctx rest else ctx.

(** [SM3_Final(md, ctx)]: the context and the 32 bytes written to [md]. *)
Definition SM3_Final (ctx : SM3_CTX) : SM3_CTX * list Z :=
  let ctx :=
    if decide (num ctx = 0) then
      set_data ctx (<[15%nat := Nl ctx]> (<[14%nat := Nh ctx]>
        (<[0%nat := 0x80000000]> (memset_data 64 (data ctx)))))
    else if decide (num ctx <= SM3_LAST_BLOCK) then
      set_data ctx (<[15%nat := Nl ctx]> (<[14%nat := Nh ctx]> (data ctx)))
    else
      let ctx := sm3_block ctx in
      set_data ctx (<[15%nat := Nl ctx]> (<[14%nat := Nh ctx]> (memset_data 56 (data ctx)))) in
  let ctx := sm3_block ctx in
  (ctx, mjoin (nl2c <$> h ctx)).

(** [stack] is what the stack holds where [sm3] puts its context. *)
Definition sm3_digest (stack : SM3_CTX) (d : list Z) : list Z :=
  (SM3_Final (SM3_Update (SM3_Init stack) d)).2.

(** [sm3(d, n, md)]: the input is read to its end before [md] is written. *)
Definition sm3 (stack : SM3_CTX) (d : ptr) (n : nat) (md : ptr) : C unit :=
  bytes ← (if decide (n = 0%nat) then mret [] else load d n);
  store md (sm3_digest stack bytes).
End Sm3.

(** ** Where [unsigned long] has 32 bits the code computes the standard's hash *)
Section Sm3Facts.
Context {tgt : Target} (H32 : ulong_bits = 32).

Lemma ulong_32 x : ulong x = wrap 32 x.
Proof. unfold ulong. by rewrite H32. Qed.

Lemma ROTATE_rotl32 x n : ROTATE x n = rotl32 x n.
Proof. unfold ROTATE, ulong_shl. by rewrite ulong_32. Qed.

Lemma P0_spec x : P0 x = Sm3Spec.P0 x.
Proof. unfold P0, ulong_shl. by rewrite !ulong_32. Qed.

Lemma P1_spec x : P1 x = Sm3Spec.P1 x.
Proof. unfold P1, ulong_shl. by rewrite !ulong_32. Qed.

(** The rotated constants: also where the code shifts an [int] by 32 places. *)
Lemma ROTATE_int_spec x n :
  0 <= x < 2 ^ 31 → 0 <= n <= 32 → ulong (ROTATE_int x n) = rotl32 x (n mod 32).
Proof.
  intros Hx Hn. rewrite ulong_32. assert (is_word 32 x) by (unfold is_word; lia).
  assert (Hs : Z.lor x (shift_by_32 x) = x).
  { destruct (shift_by_32_ok x) as [-> | ->]; [apply Z.lor_diag|apply Z.lor_0_r]. }
  assert (Hr0 : rotl32 x 0 = x).
  { unfold rotl32. rewrite Z.shiftl_0_r, wrap_small by done. bitwise. }
  unfold ROTATE_int, int_shl, int_shr.
  destruct (decide (n = 32)) as [->|]; [|destruct (decide (32 - n = 32))].
  - rewrite decide_False by lia. rewrite Z.sub_diag, Z.shiftr_0_r, Z.lor_comm, Hs, Z_mod_same_full, Hr0.
    by apply wrap_small.
  - replace n with 0 by lia. rewrite Z.shiftl_0_r, to_signed_small, Hs by lia.
    rewrite Zmod_0_l, Hr0. by apply wrap_small.
  - rewrite Z.mod_small by lia. unfold rotl32. rewrite wrap_lor, wrap_to_signed by lia.
    f_equal. apply wrap_small. words.
Qed.

Lemma memset_data_64 d : length d = 16%nat → memset_data 64 d = replicate 16 0.
Proof.
  intros Hd. unfold memset_data. rewrite H32. cbv zeta. rewrite drop_ge, app_nil_r; [done|].
  rewrite Hd. done.
Qed.

Lemma memset_data_56 d : memset_data 56 d = replicate 14 0 ++ drop 14 d.
Proof. unfold memset_data. by rewrite H32. Qed.

(** *** Message expansion *)

Definition expanded (B : list Z) (i : nat) : list Z :=
  foldl Sm3Spec.expand_step B (seq 16 (i - 16)).

Lemma expand_expanded B : Sm3Spec.expand B = expanded B 68.
Proof. unfold Sm3Spec.expand, expanded. by f_equal. Qed.

Lemma expanded_S B i :
  (16 ≤ i)%nat → expanded B (S i) = Sm3Spec.expand_step (expanded B i) i.
Proof.
  intros. unfold expanded. replace (S i - 16)%nat with (S (i - 16)) by lia.
  rewrite seq_S, foldl_app. simpl. f_equal. lia.
Qed.

Lemma w_expand_inv B w i :
  length B = 16%nat → length w = 132%nat → (∀ j, (j < 16)%nat → w !!! j = B !!! j) →
  (16 ≤ i ≤ 68)%nat →
  length (expanded B i) = i ∧ length (for_loop 16 i w_expand w) = 132%nat ∧
  ∀ j, (j < i)%nat → for_loop 16 i w_expand w !!! j = expanded B i !!! j.
Proof.
  intros HB Hw Hj Hi.
  apply (for_loop_ind (λ i w, (i ≤ 68)%nat → length (expanded B i) = i ∧ length w = 132%nat ∧
    ∀ j, (j < i)%nat → w !!! j = expanded B i !!! j)); [lia| | |lia].
  - intros _. unfold expanded. rewrite Nat.sub_diag. cbn [seq foldl]. done.
  - intros k w' Hk IH Hle. destruct IH as (Hl & Hw' & Hsame); [lia|].
    rewrite expanded_S by lia. unfold w_expand, Sm3Spec.expand_step. cbv zeta.
    rewrite length_app, length_insert, Hl. cbn [length].
    split_and!; [lia|done|]. intros j Hlt. destruct (decide (j = k)) as [->|].
    + rewrite list_lookup_total_insert_eq by lia. rewrite lookup_total_app_r, Hl, Nat.sub_diag by lia.
      rewrite !Hsame, !ROTATE_rotl32, P1_spec by lia. done.
    + rewrite list_lookup_total_insert_ne by done. rewrite lookup_total_app_l by lia. apply Hsame. lia.
Qed.

Lemma w_copy_inv B i :
  (i ≤ 16)%nat → length B = 16%nat →
  length (for_loop 0 i (w_copy B) (replicate 132 0)) = 132%nat ∧
  ∀ j, (j < i)%nat → for_loop 0 i (w_copy B) (replicate 132 0) !!! j = B !!! j.
Proof.
  intros Hi HB. apply (for_loop_ind (λ i w, (i ≤ 16)%nat →
    length w = 132%nat ∧ ∀ j, (j < i)%nat → w !!! j = B !!! j)); [lia| | |lia].
  - intros _. split; [done|lia].
  - intros k w Hk IH Hle. destruct IH as [Hl Hw]; [lia|]. unfold w_copy. rewrite length_insert.
    split; [done|]. intros j Hlt. destruct (decide (k = j)) as [->|].
    + by rewrite list_lookup_total_insert_eq by lia.
    + rewrite list_lookup_total_insert_ne by done. apply Hw. lia.
Qed.

Lemma w_second_inv w0 i :
  (i ≤ 64)%nat → length w0 = 132%nat →
  length (for_loop 0 i w_second w0) = 132%nat ∧
  (∀ j, (j < 68)%nat → for_loop 0 i w_second w0 !!! j = w0 !!! j) ∧
  ∀ j, (j < i)%nat → for_loop 0 i w_second w0 !!! (68 + j)%nat = Z.lxor (w0 !!! j) (w0 !!! (j + 4)%nat).
Proof.
  intros Hi Hl0. apply (for_loop_ind (λ i w, (i ≤ 64)%nat → length w = 132%nat ∧
    (∀ j, (j < 68)%nat → w !!! j = w0 !!! j) ∧
    ∀ j, (j < i)%nat → w !!! (68 + j)%nat = Z.lxor (w0 !!! j) (w0 !!! (j + 4)%nat))); [lia| | |lia].
  - intros _. split_and!; [done|done|lia].
  - intros k w Hk IH Hle. destruct IH as (Hl & Hlow & Hhigh); [lia|]. unfold w_second.
    rewrite length_insert. split_and!; [done| |].
    + intros j Hj. rewrite list_lookup_total_insert_ne by lia. by apply Hlow.
    + intros j Hj. destruct (decide (k = j)) as [->|].
      * replace (68 + j)%nat with (j + 68)%nat by lia. rewrite list_lookup_total_insert_eq by lia.
        by rewrite !Hlow by lia.
      * rewrite list_lookup_total_insert_ne by lia. apply Hhigh. lia.
Qed.

Lemma sm3_w_spec B :
  length B = 16%nat →
  (∀ j, (j < 68)%nat → sm3_w B !!! j = Sm3Spec.expand B !!! j) ∧
  (∀ j, (j < 64)%nat → sm3_w B !!! (68 + j)%nat = Sm3Spec.W' (Sm3Spec.expand B) j).
Proof.
  intros HB. rewrite expand_expanded.
  destruct (w_copy_inv B 16) as [H1 H2]; [lia|done|].
  destruct (w_expand_inv B _ 68 HB H1 H2) as (_ & H3 & H4); [lia|].
  destruct (w_second_inv _ 64 (Nat.le_refl _) H3) as (_ & H5 & H6).
  unfold sm3_w, Sm3Spec.W'. split; intros j Hj.
  - rewrite H5 by done. by apply H4.
  - rewrite H6 by done. by rewrite !H4 by lia.
Qed.

(** *** Rounds *)

Lemma sm3_round_spec FF GG Tj w W r j :
  (∀ x y z, FF x y z = Sm3Spec.FF j x y z) → (∀ x y z, GG x y z = Sm3Spec.GG j x y z) →
  ulong (Tj j) = rotl32 (Sm3Spec.T j) (Z.of_nat j mod 32) →
  w !!! j = W !!! j → w !!! (68 + j)%nat = Sm3Spec.W' W j →
  sm3_round FF GG Tj w j r = Sm3Spec.round W r j.
Proof.
  intros HF HG HT Hw Hw'. unfold sm3_round, Sm3Spec.round. cbv zeta.
  rewrite !ROTATE_rotl32, P0_spec, HF, HG, HT, Hw, Hw'.
  unfold ulong_add, Sm3Spec.add32. by rewrite !ulong_32.
Qed.

Lemma GGL_spec j x y z : (16 ≤ j)%nat → GGL x y z = Sm3Spec.GG j x y z.
Proof.
  intros. unfold GGL, Sm3Spec.GG, ulong_not. rewrite decide_False by lia. by rewrite ulong_32.
Qed.

Lemma foldl_for_loop {S} (f : S → nat → S) s n : foldl f s (seq 0 n) = for_loop 0 n (λ j r, f r j) s.
Proof. unfold for_loop. by rewrite Nat.sub_0_r. Qed.

Lemma sm3_rounds_spec B r :
  length B = 16%nat →
  sm3_rounds (sm3_w B) r = foldl (Sm3Spec.round (Sm3Spec.expand B)) r (seq 0 64).
Proof.
  intros HB. destruct (sm3_w_spec B HB) as [Hlow Hhigh].
  rewrite foldl_for_loop, (for_loop_split 0 33 64), (for_loop_split 0 16 33) by lia.
  unfold sm3_rounds.
  rewrite (for_loop_ext 0 16 _ (λ j r, Sm3Spec.round (Sm3Spec.expand B) r j)).
  2:{ intros j s Hj. apply sm3_round_spec; try (intros; unfold Sm3Spec.FF, Sm3Spec.GG;
        by rewrite decide_True by lia); [|apply Hlow; lia|apply Hhigh; lia].
      rewrite ROTATE_int_spec by (unfold TH; lia). unfold Sm3Spec.T. by rewrite decide_True by lia. }
  rewrite (for_loop_ext 16 33 _ (λ j r, Sm3Spec.round (Sm3Spec.expand B) r j)).
  2:{ intros j s Hj. apply sm3_round_spec; [| |  |apply Hlow; lia|apply Hhigh; lia].
      - intros. unfold Sm3Spec.FF. by rewrite decide_False by lia.
      - intros. apply GGL_spec. lia.
      - rewrite ROTATE_int_spec by (unfold TL; lia). unfold Sm3Spec.T. by rewrite decide_False by lia. }
  rewrite (for_loop_ext 33 64 _ (λ j r, Sm3Spec.round (Sm3Spec.expand B) r j)); [done|].
  intros j s Hj. apply sm3_round_spec; [| |  |apply Hlow; lia|apply Hhigh; lia].
  - intros. unfold Sm3Spec.FF. by rewrite decide_False by lia.
  - intros. apply GGL_spec. lia.
  - rewrite ROTATE_int_spec by (unfold TL; lia). unfold Sm3Spec.T. rewrite decide_False by lia.
    f_equal. rewrite Nat2Z.inj_sub by lia. rewrite Zminus_mod, Z_mod_same_full, Z.sub_0_r.
    by rewrite Zmod_mod.
Qed.

(** *** Blocks *)

Lemma sm3_block_spec ctx :
  length (h ctx) = 8%nat → length (data ctx) = 16%nat →
  regs_of (h (sm3_block ctx)) = Sm3Spec.CF (regs_of (h ctx)) (data ctx) ∧
  length (h (sm3_block ctx)) = 8%nat.
Proof.
  intros Hh Hd. unfold sm3_block, Sm3Spec.CF. cbv zeta. cbn [h].
  rewrite sm3_rounds_spec by done.
  generalize (foldl (Sm3Spec.round (Sm3Spec.expand (data ctx))) (regs_of (h ctx)) (seq 0 64)).
  intros r. generalize dependent (h ctx). intros l Hl. explode l 8%nat. done.
Qed.

Lemma c_2_nl_word d i :
  is_bytes d →
  ulong (c_2_nl d i) = be_word (d !!! i) (d !!! (i + 1)%nat) (d !!! (i + 2)%nat) (d !!! (i + 3)%nat).
Proof.
  intros Hd. rewrite ulong_32. unfold c_2_nl. rewrite wrap_to_signed by lia.
  apply wrap_small, be_word_is_word; by apply bytes_lookup_total.
Qed.

Lemma words_of_block_length b : length (Sm3Spec.words_of_block b) = 16%nat.
Proof. done. Qed.

Lemma words_of_block_lookup b k :
  (k < 16)%nat →
  Sm3Spec.words_of_block b !!! k =
  be_word (b !!! (4 * k)%nat) (b !!! (4 * k + 1)%nat) (b !!! (4 * k + 2)%nat) (b !!! (4 * k + 3)%nat).
Proof.
  intros Hk. unfold Sm3Spec.words_of_block.
  rewrite list_lookup_total_alt, list_lookup_fmap, lookup_seq_lt by done. done.
Qed.

(** The hash state after the whole blocks of [bs]. *)
Definition absorb (V : regs) (bs : list Z) : regs :=
  foldl (λ V b, Sm3Spec.CF V (Sm3Spec.words_of_block b)) V (chunks 64 bs).

Lemma absorb_nil V : absorb V [] = V.
Proof. done. Qed.

Lemma absorb_block V b k :
  length b = 64%nat → absorb V (b ++ k) = absorb (Sm3Spec.CF V (Sm3Spec.words_of_block b)) k.
Proof. intros. unfold absorb. by rewrite chunks_app by lia. Qed.

Lemma absorb_app q : ∀ V bs k,
  length bs = (64 * q)%nat → absorb V (bs ++ k) = absorb (absorb V bs) k.
Proof.
  induction q as [|q IH]; intros V bs k Hl; [by apply no_block in Hl as ->|].
  apply first_block in Hl as (b & bs' & -> & Hb & Hl').
  rewrite <- app_assoc, (absorb_block V b (bs' ++ k)), (absorb_block V b bs') by done. by apply IH.
Qed.

Lemma code_words_of_block d :
  is_bytes d → (64 ≤ length d)%nat →
  ((λ k, ulong (c_2_nl d (4 * k))) <$> seq 0 16) = Sm3Spec.words_of_block (take 64 d).
Proof.
  intros Hd Hl. unfold Sm3Spec.words_of_block. apply list_fmap_ext. intros i k Hk.
  apply lookup_seq in Hk as [-> Hk]. rewrite c_2_nl_word by done.
  by rewrite !lookup_total_take_lt by lia.
Qed.

(** What the rest of the context is after [sm3_update_blocks]. *)
Definition same_counters (c c' : SM3_CTX) : Prop :=
  Nl c' = Nl c ∧ Nh c' = Nh c ∧ num c' = num c.

Lemma sm3_update_blocks_spec q : ∀ fuel ctx bs rest,
  (q ≤ fuel)%nat → length bs = (64 * q)%nat → (length rest < 64)%nat →
  is_bytes bs → is_bytes rest → length (h ctx) = 8%nat →
  ∃ ctx', sm3_update_blocks fuel ctx (bs ++ rest) = (ctx', rest) ∧
    regs_of (h ctx') = absorb (regs_of (h ctx)) bs ∧ length (h ctx') = 8%nat ∧
    (length (data ctx) = 16%nat → length (data ctx') = 16%nat) ∧
    same_counters ctx ctx'.
Proof.
  induction q as [|q IH]; intros fuel ctx bs rest Hf Hl Hr Hb Hrb Hh.
  - apply no_block in Hl as ->. exists ctx. split_and!; [|done..].
    destruct fuel; [done|]. cbn [sm3_update_blocks app]. unfold SM3_CBLOCK.
    by rewrite decide_False by lia.
  - destruct fuel as [|fuel]; [lia|].
    apply first_block in Hl as (b & bs' & -> & Hlb & Hl'). apply Forall_app in Hb as [Hb Hb'].
    cbn [sm3_update_blocks]. unfold SM3_CBLOCK.
    rewrite decide_True by (rewrite !length_app; lia). cbv zeta.
    rewrite code_words_of_block by (by rewrite ?Forall_app || (rewrite !length_app; lia)).
    rewrite <- app_assoc, take_app_length', drop_app_length' by done.
    set (ctx1 := set_data ctx _).
    destruct (sm3_block_spec ctx1) as [Hregs Hlen]; [done|done|].
    destruct (IH fuel (sm3_block ctx1) bs' rest) as (ctx' & -> & Hab & Hh' & Hd' & Hsame); [lia|done..|].
    exists ctx'. split_and!; [done| |done|intros; by apply Hd'|done].
    rewrite absorb_block, Hab, Hregs by done. done.
Qed.

(** *** The last block *)

(** The 64 bytes that end with the partial block [rest], its one bit and zeros. *)
Definition tail (rest : list Z) : list Z := rest ++ [0x80] ++ replicate (63 - length rest) 0.

Lemma tail_before rest i : (i < length rest)%nat → tail rest !!! i = rest !!! i.
Proof. intros. unfold tail. by rewrite lookup_total_app_l. Qed.

Lemma tail_at rest i : i = length rest → tail rest !!! i = 0x80.
Proof. intros ->. unfold tail. by rewrite lookup_total_app_r, Nat.sub_diag by lia. Qed.

Lemma tail_after rest i : (length rest < i < 64)%nat → tail rest !!! i = 0.
Proof.
  intros. unfold tail. rewrite lookup_total_app_r by lia.
  destruct (i - length rest)%nat as [|k] eqn:E; [lia|].
  change (replicate (63 - length rest) 0 !!! k = 0). by apply lookup_total_replicate_2; lia.
Qed.

Lemma rest_words_inv (d : list Z) sw :
  (sw ≤ 16)%nat →
  length (for_loop 0 sw (λ i l, <[i := ulong (c_2_nl d (4 * i))]> l) (replicate 16 0)) = 16%nat ∧
  ∀ k, (k < 16)%nat →
    for_loop 0 sw (λ i l, <[i := ulong (c_2_nl d (4 * i))]> l) (replicate 16 0) !!! k =
    if (k <? sw)%nat then ulong (c_2_nl d (4 * k)) else 0.
Proof.
  intros Hsw. apply (for_loop_ind (λ i l, (i ≤ 16)%nat → length l = 16%nat ∧
    ∀ k, (k < 16)%nat → l !!! k = if (k <? i)%nat then ulong (c_2_nl d (4 * k)) else 0));
    [lia| | |lia].
  - intros _. split; [done|]. intros k Hk. by apply lookup_total_replicate_2.
  - intros j l Hj IH Hle. destruct IH as [Hl Hk]; [lia|]. rewrite length_insert.
    split; [done|]. intros k Hk16. destruct (decide (k = j)) as [->|].
    + rewrite list_lookup_total_insert_eq by lia. by destruct (Nat.ltb_spec j (S j)); [|lia].
    + rewrite list_lookup_total_insert_ne, Hk by lia.
      by destruct (Nat.ltb_spec k j), (Nat.ltb_spec k (S j)); try lia.
Qed.

Lemma be_word_1 b0 : be_word b0 0x80 0 0 = Z.lor (Z.shiftl b0 24) 0x800000.
Proof. unfold be_word. rewrite !Z.shiftl_0_l, !Z.lor_0_r. done. Qed.

Lemma be_word_2 b0 b1 :
  be_word b0 b1 0x80 0 = Z.lor (Z.lor (Z.shiftl b0 24) (Z.shiftl b1 16)) 0x8000.
Proof. unfold be_word. rewrite !Z.lor_0_r. done. Qed.

Lemma be_word_3 b0 b1 b2 :
  be_word b0 b1 b2 0x80 =
  Z.lor (Z.lor (Z.lor (Z.shiftl b0 24) (Z.shiftl b1 16)) (Z.shiftl b2 8)) 0x80.
Proof. done. Qed.

(** The word that the switch builds is the one with the one bit in it. *)
Lemma sm3_last_word_spec rest sw sc :
  is_bytes rest → Z.of_nat (length rest) = 4 * Z.of_nat sw + sc → 0 <= sc < 4 → (sw < 16)%nat →
  sm3_last_word rest sw sc = Sm3Spec.words_of_block (tail rest) !!! sw.
Proof.
  intros Hb Hl Hsc Hsw. rewrite words_of_block_lookup by done. unfold sm3_last_word. cbv zeta.
  pose proof (λ i, bytes_lookup_total rest i Hb) as Hbi. rewrite !ulong_32, !wrap_to_signed by lia.
  assert (Hcases : sc = 0 ∨ sc = 1 ∨ sc = 2 ∨ sc = 3) by lia.
  destruct Hcases as [-> | [-> | [-> | ->]]]; repeat (rewrite decide_False by done);
    rewrite ?decide_True by done.
  - rewrite tail_at, !tail_after by lia. done.
  - rewrite tail_before, tail_at, !tail_after by lia. rewrite Nat.add_0_r, <- be_word_1.
    by apply wrap_small, be_word_is_word.
  - rewrite !tail_before, tail_at, !tail_after by lia. rewrite Nat.add_0_r, <- be_word_2.
    by apply wrap_small, be_word_is_word.
  - rewrite !tail_before, tail_at by lia. rewrite Nat.add_0_r, <- be_word_3.
    by apply wrap_small, be_word_is_word.
Qed.

Lemma sm3_update_rest_spec ctx rest :
  length (data ctx) = 16%nat → is_bytes rest → (0 < length rest < 64)%nat →
  data (sm3_update_rest ctx rest) = Sm3Spec.words_of_block (tail rest).
Proof.
  intros Hdata Hb Hr. unfold sm3_update_rest. cbv zeta. cbn [data]. rewrite memset_data_64 by done.
  set (len := Z.of_nat (length rest)).
  assert (Hsw : Z.shiftr len 2 = len / 4) by (by rewrite Z.shiftr_div_pow2).
  assert (Hsc : Z.land len 0x3 = len mod 4) by (apply (Z.land_ones len 2); lia).
  rewrite Hsw, Hsc. pose proof (Z.div_mod len 4). pose proof (Z.mod_pos_bound len 4).
  destruct (rest_words_inv rest (Z.to_nat (len / 4))) as [Hl Hw]; [lia|].
  apply list_eq_total; [by rewrite length_insert|]. intros k Hk. rewrite length_insert, Hl in Hk.
  destruct (decide (k = Z.to_nat (len / 4))) as [->|].
  - rewrite list_lookup_total_insert_eq by lia. apply sm3_last_word_spec; [done|lia..].
  - rewrite list_lookup_total_insert_ne, Hw, words_of_block_lookup by lia.
    destruct (Nat.ltb_spec k (Z.to_nat (len / 4))).
    + rewrite !tail_before by lia. by apply c_2_nl_word.
    + rewrite !tail_after by lia. done.
Qed.

Lemma words_of_block_length_field a x y :
  length a = 56%nat → is_word 32 x → is_word 32 y →
  <[15%nat := y]> (<[14%nat := x]> (Sm3Spec.words_of_block (a ++ replicate 8 0))) =
  Sm3Spec.words_of_block (a ++ be_bytes x ++ be_bytes y).
Proof.
  intros Ha Hx Hy. explode a 56%nat. unfold Sm3Spec.words_of_block. cbn -[be_word be_bytes].
  unfold be_bytes. cbn -[be_word Z.land Z.shiftr]. by rewrite !be_word_bytes.
Qed.

Lemma nl2c_be_bytes l : nl2c l = be_bytes l.
Proof. unfold nl2c, be_bytes. repeat f_equal; bitwise. Qed.

Lemma digest_of_h (l : list Z) :
  length l = 8%nat → mjoin (nl2c <$> l) = Sm3Spec.digest (regs_of l).
Proof.
  intros Hl. explode l 8%nat. unfold Sm3Spec.digest. cbn -[be_bytes nl2c].
  rewrite !nl2c_be_bytes. by rewrite app_nil_r.
Qed.

(** *** [SM3_Final] *)

Lemma finish_block ctx b :
  length (h ctx) = 8%nat → data ctx = Sm3Spec.words_of_block b → length b = 64%nat →
  mjoin (nl2c <$> h (sm3_block ctx)) = Sm3Spec.digest (absorb (regs_of (h ctx)) b).
Proof.
  intros Hh Hd Hb. destruct (sm3_block_spec ctx) as [Hr Hl]; [done|by rewrite Hd|].
  rewrite digest_of_h, Hr, Hd by done. f_equal.
  rewrite <- (app_nil_r b) at 2. by rewrite absorb_block.
Qed.

(** The bytes after the message: one bit, zeros and the length. *)
Definition ending (zeros : nat) (nh nl : Z) : list Z :=
  [0x80] ++ replicate zeros 0 ++ be_bytes nh ++ be_bytes nl.

Lemma SM3_Final_aligned ctx :
  num ctx = 0 → length (data ctx) = 16%nat → length (h ctx) = 8%nat → is_word 32 (Nh ctx) → is_word 32 (Nl ctx) →
  (SM3_Final ctx).2 =
  Sm3Spec.digest (absorb (regs_of (h ctx)) (ending 55 (Nh ctx) (Nl ctx))).
Proof.
  intros Hn Hd Hh Wh Wl. unfold SM3_Final. cbv zeta. cbn [snd].
  rewrite decide_True, memset_data_64 by done.
  apply (finish_block (set_data ctx _)); [done| |done]. cbn [data set_data].
  change (<[0%nat := 0x80000000]> (replicate 16 0))
    with (Sm3Spec.words_of_block (([0x80] ++ replicate 55 0) ++ replicate 8 0)).
  rewrite words_of_block_length_field by done. by rewrite <- app_assoc.
Qed.

Lemma SM3_Final_short ctx rest :
  num ctx = Z.of_nat (length rest) + 1 → (length rest ≤ 55)%nat →
  data ctx = Sm3Spec.words_of_block (tail rest) →
  length (h ctx) = 8%nat → is_word 32 (Nh ctx) → is_word 32 (Nl ctx) →
  (SM3_Final ctx).2 = Sm3Spec.digest
    (absorb (regs_of (h ctx)) (rest ++ ending (55 - length rest) (Nh ctx) (Nl ctx))).
Proof.
  intros Hn Hr Hd Hh Wh Wl. unfold SM3_Final. cbv zeta. cbn [snd].
  rewrite decide_False, decide_True by (unfold SM3_LAST_BLOCK; lia).
  apply (finish_block (set_data ctx _)); [done| |].
  - cbn [data set_data]. rewrite Hd.
    replace (tail rest) with ((rest ++ [0x80] ++ replicate (55 - length rest) 0) ++ replicate 8 0).
    2:{ unfold tail. rewrite <- !app_assoc, <- replicate_add. do 3 f_equal. lia. }
    rewrite words_of_block_length_field; [|rewrite !length_app, length_replicate; simpl; lia|done..].
    unfold ending. by rewrite <- !app_assoc.
  - unfold ending. rewrite !length_app, length_replicate. simpl. lia.
Qed.

Lemma SM3_Final_long ctx rest :
  num ctx = Z.of_nat (length rest) + 1 → (56 ≤ length rest < 64)%nat →
  data ctx = Sm3Spec.words_of_block (tail rest) →
  length (h ctx) = 8%nat → is_word 32 (Nh ctx) → is_word 32 (Nl ctx) →
  (SM3_Final ctx).2 = Sm3Spec.digest
    (absorb (regs_of (h ctx)) (rest ++ ending (119 - length rest) (Nh ctx) (Nl ctx))).
Proof.
  intros Hn Hr Hd Hh Wh Wl. unfold SM3_Final. cbv zeta. cbn [snd].
  rewrite !decide_False by (unfold SM3_LAST_BLOCK; lia).
  destruct (sm3_block_spec ctx) as [Hregs Hlen]; [done|by rewrite Hd|].
  replace (rest ++ ending (119 - length rest) (Nh ctx) (Nl ctx))
    with (tail rest ++ (replicate 56 0 ++ be_bytes (Nh ctx) ++ be_bytes (Nl ctx))).
  2:{ unfold tail, ending. rewrite <- !app_assoc. do 2 f_equal.
      rewrite app_assoc, <- replicate_add. do 2 f_equal. lia. }
  rewrite absorb_block by (unfold tail; rewrite !length_app, length_replicate; simpl; lia).
  rewrite <- Hd, <- Hregs.
  match goal with |- context [sm3_block (set_data ?c ?d)] => apply (finish_block (set_data c d)) end;
    [done| |done]. cbn [data set_data sm3_block].
  rewrite Hd, memset_data_56, <- words_of_block_length_field by done. reflexivity.
Qed.

(** *** The whole message *)

Lemma sm3_count_spec ctx n :
  Nl ctx = 0 → Nh ctx = 0 → 0 <= n < 2 ^ 32 →
  Nl (sm3_count ctx n) = wrap 32 (8 * n) ∧
  Nh (sm3_count ctx n) = wrap 32 (Z.shiftr (8 * n) 32).
Proof.
  intros H0 H1 Hn. unfold sm3_count. cbv zeta. cbn [Nl Nh]. rewrite H0, H1.
  unfold ulong_add. rewrite !Z.add_0_l, !ulong_32.
  assert (Hs : Z.shiftl n 3 = 8 * n) by (rewrite Z.shiftl_mul_pow2; lia).
  assert (Hl : Z.land (wrap 32 (wrap 32 (Z.shiftl n 3))) 0xffffffff = wrap 32 (8 * n))
    by (rewrite Hs; bitwise).
  rewrite Hl. rewrite decide_False.
  2:{ pose proof (wrap_is_word 32 (8 * n)). unfold is_word in *. lia. }
  split; [done|]. rewrite Z.add_0_l, <- Hs. bitwise.
Qed.

Lemma pad_ending m :
  Z.of_nat (length m) < 2 ^ 32 →
  Sm3Spec.pad m = m ++ ending (Sm3Spec.pad_zeros (length m))
    (wrap 32 (Z.shiftr (8 * Z.of_nat (length m)) 32)) (wrap 32 (8 * Z.of_nat (length m))).
Proof. done. Qed.

Lemma pad_zeros_rest (q r : nat) :
  (r < 64)%nat →
  Sm3Spec.pad_zeros (64 * q + r) = if (r <? 56)%nat then (55 - r)%nat else (119 - r)%nat.
Proof.
  intros Hr. unfold Sm3Spec.pad_zeros.
  destruct (Nat.ltb_spec r 56).
  - rewrite <- (Z.mod_unique (55 - Z.of_nat (64 * q + r)) 64 (- Z.of_nat q) (55 - Z.of_nat r)); lia.
  - rewrite <- (Z.mod_unique (55 - Z.of_nat (64 * q + r)) 64 (- Z.of_nat q - 1) (119 - Z.of_nat r)); lia.
Qed.

Lemma whole_blocks (m : list Z) :
  ∃ q full rest, m = full ++ rest ∧ length full = (64 * q)%nat ∧ (length rest < 64)%nat.
Proof.
  exists (length m / 64)%nat, (take (64 * (length m / 64)) m), (drop (64 * (length m / 64)) m).
  pose proof (Nat.div_mod_eq (length m) 64). pose proof (Nat.mod_upper_bound (length m) 64).
  rewrite take_drop, length_take, length_drop. split_and!; [done|lia..].
Qed.

Lemma sm3_digest_hash stack m :
  length (data stack) = 16%nat → is_bytes m → Z.of_nat (length m) < 2 ^ 32 → sm3_digest stack m = Sm3Spec.hash m.
Proof.
  intros Hdata Hb Hlt. unfold sm3_digest, SM3_Update, Sm3Spec.hash. fold (absorb Sm3Spec.IV (Sm3Spec.pad m)).
  destruct (decide (length m = 0%nat)) as [->%nil_length_inv|Hne].
  { by rewrite SM3_Final_aligned. }
  rewrite pad_ending by done.
  destruct (sm3_count_spec (SM3_Init stack) (Z.of_nat (length m))) as [HNl HNh]; [done|done|lia|].
  set (ctx0 := sm3_count _ _) in *. set (nl := wrap 32 (8 * Z.of_nat (length m))) in *.
  set (nh := wrap 32 (Z.shiftr (8 * Z.of_nat (length m)) 32)) in *.
  assert (Wl : is_word 32 nl) by by apply wrap_is_word.
  assert (Wh : is_word 32 nh) by by apply wrap_is_word.
  destruct (whole_blocks m) as (q & full & rest & Hm & Hq & Hr).
  assert (Hlm : length m = (64 * q + length rest)%nat) by (rewrite Hm, length_app; lia).
  rewrite Hm in Hb. apply Forall_app in Hb as [Hfb Hrb].
  destruct (sm3_update_blocks_spec q (length m) ctx0 full rest)
    as (ctx1 & Hup & Hab & Hh & Hd1 & Hl1 & Hh1 & Hn1); [lia|done..|].
  specialize (Hd1 Hdata).
  assert (Hpz := pad_zeros_rest q (length rest) Hr). rewrite <- Hlm in Hpz. rewrite Hpz.
  rewrite <- Hm in Hup. rewrite Hup. clearbody nl nh. rewrite Hm, <- app_assoc, (absorb_app q) by done.
  change Sm3Spec.IV with (regs_of (h ctx0)). rewrite <- Hab.
  rewrite HNl in Hl1. rewrite HNh in Hh1.
  destruct (decide (0 < length rest)%nat) as [Hpos|Hz].
  - assert (Hd := sm3_update_rest_spec ctx1 rest Hd1 Hrb (conj Hpos Hr)).
    destruct (Nat.ltb_spec (length rest) 56).
    + rewrite (SM3_Final_short _ rest); [|done|lia|done|done|..]; cbn [Nl Nh sm3_update_rest h];
        rewrite ?Hl1, ?Hh1; done.
    + rewrite (SM3_Final_long _ rest); [|done|lia|done|done|..]; cbn [Nl Nh sm3_update_rest h];
        rewrite ?Hl1, ?Hh1; done.
  - assert (length rest = 0)%nat as ->%nil_length_inv by lia.
    rewrite SM3_Final_aligned; rewrite ?Hl1, ?Hh1; done.
Qed.
(** *** Several calls of [SM3_Update] *)

Lemma sm3_update_blocks_set_data fuel c d bs :
  (64 ≤ length bs)%nat → (0 < fuel)%nat →
  sm3_update_blocks fuel (set_data c d) bs = sm3_update_blocks fuel c bs.
Proof.
  intros Hb Hf. destruct fuel as [|fuel]; [lia|]. cbn [sm3_update_blocks]. unfold SM3_CBLOCK.
  by rewrite !decide_True by lia.
Qed.

Lemma sm3_update_blocks_short fuel c bs :
  (length bs < 64)%nat → sm3_update_blocks fuel c bs = (c, bs).
Proof.
  intros Hb. destruct fuel as [|fuel]; [done|]. cbn [sm3_update_blocks]. unfold SM3_CBLOCK.
  by rewrite decide_False by lia.
Qed.

(** The bytes left in [data] by an earlier call are not looked at again. *)
Lemma SM3_Update_set_data c d bs :
  bs ≠ [] → length d = 16%nat → length (data c) = 16%nat →
  SM3_Update (set_data c d) bs = SM3_Update c bs.
Proof.
  intros Hne Hd Hc. assert (length bs ≠ 0%nat) by by intros ?%nil_length_inv.
  unfold SM3_Update. rewrite !decide_False by done.
  change (sm3_count (set_data c d) (Z.of_nat (length bs)))
    with (set_data (sm3_count c (Z.of_nat (length bs))) d).
  destruct (decide (64 ≤ length bs)%nat).
  - by rewrite sm3_update_blocks_set_data by lia.
  - rewrite !sm3_update_blocks_short by lia. rewrite !decide_True by lia.
    unfold sm3_update_rest. cbn [set_data data]. by rewrite !memset_data_64.
Qed.

Lemma SM3_Update_short c bs :
  (0 < length bs < 64)%nat →
  SM3_Update c bs = sm3_update_rest (sm3_count c (Z.of_nat (length bs))) bs.
Proof.
  intros. unfold SM3_Update. rewrite decide_False by lia.
  rewrite sm3_update_blocks_short by lia. by rewrite decide_True by lia.
Qed.

Lemma sm3_update_rest_set_data c bs bs' :
  length bs = length bs' →
  sm3_update_rest c bs = set_data (sm3_update_rest c bs') (data (sm3_update_rest c bs)).
Proof. intros Hl. unfold sm3_update_rest, set_data. cbn [h Nl Nh data num]. by rewrite Hl. Qed.

Lemma sm3_update_rest_length c bs :
  length (data c) = 16%nat → is_bytes bs → (0 < length bs < 64)%nat →
  length (data (sm3_update_rest c bs)) = 16%nat.
Proof. intros. by rewrite sm3_update_rest_spec. Qed.

Lemma sm3_update_blocks_fuel f1 : ∀ f2 c d,
  (length d ≤ f1)%nat → (length d ≤ f2)%nat →
  sm3_update_blocks f1 c d = sm3_update_blocks f2 c d.
Proof.
  induction f1 as [|f1 IH]; intros f2 c d H1 H2; [by rewrite !sm3_update_blocks_short by lia|].
  destruct (decide (64 ≤ length d)%nat); [|by rewrite !sm3_update_blocks_short by lia].
  destruct f2 as [|f2]; [lia|]. cbn [sm3_update_blocks]. unfold SM3_CBLOCK.
  rewrite !decide_True by done. cbv zeta. apply IH; rewrite length_drop; lia.
Qed.

Lemma c_2_nl_app d k i : (i + 4 ≤ length d)%nat → c_2_nl (d ++ k) i = c_2_nl d i.
Proof. intros. unfold c_2_nl. by rewrite !lookup_total_app_l by lia. Qed.

Lemma sm3_update_blocks_app q : ∀ f1 f2 f3 c a b,
  length a = (64 * q)%nat → (length b + q ≤ f1)%nat → (length b ≤ f2)%nat → (q ≤ f3)%nat →
  sm3_update_blocks f1 c (a ++ b) = sm3_update_blocks f2 (sm3_update_blocks f3 c a).1 b ∧
  (sm3_update_blocks f3 c a).2 = [].
Proof.
  induction q as [|q IH]; intros f1 f2 f3 c a b Ha H1 H2 H3.
  - apply no_block in Ha as ->. rewrite (sm3_update_blocks_short f3) by (simpl; lia).
    split; [|done]. apply sm3_update_blocks_fuel; [simpl; lia|done].
  - destruct f1 as [|f1]; [lia|]. destruct f3 as [|f3]; [lia|].
    cbn [sm3_update_blocks]. unfold SM3_CBLOCK.
    rewrite (decide_True (P := (64 ≤ length (a ++ b))%nat)) by (rewrite length_app; lia).
    rewrite (decide_True (P := (64 ≤ length a)%nat)) by lia. cbv zeta.
    rewrite drop_app_le by lia.
    rewrite (list_fmap_ext (λ k, ulong (c_2_nl (a ++ b) (4 * k))) (λ k, ulong (c_2_nl a (4 * k))) (seq 0 16)); [|intros k x [-> ?]%lookup_seq; by rewrite c_2_nl_app by lia].
    apply IH; rewrite ?length_drop; lia.
Qed.

Definition with_counts (c : SM3_CTX) (nl nh : Z) : SM3_CTX :=
  {| h := h c; Nl := nl; Nh := nh; data := data c; num := num c |}.

Lemma sm3_update_blocks_counts nl nh fuel : ∀ c d,
  sm3_update_blocks fuel (with_counts c nl nh) d =
  (with_counts (sm3_update_blocks fuel c d).1 nl nh, (sm3_update_blocks fuel c d).2) ∧
  Nl (sm3_update_blocks fuel c d).1 = Nl c ∧ Nh (sm3_update_blocks fuel c d).1 = Nh c.
Proof.
  induction fuel as [|fuel IH]; intros c d; [done|]. cbn [sm3_update_blocks].
  case_decide; [|done]. cbv zeta. set (W := _ <$> _).
  change (sm3_block (set_data (with_counts c nl nh) W)) with (with_counts (sm3_block (set_data c W)) nl nh).
  apply (IH (sm3_block (set_data c W))).
Qed.

(** The two counters are one 64-bit counter of bits. *)
Lemma sm3_count_total ctx n :
  is_word 32 (Nl ctx) → is_word 32 (Nh ctx) → 0 <= n < 2 ^ 32 →
  is_word 32 (Nl (sm3_count ctx n)) ∧ is_word 32 (Nh (sm3_count ctx n)) ∧
  Nl (sm3_count ctx n) + 2 ^ 32 * Nh (sm3_count ctx n)
    = wrap 64 (Nl ctx + 2 ^ 32 * Nh ctx + 8 * n).
Proof.
  intros Wl Wh Hn. unfold sm3_count. cbv zeta. cbn [Nl Nh].
  unfold ulong_add. rewrite !ulong_32, Z.shiftl_mul_pow2, Z.shiftr_div_pow2 by lia.
  replace (Z.land (wrap 32 (Nl ctx + wrap 32 (n * 2 ^ 3))) 0xffffffff)
    with (wrap 32 (Nl ctx + wrap 32 (n * 2 ^ 3))) by bitwise.
  unfold wrap, is_word in *. change (2 ^ 3) with 8. change (2 ^ 29) with 536870912.
  change (2 ^ 32) with 4294967296 in *. change (2 ^ 64) with 18446744073709551616.
  case_decide; Z.to_euclidean_division_equations; lia.
Qed.

Lemma sm3_count_count ctx n1 n2 :
  is_word 32 (Nl ctx) → is_word 32 (Nh ctx) → 0 <= n1 → 0 <= n2 → n1 + n2 < 2 ^ 32 →
  sm3_count (sm3_count ctx n1) n2 = sm3_count ctx (n1 + n2).
Proof.
  intros Wl Wh H1 H2 H3.
  destruct (sm3_count_total ctx n1) as (Wl1 & Wh1 & E1); [done..|lia|].
  destruct (sm3_count_total (sm3_count ctx n1) n2) as (Wl2 & Wh2 & E2); [done..|lia|].
  destruct (sm3_count_total ctx (n1 + n2)) as (Wl3 & Wh3 & E3); [done..|lia|].
  assert (E : Nl (sm3_count (sm3_count ctx n1) n2) + 2 ^ 32 * Nh (sm3_count (sm3_count ctx n1) n2)
    = Nl (sm3_count ctx (n1 + n2)) + 2 ^ 32 * Nh (sm3_count ctx (n1 + n2))).
  { rewrite E2, E1, E3. unfold wrap. rewrite Zplus_mod_idemp_l. f_equal. lia. }
  assert (Nl (sm3_count (sm3_count ctx n1) n2) = Nl (sm3_count ctx (n1 + n2)) ∧
    Nh (sm3_count (sm3_count ctx n1) n2) = Nh (sm3_count ctx (n1 + n2))) as [El Eh]
    by (unfold is_word in *; lia).
  change (with_counts ctx (Nl (sm3_count (sm3_count ctx n1) n2)) (Nh (sm3_count (sm3_count ctx n1) n2))
    = with_counts ctx (Nl (sm3_count ctx (n1 + n2))) (Nh (sm3_count ctx (n1 + n2)))).
  by rewrite El, Eh.
Qed.
End Sm3Facts.

(** ** Properties *)

(** A context as [SM3_Init] and [SM3_Update] leave it. *)
Definition ctx_ok (c : SM3_CTX) : Prop :=
  length (data c) = 16%nat ∧ is_word 32 (Nl c) ∧ is_word 32 (Nh c).

(** C1: where [unsigned long] has 32 bits, [sm3] on [n] readable bytes and 32
    writable ones has no undefined behaviour of the memory, writes exactly the SM3
    digest of GM/T 0004-2012 of these bytes to [md], also when [md] overlaps the
    input, and this does not depend on what the stack held before nor on what the
    processor does with a shift by 32. *)
Theorem sm3_standard {tgt : Target} stack d n md m bs :
  ulong_bits = 32 → length (data stack) = 16%nat → mread m d n = Some bs → is_bytes bs → Z.of_nat n < 2 ^ 32 →
  mvalid m md 32 →
  ∃ m', sm3 stack d n md m = Some (tt, m') ∧ mwrite m md (Sm3Spec.hash bs) = Some m'.
Proof.
  intros H32 Hs Hr Hb Hn Hv. assert (Hl := mread_length _ _ _ _ Hr).
  assert (Hlen : length (Sm3Spec.hash bs) = 32%nat) by done.
  rewrite <- Hlen in Hv. destruct (mvalid_store _ _ _ Hv) as (m' & Hw & Hst).
  exists m'. split; [|done]. unfold sm3.
  rewrite (bind_Some _ _ m bs m).
  - by rewrite sm3_digest_hash by (done || by rewrite Hl).
  - destruct n as [|n]; [by apply nil_length_inv in Hl as ->|by apply load_Some].
Qed.

(** C32: on Linux x86-64, where [unsigned long] has 64 bits, the same code computes
    no function of the message: for "abc", the first example of the standard, the
    digest depends on what the stack held before the call ([memset] by 64 bytes
    clears 8 of the 16 words), and it is not the standard's digest. *)
Theorem sm3_lp64_not_standard :
  ∃ s1 s2, length (data s1) = 16%nat ∧ length (data s2) = 16%nat ∧
    @sm3_digest LP64_x86 s1 [0x61; 0x62; 0x63] ≠ @sm3_digest LP64_x86 s2 [0x61; 0x62; 0x63] ∧
    @sm3_digest LP64_x86 s1 [0x61; 0x62; 0x63] ≠ Sm3Spec.hash [0x61; 0x62; 0x63].
Proof.
  exists {| h := []; Nl := 0; Nh := 0; data := replicate 16 0; num := 0 |},
    {| h := []; Nl := 0; Nh := 0; data := replicate 16 1; num := 0 |}.
  split; [done|]. split; [done|].
  split; intros E%(f_equal (λ l, l !!! 0%nat)); revert E; vm_compute; discriminate.
Qed.

(** Calls of [SM3_Update] compose as long as the earlier call gets whole
    blocks: updating with [a] and then [b] is updating with [a ++ b], counters and
    chaining value included. *)
Theorem sm3_update_app {tgt : Target} ctx q a b :
  ulong_bits = 32 → ctx_ok ctx → length a = (64 * q)%nat →
  Z.of_nat (length (a ++ b)) < 2 ^ 32 →
  SM3_Update (SM3_Update ctx a) b = SM3_Update ctx (a ++ b).
Proof.
  intros H32 (_ & Wl & Wh) Ha Hlt. rewrite length_app, Nat2Z.inj_add in Hlt.
  unfold SM3_Update at 2. case_decide as Ha0.
  { by apply nil_length_inv in Ha0 as ->. }
  set (c1 := sm3_count ctx (Z.of_nat (length a))).
  destruct (decide (length b = 0)%nat) as [->%nil_length_inv|Hb].
  { rewrite app_nil_r. unfold SM3_Update. rewrite decide_True, decide_False by done. done. }
  unfold SM3_Update. rewrite decide_False, (decide_False (P := length (a ++ b) = 0%nat))
    by (rewrite ?length_app; lia).
  rewrite length_app, Nat2Z.inj_add, <- (sm3_count_count H32) by (done || lia). fold c1.
  destruct (sm3_update_blocks_app q (length a + length b) (length b) (length a) c1 a b)
    as [_ Hnil]; [lia..|].
  destruct (sm3_update_blocks (length a) c1 a) as [c2 rest] eqn:Ec2. simpl in Hnil. subst rest.
  rewrite decide_False by (simpl; lia).
  set (c3 := sm3_count c1 (Z.of_nat (length b))).
  destruct (sm3_update_blocks_counts (Nl c3) (Nh c3) (length a) c1 a) as (E1 & El & Eh).
  rewrite Ec2 in E1, El, Eh. cbn [fst snd] in E1, El, Eh.
  assert (Ec3 : sm3_count c2 (Z.of_nat (length b)) = with_counts c2 (Nl c3) (Nh c3)).
  { unfold c3, sm3_count, with_counts. cbv zeta. cbn [Nl Nh]. by rewrite El, Eh. }
  rewrite Ec3. change (with_counts c1 (Nl c3) (Nh c3)) with c3 in E1.
  destruct (sm3_update_blocks_app q (length a + length b) (length b) (length a) c3 a b)
    as [-> _]; [lia..|]. by rewrite E1.
Qed.

(** After a call with a partial block the bytes of that block are lost: whatever
    they were, any further call leaves the same context, so two messages that
    differ there get the same digest. [sm3.h] offers the usual three calls; only
    one call of [SM3_Update] per message, or whole blocks before the last, is right. *)
Theorem sm3_update_drops_partial_block {tgt : Target} ctx a a' b :
  ulong_bits = 32 → ctx_ok ctx → is_bytes a → is_bytes a' → (0 < length a < 64)%nat →
  length a' = length a → b ≠ [] →
  SM3_Update (SM3_Update ctx a) b = SM3_Update (SM3_Update ctx a') b.
Proof.
  intros H32 (Hd & _ & _) Wa Wa' Ha Hl Hb. rewrite (SM3_Update_short _ a), (SM3_Update_short _ a') by lia.
  rewrite (sm3_update_rest_set_data _ a a'), Hl by done.
  apply (SM3_Update_set_data H32); [done|apply (sm3_update_rest_length H32); (done || lia)..].
Qed.

(** *** Instances *)

Definition example_stack : SM3_CTX :=
  {| h := []; Nl := 0; Nh := 0; data := replicate 16 0xa5; num := 0 |}.
Definition abc : list Z := [0x61; 0x62; 0x63].
Definition abc_mem : mem := {[1%positive := Some <$> abc; 2%positive := replicate 32 None]}.

Lemma sm3_standard_witness :
  ∃ m', @sm3 ILP32_arm example_stack (Ptr 1 0) 3 (Ptr 2 0) abc_mem = Some (tt, m') ∧
        mwrite abc_mem (Ptr 2 0) (Sm3Spec.hash abc) = Some m'.
Proof. apply (@sm3_standard ILP32_arm); [done|done|vm_compute; done|decide_by_compute|done|decide_by_compute]. Defined.

(** The examples of the standard: "abc" and 16 times "abcd". *)
Example hash_abc : Sm3Spec.hash abc = [
  0x66; 0xc7; 0xf0; 0xf4; 0x62; 0xee; 0xed; 0xd9; 0xd1; 0xf2; 0xd4; 0x6b; 0xdc; 0x10; 0xe4; 0xe2;
  0x41; 0x67; 0xc4; 0x87; 0x5c; 0xf2; 0xf7; 0xa2; 0x29; 0x7d; 0xa0; 0x2b; 0x8f; 0x4b; 0xa8; 0xe0].
Proof. vm_compute. reflexivity. Qed.

Example hash_abcd16 : Sm3Spec.hash (mjoin (replicate 16 [0x61; 0x62; 0x63; 0x64])) = [
  0xde; 0xbe; 0x9f; 0xf9; 0x22; 0x75; 0xb8; 0xa1; 0x38; 0x60; 0x48; 0x89; 0xc1; 0x8e; 0x5a; 0x4d;
  0x6f; 0xdb; 0x70; 0xe5; 0x38; 0x7e; 0x57; 0x65; 0x29; 0x3d; 0xcb; 0xa3; 0x9c; 0x0c; 0x57; 0x32].
Proof. vm_compute. reflexivity. Qed.

Lemma sm3_update_app_witness :
  @SM3_Update LLP64_x86 (@SM3_Update LLP64_x86 (SM3_Init example_stack) (replicate 64 1)) abc =
  @SM3_Update LLP64_x86 (SM3_Init example_stack) (replicate 64 1 ++ abc).
Proof. apply (@sm3_update_app LLP64_x86 _ 1); [done|unfold ctx_ok, is_word; done|done|done]. Defined.

Lemma sm3_update_drops_partial_block_witness :
  @SM3_Update LLP64_x86 (@SM3_Update LLP64_x86 (SM3_Init example_stack) abc) abc =
  @SM3_Update LLP64_x86 (@SM3_Update LLP64_x86 (SM3_Init example_stack) [0; 1; 2]) abc.
Proof.
  apply (@sm3_update_drops_partial_block LLP64_x86);
    [done|unfold ctx_ok, is_word; done|decide_by_compute|decide_by_compute|simpl; lia|done|done].
Defined.
