(* ===== verification/Aes.v ===== *)
(** * Aes: the AES block cipher ([src/aes/aes_core.c], [src/aes/aes_misc.c])

    The portable code with tables, as the builds compile it ([FULL_UNROLL] and
    [AES_ASM] are not defined, a [u32] is an [unsigned int]); [AesSpec] is FIPS-197
    on bytes, with the field arithmetic instead of tables. *)

From S2P Require Import Prelude Mem ModeSpec AesTables.

(** ** The cipher of the standard *)
Module AesSpec.

(** Multiplication in GF(2^8) modulo x^8 + x^4 + x^3 + x + 1. *)
Definition xtime (b : Z) : Z :=
  Z.lxor (wrap 8 (Z.shiftl b 1)) (if Z.testbit b 7 then 0x1b else 0).
Fixpoint gmul_bits (n : nat) (c b : Z) : Z :=
  match n with
  | O => 0
  | S n => Z.lxor (if Z.testbit c 0 then b else 0) (gmul_bits n (Z.shiftr c 1) (xtime b))
  end.
Definition gmul (c b : Z) : Z := gmul_bits 8 c b.

(** The inverse, which is the 254th power, and the affine map. *)
Definition ginv (b : Z) : Z :=
  let b2 := gmul b b in let b4 := gmul b2 b2 in let b8 := gmul b4 b4 in
  let b16 := gmul b8 b8 in let b32 := gmul b16 b16 in let b64 := gmul b32 b32 in
  let b128 := gmul b64 b64 in
  gmul b2 (gmul b4 (gmul b8 (gmul b16 (gmul b32 (gmul b64 b128))))).
Definition rotl8 (b n : Z) : Z := Z.lor (wrap 8 (Z.shiftl b n)) (Z.shiftr b (8 - n)).
Definition affine (b : Z) : Z :=
  Z.lxor (Z.lxor (Z.lxor (Z.lxor (Z.lxor b (rotl8 b 1)) (rotl8 b 2)) (rotl8 b 3)) (rotl8 b 4)) 0x63.
Definition sbox (b : Z) : Z := affine (ginv b).
Definition affine_inv (b : Z) : Z :=
  Z.lxor (Z.lxor (Z.lxor (rotl8 b 1) (rotl8 b 3)) (rotl8 b 6)) 0x05.
Definition inv_sbox (b : Z) : Z := ginv (affine_inv b).

(** The state is the list of the 16 bytes, column after column. *)
Definition SubBytes (s : list Z) : list Z := sbox <$> s.
Definition InvSubBytes (s : list Z) : list Z := inv_sbox <$> s.
Definition ShiftRows (s : list Z) : list Z :=
  (λ i, s !!! ((i + 4 * (i mod 4)) mod 16)%nat) <$> seq 0 16.
Definition InvShiftRows (s : list Z) : list Z :=
  (λ i, s !!! ((i + 12 * (i mod 4)) mod 16)%nat) <$> seq 0 16.

(** The column [c] times the polynomial with the coefficients [k0] to [k3]. *)
Definition mix_column (k0 k1 k2 k3 : Z) (c : list Z) : list Z :=
  (λ i, Z.lxor (Z.lxor (Z.lxor (gmul k0 (c !!! i)) (gmul k1 (c !!! ((i + 1) mod 4)%nat)))
                       (gmul k2 (c !!! ((i + 2) mod 4)%nat))) (gmul k3 (c !!! ((i + 3) mod 4)%nat)))
  <$> seq 0 4.
Definition MixColumns (s : list Z) : list Z := blockwise (mix_column 2 3 1 1) 4 s.
Definition InvMixColumns (s : list Z) : list Z := blockwise (mix_column 14 11 13 9) 4 s.

(** Key expansion, on words. *)
Definition SubWord (w : Z) : Z :=
  be_word (sbox (Z.land (Z.shiftr w 24) 255)) (sbox (Z.land (Z.shiftr w 16) 255))
          (sbox (Z.land (Z.shiftr w 8) 255)) (sbox (Z.land w 255)).
Definition RotWord (w : Z) : Z := rotl32 w 8.
Definition Rcon (i : nat) : Z := Z.shiftl (Nat.iter (i - 1) xtime 1) 24.

Definition expand_word (Nk : nat) (w : list Z) : Z :=
  let i := length w in
  let temp := w !!! (i - 1)%nat in
  Z.lxor (w !!! (i - Nk)%nat)
    (if decide (i mod Nk = 0)%nat then Z.lxor (SubWord (RotWord temp)) (Rcon (i / Nk))
     else if decide (6 < Nk ∧ i mod Nk = 4)%nat then SubWord temp else temp).
Definition key_words (k : list Z) : list Z :=
  (λ b, be_word (b !!! 0%nat) (b !!! 1%nat) (b !!! 2%nat) (b !!! 3%nat)) <$> chunks 4 k.
(** The schedule grown to [n] words. *)
Definition expand_to (Nk : nat) (k : list Z) (n : nat) : list Z :=
  Nat.iter (n - Nk) (λ w, w ++ [expand_word Nk w]) (key_words k).
Definition KeyExpansion (Nk Nr : nat) (k : list Z) : list Z := expand_to Nk k (4 * (Nr + 1)).

Definition AddRoundKey (w : list Z) (r : nat) (s : list Z) : list Z :=
  xor_list s (mjoin (be_bytes <$> take 4 (drop (4 * r) w))).

Definition Round (w : list Z) (r : nat) (s : list Z) : list Z :=
  AddRoundKey w r (MixColumns (ShiftRows (SubBytes s))).
Definition Cipher (Nr : nat) (w : list Z) (s : list Z) : list Z :=
  AddRoundKey w Nr (ShiftRows (SubBytes (for_loop 1 Nr (Round w) (AddRoundKey w 0 s)))).

Definition InvRound (w : list Z) (r : nat) (s : list Z) : list Z :=
  InvMixColumns (AddRoundKey w r (InvSubBytes (InvShiftRows s))).
(** The rounds from [Nr - 1] down to 1. *)
Definition InvCipher (Nr : nat) (w : list Z) (s : list Z) : list Z :=
  AddRoundKey w 0 (InvSubBytes (InvShiftRows
    (for_loop 1 Nr (λ i, InvRound w (Nr - i)) (AddRoundKey w Nr s)))).

End AesSpec.

(** ** The code *)

Definition AES_BLOCK_SIZE : nat := 16.
Definition RD_KEY_WORDS : nat := 60. (* 4 * (AES_MAXNR + 1) *)

(** [struct aes_key_st]. *)
Record AES_KEY := { rd_key : list Z; rounds : Z }.

(** [GETU32] at offset [i], and the bytes that [PUTU32] writes. *)
Definition GETU32 (p : list Z) (i : nat) : Z :=
  Z.lxor (Z.lxor (Z.lxor (wrap 32 (Z.shiftl (p !!! i) 24)) (wrap 32 (Z.shiftl (p !!! (i + 1)%nat) 16)))
                 (wrap 32 (Z.shiftl (p !!! (i + 2)%nat) 8))) (p !!! (i + 3)%nat).
Definition PUTU32 (st : Z) : list Z :=
  [wrap 8 (Z.shiftr st 24); wrap 8 (Z.shiftr st 16); wrap 8 (Z.shiftr st 8); wrap 8 st].

(** [T[x]]. *)
Definition tab (T : list Z) (x : Z) : Z := T !!! Z.to_nat x.

(** The four bytes of a word, as the table accesses take them. *)
Definition b3 (x : Z) : Z := Z.shiftr x 24.
Definition b2 (x : Z) : Z := Z.land (Z.shiftr x 16) 0xff.
Definition b1 (x : Z) : Z := Z.land (Z.shiftr x 8) 0xff.
Definition b0 (x : Z) : Z := Z.land x 0xff.

(** *** Key schedules *)

(** The word that starts a group of the schedule: rotated. *)
Definition sub_rot (temp : Z) : Z :=
  Z.lxor (Z.lxor (Z.lxor (Z.land (tab Te2 (b2 temp)) 0xff000000) (Z.land (tab Te3 (b1 temp)) 0x00ff0000))
                 (Z.land (tab Te0 (b0 temp)) 0x0000ff00)) (Z.land (tab Te1 (b3 temp)) 0x000000ff).
(** The one in the middle of a group of a 256-bit key: not rotated. *)
Definition sub_word (temp : Z) : Z :=
  Z.lxor (Z.lxor (Z.lxor (Z.land (tab Te2 (b3 temp)) 0xff000000) (Z.land (tab Te3 (b2 temp)) 0x00ff0000))
                 (Z.land (tab Te0 (b1 temp)) 0x0000ff00)) (Z.land (tab Te1 (b0 temp)) 0x000000ff).

(** [rk[d] = rk[a] ^ rk[b]]. *)
Definition rk_xor (d a b : nat) (rk : list Z) : list Z := <[d := Z.lxor (rk !!! a) (rk !!! b)]> rk.
(** [rk[d] = rk[a] ^ ... ^ rcon[i]] with [temp = rk[b]]. *)
Definition rk_head (i d a b : nat) (rk : list Z) : list Z :=
  <[d := Z.lxor (Z.lxor (rk !!! a) (sub_rot (rk !!! b))) (rcon !!! i)]> rk.
Definition rk_mid (d a b : nat) (rk : list Z) : list Z :=
  <[d := Z.lxor (rk !!! a) (sub_word (rk !!! b))]> rk.

(** The bodies of the three [while (1)] loops up to the test that ends them, and
    what follows it; [o] is how far [rk] has advanced. *)
Definition body128 (i : nat) (rk : list Z) : list Z :=
  let o := (4 * i)%nat in
  rk_xor (o + 7) (o + 3) (o + 6) (rk_xor (o + 6) (o + 2) (o + 5)
    (rk_xor (o + 5) (o + 1) (o + 4) (rk_head i (o + 4) o (o + 3) rk))).
Definition body192 (i : nat) (rk : list Z) : list Z :=
  let o := (6 * i)%nat in
  rk_xor (o + 9) (o + 3) (o + 8) (rk_xor (o + 8) (o + 2) (o + 7)
    (rk_xor (o + 7) (o + 1) (o + 6) (rk_head i (o + 6) o (o + 5) rk))).
Definition rest192 (i : nat) (rk : list Z) : list Z :=
  let o := (6 * i)%nat in
  rk_xor (o + 11) (o + 5) (o + 10) (rk_xor (o + 10) (o + 4) (o + 9) rk).
Definition body256 (i : nat) (rk : list Z) : list Z :=
  let o := (8 * i)%nat in
  rk_xor (o + 11) (o + 3) (o + 10) (rk_xor (o + 10) (o + 2) (o + 9)
    (rk_xor (o + 9) (o + 1) (o + 8) (rk_head i (o + 8) o (o + 7) rk))).
Definition rest256 (i : nat) (rk : list Z) : list Z :=
  let o := (8 * i)%nat in
  rk_xor (o + 15) (o + 7) (o + 14) (rk_xor (o + 14) (o + 6) (o + 13)
    (rk_xor (o + 13) (o + 5) (o + 12) (rk_mid (o + 12) (o + 4) (o + 11) rk))).

(** [while (1) { body; if (++i == n) return 0; rest }] *)
Definition rk_loop (n : nat) (body rest : nat → list Z → list Z) (rk : list Z) : list Z :=
  body (n - 1)%nat (for_loop 0 (n - 1) (λ i rk, rest i (body i rk)) rk).

(** [rk[j] = GETU32(userKey + 4 * j)] for [j] below [n]. *)
Definition load_key (userKey : list Z) (n : nat) (rk : list Z) : list Z :=
  for_loop 0 n (λ j rk, <[j := GETU32 userKey (4 * j)]> rk) rk.

(** [private_AES_set_encrypt_key(userKey, bits, key)]: the value returned and the
    key afterwards; a null pointer is [None]. *)
Definition private_AES_set_encrypt_key (userKey : option (list Z)) (bits : Z) (key : option AES_KEY)
    : Z * option AES_KEY :=
  match userKey, key with
  | Some userKey, Some key =>
      if decide (bits = 128) then
        (0, Some {| rounds := 10; rd_key :=
          rk_loop 10 body128 (λ _ rk, rk) (load_key userKey 4 (rd_key key)) |})
      else if decide (bits = 192) then
        (0, Some {| rounds := 12; rd_key :=
          rk_loop 8 body192 rest192 (load_key userKey 6 (rd_key key)) |})
      else if decide (bits = 256) then
        (0, Some {| rounds := 14; rd_key :=
          rk_loop 7 body256 rest256 (load_key userKey 8 (rd_key key)) |})
      else (-2, Some key)
  | _, _ => (-1, key)
  end.

Definition AES_set_encrypt_key := private_AES_set_encrypt_key.

(** [temp = rk[a]; rk[a] = rk[b]; rk[b] = temp] *)
Definition rk_swap (a b : nat) (rk : list Z) : list Z :=
  <[b := rk !!! a]> (<[a := rk !!! b]> rk).

(** [for (i = 0, j = 4 * rounds; i < j; i += 4, j -= 4)] *)
Fixpoint invert_order (fuel i j : nat) (rk : list Z) : list Z :=
  match fuel with
  | O => rk
  | S fuel =>
      if decide (i < j)%nat then
        invert_order fuel (i + 4) (j - 4)
          (rk_swap (i + 3) (j + 3) (rk_swap (i + 2) (j + 2) (rk_swap (i + 1) (j + 1) (rk_swap i j rk))))
      else rk
  end.

(** The inverse MixColumn transform of one word. *)
Definition inv_mix_word (w : Z) : Z :=
  Z.lxor (Z.lxor (Z.lxor (tab Td0 (Z.land (tab Te1 (b3 w)) 0xff)) (tab Td1 (Z.land (tab Te1 (b2 w)) 0xff)))
                 (tab Td2 (Z.land (tab Te1 (b1 w)) 0xff))) (tab Td3 (Z.land (tab Te1 (b0 w)) 0xff)).
Definition inv_mix_key (i : nat) (rk : list Z) : list Z :=
  let upd j rk := <[(4 * i + j)%nat := inv_mix_word (rk !!! (4 * i + j)%nat)]> rk in
  upd 3%nat (upd 2%nat (upd 1%nat (upd 0%nat rk))).

Definition private_AES_set_decrypt_key (userKey : option (list Z)) (bits : Z) (key : option AES_KEY)
    : Z * option AES_KEY :=
  let '(status, key) := private_AES_set_encrypt_key userKey bits key in
  if decide (status < 0) then (status, key)
  else
    (0, (λ key,
      let nr := Z.to_nat (rounds key) in
      {| rounds := rounds key; rd_key :=
           for_loop 1 nr inv_mix_key (invert_order (S nr) 0 (4 * nr) (rd_key key)) |}) <$> key).

Definition AES_set_decrypt_key := private_AES_set_decrypt_key.

(** *** One block *)

(** The state in four words. *)
Record state := { s0 : Z; s1 : Z; s2 : Z; s3 : Z }.

(** [T0[w >> 24] ^ T1[(x >> 16) & 0xff] ^ T2[(y >> 8) & 0xff] ^ T3[z & 0xff] ^ k] *)
Definition table_word (T0 T1 T2 T3 : list Z) (w x y z k : Z) : Z :=
  Z.lxor (Z.lxor (Z.lxor (Z.lxor (tab T0 (b3 w)) (tab T1 (b2 x))) (tab T2 (b1 y))) (tab T3 (b0 z))) k.

Definition enc_round (s : state) (rk : list Z) (o : nat) : state :=
  let t := table_word Te0 Te1 Te2 Te3 in
  {| s0 := t (s0 s) (s1 s) (s2 s) (s3 s) (rk !!! o);
     s1 := t (s1 s) (s2 s) (s3 s) (s0 s) (rk !!! (o + 1)%nat);
     s2 := t (s2 s) (s3 s) (s0 s) (s1 s) (rk !!! (o + 2)%nat);
     s3 := t (s3 s) (s0 s) (s1 s) (s2 s) (rk !!! (o + 3)%nat) |}.
Definition dec_round (s : state) (rk : list Z) (o : nat) : state :=
  let t := table_word Td0 Td1 Td2 Td3 in
  {| s0 := t (s0 s) (s3 s) (s2 s) (s1 s) (rk !!! o);
     s1 := t (s1 s) (s0 s) (s3 s) (s2 s) (rk !!! (o + 1)%nat);
     s2 := t (s2 s) (s1 s) (s0 s) (s3 s) (rk !!! (o + 2)%nat);
     s3 := t (s3 s) (s2 s) (s1 s) (s0 s) (rk !!! (o + 3)%nat) |}.

(** The words of the last round. *)
Definition enc_last_word (w x y z k : Z) : Z :=
  Z.lxor (Z.lxor (Z.lxor (Z.lxor (Z.land (tab Te2 (b3 w)) 0xff000000) (Z.land (tab Te3 (b2 x)) 0x00ff0000))
                         (Z.land (tab Te0 (b1 y)) 0x0000ff00)) (Z.land (tab Te1 (b0 z)) 0x000000ff)) k.
(** [Td4[w >> 24] << 24] is a shift of an [int] into the sign, read as 32 bits. *)
Definition dec_last_word (w x y z k : Z) : Z :=
  Z.lxor (Z.lxor (Z.lxor (Z.lxor (wrap 32 (Z.shiftl (tab Td4 (b3 w)) 24)) (Z.shiftl (tab Td4 (b2 x)) 16))
                         (Z.shiftl (tab Td4 (b1 y)) 8)) (tab Td4 (b0 z))) k.

Definition enc_last (s : state) (rk : list Z) (o : nat) : state :=
  {| s0 := enc_last_word (s0 s) (s1 s) (s2 s) (s3 s) (rk !!! o);
     s1 := enc_last_word (s1 s) (s2 s) (s3 s) (s0 s) (rk !!! (o + 1)%nat);
     s2 := enc_last_word (s2 s) (s3 s) (s0 s) (s1 s) (rk !!! (o + 2)%nat);
     s3 := enc_last_word (s3 s) (s0 s) (s1 s) (s2 s) (rk !!! (o + 3)%nat) |}.
Definition dec_last (s : state) (rk : list Z) (o : nat) : state :=
  {| s0 := dec_last_word (s0 s) (s3 s) (s2 s) (s1 s) (rk !!! o);
     s1 := dec_last_word (s1 s) (s0 s) (s3 s) (s2 s) (rk !!! (o + 1)%nat);
     s2 := dec_last_word (s2 s) (s1 s) (s0 s) (s3 s) (rk !!! (o + 2)%nat);
     s3 := dec_last_word (s3 s) (s2 s) (s1 s) (s0 s) (rk !!! (o + 3)%nat) |}.

(** [for (;;)] with two rounds per turn and the exit in the middle: [r] turns are
    left, [o] is how far [rk] has advanced. With no turn left the code would run on
    past the end of the key; [t] and the new [rk] at the exit. *)
Fixpoint round_loop (round : state → list Z → nat → state) (r : nat) (s : state)
    (rk : list Z) (o : nat) : option (state * nat) :=
  match r with
  | O => None
  | 1%nat => Some (round s rk (o + 4)%nat, (o + 8)%nat)
  | S r => round_loop round r (round (round s rk (o + 4)%nat) rk (o + 8)%nat) rk (o + 8)%nat
  end.

(** [AES_encrypt] and [AES_decrypt] differ in their rounds. *)
Definition aes_crypt (round last : state → list Z → nat → state) (key : AES_KEY) (b : list Z)
    : option (list Z) :=
  let rk := rd_key key in
  let s := {| s0 := Z.lxor (GETU32 b 0) (rk !!! 0%nat); s1 := Z.lxor (GETU32 b 4) (rk !!! 1%nat);
              s2 := Z.lxor (GETU32 b 8) (rk !!! 2%nat); s3 := Z.lxor (GETU32 b 12) (rk !!! 3%nat) |} in
  '(t, o) ← round_loop round (Z.to_nat (Z.shiftr (rounds key) 1)) s rk 0;
  let s := last t rk o in
  Some (PUTU32 (s0 s) ++ PUTU32 (s1 s) ++ PUTU32 (s2 s) ++ PUTU32 (s3 s)).

Definition aes_encrypt_bytes := aes_crypt enc_round enc_last.
Definition aes_decrypt_bytes := aes_crypt dec_round dec_last.

(** The input is read before the output is written, so they can overlap. *)
Definition AES_encrypt (key : AES_KEY) (inp out : ptr) : C unit :=
  b ← load inp 16; c ← (λ m, (λ c, (c, m)) <$> aes_encrypt_bytes key b); store out c.
Definition AES_decrypt (key : AES_KEY) (inp out : ptr) : C unit :=
  b ← load inp 16; c ← (λ m, (λ c, (c, m)) <$> aes_decrypt_bytes key b); store out c.

(** ** Facts *)

(** *** Field arithmetic *)

Lemma byte_forall (P : Z → Prop) :
  Forall P (Z.of_nat <$> seq 0 256) → ∀ x, is_byte x → P x.
Proof.
  intros HP x [H0 H1]. apply (Forall_lookup_1 P _ (Z.to_nat x) x HP).
  rewrite list_lookup_fmap, lookup_seq_lt by lia. simpl. f_equal. lia.
Qed.

Module Gf.
Import AesSpec.

Lemma xtime_byte b : is_byte (xtime b).
Proof. unfold xtime. apply is_word_lxor; [done|by apply wrap_is_word|]. by destruct (Z.testbit b 7). Qed.

Lemma xtime_lxor a b : xtime (Z.lxor a b) = Z.lxor (xtime a) (xtime b).
Proof.
  unfold xtime. rewrite Z.lxor_spec, Z.shiftl_lxor, wrap_lxor by done.
  apply Z.bits_inj'. intros i _. rewrite !Z.lxor_spec.
  destruct (Z.testbit a 7), (Z.testbit b 7); cbn [xorb]; rewrite ?Z.testbit_0_l; btauto.
Qed.

Lemma gmul_bits_lxor n : ∀ c a b, gmul_bits n c (Z.lxor a b) = Z.lxor (gmul_bits n c a) (gmul_bits n c b).
Proof.
  induction n as [|n IH]; intros c a b; [done|]. cbn [gmul_bits]. rewrite xtime_lxor, IH.
  apply Z.bits_inj'. intros i _. rewrite !Z.lxor_spec.
  destruct (Z.testbit c 0); rewrite ?Z.lxor_spec, ?Z.testbit_0_l; btauto.
Qed.

Lemma gmul_lxor c a b : gmul c (Z.lxor a b) = Z.lxor (gmul c a) (gmul c b).
Proof. apply gmul_bits_lxor. Qed.

Lemma gmul_bits_byte n : ∀ c b, is_byte b → is_byte (gmul_bits n c b).
Proof.
  induction n as [|n IH]; intros c b Hb; [done|]. cbn [gmul_bits].
  apply is_word_lxor; [done|by destruct (Z.testbit c 0)|]. apply IH, xtime_byte.
Qed.

Lemma gmul_byte c b : is_byte b → is_byte (gmul c b).
Proof. apply gmul_bits_byte. Qed.

Lemma gmul_1 b : gmul 1 b = b.
Proof. unfold gmul. cbn [gmul_bits]. cbn. apply Z.lxor_0_r. Qed.

(** The matrix of InvMixColumns times that of MixColumns is the identity. *)
Lemma inv_mix_coeffs x :
  is_byte x →
  let f := gmul in
  Z.lxor (Z.lxor (Z.lxor (f 14 (f 2 x)) (f 11 (f 1 x))) (f 13 (f 1 x))) (f 9 (f 3 x)) = x ∧
  Z.lxor (Z.lxor (Z.lxor (f 14 (f 3 x)) (f 11 (f 2 x))) (f 13 (f 1 x))) (f 9 (f 1 x)) = 0 ∧
  Z.lxor (Z.lxor (Z.lxor (f 14 (f 1 x)) (f 11 (f 3 x))) (f 13 (f 2 x))) (f 9 (f 1 x)) = 0 ∧
  Z.lxor (Z.lxor (Z.lxor (f 14 (f 1 x)) (f 11 (f 1 x))) (f 13 (f 3 x))) (f 9 (f 2 x)) = 0.
Proof. revert x. apply byte_forall. decide_by_compute. Qed.
End Gf.

(** [xor_ac]: an equation of exclusive ors, up to order and pairs that cancel. *)
Ltac xor_ac := apply Z.bits_inj'; intros ? _; rewrite !Z.lxor_spec; btauto.

(** *** The tables *)

Definition word_of (c : list Z) : Z := be_word (c !!! 0%nat) (c !!! 1%nat) (c !!! 2%nat) (c !!! 3%nat).

(** What the tables hold at [x], whose image is [s] and whose inverse image is [i]. *)
Definition tables_at (x s i : Z) : Prop :=
  let e k := AesSpec.gmul k s in let d k := AesSpec.gmul k i in
  (tab Te0 x = be_word (e 2) (e 1) (e 1) (e 3) ∧ tab Te1 x = be_word (e 3) (e 2) (e 1) (e 1) ∧
   tab Te2 x = be_word (e 1) (e 3) (e 2) (e 1) ∧ tab Te3 x = be_word (e 1) (e 1) (e 3) (e 2)) ∧
  (tab Td0 x = be_word (d 14) (d 9) (d 13) (d 11) ∧ tab Td1 x = be_word (d 11) (d 14) (d 9) (d 13) ∧
   tab Td2 x = be_word (d 13) (d 11) (d 14) (d 9) ∧ tab Td3 x = be_word (d 9) (d 13) (d 11) (d 14)) ∧
  tab Td4 x = i ∧ AesSpec.inv_sbox s = x ∧ AesSpec.sbox i = x ∧ is_byte s ∧ is_byte i.

#[global] Instance tables_at_dec x s i : Decision (tables_at x s i).
Proof. unfold tables_at. apply _. Defined.

Lemma tables_at_all x : is_byte x → tables_at x (AesSpec.sbox x) (AesSpec.inv_sbox x).
Proof. revert x. apply byte_forall. decide_by_compute. Qed.

#[local] Opaque AesSpec.gmul AesSpec.sbox AesSpec.inv_sbox.

(** *** Columns as words *)

Lemma be_word_lxor a b c d a' b' c' d' :
  is_byte a → is_byte b → is_byte c → is_byte d →
  is_byte a' → is_byte b' → is_byte c' → is_byte d' →
  Z.lxor (be_word a b c d) (be_word a' b' c' d') =
  be_word (Z.lxor a a') (Z.lxor b b') (Z.lxor c c') (Z.lxor d d').
Proof. intros. unfold be_word. bitwise. Qed.

Lemma word_of_be_bytes w : is_word 32 w → word_of (be_bytes w) = w.
Proof. apply be_word_bytes. Qed.

Section word_bytes.
Context (a b c d : Z) (Ha : is_byte a) (Hb : is_byte b) (Hc : is_byte c) (Hd : is_byte d).

Lemma b3_be_word : b3 (be_word a b c d) = a.
Proof. unfold b3, be_word. bitwise. Qed.
Lemma b2_be_word : b2 (be_word a b c d) = b.
Proof. unfold b2, be_word. bitwise. Qed.
Lemma b1_be_word : b1 (be_word a b c d) = c.
Proof. unfold b1, be_word. bitwise. Qed.
Lemma b0_be_word : b0 (be_word a b c d) = d.
Proof. unfold b0, be_word. bitwise. Qed.

Lemma PUTU32_be_word : PUTU32 (be_word a b c d) = [a; b; c; d].
Proof. unfold PUTU32, be_word. repeat f_equal; bitwise. Qed.

Lemma shifted_bytes :
  Z.lxor (Z.lxor (Z.lxor (wrap 32 (Z.shiftl a 24)) (Z.shiftl b 16)) (Z.shiftl c 8)) d = be_word a b c d.
Proof. unfold be_word. bitwise. Qed.

Lemma mask3_be_word : Z.land (be_word a b c d) 0xff000000 = be_word a 0 0 0.
Proof. change 0xff000000 with (Z.shiftl (Z.ones 8) 24). unfold be_word. bitwise. Qed.
Lemma mask2_be_word : Z.land (be_word a b c d) 0x00ff0000 = be_word 0 b 0 0.
Proof. change 0x00ff0000 with (Z.shiftl (Z.ones 8) 16). unfold be_word. bitwise. Qed.
Lemma mask1_be_word : Z.land (be_word a b c d) 0x0000ff00 = be_word 0 0 c 0.
Proof. change 0x0000ff00 with (Z.shiftl (Z.ones 8) 8). unfold be_word. bitwise. Qed.
Lemma mask0_be_word : Z.land (be_word a b c d) 0x000000ff = be_word 0 0 0 d.
Proof. unfold be_word. bitwise. Qed.
End word_bytes.

Lemma is_byte_0 : is_byte 0.
Proof. done. Qed.

Ltac bytes :=
  repeat lazymatch goal with
  | |- is_word 8 0 => apply is_byte_0
  | |- is_word 8 (Z.lxor _ _) => apply is_word_lxor; [lia| |]
  | |- is_word 8 (AesSpec.gmul _ _) => apply Gf.gmul_byte
  | |- is_word 8 _ => assumption
  end.

Lemma mix_column_4 k0 k1 k2 k3 a b c d :
  AesSpec.mix_column k0 k1 k2 k3 [a; b; c; d] =
  let f := AesSpec.gmul in
  [Z.lxor (Z.lxor (Z.lxor (f k0 a) (f k1 b)) (f k2 c)) (f k3 d);
   Z.lxor (Z.lxor (Z.lxor (f k0 b) (f k1 c)) (f k2 d)) (f k3 a);
   Z.lxor (Z.lxor (Z.lxor (f k0 c) (f k1 d)) (f k2 a)) (f k3 b);
   Z.lxor (Z.lxor (Z.lxor (f k0 d) (f k1 a)) (f k2 b)) (f k3 c)].
Proof. done. Qed.

Ltac tables_of x H :=
  let Hx := fresh in
  assert (Hx := tables_at_all x H); unfold tables_at in Hx; cbv zeta in Hx;
  destruct Hx as ((?He0 & ?He1 & ?He2 & ?He3) & (?Hd0 & ?Hd1 & ?Hd2 & ?Hd3) & ?Hd4 & ?Hinv & ?Hinv' & ?Hs & ?Hi).

Lemma b3_byte w : is_word 32 w → is_byte (b3 w).
Proof.
  intros Hw. apply is_word_bits; [done|]. intros i Hi. unfold b3. rewrite Z.shiftr_spec by lia.
  apply (testbit_high 32); [done|lia].
Qed.

Section columns.
Context (w x y z k3 k2 k1 k0 : Z) (Hw : is_word 32 w).
Context (H3 : is_byte k3) (H2 : is_byte k2) (H1 : is_byte k1) (H0 : is_byte k0).

Let Ha : is_byte (b3 w) := b3_byte w Hw.
Let Hb : is_byte (b2 x) := land_255_is_byte _.
Let Hc : is_byte (b1 y) := land_255_is_byte _.
Let Hd : is_byte (b0 z) := land_255_is_byte _.

Lemma enc_table_word :
  table_word Te0 Te1 Te2 Te3 w x y z (be_word k3 k2 k1 k0) =
  word_of (xor_list (AesSpec.mix_column 2 3 1 1
    [AesSpec.sbox (b3 w); AesSpec.sbox (b2 x); AesSpec.sbox (b1 y); AesSpec.sbox (b0 z)]) [k3; k2; k1; k0]).
Proof.
  rewrite mix_column_4. cbv zeta. unfold word_of. cbn [xor_list zip_with lookup_total list_lookup_total].
  unfold table_word.  tables_of (b3 w) Ha. tables_of (b2 x) Hb. tables_of (b1 y) Hc. tables_of (b0 z) Hd.
  rewrite He0, He5, He10, He15, !be_word_lxor by bytes. f_equal; xor_ac.
Qed.

Lemma dec_table_word :
  table_word Td0 Td1 Td2 Td3 w x y z (be_word k3 k2 k1 k0) =
  word_of (xor_list (AesSpec.mix_column 14 11 13 9
    [AesSpec.inv_sbox (b3 w); AesSpec.inv_sbox (b2 x); AesSpec.inv_sbox (b1 y); AesSpec.inv_sbox (b0 z)]) [k3; k2; k1; k0]).
Proof.
  rewrite mix_column_4. cbv zeta. unfold word_of. cbn [xor_list zip_with lookup_total list_lookup_total].
  unfold table_word.  tables_of (b3 w) Ha. tables_of (b2 x) Hb. tables_of (b1 y) Hc. tables_of (b0 z) Hd.
  rewrite Hd0, Hd6, Hd12, Hd18, !be_word_lxor by bytes. f_equal; xor_ac.
Qed.

Lemma enc_last_word_spec :
  enc_last_word w x y z (be_word k3 k2 k1 k0) =
  word_of (xor_list [AesSpec.sbox (b3 w); AesSpec.sbox (b2 x); AesSpec.sbox (b1 y); AesSpec.sbox (b0 z)] [k3; k2; k1; k0]).
Proof.
  unfold word_of. cbn [xor_list zip_with lookup_total list_lookup_total].
  unfold enc_last_word. 
  tables_of (b3 w) Ha. tables_of (b2 x) Hb. tables_of (b1 y) Hc. tables_of (b0 z) Hd.
  rewrite He2, He7, He8, He13, mask3_be_word, mask2_be_word, mask1_be_word, mask0_be_word by bytes.
  rewrite !be_word_lxor, !Gf.gmul_1 by bytes. by rewrite !Z.lxor_0_r, !Z.lxor_0_l.
Qed.

Lemma dec_last_word_spec :
  dec_last_word w x y z (be_word k3 k2 k1 k0) =
  word_of (xor_list [AesSpec.inv_sbox (b3 w); AesSpec.inv_sbox (b2 x); AesSpec.inv_sbox (b1 y); AesSpec.inv_sbox (b0 z)]
                    [k3; k2; k1; k0]).
Proof.
  unfold word_of. cbn [xor_list zip_with lookup_total list_lookup_total].
  unfold dec_last_word. 
  tables_of (b3 w) Ha. tables_of (b2 x) Hb. tables_of (b1 y) Hc. tables_of (b0 z) Hd.
  rewrite Hd4, Hd9, Hd14, Hd19. rewrite <- be_word_lxor by bytes. f_equal.
  by apply shifted_bytes.
Qed.
End columns.

(** *** Rounds *)

(** The four words of 16 bytes, and the 16 bytes of four words. *)
Definition to_state (l : list Z) : state :=
  {| s0 := word_of l; s1 := word_of (drop 4 l); s2 := word_of (drop 8 l); s3 := word_of (drop 12 l) |}.

(** The words of [rk] from [o] on are those of the 16 bytes [k]. *)
Definition round_words (rk : list Z) (o : nat) (k : list Z) : Prop :=
  rk !!! o = word_of k ∧ rk !!! (o + 1)%nat = word_of (drop 4 k) ∧
  rk !!! (o + 2)%nat = word_of (drop 8 k) ∧ rk !!! (o + 3)%nat = word_of (drop 12 k).

Definition round_key (w : list Z) (r : nat) : list Z := mjoin (be_bytes <$> take 4 (drop (4 * r) w)).

Lemma round_key_spec (w : list Z) r :
  is_words w → (4 * r + 4 ≤ length w)%nat →
  length (round_key w r) = 16%nat ∧ is_bytes (round_key w r) ∧ round_words w (4 * r) (round_key w r).
Proof.
  intros Hw Hl. unfold round_key, round_words.
  assert (Hk : length (take 4 (drop (4 * r) w)) = 4%nat) by (rewrite length_take, length_drop; lia).
  assert (Hkw : is_words (take 4 (drop (4 * r) w))) by by apply Forall_take, Forall_drop.
  assert (Hi : ∀ i, (i < 4)%nat → w !!! (4 * r + i)%nat = take 4 (drop (4 * r) w) !!! i).
  { intros i Hi. rewrite lookup_total_take_lt, lookup_total_drop by lia. done. }
  generalize dependent (take 4 (drop (4 * r) w)). intros k Hk Hkw Hi.
  assert (H0 := Hi 0%nat). rewrite Nat.add_0_r in H0. rewrite H0, !Hi by lia. clear H0 Hi.
  explode k 4%nat. split_Forall. split_and!; [done| |..].
  - cbn [fmap list_fmap mjoin list_join]. rewrite !Forall_app. split_and!; auto using be_bytes_are_bytes.
  - symmetry. by apply word_of_be_bytes.
  - symmetry. by apply word_of_be_bytes.
  - symmetry. by apply word_of_be_bytes.
  - symmetry. by apply word_of_be_bytes.
Qed.

Lemma word_of_cons a b c d l : word_of (a :: b :: c :: d :: l) = be_word a b c d.
Proof. done. Qed.

(** The bytes of words made of known bytes. *)
Ltac word_bytes := rewrite ?b3_be_word, ?b2_be_word, ?b1_be_word, ?b0_be_word by assumption.

Definition shift_sub (s : list Z) : list Z := AesSpec.ShiftRows (AesSpec.SubBytes s).

Lemma enc_round_spec s rk o k :
  length s = 16%nat → is_bytes s → length k = 16%nat → is_bytes k → round_words rk o k →
  enc_round (to_state s) rk o = to_state (xor_list (AesSpec.MixColumns (shift_sub s)) k).
Proof.
  intros Hs Hb Hk Hkb (E0 & E1 & E2 & E3). unfold enc_round. cbv zeta. rewrite E0, E1, E2, E3.
  explode s 16%nat. explode k 16%nat. split_Forall.
  unfold to_state. cbn [s0 s1 s2 s3 drop]. rewrite !word_of_cons, !enc_table_word by (assumption || by apply be_word_is_word).
  word_bytes. reflexivity.
Qed.

Lemma enc_last_spec s rk o k :
  length s = 16%nat → is_bytes s → length k = 16%nat → is_bytes k → round_words rk o k →
  enc_last (to_state s) rk o = to_state (xor_list (shift_sub s) k).
Proof.
  intros Hs Hb Hk Hkb (E0 & E1 & E2 & E3). unfold enc_last. cbv zeta. rewrite E0, E1, E2, E3.
  explode s 16%nat. explode k 16%nat. split_Forall.
  unfold to_state. cbn [s0 s1 s2 s3 drop]. rewrite !word_of_cons, !enc_last_word_spec by (assumption || by apply be_word_is_word).
  word_bytes. reflexivity.
Qed.

Definition inv_shift_sub (s : list Z) : list Z := AesSpec.InvSubBytes (AesSpec.InvShiftRows s).

(** The decryption of the code adds a round key after the columns are mixed. *)
Lemma dec_round_spec s rk o k :
  length s = 16%nat → is_bytes s → length k = 16%nat → is_bytes k → round_words rk o k →
  dec_round (to_state s) rk o = to_state (xor_list (AesSpec.InvMixColumns (inv_shift_sub s)) k).
Proof.
  intros Hs Hb Hk Hkb (E0 & E1 & E2 & E3). unfold dec_round. cbv zeta. rewrite E0, E1, E2, E3.
  explode s 16%nat. explode k 16%nat. split_Forall.
  unfold to_state. cbn [s0 s1 s2 s3 drop]. rewrite !word_of_cons, !dec_table_word by (assumption || by apply be_word_is_word).
  word_bytes. reflexivity.
Qed.

Lemma dec_last_spec s rk o k :
  length s = 16%nat → is_bytes s → length k = 16%nat → is_bytes k → round_words rk o k →
  dec_last (to_state s) rk o = to_state (xor_list (inv_shift_sub s) k).
Proof.
  intros Hs Hb Hk Hkb (E0 & E1 & E2 & E3). unfold dec_last. cbv zeta. rewrite E0, E1, E2, E3.
  explode s 16%nat. explode k 16%nat. split_Forall.
  unfold to_state. cbn [s0 s1 s2 s3 drop]. rewrite !word_of_cons, !dec_last_word_spec by (assumption || by apply be_word_is_word).
  word_bytes. reflexivity.
Qed.

Lemma GETU32_spec l i :
  is_bytes l → GETU32 l i = be_word (l !!! i) (l !!! (i + 1)%nat) (l !!! (i + 2)%nat) (l !!! (i + 3)%nat).
Proof.
  intros Hl. unfold GETU32. rewrite <- shifted_bytes by by apply bytes_lookup_total.
  pose proof (λ i, bytes_lookup_total l i Hl) as Hb.
  rewrite !(wrap_small 32 (Z.shiftl _ 16)), !(wrap_small 32 (Z.shiftl _ 8)); [done|..];
    apply is_word_bits; try done; intros j Hj; rewrite testbit_shiftl by lia;
    rewrite (testbit_high 8) by (done || lia); apply andb_false_r.
Qed.

Lemma add_first_key s rk k :
  length s = 16%nat → is_bytes s → length k = 16%nat → is_bytes k → round_words rk 0 k →
  {| s0 := Z.lxor (GETU32 s 0) (rk !!! 0%nat); s1 := Z.lxor (GETU32 s 4) (rk !!! 1%nat);
     s2 := Z.lxor (GETU32 s 8) (rk !!! 2%nat); s3 := Z.lxor (GETU32 s 12) (rk !!! 3%nat) |}
  = to_state (xor_list s k).
Proof.
  intros Hs Hb Hk Hkb (E0 & E1 & E2 & E3). simpl in E1, E2, E3.
  rewrite E0, E1, E2, E3, !GETU32_spec by done.
  explode s 16%nat. explode k 16%nat. split_Forall. cbn [drop]. rewrite !word_of_cons.
  cbn [lookup_total list_lookup_total Nat.add]. rewrite !be_word_lxor by done. reflexivity.
Qed.

Lemma put_state s :
  length s = 16%nat → is_bytes s →
  PUTU32 (s0 (to_state s)) ++ PUTU32 (s1 (to_state s)) ++ PUTU32 (s2 (to_state s)) ++
  PUTU32 (s3 (to_state s)) = s.
Proof.
  intros Hs Hb. explode s 16%nat. split_Forall. unfold to_state. cbn [s0 s1 s2 s3 drop].
  rewrite !word_of_cons, !PUTU32_be_word by done. done.
Qed.

(** *** The steps of the standard *)

(** 16 bytes. *)
Definition sized (s : list Z) : Prop := length s = 16%nat ∧ is_bytes s.

Lemma sized_xor s k : sized s → sized k → sized (xor_list s k).
Proof.
  intros [Hs Hb] [Hk Hkb]. split; [rewrite xor_list_length; congruence|by apply xor_list_bytes].
Qed.

Lemma sized_SubBytes s : sized s → sized (AesSpec.SubBytes s).
Proof.
  intros [Hs Hb]. split; [by unfold AesSpec.SubBytes; rewrite length_fmap|].
  apply Forall_fmap. revert Hb. apply Forall_impl. intros x Hx. by apply tables_at_all.
Qed.

Lemma sized_InvSubBytes s : sized s → sized (AesSpec.InvSubBytes s).
Proof.
  intros [Hs Hb]. split; [by unfold AesSpec.InvSubBytes; rewrite length_fmap|].
  apply Forall_fmap. revert Hb. apply Forall_impl. intros x Hx. by apply tables_at_all.
Qed.

Lemma sized_permuted (f : nat → nat) s : is_bytes s → sized ((λ i, s !!! f i) <$> seq 0 16).
Proof.
  intros Hb. split; [done|]. apply Forall_fmap, Forall_true. intros. by apply bytes_lookup_total.
Qed.

Lemma sized_mix k0 k1 k2 k3 s : sized s → sized (blockwise (AesSpec.mix_column k0 k1 k2 k3) 4 s).
Proof.
  intros [Hs Hb]. explode s 16%nat. split_Forall. split; [done|].
  change (is_bytes (mjoin (AesSpec.mix_column k0 k1 k2 k3 <$>
    [[z; z0; z1; z2]; [z3; z4; z5; z6]; [z7; z8; z9; z10]; [z11; z12; z13; z14]]))).
  cbn [fmap list_fmap mjoin list_join]. rewrite !mix_column_4. cbv zeta.
  rewrite !Forall_app. split_and!; repeat (apply List.Forall_cons; [bytes|]); apply List.Forall_nil.
Qed.

Lemma sized_shift_sub s : sized s → sized (shift_sub s).
Proof. intros Hs. apply sized_permuted, sized_SubBytes, Hs. Qed.

Lemma sized_inv_shift_sub s : sized s → sized (inv_shift_sub s).
Proof. intros [Hs Hb]. apply sized_InvSubBytes. by apply sized_permuted. Qed.

Lemma inv_shift_sub_shift_sub s : sized s → inv_shift_sub (shift_sub s) = s.
Proof.
  intros [Hs Hb].
  assert (E : AesSpec.InvShiftRows (shift_sub s) = AesSpec.SubBytes s).
  { destruct (sized_SubBytes s) as [Hl _]; [done|]. unfold shift_sub.
    generalize dependent (AesSpec.SubBytes s). intros l Hl. by explode l 16%nat. }
  unfold inv_shift_sub. rewrite E. unfold AesSpec.InvSubBytes, AesSpec.SubBytes.
  rewrite <- list_fmap_compose. rewrite <- (list_fmap_id s) at 2.
  apply list_fmap_ext. intros i x Hx. apply tables_at_all. by eapply Forall_lookup_1.
Qed.

(** One byte of InvMixColumns after MixColumns. *)
Lemma inv_mix_byte a b c d :
  is_byte a → is_byte b → is_byte c → is_byte d →
  let f := AesSpec.gmul in
  let m a b c d := Z.lxor (Z.lxor (Z.lxor (f 2 a) (f 3 b)) (f 1 c)) (f 1 d) in
  Z.lxor (Z.lxor (Z.lxor (f 14 (m a b c d)) (f 11 (m b c d a))) (f 13 (m c d a b))) (f 9 (m d a b c)) = a.
Proof.
  intros Ha Hb Hc Hd f m. subst m. cbv beta. unfold f. rewrite !Gf.gmul_lxor.
  destruct (Gf.inv_mix_coeffs a Ha) as (Ea & _). destruct (Gf.inv_mix_coeffs b Hb) as (_ & Eb & _).
  destruct (Gf.inv_mix_coeffs c Hc) as (_ & _ & Ec & _). destruct (Gf.inv_mix_coeffs d Hd) as (_ & _ & _ & Ed).
  match type of Ea with ?A = _ => match type of Eb with ?B = _ => match type of Ec with ?C = _ =>
    match type of Ed with ?D = _ =>
    transitivity (Z.lxor (Z.lxor (Z.lxor A B) C) D); [xor_ac|]; rewrite Ea, Eb, Ec, Ed
  end end end end.
  by rewrite !Z.lxor_0_r.
Qed.

Lemma MixColumns_columns k0 k1 k2 k3 a0 a1 a2 a3 c0 c1 c2 c3 d0 d1 d2 d3 e0 e1 e2 e3 :
  blockwise (AesSpec.mix_column k0 k1 k2 k3) 4
    [a0; a1; a2; a3; c0; c1; c2; c3; d0; d1; d2; d3; e0; e1; e2; e3] =
  let m := AesSpec.mix_column k0 k1 k2 k3 in
  m [a0; a1; a2; a3] ++ m [c0; c1; c2; c3] ++ m [d0; d1; d2; d3] ++ m [e0; e1; e2; e3].
Proof. reflexivity. Qed.

Lemma InvMixColumns_MixColumns s : sized s → AesSpec.InvMixColumns (AesSpec.MixColumns s) = s.
Proof.
  intros [Hs Hb]. explode s 16%nat. split_Forall. unfold AesSpec.InvMixColumns, AesSpec.MixColumns.
  rewrite MixColumns_columns. cbv zeta. rewrite !mix_column_4. cbv zeta. cbn [app].
  rewrite MixColumns_columns. cbv zeta. rewrite !mix_column_4. cbv zeta. cbn [app].
  repeat (apply (f_equal2 cons); [by apply inv_mix_byte|]). done.
Qed.

Lemma InvMixColumns_xor s k :
  sized s → sized k →
  AesSpec.InvMixColumns (xor_list s k) = xor_list (AesSpec.InvMixColumns s) (AesSpec.InvMixColumns k).
Proof.
  intros [Hs _] [Hk _]. explode s 16%nat. explode k 16%nat. unfold AesSpec.InvMixColumns, xor_list.
  cbn [zip_with]. rewrite !MixColumns_columns. cbv zeta. rewrite !mix_column_4. cbv zeta.
  cbn [app zip_with]. rewrite !Gf.gmul_lxor. repeat (apply (f_equal2 cons); [xor_ac|]). done.
Qed.

(** *** Whole blocks *)

Lemma round_loop_spec round (rk : list Z) r : ∀ s o,
  round_loop round (S r) s rk o =
  Some (for_loop 1 (2 * S r) (λ i s, round s rk (o + 4 * i)%nat) s, (o + 8 * S r)%nat).
Proof.
  induction r as [|r IH]; intros s o; [reflexivity|].
  change (round_loop round (S (S r)) s rk o)
    with (round_loop round (S r) (round (round s rk (o + 4)%nat) rk (o + 8)%nat) rk (o + 8)%nat).
  rewrite IH. rewrite (for_loop_split 1 3 (2 * S (S r))) by lia.
  replace (2 * S (S r))%nat with (2 * S r + 2)%nat by lia.
  rewrite (for_loop_shift 2 1 (2 * S r)). f_equal. f_equal; [|lia].
  change (for_loop 1 3 (λ i s, round s rk (o + 4 * i)%nat) s)
    with (round (round s rk (o + 4)%nat) rk (o + 8)%nat).
  apply for_loop_ext. intros i s' _. f_equal. lia.
Qed.

Section Schedule.
(** A schedule of [Nr] rounds and the array of the code that holds it. *)
Context (Nr : nat) (w rk : list Z).
Context (HNr : Nr = 10%nat ∨ Nr = 12%nat ∨ Nr = 14%nat).
Context (Hw : is_words w) (Hlen : length w = (4 * (Nr + 1))%nat).

Lemma sized_round_key r : (r ≤ Nr)%nat → sized (round_key w r).
Proof. intros. split; apply round_key_spec; (done || lia). Qed.

Lemma sized_Add r s : (r ≤ Nr)%nat → sized s → sized (AesSpec.AddRoundKey w r s).
Proof. intros. apply sized_xor; [done|]. by apply sized_round_key. Qed.

Lemma sized_rounds s n : (n ≤ Nr)%nat → (1 ≤ n)%nat → sized s →
  sized (for_loop 1 n (AesSpec.Round w) s).
Proof.
  intros Hn Hn1 Hs. apply (for_loop_ind (λ i s, (i ≤ Nr)%nat → sized s)); [lia|done| |lia].
  intros i t Hi IH Hle. apply sized_Add; [lia|]. apply sized_mix, sized_shift_sub, IH. lia.
Qed.

Lemma Cipher_sized s : sized s → sized (AesSpec.Cipher Nr w s).
Proof.
  intros Hs. apply sized_Add; [lia|]. apply sized_shift_sub, sized_rounds; [lia|lia|].
  apply sized_Add; [lia|done].
Qed.

(** The inverse cipher of the standard undoes the cipher. *)
Lemma InvCipher_Cipher s : sized s → AesSpec.InvCipher Nr w (AesSpec.Cipher Nr w s) = s.
Proof.
  intros Hs. set (y n := for_loop 1 n (AesSpec.Round w) (AesSpec.AddRoundKey w 0 s)).
  assert (Hadd : ∀ r t, (r ≤ Nr)%nat → sized t →
    AesSpec.AddRoundKey w r (AesSpec.AddRoundKey w r t) = t).
  { intros r t Hr [Ht _]. apply xor_list_involutive. rewrite Ht. by symmetry; apply sized_round_key. }
  assert (Hy : ∀ n, (1 ≤ n ≤ Nr)%nat → sized (y n)).
  { intros n Hn. apply sized_rounds; [lia..|]. by apply sized_Add; [lia|]. }
  assert (Hinv : ∀ t, sized t → AesSpec.InvSubBytes (AesSpec.InvShiftRows (shift_sub t)) = t)
    by exact inv_shift_sub_shift_sub.
  assert (Hz : (1 ≤ Nr ≤ Nr)%nat → for_loop 1 Nr (λ i, AesSpec.InvRound w (Nr - i))
    (AesSpec.AddRoundKey w Nr (AesSpec.Cipher Nr w s)) = shift_sub (y (Nr - Nr + 1)%nat)).
  { intros. apply (for_loop_ind (λ i t, (i ≤ Nr)%nat → t = shift_sub (y (Nr - i + 1)%nat))); [lia| | |lia].
    - intros _. unfold AesSpec.Cipher. rewrite Hadd; [|lia|apply sized_shift_sub, Hy; lia].
      by replace (Nr - 1 + 1)%nat with Nr by lia.
    - intros i t Hi IH Hle. rewrite IH by lia. unfold AesSpec.InvRound.
      rewrite Hinv by (apply Hy; lia).
      replace (Nr - i + 1)%nat with (S (Nr - i)) by lia. unfold y at 1. rewrite for_loop_last by lia.
      fold (y (Nr - i)%nat). unfold AesSpec.Round. fold (shift_sub (y (Nr - i)%nat)).
      assert (sized (shift_sub (y (Nr - i)%nat))) by (apply sized_shift_sub, Hy; lia).
      rewrite Hadd, InvMixColumns_MixColumns by (done || lia || by apply sized_mix).
      by replace (Nr - S i + 1)%nat with (Nr - i)%nat by lia. }
  unfold AesSpec.InvCipher. rewrite Hz, Nat.sub_diag by lia.
  rewrite Hinv by (apply Hy; lia). by apply Hadd; [lia|].
Qed.

(** A block of the code, for any rounds that do [f] and any last round that does [g]. *)
Lemma aes_crypt_spec round last (k : nat → list Z) f g s :
  (∀ r, (r ≤ Nr)%nat → sized (k r) ∧ round_words rk (4 * r) (k r)) →
  (∀ i t, (1 ≤ i < Nr)%nat → sized t →
    round (to_state t) rk (4 * i)%nat = to_state (f i t) ∧ sized (f i t)) →
  (∀ t, sized t → last (to_state t) rk (4 * Nr)%nat = to_state (g t) ∧ sized (g t)) →
  sized s →
  aes_crypt round last {| rd_key := rk; rounds := Z.of_nat Nr |} s =
  Some (g (for_loop 1 Nr f (xor_list s (k 0%nat)))).
Proof.
  intros Hk Hf Hg Hs. unfold aes_crypt. cbn [rd_key rounds]. cbv zeta.
  destruct (Hk 0%nat) as [Hk0 Hw0]; [lia|].
  rewrite (add_first_key s rk (k 0%nat)) by (apply Hs || apply Hk0 || done).
  replace (Z.to_nat (Z.shiftr (Z.of_nat Nr) 1)) with (S (Nr / 2 - 1))
    by (destruct HNr as [-> | [-> | ->]]; done).
  rewrite round_loop_spec. cbn [mbind option_bind].
  replace (2 * S (Nr / 2 - 1))%nat with Nr by (destruct HNr as [-> | [-> | ->]]; done).
  replace (0 + 8 * S (Nr / 2 - 1))%nat with (4 * Nr)%nat by (destruct HNr as [-> | [-> | ->]]; done).
  assert (Hl : (Nr ≤ Nr)%nat →
    for_loop 1 Nr (λ i t, round t rk (0 + 4 * i)%nat) (to_state (xor_list s (k 0%nat))) =
      to_state (for_loop 1 Nr f (xor_list s (k 0%nat))) ∧
    sized (for_loop 1 Nr f (xor_list s (k 0%nat)))).
  { apply (for_loop_ind (λ i t, (i ≤ Nr)%nat → t = to_state (for_loop 1 i f (xor_list s (k 0%nat))) ∧
      sized (for_loop 1 i f (xor_list s (k 0%nat))))); [lia| |].
    - intros _. split; [done|]. by apply sized_xor.
    - intros i t Hi IH Hle. rewrite for_loop_last by lia. destruct IH as [-> Ht]; [lia|]. by apply Hf. }
  destruct Hl as [-> Hsz]; [done|]. destruct (Hg _ Hsz) as [-> Hgs].
  f_equal. apply put_state; apply Hgs.
Qed.

(** [AES_encrypt] with the array of the code. *)
Lemma aes_encrypt_bytes_spec s :
  (∀ j, (j < length w)%nat → rk !!! j = w !!! j) → sized s →
  aes_encrypt_bytes {| rd_key := rk; rounds := Z.of_nat Nr |} s = Some (AesSpec.Cipher Nr w s).
Proof.
  intros Hrk Hs.
  assert (Hk : ∀ r, (r ≤ Nr)%nat → sized (round_key w r) ∧ round_words rk (4 * r) (round_key w r)).
  { intros r Hr. split; [by apply sized_round_key|].
    destruct (round_key_spec w r) as (_ & _ & Hk); [done|lia|].
    unfold round_words in *. by rewrite !Hrk by lia. }
  apply (aes_crypt_spec _ _ (round_key w) (AesSpec.Round w)
    (λ t, AesSpec.AddRoundKey w Nr (shift_sub t))); [done| | |done].
  - intros i t Hi Ht. destruct (Hk i) as [Hki Hwi]; [lia|].
    split; [|by apply sized_xor; [apply sized_mix, sized_shift_sub|]].
    apply enc_round_spec; (apply Ht || apply Hki || done).
  - intros t Ht. destruct (Hk Nr) as [Hki Hwi]; [lia|].
    split; [|by apply sized_xor; [apply sized_shift_sub|]].
    apply enc_last_spec; (apply Ht || apply Hki || done).
Qed.

(** The round keys of decryption: the other way round, and all but the first and
    the last through InvMixColumns. *)
Definition dec_key (r : nat) : list Z :=
  if decide (r = 0 ∨ r = Nr)%nat then round_key w (Nr - r) else AesSpec.InvMixColumns (round_key w (Nr - r)).

(** [AES_decrypt] with the array of the code. *)
Lemma aes_decrypt_bytes_spec s :
  (∀ r, (r ≤ Nr)%nat → round_words rk (4 * r) (dec_key r)) → sized s →
  aes_decrypt_bytes {| rd_key := rk; rounds := Z.of_nat Nr |} s = Some (AesSpec.InvCipher Nr w s).
Proof.
  intros Hrk Hs.
  assert (Hk : ∀ r, (r ≤ Nr)%nat → sized (dec_key r)).
  { intros r Hr. unfold dec_key. case_decide; [|apply sized_mix]; apply sized_round_key; lia. }
  unfold AesSpec.InvCipher. replace (AesSpec.AddRoundKey w Nr s) with (xor_list s (dec_key 0))
    by (unfold dec_key; rewrite decide_True, Nat.sub_0_r by lia; done).
  apply (aes_crypt_spec _ _ dec_key (λ i, AesSpec.InvRound w (Nr - i))
    (λ t, AesSpec.AddRoundKey w 0 (inv_shift_sub t))); [by auto| | |done].
  - intros i t Hi Ht. assert (Hi' : sized (inv_shift_sub t)) by by apply sized_inv_shift_sub.
    assert (Hr : sized (round_key w (Nr - i))) by (apply sized_round_key; lia).
    split; [|apply sized_mix; by apply sized_Add; [lia|]].
    rewrite (dec_round_spec _ _ _ (dec_key i)); [|apply Ht|apply Ht|apply Hk; lia..|apply Hrk; lia].
    unfold dec_key. rewrite decide_False, <- InvMixColumns_xor by (done || lia). done.
  - intros t Ht. assert (Hi' : sized (inv_shift_sub t)) by by apply sized_inv_shift_sub.
    split; [|by apply sized_Add; [lia|]].
    rewrite (dec_last_spec _ _ _ (dec_key Nr)); [|apply Ht|apply Ht|apply Hk; lia..|apply Hrk; lia].
    unfold dec_key. rewrite decide_True, Nat.sub_diag by lia. done.
Qed.
End Schedule.

(** *** Key expansion *)

Lemma masked_tables a b c d :
  is_byte a → is_byte b → is_byte c → is_byte d →
  Z.lxor (Z.lxor (Z.lxor (Z.land (tab Te2 a) 0xff000000) (Z.land (tab Te3 b) 0x00ff0000))
                 (Z.land (tab Te0 c) 0x0000ff00)) (Z.land (tab Te1 d) 0x000000ff) =
  be_word (AesSpec.sbox a) (AesSpec.sbox b) (AesSpec.sbox c) (AesSpec.sbox d).
Proof.
  intros Ha Hb Hc Hd. tables_of a Ha. tables_of b Hb. tables_of c Hc. tables_of d Hd.
  rewrite He2, He7, He8, He13, mask3_be_word, mask2_be_word, mask1_be_word, mask0_be_word by bytes.
  rewrite !be_word_lxor, !Gf.gmul_1 by bytes. by rewrite !Z.lxor_0_r, !Z.lxor_0_l.
Qed.

Lemma sbox_byte x : is_byte x → is_byte (AesSpec.sbox x).
Proof. intros Hx. by tables_of x Hx. Qed.

Lemma b2_byte x : is_byte (b2 x).
Proof. apply land_255_is_byte. Qed.
Lemma b1_byte x : is_byte (b1 x).
Proof. apply land_255_is_byte. Qed.
Lemma b0_byte x : is_byte (b0 x).
Proof. apply land_255_is_byte. Qed.

Lemma b3_masked x : is_word 32 x → b3 x = Z.land (Z.shiftr x 24) 255.
Proof. intros. unfold b3. bitwise. Qed.

Ltac word_byte :=
  lazymatch goal with
  | |- is_word 8 (b3 _) => apply b3_byte; assumption
  | |- is_word 8 (b2 _) => apply b2_byte
  | |- is_word 8 (b1 _) => apply b1_byte
  | |- is_word 8 (b0 _) => apply b0_byte
  end.

Lemma sub_word_spec x : is_word 32 x → sub_word x = AesSpec.SubWord x.
Proof.
  intros Hx. unfold sub_word. rewrite masked_tables by word_byte.
  by rewrite b3_masked.
Qed.

Lemma sub_rot_spec x : is_word 32 x → sub_rot x = AesSpec.SubWord (AesSpec.RotWord x).
Proof.
  intros Hx. unfold sub_rot. rewrite masked_tables by word_byte.
  unfold AesSpec.SubWord, AesSpec.RotWord, rotl32, b3, b2, b1, b0.
  f_equal; f_equal; bitwise.
Qed.

Lemma SubWord_word x : is_word 32 (AesSpec.SubWord x).
Proof. unfold AesSpec.SubWord. apply be_word_is_word; apply sbox_byte, land_255_is_byte. Qed.

Lemma rcon_spec i : (i < 10)%nat → rcon !!! i = AesSpec.Rcon (S i).
Proof. intros Hi. do 10 (destruct i as [|i]; [decide_by_compute|]). lia. Qed.

Lemma Rcon_word i : is_word 32 (AesSpec.Rcon i).
Proof.
  unfold AesSpec.Rcon.
  assert (Hb : is_byte (Nat.iter (i - 1) AesSpec.xtime 1)).
  { destruct (i - 1)%nat as [|n]; [done|apply Gf.xtime_byte]. }
  apply is_word_bits; [done|]. intros j Hj. rewrite testbit_shiftl, (testbit_high 8 _ (j - 24) Hb) by lia.
  apply andb_false_r.
Qed.

(** The schedule of a key of [Nk] words. *)
Section KeySchedule.
Context (Nk : nat) (k : list Z).
Context (HNk : Nk = 4%nat ∨ Nk = 6%nat ∨ Nk = 8%nat) (Hk : length k = (4 * Nk)%nat) (Hb : is_bytes k).

Lemma key_words_spec : AesSpec.key_words k = (λ j, GETU32 k (4 * j)) <$> seq 0 Nk.
Proof.
  unfold AesSpec.key_words. rewrite (chunks_seq 4 Nk), <- list_fmap_compose by (done || lia).
  apply list_fmap_ext. intros i j [-> Hj]%lookup_seq. cbn [compose].
  rewrite GETU32_spec by done. rewrite !lookup_total_take_lt, !lookup_total_drop by lia.
  by rewrite Nat.add_0_r.
Qed.

Lemma expand_to_S n : (Nk ≤ n)%nat →
  AesSpec.expand_to Nk k (S n) = AesSpec.expand_to Nk k n ++ [AesSpec.expand_word Nk (AesSpec.expand_to Nk k n)].
Proof. intros. unfold AesSpec.expand_to. by replace (S n - Nk)%nat with (S (n - Nk)) by lia. Qed.

Lemma expand_to_key : AesSpec.expand_to Nk k Nk = AesSpec.key_words k.
Proof. unfold AesSpec.expand_to. by rewrite Nat.sub_diag. Qed.

Lemma expand_to_spec n : (Nk ≤ n ≤ 60)%nat →
  length (AesSpec.expand_to Nk k n) = n ∧ is_words (AesSpec.expand_to Nk k n).
Proof.
  induction n as [|n IH]; intros Hn; [lia|]. destruct (decide (Nk = S n)) as [E|].
  - rewrite <- E, expand_to_key, key_words_spec, length_fmap, length_seq. split; [done|].
    apply Forall_fmap, Forall_true. intros. cbn [compose]. rewrite GETU32_spec by done.
    apply be_word_is_word; by apply bytes_lookup_total.
  - destruct IH as [Hl Hw]; [lia|]. rewrite expand_to_S by lia.
    rewrite length_app, Hl. split; [simpl; lia|]. apply Forall_app_2; [done|].
    apply List.Forall_cons; [|apply List.Forall_nil].
    assert (Hlk : ∀ j, is_word 32 (AesSpec.expand_to Nk k n !!! j))
      by (intros j; by apply Forall_lookup_total_default).
    unfold AesSpec.expand_word. cbv zeta. rewrite Hl. apply is_word_lxor; [done|done|].
    case_decide; [|case_decide; [apply SubWord_word|done]].
    apply is_word_lxor; [done|apply SubWord_word|apply Rcon_word].
Qed.

Lemma expand_to_word n j : (Nk ≤ n ≤ 60)%nat → is_word 32 (AesSpec.expand_to Nk k n !!! j).
Proof. intros Hn. apply Forall_lookup_total_default; [by apply expand_to_spec|done]. Qed.

(** The array holds the first [n] words of the schedule. *)
Definition filled (n : nat) (rk : list Z) : Prop :=
  length rk = 60%nat ∧ ∀ j, (j < n)%nat → rk !!! j = AesSpec.expand_to Nk k n !!! j.

Lemma filled_step n rk x :
  (Nk ≤ n < 60)%nat → filled n rk → x = AesSpec.expand_word Nk (AesSpec.expand_to Nk k n) →
  filled (S n) (<[n := x]> rk).
Proof.
  intros Hn [Hl Hf] ->. destruct (expand_to_spec n) as [Hln _]; [lia|]. split; [by rewrite length_insert|].
  intros j Hj. rewrite expand_to_S by lia. destruct (decide (j = n)) as [->|].
  - rewrite list_lookup_total_insert_eq, lookup_total_app_r by lia. by rewrite Hln, Nat.sub_diag.
  - rewrite list_lookup_total_insert_ne, lookup_total_app_l by lia. apply Hf. lia.
Qed.

(** The steps of the code, for the word [j] of the group [q]. *)
Section steps.
Context (n q j : nat) (rk : list Z) (Hn : (Nk ≤ n < 60)%nat) (Hf : filled n rk).
Context (Hq : n = (Nk * q + j)%nat) (Hj : (j < Nk)%nat).

Let Hmod : (n mod Nk)%nat = j.
Proof. rewrite Hq, Nat.mul_comm, Nat.add_comm, Nat.Div0.mod_add. by apply Nat.mod_small. Qed.
Let Hdiv : (n / Nk)%nat = q.
Proof. rewrite Hq, Nat.mul_comm, Nat.div_add_l, Nat.div_small by lia. lia. Qed.
Let Hlen : length (AesSpec.expand_to Nk k n) = n.
Proof. apply expand_to_spec. lia. Qed.

Lemma rk_xor_filled d a b :
  d = n → a = (n - Nk)%nat → b = (n - 1)%nat → j ≠ 0%nat → ¬ (6 < Nk ∧ j = 4)%nat →
  filled (S n) (rk_xor d a b rk).
Proof.
  intros -> -> -> Hj0 Hj4. apply filled_step; [done..|]. destruct Hf as [_ Hrk]. rewrite !Hrk by lia.
  unfold AesSpec.expand_word. cbv zeta. rewrite Hlen, Hmod. by rewrite !decide_False.
Qed.

Lemma rk_head_filled i d a b :
  d = n → a = (n - Nk)%nat → b = (n - 1)%nat → j = 0%nat → q = S i → (i < 10)%nat →
  filled (S n) (rk_head i d a b rk).
Proof.
  intros -> -> -> Hj0 Hqi Hi. apply filled_step; [done..|]. destruct Hf as [_ Hrk]. rewrite !Hrk by lia.
  unfold AesSpec.expand_word. cbv zeta. rewrite Hlen, Hmod, Hdiv, Hqi. rewrite decide_True by done.
  rewrite sub_rot_spec, rcon_spec by (done || apply expand_to_word; lia). apply Z.lxor_assoc.
Qed.

Lemma rk_mid_filled d a b :
  d = n → a = (n - Nk)%nat → b = (n - 1)%nat → j = 4%nat → Nk = 8%nat → filled (S n) (rk_mid d a b rk).
Proof.
  intros -> -> -> Hj4 H8. apply filled_step; [done..|]. destruct Hf as [_ Hrk]. rewrite !Hrk by lia.
  unfold AesSpec.expand_word. cbv zeta. rewrite Hlen, Hmod.
  rewrite decide_False, decide_True, sub_word_spec by (lia || apply expand_to_word; lia). done.
Qed.
End steps.
End KeySchedule.

Section Expansion.
Context (Nk : nat) (k : list Z).
Context (HNk : Nk = 4%nat ∨ Nk = 6%nat ∨ Nk = 8%nat) (Hk : length k = (4 * Nk)%nat) (Hb : is_bytes k).

(** [key_steps q j]: the assignments of a loop body, the last one for the word [j]
    of the group [q]; what is left is the array before them. *)
Ltac key_steps q j :=
  lazymatch goal with
  | |- filled _ _ _ (rk_xor _ _ _ _) =>
      eapply (rk_xor_filled Nk k HNk Hk Hb _ q j); [lia| |lia..];
      lazymatch j with S ?j => key_steps q j end
  | |- filled _ _ _ (rk_head _ _ _ _ _) => eapply (rk_head_filled Nk k HNk Hk Hb _ q j); [lia| |lia..]
  | |- filled _ _ _ (rk_mid _ _ _ _) =>
      eapply (rk_mid_filled Nk k HNk Hk Hb _ q j); [lia| |lia..]
  | _ => idtac
  end.

Lemma body128_filled i rk :
  Nk = 4%nat → (i < 10)%nat → filled Nk k (4 * i + 4) rk → filled Nk k (4 * i + 8) (body128 i rk).
Proof.
  intros E Hi Hf. replace (4 * i + 8)%nat with (S (S (S (S (4 * i + 4))))) by lia.
  unfold body128. cbv zeta. key_steps (S i) 3%nat. done.
Qed.

Lemma body192_filled i rk :
  Nk = 6%nat → (i < 8)%nat → filled Nk k (6 * i + 6) rk → filled Nk k (6 * i + 10) (body192 i rk).
Proof.
  intros E Hi Hf. replace (6 * i + 10)%nat with (S (S (S (S (6 * i + 6))))) by lia.
  unfold body192. cbv zeta. key_steps (S i) 3%nat. done.
Qed.

Lemma rest192_filled i rk :
  Nk = 6%nat → (i < 7)%nat → filled Nk k (6 * i + 10) rk → filled Nk k (6 * i + 12) (rest192 i rk).
Proof.
  intros E Hi Hf. replace (6 * i + 12)%nat with (S (S (6 * i + 10))) by lia.
  unfold rest192. cbv zeta. key_steps (S i) 5%nat. done.
Qed.

Lemma body256_filled i rk :
  Nk = 8%nat → (i < 7)%nat → filled Nk k (8 * i + 8) rk → filled Nk k (8 * i + 12) (body256 i rk).
Proof.
  intros E Hi Hf. replace (8 * i + 12)%nat with (S (S (S (S (8 * i + 8))))) by lia.
  unfold body256. cbv zeta. key_steps (S i) 3%nat. done.
Qed.

Lemma rest256_filled i rk :
  Nk = 8%nat → (i < 6)%nat → filled Nk k (8 * i + 12) rk → filled Nk k (8 * i + 16) (rest256 i rk).
Proof.
  intros E Hi Hf. replace (8 * i + 16)%nat with (S (S (S (S (8 * i + 12))))) by lia.
  unfold rest256. cbv zeta. key_steps (S i) 7%nat. done.
Qed.

Lemma load_key_filled rk :
  length rk = 60%nat → filled Nk k Nk (load_key k Nk rk).
Proof.
  intros Hl. assert (Hlk : (Nk ≤ Nk)%nat → filled Nk k Nk (load_key k Nk rk)); [|by apply Hlk].
  apply (for_loop_ind (λ i rk, (i ≤ Nk)%nat → length rk = 60%nat ∧
    ∀ j, (j < i)%nat → rk !!! j = AesSpec.expand_to Nk k Nk !!! j)); [lia|intros _; split; [done|lia]|].
  intros i l Hi IH Hle. destruct IH as [Hl' Hf]; [lia|]. split; [by rewrite length_insert|].
  intros j Hj. destruct (decide (j = i)) as [->|].
  - rewrite list_lookup_total_insert_eq by lia.
    rewrite expand_to_key, (key_words_spec Nk k) by done.
    by rewrite list_lookup_total_alt, list_lookup_fmap, lookup_seq_lt by lia.
  - rewrite list_lookup_total_insert_ne by lia. apply Hf. lia.
Qed.

(** The three loops. *)
Lemma rk_loop_filled n g b body rest rk :
  (0 < n)%nat →
  (∀ i rk, (i < n)%nat → filled Nk k (g * i + g) rk → filled Nk k (g * i + b) (body i rk)) →
  (∀ i rk, (i < n - 1)%nat → filled Nk k (g * i + b) rk → filled Nk k (g * S i + g) (rest i rk)) →
  filled Nk k g rk → filled Nk k (g * (n - 1) + b) (rk_loop n body rest rk).
Proof using HNk Hk.
  intros Hn Hbody Hrest Hf. apply Hbody; [lia|].
  assert (H : (n - 1 ≤ n - 1)%nat → filled Nk k (g * (n - 1) + g)
    (for_loop 0 (n - 1) (λ i rk, rest i (body i rk)) rk)); [|by apply H].
  apply (for_loop_ind (λ i rk, (i ≤ n - 1)%nat → filled Nk k (g * i + g) rk)); [lia| |].
  - intros _. by rewrite Nat.mul_0_r.
  - intros i l Hi IH Hle. apply Hrest; [lia|]. apply Hbody; [lia|]. apply IH. lia.
Qed.
End Expansion.

(** The number of rounds for a key of [Nk] words. *)
Definition Nr_of (Nk : nat) : nat := (Nk + 6)%nat.

Lemma set_encrypt_key_spec Nk k key :
  Nk = 4%nat ∨ Nk = 6%nat ∨ Nk = 8%nat → length k = (4 * Nk)%nat → is_bytes k →
  length (rd_key key) = 60%nat →
  ∃ rk, private_AES_set_encrypt_key (Some k) (32 * Z.of_nat Nk) (Some key) =
      (0, Some {| rd_key := rk; rounds := Z.of_nat (Nr_of Nk) |}) ∧
    filled Nk k (4 * (Nr_of Nk + 1)) rk.
Proof.
  intros HNk Hk Hb Hl.
  assert (HN := HNk). assert (Hload := load_key_filled Nk k HNk Hk Hb (rd_key key) Hl).
  unfold private_AES_set_encrypt_key. destruct HNk as [-> | [-> | ->]]; eexists.
  - split; [done|]. apply (rk_loop_filled 4 k HN Hk 10 4 8); [lia|..|done].
    + intros. apply body128_filled; (done || lia).
    + intros i rk Hi. by replace (4 * S i + 4)%nat with (4 * i + 8)%nat by lia.
  - split; [done|]. apply (rk_loop_filled 6 k HN Hk 8 6 10); [lia|..|done].
    + intros. apply body192_filled; (done || lia).
    + intros i rk Hi. replace (6 * S i + 6)%nat with (6 * i + 12)%nat by lia.
      intros. apply rest192_filled; (done || lia).
  - split; [done|]. apply (rk_loop_filled 8 k HN Hk 7 8 12); [lia|..|done].
    + intros. apply body256_filled; (done || lia).
    + intros i rk Hi. replace (8 * S i + 8)%nat with (8 * i + 16)%nat by lia.
      intros. apply rest256_filled; (done || lia).
Qed.

(** *** The schedule of decryption *)

Section Inversion.
(** [f] stands for [inv_mix_word], which these lemmas need not evaluate. *)
Context (f : Z → Z).

Definition mix_with (i : nat) (rk : list Z) : list Z :=
  let upd j rk := <[(4 * i + j)%nat := f (rk !!! (4 * i + j)%nat)]> rk in
  upd 3%nat (upd 2%nat (upd 1%nat (upd 0%nat rk))).

Lemma inverted_lookup (Nr : nat) (rk : list Z) :
  Nr = 10%nat ∨ Nr = 12%nat ∨ Nr = 14%nat → length rk = 60%nat →
  ∀ r c, (r ≤ Nr)%nat → (c < 4)%nat →
  for_loop 1 Nr mix_with (invert_order (S Nr) 0 (4 * Nr) rk) !!! (4 * r + c)%nat =
  (if decide (r = 0 ∨ r = Nr)%nat then id else f) (rk !!! (4 * (Nr - r) + c)%nat).
Proof.
  intros HNr Hl r c Hr Hc. explode rk 60%nat.
  destruct HNr as [-> | [-> | ->]];
    do 15 (destruct r as [|r]; [first [exfalso; lia|do 4 (destruct c as [|c]; [vm_compute; reflexivity|]); lia]|]); lia.
Qed.
End Inversion.

Lemma inv_mix_key_mix i rk : inv_mix_key i rk = mix_with inv_mix_word i rk.
Proof. reflexivity. Qed.

Lemma inv_mix_word_spec a b c d :
  is_byte a → is_byte b → is_byte c → is_byte d →
  inv_mix_word (be_word a b c d) = word_of (AesSpec.mix_column 14 11 13 9 [a; b; c; d]).
Proof.
  intros Ha Hb Hc Hd. unfold inv_mix_word.
  rewrite b3_be_word, b2_be_word, b1_be_word, b0_be_word by done.
  assert (E : ∀ x, is_byte x → Z.land (tab Te1 x) 0xff = AesSpec.sbox x).
  { intros x Hx. tables_of x Hx. rewrite He1, mask0_be_word, Gf.gmul_1 by bytes.
    unfold be_word. by rewrite !Z.shiftl_0_l. }
  rewrite !E by done.
  assert (F : ∀ x, is_byte x → is_byte (AesSpec.sbox x) ∧ AesSpec.inv_sbox (AesSpec.sbox x) = x).
  { intros x Hx. tables_of x Hx. done. }
  destruct (F a Ha) as [Sa Ia], (F b Hb) as [Sb Ib], (F c Hc) as [Sc Ic], (F d Hd) as [Sd Id].
  rewrite mix_column_4. cbv zeta. unfold word_of. cbn [lookup_total list_lookup_total].
  tables_of (AesSpec.sbox a) Sa. tables_of (AesSpec.sbox b) Sb.
  tables_of (AesSpec.sbox c) Sc. tables_of (AesSpec.sbox d) Sd.
  rewrite Hd0, Hd6, Hd12, Hd18, Ia, Ib, Ic, Id, !be_word_lxor by bytes. f_equal; xor_ac.
Qed.

Lemma inv_mix_words (k : list Z) :
  sized k →
  let k' := AesSpec.InvMixColumns k in
  inv_mix_word (word_of k) = word_of k' ∧ inv_mix_word (word_of (drop 4 k)) = word_of (drop 4 k') ∧
  inv_mix_word (word_of (drop 8 k)) = word_of (drop 8 k') ∧
  inv_mix_word (word_of (drop 12 k)) = word_of (drop 12 k').
Proof.
  intros [Hk Hb]. explode k 16%nat. split_Forall. cbv zeta. cbn [drop].
  rewrite !word_of_cons, !inv_mix_word_spec by done. done.
Qed.

(** A key of the standard: 16, 24 or 32 bytes. *)
Definition is_key (Nk : nat) (k : list Z) : Prop :=
  (Nk = 4%nat ∨ Nk = 6%nat ∨ Nk = 8%nat) ∧ length k = (4 * Nk)%nat ∧ is_bytes k.

#[global] Instance is_key_dec Nk k : Decision (is_key Nk k).
Proof. unfold is_key. apply _. Defined.

Lemma Nr_of_cases Nk k : is_key Nk k → Nr_of Nk = 10%nat ∨ Nr_of Nk = 12%nat ∨ Nr_of Nk = 14%nat.
Proof. intros ([-> | [-> | ->]] & _); unfold Nr_of; lia. Qed.

Definition schedule (Nk : nat) (k : list Z) : list Z := AesSpec.KeyExpansion Nk (Nr_of Nk) k.

Lemma schedule_spec Nk k :
  is_key Nk k → is_words (schedule Nk k) ∧ length (schedule Nk k) = (4 * (Nr_of Nk + 1))%nat.
Proof.
  intros (HNk & Hk & Hb).
  destruct (expand_to_spec Nk k HNk Hk Hb (4 * (Nr_of Nk + 1))) as [Hl Hw]; [unfold Nr_of; lia|done].
Qed.

(** Decryption keys, from encryption keys that hold the schedule. *)
Lemma set_decrypt_key_spec Nk k key :
  is_key Nk k → length (rd_key key) = 60%nat →
  ∃ rk, private_AES_set_decrypt_key (Some k) (32 * Z.of_nat Nk) (Some key) =
      (0, Some {| rd_key := rk; rounds := Z.of_nat (Nr_of Nk) |}) ∧
    ∀ r, (r ≤ Nr_of Nk)%nat → round_words rk (4 * r) (dec_key (Nr_of Nk) (schedule Nk k) r).
Proof.
  intros Hkey Hl. assert (HNr := Nr_of_cases Nk k Hkey). destruct (schedule_spec Nk k Hkey) as [Hw Hlen].
  destruct Hkey as (HNk & Hk & Hb).
  destruct (set_encrypt_key_spec Nk k key HNk Hk Hb Hl) as (rk & E & Hlrk & Hf).
  eexists. unfold private_AES_set_decrypt_key. rewrite E. split.
  { cbn [fmap option_fmap option_map rounds rd_key]. rewrite Nat2Z.id. done. }
  intros r Hr.
  assert (HI := inverted_lookup inv_mix_word (Nr_of Nk) rk HNr Hlrk r). cbn beta in HI.
  destruct (round_key_spec (schedule Nk k) (Nr_of Nk - r)) as (K1 & K2 & K3 & K4 & K5 & K6); [done|lia|].
  assert (K3' := HI 0%nat Hr ltac:(lia)). rewrite !Nat.add_0_r in K3'.
  unfold round_words. change (for_loop 1 (Nr_of Nk) inv_mix_key) with (for_loop 1 (Nr_of Nk) (mix_with inv_mix_word)).
  rewrite K3', !HI by lia. rewrite !Hf by lia. fold (schedule Nk k). unfold dec_key.
  change (AesSpec.expand_to Nk k (4 * (Nr_of Nk + 1))) with (schedule Nk k).
  rewrite K3, K4, K5, K6. destruct (decide (r = 0 ∨ r = Nr_of Nk)%nat); [done|].
  by apply inv_mix_words.
Qed.

(** *** The interface of the block modes *)

Lemma round_loop_Some round rk r : ∀ s o, ∃ t o', round_loop round (S r) s rk o = Some (t, o').
Proof. intros. rewrite round_loop_spec. eauto. Qed.

Lemma PUTU32_byte x : is_bytes (PUTU32 x).
Proof. unfold PUTU32. repeat (apply List.Forall_cons; [by apply wrap_is_word|]). apply List.Forall_nil. Qed.

(** The block functions of a key whose rounds the code can do. *)
Definition aes_enc (key : AES_KEY) (b : list Z) : list Z := default [] (aes_encrypt_bytes key b).
Definition aes_dec (key : AES_KEY) (b : list Z) : list Z := default [] (aes_decrypt_bytes key b).

Lemma aes_crypt_total round last key b :
  1 < rounds key →
  ∃ c, aes_crypt round last key b = Some c ∧ length c = 16%nat ∧ is_bytes c.
Proof.
  intros Hr. unfold aes_crypt. cbv zeta. rewrite Z.shiftr_div_pow2 by lia. change (2 ^ 1) with 2.
  destruct (Z.to_nat (rounds key / 2)) as [|r] eqn:E.
  { pose proof (Z.div_le_mono 2 (rounds key) 2). rewrite Z.div_same in *; lia. }
  set (st := Build_state _ _ _ _). destruct (round_loop_Some round (rd_key key) r st 0) as (t & o & ->).
  cbn [mbind option_bind]. eexists. split; [done|]. split; [done|].
  rewrite !Forall_app. split_and!; apply PUTU32_byte.
Qed.

Lemma aes_block_run round last key E :
  1 < rounds key → (∀ b, E b = default [] (aes_crypt round last key b)) →
  BlockFun (λ inp out, b ← load inp 16; c ← (λ m, (λ c, (c, m)) <$> aes_crypt round last key b);
                       store out c) E.
Proof.
  intros Hr HE inp out m b Hb Hbb Hv. destruct (aes_crypt_total round last key b Hr) as (c & Hc & Hl & _).
  rewrite HE, Hc. cbn [from_option id]. rewrite <- Hl in Hv. destruct (mvalid_store _ _ _ Hv) as (m' & Hw & Hst).
  exists m'. split; [|done]. rewrite (bind_Some _ _ m b m) by by apply load_Some.
  rewrite (bind_Some _ _ m c m); [done|]. by rewrite Hc.
Qed.

Lemma AES_encrypt_block_fun key : 1 < rounds key → BlockFun (AES_encrypt key) (aes_enc key).
Proof. intros. by apply aes_block_run. Qed.

Lemma AES_decrypt_block_fun key : 1 < rounds key → BlockFun (AES_decrypt key) (aes_dec key).
Proof. intros. by apply aes_block_run. Qed.

(** The keys that the two schedule functions make of the same user key. *)
Definition key_pair (Nk : nat) (k : list Z) (ek dk : AES_KEY) : Prop :=
  ∃ key key', length (rd_key key) = 60%nat ∧ length (rd_key key') = 60%nat ∧
    AES_set_encrypt_key (Some k) (32 * Z.of_nat Nk) (Some key) = (0, Some ek) ∧
    AES_set_decrypt_key (Some k) (32 * Z.of_nat Nk) (Some key') = (0, Some dk).

Lemma key_pair_exists Nk k key key' :
  is_key Nk k → length (rd_key key) = 60%nat → length (rd_key key') = 60%nat →
  ∃ ek dk, AES_set_encrypt_key (Some k) (32 * Z.of_nat Nk) (Some key) = (0, Some ek) ∧
    AES_set_decrypt_key (Some k) (32 * Z.of_nat Nk) (Some key') = (0, Some dk) ∧ key_pair Nk k ek dk.
Proof.
  intros Hkey Hl Hl'. assert (H := Hkey). destruct H as (HNk & Hk & Hb).
  destruct (set_encrypt_key_spec Nk k key HNk Hk Hb Hl) as (rk & E & _).
  destruct (set_decrypt_key_spec Nk k key' Hkey Hl') as (rk' & E' & _).
  do 2 eexists. split; [exact E|]. split; [exact E'|]. by exists key, key'.
Qed.

(** What is known of such keys. *)
Lemma key_pair_spec Nk k ek dk :
  is_key Nk k → key_pair Nk k ek dk →
  1 < rounds ek ∧ 1 < rounds dk ∧
  ∀ s, sized s →
    aes_encrypt_bytes ek s = Some (AesSpec.Cipher (Nr_of Nk) (schedule Nk k) s) ∧
    aes_decrypt_bytes dk s = Some (AesSpec.InvCipher (Nr_of Nk) (schedule Nk k) s).
Proof.
  intros Hkey (key & key' & Hl & Hl' & E & E'). assert (HNr := Nr_of_cases Nk k Hkey).
  destruct (schedule_spec Nk k Hkey) as [Hw Hlen]. assert (H := Hkey). destruct H as (HNk & Hk & Hb).
  destruct (set_encrypt_key_spec Nk k key HNk Hk Hb Hl) as (rk & Ek & _ & Hf).
  destruct (set_decrypt_key_spec Nk k key' Hkey Hl') as (rk' & Ek' & Hd).
  unfold AES_set_encrypt_key, AES_set_decrypt_key in *.
  rewrite Ek in E. rewrite Ek' in E'. injection E as <-. injection E' as <-. cbn [rounds].
  split; [lia|]. split; [lia|]. intros s Hs. split.
  - apply aes_encrypt_bytes_spec; [done..| |done]. intros j Hj. apply Hf. lia.
  - by apply aes_decrypt_bytes_spec.
Qed.

Lemma aes_block_cipher Nk k ek dk :
  is_key Nk k → key_pair Nk k ek dk → BlockCipher (aes_enc ek) (aes_dec dk).
Proof.
  intros Hkey Hp. destruct (key_pair_spec Nk k ek dk Hkey Hp) as (Hr & Hr' & Hs).
  assert (HNr := Nr_of_cases Nk k Hkey). destruct (schedule_spec Nk k Hkey) as [Hw Hlen].
  split.
  - intros b. destruct (aes_crypt_total enc_round enc_last ek b Hr) as (c & Hc & Hl & _).
    unfold aes_enc, aes_encrypt_bytes. by rewrite Hc.
  - intros b. destruct (aes_crypt_total enc_round enc_last ek b Hr) as (c & Hc & _ & Hb).
    unfold aes_enc, aes_encrypt_bytes. by rewrite Hc.
  - intros b Hl Hb. assert (Hsz : sized b) by done. unfold aes_dec, aes_enc.
    destruct (Hs b Hsz) as [-> _]. cbn [from_option id].
    destruct (Hs (AesSpec.Cipher (Nr_of Nk) (schedule Nk k) b)) as [_ ->];
      [by apply (Cipher_sized (Nr_of Nk))|]. cbn [from_option id].
    by apply InvCipher_Cipher.
Qed.

(** ** Properties *)

(** C4: for a key of 128, 192 or 256 bits, [AES_set_encrypt_key] and
    [AES_set_decrypt_key] return 0 whatever the key structure held before, and with
    the keys they make, [AES_encrypt] and [AES_decrypt] read a block of 16 bytes,
    without undefined behaviour also when the output overlaps it, and write exactly
    the block that Cipher and InvCipher of FIPS-197 give. *)
Theorem aes_refines_standard Nk k key key' inp out m b :
  is_key Nk k → length (rd_key key) = 60%nat → length (rd_key key') = 60%nat →
  mread m inp 16 = Some b → is_bytes b → mvalid m out 16 →
  let w := AesSpec.KeyExpansion Nk (Nr_of Nk) k in
  ∃ ek dk m1 m2,
    AES_set_encrypt_key (Some k) (32 * Z.of_nat Nk) (Some key) = (0, Some ek) ∧
    AES_set_decrypt_key (Some k) (32 * Z.of_nat Nk) (Some key') = (0, Some dk) ∧
    AES_encrypt ek inp out m = Some (tt, m1) ∧
    mwrite m out (AesSpec.Cipher (Nr_of Nk) w b) = Some m1 ∧
    AES_decrypt dk inp out m = Some (tt, m2) ∧
    mwrite m out (AesSpec.InvCipher (Nr_of Nk) w b) = Some m2.
Proof.
  intros Hkey Hl Hl' Hr Hb Hv w.
  destruct (key_pair_exists Nk k key key' Hkey Hl Hl') as (ek & dk & E & E' & Hp).
  destruct (key_pair_spec Nk k ek dk Hkey Hp) as (H1 & H1' & Hs).
  destruct (Hs b) as [He Hd]; [split; [by apply mread_length in Hr|done]|].
  destruct (AES_encrypt_block_fun ek H1 inp out m b Hr Hb Hv) as (m1 & R1 & W1).
  destruct (AES_decrypt_block_fun dk H1' inp out m b Hr Hb Hv) as (m2 & R2 & W2).
  unfold aes_enc in W1. unfold aes_dec in W2. rewrite He in W1. rewrite Hd in W2.
  by exists ek, dk, m1, m2.
Qed.

(** Decrypting with the key of [AES_set_decrypt_key] gives back the block that
    was encrypted with the key of [AES_set_encrypt_key], for the three key sizes. *)
Theorem aes_block_roundtrip Nk k ek dk inp mid out m b :
  is_key Nk k → key_pair Nk k ek dk →
  mread m inp 16 = Some b → is_bytes b → mvalid m mid 16 → mvalid m out 16 →
  ∃ m1 m2, AES_encrypt ek inp mid m = Some (tt, m1) ∧ AES_decrypt dk mid out m1 = Some (tt, m2) ∧
    mread m2 out 16 = Some b ∧ mframe [(mid, 16%nat); (out, 16%nat)] m m2.
Proof.
  intros Hkey Hp Hr Hb Hv Hv'. pose proof (aes_block_cipher Nk k ek dk Hkey Hp) as HC.
  destruct (key_pair_spec Nk k ek dk Hkey Hp) as (H1 & H1' & _).
  assert (Hl := mread_length _ _ _ _ Hr).
  destruct (AES_encrypt_block_fun ek H1 inp mid m b Hr Hb Hv) as (m1 & R1 & W1).
  assert (Hle : length (aes_enc ek b) = 16%nat) by apply block_length.
  destruct (AES_decrypt_block_fun dk H1' mid out m1 (aes_enc ek b)) as (m2 & R2 & W2);
    [by read_back|apply block_bytes|by read_back|].
  rewrite (block_inverse (E := aes_enc ek)) in W2 by done.
  exists m1, m2. split_and!; [done|done|by read_back|]. frame_back.
Qed.

(** C31: every entry of the tables [Te0] to [Te3], [Td0] to [Td3] and [Td4] of
    [aes_core.c] is the one FIPS-197 gives: the S-box from inversion in GF(2^8) and
    the affine map, times the coefficients of a column of MixColumns, and the
    S-box and its inverse undo each other. *)
Theorem aes_tables_standard x :
  is_byte x →
  let s := AesSpec.sbox x in let i := AesSpec.inv_sbox x in
  let e k := AesSpec.gmul k s in let d k := AesSpec.gmul k i in
  (tab Te0 x = be_word (e 2) (e 1) (e 1) (e 3) ∧ tab Te1 x = be_word (e 3) (e 2) (e 1) (e 1) ∧
   tab Te2 x = be_word (e 1) (e 3) (e 2) (e 1) ∧ tab Te3 x = be_word (e 1) (e 1) (e 3) (e 2)) ∧
  (tab Td0 x = be_word (d 14) (d 9) (d 13) (d 11) ∧ tab Td1 x = be_word (d 11) (d 14) (d 9) (d 13) ∧
   tab Td2 x = be_word (d 13) (d 11) (d 14) (d 9) ∧ tab Td3 x = be_word (d 9) (d 13) (d 11) (d 14)) ∧
  tab Td4 x = i ∧ AesSpec.inv_sbox s = x ∧ AesSpec.sbox i = x.
Proof.
  intros Hx. destruct (tables_at_all x Hx) as (He & Hd & H4 & Hi & Hi' & _). done.
Qed.

(** The error returns of the key schedules: -1 for a null pointer, -2 for a key
    size that AES does not have, from both functions, and then the key structure
    is not touched. *)
Theorem aes_set_key_errors userKey bits key :
  let bad_size := bits ≠ 128 ∧ bits ≠ 192 ∧ bits ≠ 256 in
  (userKey = None ∨ key = None →
    AES_set_encrypt_key userKey bits key = (-1, key) ∧ AES_set_decrypt_key userKey bits key = (-1, key)) ∧
  (userKey ≠ None → key ≠ None → bad_size →
    AES_set_encrypt_key userKey bits key = (-2, key) ∧ AES_set_decrypt_key userKey bits key = (-2, key)).
Proof.
  unfold AES_set_decrypt_key, AES_set_encrypt_key, private_AES_set_decrypt_key. split.
  - intros H. assert (E : private_AES_set_encrypt_key userKey bits key = (-1, key))
      by (destruct H as [-> | ->]; [done|by destruct userKey]). by rewrite E.
  - intros Hu Hk (H1 & H2 & H3). destruct userKey as [u|], key as [key|]; try done.
    assert (E : private_AES_set_encrypt_key (Some u) bits (Some key) = (-2, Some key))
      by (unfold private_AES_set_encrypt_key; by rewrite !decide_False). by rewrite E.
Qed.

(** *** Instances: the example vectors of FIPS-197, appendix C *)

Definition fresh_key : AES_KEY := {| rd_key := replicate 60 0; rounds := 0 |}.
Definition fips_key (n : nat) : list Z := Z.of_nat <$> seq 0 n.
Definition fips_block : list Z := (λ i, 17 * Z.of_nat i) <$> seq 0 16.
Definition fips_mem : mem :=
  {[1%positive := Some <$> fips_block; 2%positive := replicate 16 None; 3%positive := replicate 16 None]}.

Example fips_vectors :
  AesSpec.Cipher 10 (AesSpec.KeyExpansion 4 10 (fips_key 16)) fips_block =
    [0x69; 0xc4; 0xe0; 0xd8; 0x6a; 0x7b; 0x04; 0x30; 0xd8; 0xcd; 0xb7; 0x80; 0x70; 0xb4; 0xc5; 0x5a] ∧
  AesSpec.Cipher 12 (AesSpec.KeyExpansion 6 12 (fips_key 24)) fips_block =
    [0xdd; 0xa9; 0x7c; 0xa4; 0x86; 0x4c; 0xdf; 0xe0; 0x6e; 0xaf; 0x70; 0xa0; 0xec; 0x0d; 0x71; 0x91] ∧
  AesSpec.Cipher 14 (AesSpec.KeyExpansion 8 14 (fips_key 32)) fips_block =
    [0x8e; 0xa2; 0xb7; 0xca; 0x51; 0x67; 0x45; 0xbf; 0xea; 0xfc; 0x49; 0x90; 0x4b; 0x49; 0x60; 0x89].
Proof. vm_compute. done. Qed.

Lemma aes_refines_standard_witness :
  ∃ ek dk m1 m2,
    AES_set_encrypt_key (Some (fips_key 24)) 192 (Some fresh_key) = (0, Some ek) ∧
    AES_set_decrypt_key (Some (fips_key 24)) 192 (Some fresh_key) = (0, Some dk) ∧
    AES_encrypt ek (Ptr 1 0) (Ptr 1 0) fips_mem = Some (tt, m1) ∧
    mwrite fips_mem (Ptr 1 0) (AesSpec.Cipher 12 (AesSpec.KeyExpansion 6 12 (fips_key 24)) fips_block) = Some m1 ∧
    AES_decrypt dk (Ptr 1 0) (Ptr 1 0) fips_mem = Some (tt, m2) ∧
    mwrite fips_mem (Ptr 1 0) (AesSpec.InvCipher 12 (AesSpec.KeyExpansion 6 12 (fips_key 24)) fips_block) = Some m2.
Proof.
  apply (aes_refines_standard 6 (fips_key 24) fresh_key fresh_key (Ptr 1 0) (Ptr 1 0) fips_mem fips_block);
    [decide_by_compute|done|done|vm_compute; done|decide_by_compute|decide_by_compute].
Defined.

Lemma aes_block_roundtrip_witness :
  ∃ ek dk m1 m2, key_pair 8 (fips_key 32) ek dk ∧
    AES_encrypt ek (Ptr 1 0) (Ptr 2 0) fips_mem = Some (tt, m1) ∧
    AES_decrypt dk (Ptr 2 0) (Ptr 3 0) m1 = Some (tt, m2) ∧
    mread m2 (Ptr 3 0) 16 = Some fips_block ∧ mframe [(Ptr 2 0, 16%nat); (Ptr 3 0, 16%nat)] fips_mem m2.
Proof.
  assert (Hk : is_key 8 (fips_key 32)) by decide_by_compute.
  destruct (key_pair_exists 8 (fips_key 32) fresh_key fresh_key Hk eq_refl eq_refl) as (ek & dk & _ & _ & Hp).
  destruct (aes_block_roundtrip 8 (fips_key 32) ek dk (Ptr 1 0) (Ptr 2 0) (Ptr 3 0) fips_mem fips_block Hk Hp)
    as (m1 & m2 & H); [vm_compute; done|decide_by_compute..|]. by exists ek, dk, m1, m2.
Defined.

Lemma aes_tables_standard_witness : tab Td4 0x52 = AesSpec.inv_sbox 0x52 ∧ AesSpec.inv_sbox 0x52 = 0x48.
Proof. split; [apply (aes_tables_standard 0x52); done|vm_compute; done]. Defined.

Lemma aes_set_key_errors_witness :
  AES_set_encrypt_key None 128 (Some fresh_key) = (-1, Some fresh_key) ∧
  AES_set_decrypt_key (Some (fips_key 16)) 127 (Some fresh_key) = (-2, Some fresh_key).
Proof. split; [apply (aes_set_key_errors None 128 (Some fresh_key)); by left|apply aes_set_key_errors; done]. Defined.
