(* ===== verification/Stream.v ===== *)
(** * Stream: what the stream modes of OpenSSL have in common

    [cfb128.c], [ofb128.c] and [ctr128.c] encrypt any number of bytes per call and keep, from
    one call to the next, some buffers and the number of bytes used of the current block. Each
    has the same three loops, written for speed: the bytes that are left of a block, whole
    blocks a machine word at a time, the bytes of a last block; and a loop byte by byte for
    machines that cannot read words at any address. This file has the loops over what a mode
    does to a byte, and shows that they compute [byte_stream], which goes byte by byte. *)

From S2P Require Import Prelude Mem Own Target.

(** ** The loops *)

(** The variables [in], [out], [len] and [n]. *)
Record cursor := Cursor { at_in : ptr; at_out : ptr; left : nat; used : nat }.

Section code.
Context {tgt : Target}.
(** A new block; a byte, and a word of the size of [size_t], with its index in the block. *)
Context (refresh : C unit) (put word : nat → ptr → ptr → C unit).

(** [while (n && len) { ...; --len; n = (n+1) % 16; }] *)
Fixpoint head_loop (len n : nat) (inp out : ptr) : C cursor :=
  match len with
  | O => mret (Cursor inp out 0 n)
  | S len' =>
      if decide (n = 0%nat) then mret (Cursor inp out len n)
      else put n inp out;; head_loop len' ((n + 1) mod 16) (padd inp 1) (padd out 1)
  end.

(** [for (; n < 16; n += sizeof(size_t)) ...], at most 16 times. *)
Fixpoint word_loop (fuel n : nat) (inp out : ptr) : C unit :=
  if decide (n < 16)%nat then
    match fuel with
    | O => undefined
    | S fuel => word n (padd inp (Z.of_nat n)) (padd out (Z.of_nat n));; word_loop fuel (n + size_bytes) inp out
    end
  else mret tt.

(** [while (len >= 16) { ...; len -= 16; out += 16; in += 16; n = 0; }] *)
Fixpoint block_loop (fuel len n : nat) (inp out : ptr) : C cursor :=
  if decide (16 <= len)%nat then
    match fuel with
    | O => undefined
    | S fuel => refresh;; word_loop 16 n inp out;; block_loop fuel (len - 16) 0 (padd inp 16) (padd out 16)
    end
  else mret (Cursor inp out len n).

(** [while (len--) { out[n] = ... in[n]; ++n; }] *)
Fixpoint put_loop (len n : nat) (inp out : ptr) : C nat :=
  match len with
  | O => mret n
  | S len => put n (padd inp (Z.of_nat n)) (padd out (Z.of_nat n));; put_loop len (n + 1) inp out
  end.

Definition last_bytes (len n : nat) (inp out : ptr) : C nat :=
  if decide (len = 0%nat) then mret n else refresh;; put_loop len n inp out.

(** [while (l < len) { if (n == 0) ...; ...; ++l; n = (n+1) % 16; }] *)
Fixpoint byte_loop (len n : nat) (inp out : ptr) : C nat :=
  match len with
  | O => mret n
  | S len =>
      (if decide (n = 0%nat) then refresh else mret tt);;
      put n inp out;; byte_loop len ((n + 1) mod 16) (padd inp 1) (padd out 1)
  end.

(** [aligned] is false where [STRICT_ALIGNMENT] is defined and a pointer is not aligned. *)
Definition stream_crypt (aligned : bool) (len n : nat) (inp out : ptr) : C nat :=
  c ← head_loop len n inp out;
  if aligned then
    c ← block_loop (left c) (left c) (used c) (at_in c) (at_out c);
    last_bytes (left c) (used c) (at_in c) (at_out c)
  else byte_loop (left c) (used c) (at_in c) (at_out c).
End code.

(** ** What they compute *)

Section spec.
Context {S : Type} (refresh_s : S → S) (put_s : nat → Z → S → Z * S).

(** Bytes of one block, from the index [n] on. *)
Fixpoint puts (n : nat) (s : S) (bs : list Z) : list Z * S :=
  match bs with
  | [] => ([], s)
  | b :: bs => let (c, s) := put_s n b s in let (r, s) := puts (n + 1) s bs in (c :: r, s)
  end.

(** Any number of bytes: the output, how much of the block is used, the state. *)
Fixpoint byte_stream (n : nat) (s : S) (bs : list Z) : list Z * nat * S :=
  match bs with
  | [] => ([], n, s)
  | b :: bs =>
      let s := if decide (n = 0%nat) then refresh_s s else s in
      let (c, s) := put_s n b s in
      let '(r, n, s) := byte_stream ((n + 1) mod 16) s bs in (c :: r, n, s)
  end.

Lemma puts_length bs : ∀ n s, length (puts n s bs).1 = length bs.
Proof.
  induction bs as [|b bs IH]; intros n s; [done|]. cbn [puts]. destruct (put_s n b s) as [c s1].
  specialize (IH (n + 1)%nat s1). destruct (puts (n + 1) s1 bs) as [r s2]. cbn in *. by f_equal.
Qed.

Lemma puts_app bs1 bs2 : ∀ n s, puts n s (bs1 ++ bs2) =
  (let (r1, s1) := puts n s bs1 in let (r2, s2) := puts (n + length bs1) s1 bs2 in (r1 ++ r2, s2)).
Proof.
  induction bs1 as [|b bs1 IH]; intros n s.
  - cbn [puts app length]. rewrite Nat.add_0_r. by destruct (puts n s bs2).
  - cbn [puts app length]. destruct (put_s n b s) as [c s1]. rewrite IH. rewrite <- Nat.add_assoc. cbn [Nat.add].
    destruct (puts (n + 1) s1 bs1) as [r1 s2]. replace (n + 1 + length bs1)%nat with (n + Datatypes.S (length bs1))%nat by lia.
    by destruct (puts _ s2 bs2).
Qed.

(** Encrypting in several calls or in one makes no difference. *)
Lemma stream_app bs1 bs2 : ∀ n s, byte_stream n s (bs1 ++ bs2) =
  (let '(r1, n1, s1) := byte_stream n s bs1 in let '(r2, n2, s2) := byte_stream n1 s1 bs2 in (r1 ++ r2, n2, s2)).
Proof.
  induction bs1 as [|b bs1 IH]; intros n s; [cbn [byte_stream app]; by destruct (byte_stream n s bs2) as [[? ?] ?]|].
  cbn [byte_stream app]. destruct (put_s n b _) as [c s1]. rewrite IH.
  destruct (byte_stream ((n + 1) mod 16) s1 bs1) as [[r1 n1] s2]. by destruct (byte_stream n1 s2 bs2) as [[r2 n2] s3].
Qed.

Lemma stream_length bs : ∀ n s, length (byte_stream n s bs).1.1 = length bs.
Proof.
  induction bs as [|b bs IH]; intros n s; [done|]. cbn [byte_stream]. destruct (put_s n b _) as [c s1].
  specialize (IH ((n + 1) mod 16)%nat s1). destruct (byte_stream _ s1 bs) as [[r n1] s2]. cbn in *. by f_equal.
Qed.

Lemma stream_used bs : ∀ n s, (n < 16)%nat → (byte_stream n s bs).1.2 = ((n + length bs) mod 16)%nat.
Proof.
  induction bs as [|b bs IH]; intros n s Hn; cbn [byte_stream length].
  - rewrite Nat.add_0_r, Nat.mod_small by done. done.
  - destruct (put_s n b _) as [c s1]. assert ((n + 1) mod 16 < 16)%nat as Hm by (apply Nat.mod_upper_bound; lia).
    specialize (IH ((n + 1) mod 16)%nat s1 Hm). destruct (byte_stream _ s1 bs) as [[r n1] s2]. cbn [fst snd] in *. rewrite IH.
    rewrite Nat.Div0.add_mod_idemp_l. f_equal. lia.
Qed.

(** Within a block the stream is [puts]. *)
Lemma stream_puts bs : ∀ n s, (0 < n)%nat → (n + length bs <= 16)%nat → bs ≠ [] →
  byte_stream n s bs = (let (r, s') := puts n s bs in (r, ((n + length bs) mod 16)%nat, s')).
Proof.
  induction bs as [|b bs IH]; intros n s Hn Hl Hne; [done|]. cbn [byte_stream puts length] in *. rewrite decide_False by lia.
  destruct (put_s n b s) as [c s1]. destruct bs as [|b' bs].
  - cbn [byte_stream puts]. do 3 f_equal.
  - cbn [length] in Hl. rewrite (Nat.mod_small (n + 1)) by lia. rewrite IH by (done || (cbn [length]; lia)).
    destruct (puts (n + 1) s1 (b' :: bs)) as [r s2]. cbn [length]. do 3 f_equal. lia.
Qed.

(** A new block, whole or not. *)
Lemma stream_block bs s : bs ≠ [] → (length bs <= 16)%nat →
  byte_stream 0 s bs = (let (r, s') := puts 0 (refresh_s s) bs in (r, (length bs mod 16)%nat, s')).
Proof.
  intros Hne Hl. destruct bs as [|b bs]; [done|]. cbn [byte_stream puts length] in *. rewrite decide_True by done.
  destruct (put_s 0 b (refresh_s s)) as [c s1]. destruct bs as [|b' bs]; [done|].
  change ((0 + 1) mod 16)%nat with 1%nat. rewrite stream_puts by (done || (cbn [length] in *; lia)).
  change (0 + 1)%nat with 1%nat. by destruct (puts 1 s1 (b' :: bs)) as [r s2].
Qed.
End spec.

(** ** What a mode promises *)

(** The buffers [regs] hold the state [s], and those of [writes] are written; [good] states
    are those that occur. *)
Class StreamMode {tgt : Target} {S : Type} (regs writes : regions) (holds : S → mem → Prop) (good : S → Prop)
    (refresh : C unit) (put word : nat → ptr → ptr → C unit)
    (refresh_s : S → S) (put_s : nat → Z → S → Z * S) : Prop := {
  mode_writes : covers regs writes;
  mode_frame s rs m m' : holds s m → mframe rs m m' → Forall (λ r, apart rs r.1 r.2) regs → holds s m';
  mode_good_refresh s : good s → good (refresh_s s);
  mode_good_put n b s : (n < 16)%nat → good s → is_byte b → is_byte (put_s n b s).1 ∧ good (put_s n b s).2;
  mode_refresh s m : good s → holds s m → ∃ m', refresh m = Some (tt, m') ∧ holds (refresh_s s) m' ∧ mframe writes m m';
  mode_put n b s inp out m : (n < 16)%nat → good s → holds s m → is_byte b → mread m inp 1 = Some [b] → mvalid m out 1 →
    apart regs inp 1 → apart regs out 1 →
    ∃ m', put n inp out m = Some (tt, m') ∧ holds (put_s n b s).2 m' ∧ mread m' out 1 = Some [(put_s n b s).1] ∧
      mframe ((out, 1%nat) :: writes) m m';
  mode_word n bs s inp out m : (n + size_bytes <= 16)%nat → good s → holds s m → is_bytes bs → mread m inp size_bytes = Some bs →
    mvalid m out size_bytes → apart regs inp size_bytes → apart regs out size_bytes → same_or_apart out inp size_bytes →
    ∃ m', word n inp out m = Some (tt, m') ∧ holds (puts put_s n s bs).2 m' ∧ mread m' out size_bytes = Some (puts put_s n s bs).1 ∧
      mframe ((out, size_bytes) :: writes) m m';
}.

Section refinement.
Context {tgt : Target} {S : Type} {regs writes : regions} {holds : S → mem → Prop} {good : S → Prop}.
Context {refresh : C unit} {put word : nat → ptr → ptr → C unit} {refresh_s : S → S} {put_s : nat → Z → S → Z * S}.
Context `{!StreamMode regs writes holds good refresh put word refresh_s put_s}.
Abbreviation puts := (puts put_s).
Abbreviation byte_stream := (byte_stream refresh_s put_s).

(** Before: the state, the bytes still to come, room for the output. *)
Record before (s : S) (inp out : ptr) (bs : list Z) (m : mem) : Prop := {
  before_good : good s;
  before_holds : holds s m;
  before_bytes : is_bytes bs;
  before_read : mread m inp (length bs) = Some bs;
  before_valid : mvalid m out (length bs);
  before_inp : apart regs inp (length bs);
  before_out : apart regs out (length bs);
  before_alias : same_or_apart out inp (length bs);
}.

(** After: the new state and the output; nothing else was written. *)
Record after (s : S) (out : ptr) (cs : list Z) (m m' : mem) : Prop := {
  after_good : good s;
  after_holds : holds s m';
  after_bytes : is_bytes cs;
  after_read : mread m' out (length cs) = Some cs;
  after_frame : mframe ((out, length cs) :: writes) m m';
}.

Lemma apart_sub rs p n i j : apart rs p n → (i + j <= n)%nat → apart rs (padd p (Z.of_nat i)) j.
Proof. intros Ha Hij. eapply list.Forall_impl; [exact Ha|]. intros r Hr. apply pdisj_sym, (pdisj_sub p n _ _ i j); [by apply pdisj_sym|done]. Qed.
Lemma apart_prefix rs p n j : apart rs p n → (j <= n)%nat → apart rs p j.
Proof. intros Ha Hj. rewrite <- (padd_0 p). by apply (apart_sub rs p n 0 j). Qed.

Lemma apart_swap rs p n : apart rs p n → Forall (λ r, apart [(p, n)] r.1 r.2) rs.
Proof. intros Ha. eapply list.Forall_impl; [exact Ha|]. intros r Hr. apply apart_1, pdisj_sym, Hr. Qed.

(** The state survives writes apart from its buffers. *)
Lemma holds_write s p n m m' : holds s m → mframe [(p, n)] m m' → apart regs p n → holds s m'.
Proof. intros Hh Hf Ha. by apply (mode_frame s [(p, n)] m m' Hh Hf), apart_swap. Qed.

Lemma before_take s inp out b bs m : before s inp out (b ++ bs) m → before s inp out b m.
Proof.
  intros [Hg Hh Hb Hr Hv Hi Ho Ha]. rewrite length_app in *. apply List.Forall_app in Hb as [Hb _].
  split; try done; [|eapply mvalid_take; [exact Hv|lia]|eapply apart_prefix; [exact Hi|lia]|eapply apart_prefix; [exact Ho|lia]
    |eapply same_or_apart_take; [exact Ha|lia]].
  apply mread_split in Hr as (b1 & b2 & E & L1 & R1 & _). by apply app_inj_1 in E as [-> ->].
Qed.

(** Once the first bytes are done the others are still to come. *)
Lemma before_drop s s' inp out b bs cs m m' : before s inp out (b ++ bs) m → length cs = length b → after s' out cs m m' →
  before s' (padd inp (Z.of_nat (length b))) (padd out (Z.of_nat (length b))) bs m'.
Proof.
  intros [Hg Hh Hb Hr Hv Hi Ho Ha] Hl [Hg' Hh' Hb' Hr' Hf']. rewrite length_app in *. apply List.Forall_app in Hb as [_ Hb].
  split; try done.
  - apply mread_split in Hr as (b1 & b2 & E & L1 & _ & R2). apply app_inj_1 in E as [<- <-]; [|done].
    apply (apart_read m m' _ _ _ _ Hf'); [|done]. constructor; cbn [fst snd].
    + rewrite Hl. destruct Ha as [->|Ha]; [apply pdisj_next; lia|].
      apply pdisj_sym, (pdisj_sub inp (length b + length bs)); [|lia]. apply pdisj_sym. eapply pdisj_take; [exact Ha|lia].
    + apply mode_writes. eapply apart_sub; [exact Hi|lia].
  - apply Hf'. eapply mvalid_sub; [exact Hv|lia].
  - eapply apart_sub; [exact Hi|lia].
  - eapply apart_sub; [exact Ho|lia].
  - by apply same_or_apart_drop.
Qed.

Lemma after_app s1 s2 out c1 c2 m m1 m2 : apart regs out (length c1 + length c2) → mvalid m out (length c1 + length c2) →
  after s1 out c1 m m1 → after s2 (padd out (Z.of_nat (length c1))) c2 m1 m2 → after s2 out (c1 ++ c2) m m2.
Proof.
  intros Ho Hv [_ _ B1 R1 F1] [G2 H2 B2 R2 F2]. split; [done|done|by apply List.Forall_app| |].
  - rewrite length_app. apply mread_join; [|done]. apply (apart_read m1 m2 _ _ _ _ F2); [|done]. constructor; cbn [fst snd].
    + apply pdisj_sym, pdisj_next. lia.
    + apply mode_writes. eapply apart_prefix; [exact Ho|lia].
  - rewrite length_app. transitivity m1; [eapply mframe_mono; [exact F1|]|eapply mframe_mono; [exact F2|]];
      intros q k Hq; inversion Hq; subst; cbn [fst snd] in *; (constructor; [|done]); cbn [fst snd].
    + eapply pdisj_take; [eassumption|lia].
    + eapply pdisj_sub; [eassumption|lia].
Qed.

Lemma after_nil s inp out m : before s inp out [] m → after s out [] m m.
Proof. intros H. destruct H. split; [done|done|constructor|by apply mread_nil|reflexivity]. Qed.


(** *** The loops *)

Lemma refresh_ok s inp out bs m : before s inp out bs m →
  ∃ m1, refresh m = Some (tt, m1) ∧ before (refresh_s s) inp out bs m1 ∧ mframe writes m m1.
Proof.
  intros [Hg Hh Hb Hr Hv Hi Ho Ha]. destruct (mode_refresh s m Hg Hh) as (m1 & E & H1 & F). exists m1. split; [done|]. split; [|done].
  split; try done; [by apply mode_good_refresh|by apply (apart_read m m1 _ _ _ _ F); [apply mode_writes|]|by apply F].
Qed.

Lemma after_refresh s out cs m m1 m2 : mframe writes m m1 → after s out cs m1 m2 → after s out cs m m2.
Proof.
  intros F [G H B R F2]. split; try done. transitivity m1; [|done]. eapply mframe_mono; [exact F|].
  intros q k Hq. by inversion Hq.
Qed.

Lemma put_ok n s inp out b m : (n < 16)%nat → before s inp out [b] m →
  ∃ m1, put n inp out m = Some (tt, m1) ∧ after (put_s n b s).2 out [(put_s n b s).1] m m1.
Proof.
  intros Hn [Hg Hh Hb Hr Hv Hi Ho Ha]. apply List.Forall_cons_iff in Hb as [Hb _].
  destruct (mode_put n b s inp out m Hn Hg Hh Hb Hr Hv Hi Ho) as (m1 & E & H1 & R1 & F).
  destruct (mode_good_put n b s Hn Hg Hb) as [Bc G]. exists m1. split; [done|]. split; try done. by constructor.
Qed.

(** One byte, and the bytes after it. *)
Lemma put_step n s inp out b bs m : (n < 16)%nat → before s inp out (b :: bs) m →
  ∃ m1, put n inp out m = Some (tt, m1) ∧ before (put_s n b s).2 (padd inp 1) (padd out 1) bs m1 ∧
    ∀ s' cs m2, (length cs <= length bs)%nat → after s' (padd out 1) cs m1 m2 → after s' out ((put_s n b s).1 :: cs) m m2.
Proof.
  intros Hn Hb. pose proof Hb as [_ _ _ _ Hv _ Ho _]. change (b :: bs) with ([b] ++ bs) in Hb.
  destruct (put_ok n s inp out b m Hn (before_take _ _ _ _ _ _ Hb)) as (m1 & E & A). exists m1. split; [done|]. split.
  - exact (before_drop _ _ _ _ [b] bs [(put_s n b s).1] m m1 Hb eq_refl A).
  - intros s' cs m2 Hl A2. apply (after_app (put_s n b s).2 s' out [(put_s n b s).1] cs m m1 m2); [| |exact A|exact A2]; cbn [length] in *;
      [eapply apart_prefix; [exact Ho|lia]|eapply mvalid_take; [exact Hv|lia]].
Qed.

Lemma head_loop_ok bs : ∀ n s inp out m, (n < 16)%nat → before s inp out bs m →
  ∃ a b r n' s' m1, bs = a ++ b ∧ byte_stream n s a = (r, n', s') ∧ (n' = 0%nat ∨ b = []) ∧ after s' out r m m1 ∧
    head_loop put (length bs) n inp out m = Some (Cursor (padd inp (Z.of_nat (length a))) (padd out (Z.of_nat (length a))) (length b) n', m1).
Proof.
  induction bs as [|x bs IH]; intros n s inp out m Hn Hb; cbn [head_loop length].
  - exists [], [], [], n, s, m. do 2 (split; [done|]). split; [by right|]. split; [by eapply after_nil|]. by rewrite !padd_0.
  - case_decide as H0.
    + exists [], (x :: bs), [], n, s, m. do 2 (split; [done|]). split; [by left|]. split; [|by rewrite !padd_0].
      apply (after_nil s inp out m). exact (before_take _ _ _ [] _ _ Hb).
    + destruct (put_step n s inp out x bs m Hn Hb) as (m1 & E & B1 & Hafter).
      destruct (IH ((n + 1) mod 16)%nat (put_s n x s).2 (padd inp 1) (padd out 1) m1) as (a & b & r & n' & s' & m2 & -> & Es & Hn' & A & E2);
        [apply Nat.mod_upper_bound; lia|done|].
      exists (x :: a), b, ((put_s n x s).1 :: r), n', s', m2. split; [done|]. cbn [byte_stream]. rewrite decide_False by done.
      rewrite (surjective_pairing (put_s n x s)), Es. split; [done|]. split; [done|]. split.
      * apply Hafter; [|done]. pose proof (stream_length refresh_s put_s a ((n + 1) mod 16) (put_s n x s).2) as Hl.
        rewrite Es in Hl. cbn [fst] in Hl. rewrite Hl, length_app. lia.
      * rewrite (bind_Some _ _ m tt m1 E), E2. rewrite !padd_add. by replace (1 + Z.of_nat (length a)) with (Z.of_nat (length (x :: a))) by (cbn [length]; lia).
Qed.

Lemma put_loop_ok bs : ∀ n s inp out m, (n + length bs <= 16)%nat →
  before s (padd inp (Z.of_nat n)) (padd out (Z.of_nat n)) bs m →
  ∃ m1, put_loop put (length bs) n inp out m = Some ((n + length bs)%nat, m1) ∧
    after (puts n s bs).2 (padd out (Z.of_nat n)) (puts n s bs).1 m m1.
Proof.
  induction bs as [|x bs IH]; intros n s inp out m Hn Hb; cbn [put_loop length puts] in *.
  - exists m. split; [by rewrite Nat.add_0_r|]. by eapply after_nil.
  - destruct (put_step n s _ _ x bs m ltac:(lia) Hb) as (m1 & E & B1 & Hafter). rewrite !padd_add in B1.
    replace (Z.of_nat n + 1) with (Z.of_nat (n + 1)) in B1 by lia.
    destruct (IH (n + 1)%nat (put_s n x s).2 inp out m1 ltac:(lia) B1) as (m2 & E2 & A). exists m2.
    rewrite (bind_Some _ _ m tt m1 E), E2. split; [do 2 f_equal; lia|].
    pose proof (puts_length put_s bs (n + 1) (put_s n x s).2) as Hl.
    rewrite (surjective_pairing (put_s n x s)), (surjective_pairing (puts (n + 1) _ bs)). cbn [fst snd].
    apply Hafter; [lia|]. rewrite padd_add. by replace (Z.of_nat n + 1) with (Z.of_nat (n + 1)) by lia.
Qed.

Lemma last_bytes_ok bs s inp out m : (length bs < 16)%nat → before s inp out bs m →
  ∃ m1, last_bytes refresh put (length bs) 0 inp out m = Some (length bs, m1) ∧
    let '(r, _, s') := byte_stream 0 s bs in after s' out r m m1.
Proof.
  intros Hl Hb. unfold last_bytes. case_decide as H0.
  - apply length_zero_iff_nil in H0 as ->. exists m. split; [done|]. by eapply after_nil.
  - destruct (refresh_ok s inp out bs m Hb) as (m1 & E & B1 & F).
    destruct (put_loop_ok bs 0 (refresh_s s) inp out m1 ltac:(lia)) as (m2 & E2 & A); [by rewrite !padd_0|].
    exists m2. rewrite (bind_Some _ _ m tt m1 E), E2. split; [done|].
    rewrite stream_block by (lia || by intros ->). rewrite (surjective_pairing (puts 0 (refresh_s s) bs)).
    eapply after_refresh; [exact F|]. by rewrite padd_0 in A.
Qed.

Lemma puts_good bs : ∀ n s, (n + length bs <= 16)%nat → good s → is_bytes bs → is_bytes (puts n s bs).1 ∧ good (puts n s bs).2.
Proof.
  induction bs as [|x bs IH]; intros n s Hn Hg Hb; cbn [puts length] in *; [by split|]. apply List.Forall_cons_iff in Hb as [Hx Hb].
  destruct (mode_good_put n x s ltac:(lia) Hg Hx) as [Bc G]. destruct (IH (n + 1)%nat (put_s n x s).2 ltac:(lia) G Hb) as [B2 G2].
  rewrite (surjective_pairing (put_s n x s)), (surjective_pairing (puts (n + 1) _ bs)). split; [by constructor|done].
Qed.

(** A first part and the rest. *)
Lemma after_join s s1 s2 inp out a b c1 c2 m m1 m2 : before s inp out (a ++ b) m → length c1 = length a → (length c2 <= length b)%nat →
  after s1 out c1 m m1 → after s2 (padd out (Z.of_nat (length a))) c2 m1 m2 → after s2 out (c1 ++ c2) m m2.
Proof.
  intros [_ _ _ _ Hv _ Ho _] L1 L2 A1 A2. rewrite length_app in *. rewrite <- L1 in *. apply (after_app s1 s2 out c1 c2 m m1 m2); [| |done..].
  - eapply apart_prefix; [exact Ho|lia].
  - eapply mvalid_take; [exact Hv|lia].
Qed.

(** A word, and the words to the end of the block. *)
Lemma word_ok n s inp out bs m : (n + size_bytes <= 16)%nat → length bs = size_bytes → before s inp out bs m →
  ∃ m1, word n inp out m = Some (tt, m1) ∧ after (puts n s bs).2 out (puts n s bs).1 m m1.
Proof.
  intros Hn Hl [Hg Hh Hb Hr Hv Hi Ho Ha]. rewrite Hl in *.
  destruct (mode_word n bs s inp out m Hn Hg Hh Hb Hr Hv Hi Ho Ha) as (m1 & E & H1 & R1 & F1). exists m1. split; [done|].
  destruct (puts_good bs n s) as [B G]; [by rewrite Hl|done|done|].
  split; [done|done|done|..]; by rewrite puts_length, Hl.
Qed.

Lemma word_loop_ok k : ∀ fuel bs n s inp out m, length bs = (k * size_bytes)%nat → (n + length bs = 16)%nat → (length bs <= fuel)%nat →
  before s (padd inp (Z.of_nat n)) (padd out (Z.of_nat n)) bs m →
  ∃ m1, word_loop word fuel n inp out m = Some (tt, m1) ∧ after (puts n s bs).2 (padd out (Z.of_nat n)) (puts n s bs).1 m m1.
Proof.
  induction k as [|k IH]; intros fuel bs n s inp out m Hl Hn Hf Hb.
  - apply nil_length_inv in Hl as ->. cbn [length] in Hn. exists m.
    split; [destruct fuel; cbn [word_loop]; by rewrite decide_False by lia|]. by eapply after_nil.
  - assert (0 < size_bytes)%nat as Hpos by (destruct size_bytes_ok as [-> | ->]; lia).
    rewrite <- (take_drop size_bytes bs) in Hb |- *. cbn [Nat.mul] in Hl.
    assert (length (take size_bytes bs) = size_bytes) as L1 by (rewrite length_take; lia).
    assert (length (drop size_bytes bs) = (k * size_bytes)%nat) as L2 by (rewrite length_drop; lia).
    assert (length bs = length (take size_bytes bs) + length (drop size_bytes bs))%nat as L by (rewrite <- length_app, take_drop; done).
    set (b1 := take size_bytes bs) in *. set (b2 := drop size_bytes bs) in *. clearbody b1 b2.
    destruct fuel as [|fuel]; [lia|]. cbn [word_loop]. rewrite decide_True by lia.
    destruct (word_ok n s (padd inp (Z.of_nat n)) (padd out (Z.of_nat n)) b1 m) as (m1 & E1 & A1); [lia|done|by eapply before_take|].
    pose proof (before_drop s _ _ _ b1 b2 _ m m1 Hb (puts_length put_s b1 n s) A1) as B2. rewrite L1, !padd_add in B2.
    replace (Z.of_nat n + Z.of_nat size_bytes) with (Z.of_nat (n + size_bytes)) in B2 by lia.
    destruct (IH fuel b2 (n + size_bytes)%nat _ inp out m1 L2 ltac:(lia) ltac:(lia) B2) as (m2 & E2 & A2).
    exists m2. rewrite (bind_Some _ _ m tt m1 E1). split; [done|]. rewrite puts_app.
    rewrite (surjective_pairing (puts n s b1)), (surjective_pairing (puts (n + length b1) _ b2)). cbn [fst snd]. rewrite L1.
    apply (after_join s (puts n s b1).2 _ (padd inp (Z.of_nat n)) _ b1 b2 _ _ m m1 m2 Hb (puts_length put_s b1 n s)); [by rewrite puts_length|done|].
    rewrite padd_add, L1. by replace (Z.of_nat n + Z.of_nat size_bytes) with (Z.of_nat (n + size_bytes)) by lia.
Qed.

(** A whole block. *)
Lemma block_ok s inp out b m : length b = 16%nat → before s inp out b m →
  ∃ m1 m2, refresh m = Some (tt, m1) ∧ word_loop word 16 0 inp out m1 = Some (tt, m2) ∧ let '(r, _, s') := byte_stream 0 s b in after s' out r m m2.
Proof.
  intros L1 Hb. destruct (refresh_ok s inp out b m Hb) as (m1 & E & B & F). rewrite <- (padd_0 inp), <- (padd_0 out) in B.
  destruct (word_loop_ok (16 / size_bytes) 16 b 0 (refresh_s s) inp out m1) as (m2 & E2 & A2);
    [rewrite L1; by destruct size_bytes_ok as [-> | ->]|by rewrite L1|by rewrite L1|done|].
  exists m1, m2. do 2 (split; [done|]). rewrite stream_block by (lia || by intros ->).
  rewrite (surjective_pairing (puts 0 (refresh_s s) b)). rewrite padd_0 in A2. by eapply after_refresh.
Qed.

Lemma block_loop_ok fuel : ∀ bs s inp out m, (length bs <= fuel)%nat → before s inp out bs m →
  ∃ a b r s' m1, bs = a ++ b ∧ (length b < 16)%nat ∧ byte_stream 0 s a = (r, 0%nat, s') ∧ after s' out r m m1 ∧
    block_loop refresh word fuel (length bs) 0 inp out m =
      Some (Cursor (padd inp (Z.of_nat (length a))) (padd out (Z.of_nat (length a))) (length b) 0, m1).
Proof.
  induction fuel as [|fuel IH]; intros bs s inp out m Hf Hb.
  all: destruct (decide (16 <= length bs)%nat) as [Hl|Hl];
    [|exists [], bs, [], s, m; split; [done|]; split; [lia|]; split; [done|];
      split; [exact (after_nil s inp out m (before_take _ _ _ [] bs m Hb))|]; rewrite !padd_0; cbn [block_loop]; by rewrite decide_False by done].
  - lia.
  - cbn [block_loop]. rewrite decide_True by done. rewrite <- (take_drop 16 bs) in Hb |- *.
    assert (length (take 16 bs) = 16%nat) as L1 by (rewrite length_take; lia).
    assert (length (drop 16 bs) = (length bs - 16)%nat) as L2 by (by rewrite length_drop).
    set (b1 := take 16 bs) in *. set (bs2 := drop 16 bs) in *. clearbody b1 bs2.
    destruct (block_ok s inp out b1 m L1 (before_take _ _ _ _ _ _ Hb)) as (m1 & m2 & E1 & E2 & A2).
    destruct (byte_stream 0 s b1) as [[r1 n1] s1] eqn:Es1.
    pose proof (stream_length refresh_s put_s b1 0 s) as Lr. rewrite Es1 in Lr. cbn [fst] in Lr.
    pose proof (stream_used refresh_s put_s b1 0 s ltac:(lia)) as En. rewrite Es1, L1 in En. cbn in En. subst n1.
    pose proof (before_drop s s1 inp out b1 bs2 r1 m m2 Hb Lr A2) as B2. rewrite L1 in B2.
    destruct (IH bs2 s1 (padd inp 16) (padd out 16) m2) as (a & b & r & s' & m3 & Ebs & Lb & Es & A3 & E3); [lia|exact B2|].
    exists (b1 ++ a), b, (r1 ++ r), s', m3. split; [by rewrite <- app_assoc, <- Ebs|]. split; [done|].
    split; [by rewrite stream_app, Es1, Es|]. split.
    + pose proof (stream_length refresh_s put_s a 0 s1) as Lr2. rewrite Es in Lr2. cbn [fst] in Lr2.
      apply (after_join s s1 s' inp out b1 bs2 r1 r m m2 m3 Hb Lr); [|done|by rewrite L1].
      rewrite Ebs, Lr2, length_app. lia.
    + rewrite (bind_Some _ _ m tt m1 E1), (bind_Some _ _ m1 tt m2 E2). replace (length (b1 ++ bs2) - 16)%nat with (length bs2) by (rewrite length_app; lia).
      rewrite E3, !padd_add.
      by replace (16 + Z.of_nat (length a)) with (Z.of_nat (length (b1 ++ a))) by (rewrite length_app, L1; lia).
Qed.

Lemma byte_loop_ok bs : ∀ n s inp out m, (n < 16)%nat → before s inp out bs m →
  ∃ m1, let '(r, n', s') := byte_stream n s bs in byte_loop refresh put (length bs) n inp out m = Some (n', m1) ∧ after s' out r m m1.
Proof.
  induction bs as [|x bs IH]; intros n s inp out m Hn Hb; cbn [byte_loop length byte_stream].
  - exists m. split; [done|]. by eapply after_nil.
  - set (s0 := if decide (n = 0%nat) then refresh_s s else s).
    assert (∃ m0, (if decide (n = 0%nat) then refresh else mret tt) m = Some (tt, m0) ∧ before s0 inp out (x :: bs) m0 ∧ mframe writes m m0) as (m0 & E0 & B0 & F0).
    { unfold s0. case_decide; [by apply refresh_ok|]. exists m. split; [done|]. split; [done|reflexivity]. }
    destruct (put_step n s0 inp out x bs m0 Hn B0) as (m1 & E & B1 & Hafter).
    destruct (IH ((n + 1) mod 16)%nat (put_s n x s0).2 (padd inp 1) (padd out 1) m1) as (m2 & IH2); [apply Nat.mod_upper_bound; lia|done|].
    exists m2. rewrite (surjective_pairing (put_s n x s0)).
    pose proof (stream_length refresh_s put_s bs ((n + 1) mod 16) (put_s n x s0).2) as Lr.
    destruct (byte_stream ((n + 1) mod 16) (put_s n x s0).2 bs) as [[r n'] s'] eqn:Es. cbn [fst] in Lr. destruct IH2 as [E2 A2]. split.
    + by rewrite (bind_Some _ _ m tt m0 E0), (bind_Some _ _ m0 tt m1 E).
    + eapply after_refresh; [exact F0|]. apply Hafter; [lia|done].
Qed.

(** The loops compute [byte_stream], whichever way the last two are chosen. *)
Lemma stream_crypt_ok aligned bs n s inp out m : (n < 16)%nat → before s inp out bs m →
  ∃ m1, let '(r, n', s') := byte_stream n s bs in
    stream_crypt refresh put word aligned (length bs) n inp out m = Some (n', m1) ∧ after s' out r m m1.
Proof.
  intros Hn Hb. destruct (head_loop_ok bs n s inp out m Hn Hb) as (a & b & r1 & n1 & s1 & m1 & -> & Es1 & Hn1 & A1 & E1).
  unfold stream_crypt. rewrite (bind_Some _ _ m _ m1 E1). cbn [at_in at_out left used].
  pose proof (stream_length refresh_s put_s a n s) as L1. rewrite Es1 in L1. cbn [fst] in L1.
  pose proof (before_drop s s1 inp out a b r1 m m1 Hb L1 A1) as B1.
  assert (n1 < 16)%nat as Bn1 by (pose proof (stream_used refresh_s put_s a n s Hn) as En; rewrite Es1 in En; cbn [fst snd] in En; rewrite En; apply Nat.mod_upper_bound; lia).
  rewrite stream_app, Es1.
  enough (∃ m2, let '(r, n', s') := byte_stream n1 s1 b in
    (if aligned then c ← block_loop refresh word (length b) (length b) n1 (padd inp (Z.of_nat (length a))) (padd out (Z.of_nat (length a)));
        last_bytes refresh put (left c) (used c) (at_in c) (at_out c)
     else byte_loop refresh put (length b) n1 (padd inp (Z.of_nat (length a))) (padd out (Z.of_nat (length a)))) m1 = Some (n', m2) ∧
    after s' (padd out (Z.of_nat (length a))) r m1 m2) as (m2 & H).
  { exists m2. pose proof (stream_length refresh_s put_s b n1 s1) as L2. destruct (byte_stream n1 s1 b) as [[r2 n2] s2]. cbn [fst] in L2.
    destruct H as [E2 A2]. split; [exact E2|]. by apply (after_join s s1 s2 inp out a b r1 r2 m m1 m2 Hb L1); [lia|..]. }
  destruct aligned; [|by apply byte_loop_ok]. destruct Hn1 as [->| ->].
  - destruct (block_loop_ok (length b) b s1 _ _ m1 (le_n _) B1) as (c & d & r2 & s2 & m2 & Eb & Ld & Es2 & A2 & E2).
    rewrite (bind_Some _ _ m1 _ m2 E2). cbn [at_in at_out left used]. rewrite Eb in B1 |- *.
    pose proof (stream_length refresh_s put_s c 0 s1) as L2. rewrite Es2 in L2. cbn [fst] in L2.
    pose proof (before_drop s1 s2 _ _ c d r2 m1 m2 B1 L2 A2) as B2.
    destruct (last_bytes_ok d s2 _ _ m2 Ld B2) as (m3 & E3 & A3). exists m3. rewrite stream_app, Es2.
    pose proof (stream_length refresh_s put_s d 0 s2) as L3. pose proof (stream_used refresh_s put_s d 0 s2 ltac:(lia)) as En.
    destruct (byte_stream 0 s2 d) as [[r3 n3] s3]. cbn [fst snd] in L3, En. rewrite Nat.mod_small in En by lia. cbn in En. subst n3.
    split; [exact E3|]. apply (after_join s1 s2 s3 _ _ c d r2 r3 m1 m2 m3 B1 L2); [lia|done..].
  - exists m1. cbn [byte_stream length block_loop]. split; [done|]. by eapply after_nil.
Qed.
End refinement.

(** ** A call *)

(** [n = *num; ...; *num = n;] around the loops. *)
Definition crypt_call {tgt : Target} (refresh : C unit) (put word : nat → ptr → ptr → C unit)
    (aligned : bool) (inp out : ptr) (len : nat) (num : ptr) : C unit :=
  n ← load_uint num;
  n ← stream_crypt refresh put word aligned len (Z.to_nat n) inp out;
  store_int num (Z.of_nat n).

(** What a caller provides: registers with known content, [*num], the input and room for
    the output, which may be the input itself. *)
Record call_pre (regs : list (ptr * list Z)) (num inp out : ptr) (n : nat) (bs : list Z) (m : mem) : Prop := {
  pre_regs : Forall (λ r, length r.2 = 16%nat ∧ is_bytes r.2 ∧ mread m r.1 16 = Some r.2) regs;
  pre_num : mread m num 4 = Some (le_bytes 4 (Z.of_nat n));
  pre_used : (n < 16)%nat;
  pre_bytes : is_bytes bs;
  pre_read : mread m inp (length bs) = Some bs;
  pre_valid : mvalid m out (length bs);
  pre_alias : same_or_apart out inp (length bs);
  pre_inp : apart ((num, 4%nat) :: ((λ r, (r.1, 16%nat)) <$> regs)) inp (length bs);
  pre_apart : pairwise ((num, 4%nat) :: (out, length bs) :: ((λ r, (r.1, 16%nat)) <$> regs));
}.

(** What it finds afterwards. *)
Record call_post (regs : list (ptr * list Z)) (num out : ptr) (n : nat) (cs : list Z) (m m' : mem) : Prop := {
  post_regs : Forall (λ r, length r.2 = 16%nat ∧ is_bytes r.2 ∧ mread m' r.1 16 = Some r.2) regs;
  post_num : mread m' num 4 = Some (le_bytes 4 (Z.of_nat n));
  post_bytes : is_bytes cs;
  post_out : mread m' out (length cs) = Some cs;
  post_frame : mframe ((num, 4%nat) :: (out, length cs) :: ((λ r, (r.1, 16%nat)) <$> regs)) m m';
}.

Lemma apart_pdisj_out rs out n : Forall (λ r : ptr * nat, pdisj out n r.1 r.2) rs → apart rs out n.
Proof. intros H. eapply list.Forall_impl; [exact H|]. intros r Hr. by apply pdisj_sym. Qed.

Section call.
Context {tgt : Target} {S : Type} (regs : S → list (ptr * list Z)) (ps ws : regions).
Context {refresh : C unit} {put word : nat → ptr → ptr → C unit} {refresh_s : S → S} {put_s : nat → Z → S → Z * S}.
Context {holds : S → mem → Prop} {good : S → Prop} `{!StreamMode ps ws holds good refresh put word refresh_s put_s}.
Context (Hps : ∀ s, ((λ r, (r.1, 16%nat)) <$> regs s) = ps).
Context (Hgood : ∀ s, good s ↔ Forall (λ r, length r.2 = 16%nat ∧ is_bytes r.2) (regs s)).
Context (Hholds : ∀ s m, holds s m ↔ Forall (λ r, mread m r.1 16 = Some r.2) (regs s)).

Lemma call_before num inp out n s bs m : call_pre (regs s) num inp out n bs m →
  before (regs := ps) (holds := holds) (good := good) s inp out bs m.
Proof.
  intros [Hr Hn Hu Hb Hi Hv Ha Hia Hp]. apply List.Forall_cons_iff in Hia as [_ Hia]. rewrite Hps in *. cbn [pairwise fst snd] in Hp. destruct Hp as (_ & Po & _).
  split; try done; [apply Hgood|apply Hholds|by apply apart_pdisj_out]; (eapply list.Forall_impl; [exact Hr|]); cbn; intros; tauto.
Qed.

(** [*num = n;] at the end. *)
Lemma call_end num inp out n s s' (n' : nat) bs cs m m1 : call_pre (regs s) num inp out n bs m → length cs = length bs →
  after (writes := ws) (holds := holds) (good := good) s' out cs m m1 →
  ∃ m2, store_int num (Z.of_nat n') m1 = Some (tt, m2) ∧ call_post (regs s') num out n' cs m m2.
Proof.
  intros [Hr Hn Hu Hb Hi Hv Ha Hia Hp] Hl [G' H' B' R' F']. rewrite Hps in *. cbn [pairwise fst snd] in Hp. destruct Hp as (Pn & Po & _).
  apply List.Forall_cons_iff in Pn as [Pno Pn]. cbn [fst snd] in *.
  assert (apart ((out, length cs) :: ps) num 4) as An.
  { constructor; cbn [fst snd]; [rewrite Hl; by apply pdisj_sym|by apply apart_pdisj_out]. }
  assert (mvalid m1 num 4) as V1 by (apply F'; by eapply mread_mvalid).
  destruct (store_int_ok num (Z.of_nat n') m1 V1) as (m2 & W & E2). pose proof (mwrite_mframe _ _ _ _ W) as F2. rewrite le_bytes_length in F2.
  exists m2. split; [done|]. split.
  - assert (holds s' m2) as H2 by (apply (holds_write s' num 4 m1 m2 H' F2); by apply apart_pdisj_out).
    apply Hgood in G'. apply Hholds in H2. clear - G' H2. induction G' as [|r rs [? ?] _ IH]; [done|].
    apply List.Forall_cons_iff in H2 as [H2 H3]. constructor; [done|by apply IH].
  - pose proof (mread_mwrite _ _ _ _ W) as R. by rewrite le_bytes_length in R.
  - done.
  - apply (apart_read m1 m2 _ _ _ _ F2); [|done]. apply apart_1. by rewrite Hl.
  - rewrite Hps. transitivity m1; [eapply mframe_mono; [exact F'|];
      intros q k Hq; inversion Hq as [|? ? _ Hq']; inversion Hq' as [|? ? Ho' Hq'']; constructor; [done|by apply mode_writes]|].
    eapply mframe_mono; [exact F2|]. eapply covers_take; [left|lia].
Qed.

Lemma call_start num inp out n s bs m : call_pre (regs s) num inp out n bs m → load_uint num m = Some (Z.of_nat n, m).
Proof. intros Hpre. destruct Hpre as [_ Hn Hu _ _ _ _ _ _]. apply load_uint_Some; [lia|done]. Qed.

Lemma crypt_call_ok aligned num inp out n s bs m : call_pre (regs s) num inp out n bs m →
  ∃ m', crypt_call refresh put word aligned inp out (length bs) num m = Some (tt, m') ∧
    let '(cs, n', s') := byte_stream refresh_s put_s n s bs in call_post (regs s') num out n' cs m m'.
Proof.
  intros Hpre. pose proof (pre_used _ _ _ _ _ _ _ Hpre) as Hu.
  destruct (stream_crypt_ok aligned bs n s inp out m Hu (call_before _ _ _ _ _ _ _ Hpre)) as (m1 & H1).
  pose proof (stream_length refresh_s put_s bs n s) as Hl.
  destruct (byte_stream refresh_s put_s n s bs) as [[cs n'] s']. cbn [fst snd] in *. destruct H1 as [E1 A1].
  destruct (call_end num inp out n s s' n' bs cs m m1 Hpre Hl A1) as (m2 & E2 & P). exists m2. split; [|done].
  unfold crypt_call. rewrite (bind_Some _ _ m _ m (call_start _ _ _ _ _ _ _ Hpre)), Nat2Z.id. by rewrite (bind_Some _ _ m _ m1 E1).
Qed.

(** A second call goes on where the first one stopped. *)
Lemma call_next num inp out n n' s s' a b cs m m1 : call_pre (regs s) num inp out n (a ++ b) m → length cs = length a → (n' < 16)%nat →
  call_post (regs s') num out n' cs m m1 →
  call_pre (regs s') num (padd inp (Z.of_nat (length a))) (padd out (Z.of_nat (length a))) n' b m1.
Proof.
  intros [Hr Hn Hu Hb Hi Hv Ha Hia Hp] Hl Hn' [Hr' Hnum' Hb' Ho' Hf']. rewrite length_app in *. apply List.Forall_app in Hb as [_ Hb].
  rewrite Hps in *. cbn [pairwise fst snd] in Hp. destruct Hp as (Pn & Po & Pr). apply List.Forall_cons_iff in Pn as [Pno Pn]. cbn [fst snd] in *.
  split; rewrite ?Hps; try done.
  - apply mread_split in Hi as (b1 & b2 & E & L1 & _ & R2). apply app_inj_1 in E as [<- <-]; [|done].
    apply (apart_read m m1 _ _ _ _ Hf'); [|done]. apply List.Forall_cons_iff in Hia as [Hin Hia]. constructor; cbn [fst snd] in *.
    + apply pdisj_sym, (pdisj_sub inp (length a + length b)); [by apply pdisj_sym|lia].
    + constructor; cbn [fst snd]; [|eapply apart_sub; [exact Hia|lia]]. rewrite Hl. destruct Ha as [->|Ha]; [apply pdisj_next; lia|].
      apply pdisj_sym, (pdisj_sub inp (length a + length b)); [|lia]. apply pdisj_sym. eapply pdisj_take; [exact Ha|lia].
  - apply Hf'. eapply mvalid_sub; [exact Hv|lia].
  - by apply same_or_apart_drop.
  - eapply apart_sub; [exact Hia|lia].
  - cbn [pairwise fst snd]. split; [|split; [|done]].
    + constructor; [|done]. cbn [fst snd]. apply pdisj_sym, (pdisj_sub out (length a + length b)); [by apply pdisj_sym|lia].
    + eapply list.Forall_impl; [exact Po|]. intros r Hr0. by eapply pdisj_sub; [exact Hr0|lia].
Qed.

Lemma post_app num out n1 n2 s s1 s2 a b c1 c2 inp n m m1 m2 : call_pre (regs s) num inp out n (a ++ b) m → length c1 = length a → length c2 = length b →
  call_post (regs s1) num out n1 c1 m m1 → call_post (regs s2) num (padd out (Z.of_nat (length a))) n2 c2 m1 m2 →
  call_post (regs s2) num out n2 (c1 ++ c2) m m2.
Proof.
  intros [_ _ _ _ _ _ _ _ Hp] L1 L2 [_ _ B1 O1 F1] [R2 N2 B2 O2 F2]. rewrite length_app in Hp. rewrite Hps in *. cbn [pairwise fst snd] in Hp.
  destruct Hp as (Pn & Po & _). apply List.Forall_cons_iff in Pn as [Pno Pn]. cbn [fst snd] in *. split; [done|done|by apply List.Forall_app|..].
  - rewrite length_app. apply mread_join; [|by rewrite L1]. apply (apart_read m1 m2 _ _ _ _ F2); [|done]. rewrite L1. constructor; [|constructor]; cbn [fst snd].
    + apply pdisj_sym. eapply pdisj_take; [apply pdisj_sym; exact Pno|lia].
    + apply pdisj_sym, pdisj_next. lia.
    + apply apart_pdisj_out. eapply list.Forall_impl; [exact Po|]. intros r Hr0. eapply pdisj_take; [exact Hr0|lia].
  - rewrite Hps, length_app. transitivity m1; [eapply mframe_mono; [exact F1|]|eapply mframe_mono; [exact F2|]];
      intros q k Hq; inversion Hq as [|? ? Q1 Hq']; inversion Hq' as [|? ? Q2 Hq'']; subst; (constructor; [done|]); (constructor; [|done]); cbn [fst snd] in *.
    + eapply pdisj_take; [exact Q2|lia].
    + eapply pdisj_sub; [exact Q2|lia].
Qed.

(** The pieces of a message in two calls, whichever loops they take. *)
Lemma crypt_calls_ok aligned1 aligned2 num inp out n s a b m : call_pre (regs s) num inp out n (a ++ b) m →
  ∃ m1 m2, crypt_call refresh put word aligned1 inp out (length a) num m = Some (tt, m1) ∧
    crypt_call refresh put word aligned2 (padd inp (Z.of_nat (length a))) (padd out (Z.of_nat (length a))) (length b) num m1 = Some (tt, m2) ∧
    let '(cs, n', s') := byte_stream refresh_s put_s n s (a ++ b) in call_post (regs s') num out n' cs m m2.
Proof.
  intros Hpre. pose proof Hpre as [Hr Hn Hu Hb Hi Hv Ha Hia Hp]. rewrite length_app in *. pose proof (mread_length _ _ _ _ Hi) as Hlen.
  assert (call_pre (regs s) num inp out n a m) as H1.
  { apply List.Forall_app in Hb as [Hb _]. split; try done.
    - apply mread_split in Hi as (b1 & b2 & E & L1 & R1 & _). by apply app_inj_1 in E as [-> ->].
    - eapply mvalid_take; [exact Hv|lia].
    - eapply same_or_apart_take; [exact Ha|lia].
    - eapply apart_prefix; [exact Hia|lia].
    - cbn [pairwise] in *. destruct Hp as (Pn & Po & Pr). apply List.Forall_cons_iff in Pn as [Pno Pn]. cbn [fst snd] in *. split; [|split; [|done]].
      + constructor; [|done]. cbn [fst snd]. apply pdisj_sym. eapply pdisj_take; [apply pdisj_sym; exact Pno|lia].
      + eapply list.Forall_impl; [exact Po|]. intros r Hr0. cbn [fst snd] in *. eapply pdisj_take; [exact Hr0|lia]. }
  destruct (crypt_call_ok aligned1 num inp out n s a m H1) as (m1 & R1 & P1). rewrite stream_app.
  pose proof (stream_length refresh_s put_s a n s) as L1. pose proof (stream_used refresh_s put_s a n s Hu) as N1.
  destruct (byte_stream refresh_s put_s n s a) as [[c1 n1] s1]. cbn [fst snd] in *.
  assert (n1 < 16)%nat as Hn1 by (rewrite N1; apply Nat.mod_upper_bound; lia).
  destruct (crypt_call_ok aligned2 num _ _ n1 s1 b m1 (call_next num inp out n n1 s s1 a b c1 m m1 Hpre L1 Hn1 P1)) as (m2 & R2 & P2).
  pose proof (stream_length refresh_s put_s b n1 s1) as L2. destruct (byte_stream refresh_s put_s n1 s1 b) as [[c2 n2] s2]. cbn [fst snd] in *.
  exists m1, m2. do 2 (split; [done|]). by apply (post_app num out n1 n2 s s1 s2 a b c1 c2 inp n m m1 m2).
Qed.
End call.
