(* ===== verification/Modes.v ===== *)
(** * Modes: the stream modes of OpenSSL, [cfb128.c], [ofb128.c] and [ctr128.c]

    The block function is an argument of the mode functions, as in the code; [AES_encrypt] is
    given by the wrappers at the end ([aes_cfb.c], [aes_ofb.c], [aes_ctr.c]). [*num] is the
    number of bytes of the current block that are used. *)

From S2P Require Import Prelude Mem Own Target ModeSpec Stream.

Section code.
Context {tgt : Target} (block : ptr → ptr → C unit).

(** *** cfb128.c *)

(** [*out = ivec[n] ^= *in] and [*out = ivec[n] ^ (c = *in); ivec[n] = c]. *)
Definition cfb_put (enc : bool) (ivec : ptr) (n : nat) (inp out : ptr) : C unit :=
  let iv := padd ivec (Z.of_nat n) in
  if enc then x ← load_byte iv; c ← load_byte inp; store iv [Z.lxor x c];; store out [Z.lxor x c]
  else x ← load_byte iv; c ← load_byte inp; store out [Z.lxor x c];; store iv [c].

(** The same on a [size_t]. *)
Definition cfb_word (enc : bool) (ivec : ptr) (n : nat) (inp out : ptr) : C unit :=
  let iv := padd ivec (Z.of_nat n) in
  if enc then x ← load_size iv; c ← load_size inp; store_size iv (Z.lxor x c);; store_size out (Z.lxor x c)
  else t ← load_size inp; x ← load_size iv; store_size out (Z.lxor x t);; store_size iv t.

Definition CRYPTO_cfb128_encrypt (aligned : bool) (inp out : ptr) (len : nat) (ivec num : ptr) (enc : bool) : C unit :=
  crypt_call (block ivec ivec) (cfb_put enc ivec) (cfb_word enc ivec) aligned inp out len num.

(** *** ofb128.c, and the output of ctr128.c *)

(** [*out = *in ^ pad[n]]: the pad is [ivec] in one file and [ecount_buf] in the other. *)
Definition pad_put (pad : ptr) (n : nat) (inp out : ptr) : C unit :=
  c ← load_byte inp; x ← load_byte (padd pad (Z.of_nat n)); store out [Z.lxor c x].
Definition pad_word (pad : ptr) (n : nat) (inp out : ptr) : C unit :=
  c ← load_size inp; x ← load_size (padd pad (Z.of_nat n)); store_size out (Z.lxor c x).

Definition CRYPTO_ofb128_encrypt (aligned : bool) (inp out : ptr) (len : nat) (ivec num : ptr) : C unit :=
  crypt_call (block ivec ivec) (pad_put ivec) (pad_word ivec) aligned inp out len num.

(** *** ctr128.c *)

(** [do { --n; c = counter[n]; ++c; counter[n] = c; if (c) return; } while (n);]: [ctr128_inc]
    starts at 16, [ctr96_inc] at 12. On the little-endian targets [ctr128_inc_aligned] is
    [ctr128_inc]. *)
Fixpoint ctr_inc (counter : ptr) (n : nat) : C unit :=
  match n with
  | O => mret tt
  | S n =>
      c ← load_byte (padd counter (Z.of_nat n));
      let c := wrap 8 (c + 1) in
      store (padd counter (Z.of_nat n)) [c];;
      if decide (c = 0) then ctr_inc counter n else mret tt
  end.
Definition ctr128_inc (counter : ptr) : C unit := ctr_inc counter 16.
Definition ctr96_inc (counter : ptr) : C unit := ctr_inc counter 12.

Definition CRYPTO_ctr128_encrypt (aligned : bool) (inp out : ptr) (len : nat) (ivec ecount_buf num : ptr) : C unit :=
  crypt_call (block ivec ecount_buf;; ctr128_inc ivec) (pad_put ecount_buf) (pad_word ecount_buf) aligned inp out len num.
End code.

(** ** What they compute, byte by byte *)

(** A byte of the register is xored to the input and becomes [g] of both. *)
Definition reg_put (g : Z → Z → Z) (n : nat) (b : Z) (iv : list Z) : Z * list Z :=
  (Z.lxor (iv !!! n) b, <[n := g (iv !!! n) b]> iv).

Definition cfb_feedback (enc : bool) : Z → Z → Z := if enc then Z.lxor else λ _ c, c.
Definition cfb_stream (E : list Z → list Z) (enc : bool) : nat → list Z → list Z → list Z * nat * list Z :=
  byte_stream E (reg_put (cfb_feedback enc)).
Definition ofb_stream (E : list Z → list Z) : nat → list Z → list Z → list Z * nat * list Z :=
  byte_stream E (reg_put (λ x _, x)).

(** The counter, a number modulo [2^128], and the encrypted counter. *)
Definition ctr_next (iv : list Z) : list Z := num_bytes 16 (be_num iv + 1).
Definition ctr_refresh (E : list Z → list Z) (s : list Z * list Z) : list Z * list Z := (ctr_next s.1, E s.1).
Definition ctr_put (n : nat) (b : Z) (s : list Z * list Z) : Z * (list Z * list Z) := (Z.lxor (s.2 !!! n) b, s).
Definition ctr_stream (E : list Z → list Z) : nat → list Z * list Z → list Z → list Z * nat * (list Z * list Z) :=
  byte_stream (ctr_refresh E) ctr_put.

(** *** Lemmas on the registers *)

Lemma splice_1 {A} n (x : A) l : (n < length l)%nat → splice n [x] l = <[n := x]> l.
Proof. intros Hn. unfold splice. cbn [length app]. by rewrite insert_take_drop, Nat.add_1_r. Qed.

Lemma splice_insert {A} n (x : A) xs l : (n < length l)%nat → splice (n + 1) xs (<[n := x]> l) = splice n (x :: xs) l.
Proof.
  intros Hn. unfold splice. rewrite insert_take_drop by done. cbn [length].
  replace (take (n + 1) (take n l ++ x :: drop (S n) l)) with (take n l ++ [x]).
  2:{ rewrite take_app_ge by (rewrite length_take; lia). f_equal. rewrite length_take. by replace (n + 1 - min n (length l))%nat with 1%nat by lia. }
  rewrite <- app_assoc. cbn [app]. do 3 f_equal. rewrite drop_app_ge by (rewrite length_take; lia). rewrite length_take.
  replace (n + 1 + length xs - min n (length l))%nat with (S (length xs)) by lia. cbn [drop]. rewrite drop_drop. f_equal. lia.
Qed.

Lemma slice_cons (n k : nat) (l : list Z) : (n < length l)%nat → take (S k) (drop n l) = l !!! n :: take k (drop (n + 1) l).
Proof.
  intros Hn. destruct (lookup_lt_is_Some_2 l n Hn) as [x Hx]. rewrite (drop_S l x n Hx). cbn [take].
  rewrite (list_lookup_total_correct l n x Hx). by rewrite Nat.add_1_r.
Qed.

Lemma puts_reg g bs : ∀ n iv, (n + length bs <= length iv)%nat →
  puts (reg_put g) n iv bs = (xor_list (take (length bs) (drop n iv)) bs, splice n (zip_with g (take (length bs) (drop n iv)) bs) iv).
Proof.
  induction bs as [|b bs IH]; intros n iv Hn; cbn [length] in *.
  - cbn [puts]. unfold splice. cbn [zip_with]. rewrite zip_with_nil_r. cbn [length app]. by rewrite Nat.add_0_r, take_drop.
  - cbn [puts]. unfold reg_put at 1. rewrite IH by (rewrite length_insert; lia). rewrite (slice_cons n) by lia. unfold xor_list. cbn [zip_with].
    rewrite drop_insert_lt by lia. by rewrite splice_insert by lia.
Qed.

Lemma puts_ctr bs : ∀ n s, (n + length bs <= length s.2)%nat → puts ctr_put n s bs = (xor_list (take (length bs) (drop n s.2)) bs, s).
Proof.
  induction bs as [|b bs IH]; intros n s Hn; cbn [length puts] in *; [unfold xor_list; by rewrite zip_with_nil_r|].
  unfold ctr_put at 1. rewrite IH by lia. by rewrite (slice_cons n) by lia.
Qed.

(** ** The stream modes keep their promises *)

Lemma zip_with_snd (xs ys : list Z) : length xs = length ys → zip_with (λ _ y, y) xs ys = ys.
Proof. revert ys. induction xs as [|x xs IH]; intros [|y ys] H; [done..|]. cbn. by rewrite IH by (by injection H). Qed.
Lemma zip_with_take_both (f : Z → Z → Z) n xs : ∀ ys, zip_with f (take n xs) (take n ys) = take n (zip_with f xs ys).
Proof. revert xs. induction n as [|n IH]; intros [|x xs] [|y ys]; [done..|]. cbn. by rewrite IH. Qed.
Lemma zip_with_fst (xs ys : list Z) : length xs = length ys → zip_with (λ x _, x) xs ys = xs.
Proof. revert ys. induction xs as [|x xs IH]; intros [|y ys] H; [done..|]. cbn. by rewrite IH by (by injection H). Qed.

Section register.
Context (reg : ptr).

Definition reg_holds (iv : list Z) (m : mem) : Prop := mread m reg 16 = Some iv.
Definition reg_good (iv : list Z) : Prop := length iv = 16%nat ∧ is_bytes iv.

Lemma reg_slice m iv n k : reg_holds iv m → (n + k <= 16)%nat → mread m (padd reg (Z.of_nat n)) k = Some (take k (drop n iv)).
Proof. intros Hh Hn. by apply (mread_sub m reg 16). Qed.

Lemma reg_slice_length iv n k : reg_good iv → (n + k <= 16)%nat → length (take k (drop n iv)) = k.
Proof. intros [Hl _] Hn. rewrite length_take, length_drop. lia. Qed.

Lemma reg_slice_bytes iv n k : reg_good iv → is_bytes (take k (drop n iv)).
Proof. intros [_ Hb]. by apply Forall_take, Forall_drop. Qed.

Lemma reg_byte m iv n : reg_holds iv m → reg_good iv → (n < 16)%nat → load_byte (padd reg (Z.of_nat n)) m = Some (iv !!! n, m).
Proof.
  intros Hh [Hl _] Hn. apply load_byte_Some. pose proof (reg_slice m iv n 1 Hh ltac:(lia)) as H.
  by rewrite (slice_cons n 0 iv) in H by lia.
Qed.

Lemma reg_valid m iv n k : reg_holds iv m → (n + k <= 16)%nat → mvalid m (padd reg (Z.of_nat n)) k.
Proof. intros Hh Hn. apply (mvalid_sub m reg 16); [by eapply mread_mvalid|done]. Qed.

(** The state after writes to a part of the register and to the output, in either order. *)
Definition written (n k : nat) (iv new : list Z) (out : ptr) (res : list Z) (m m' : mem) : Prop :=
  reg_holds (splice n new iv) m' ∧ mread m' out k = Some res ∧ mframe [(out, k); (reg, 16%nat)] m m'.

Lemma write_both m iv n k new out res : reg_holds iv m → (n + k <= 16)%nat → length new = k → length res = k → mvalid m out k →
  pdisj reg 16 out k →
  (∃ m1 m2, store (padd reg (Z.of_nat n)) new m = Some (tt, m1) ∧ store out res m1 = Some (tt, m2) ∧ written n k iv new out res m m2) ∧
  (∃ m1 m2, store out res m = Some (tt, m1) ∧ store (padd reg (Z.of_nat n)) new m1 = Some (tt, m2) ∧ written n k iv new out res m m2).
Proof.
  intros Hh Hn Ln Lr Hv Hd. pose proof (reg_valid m iv n k Hh Hn) as Hvr. unfold written, reg_holds in *. rewrite <- Ln in Hvr.
  pose proof (pdisj_sub reg 16 out k n k Hd Hn) as Hdn. split.
  - destruct (mvalid_store _ _ _ Hvr) as (m1 & W1 & S1). assert (mvalid m1 out (length res)) as Hv1 by (rewrite Lr; by eapply mvalid_mwrite_iff).
    destruct (mvalid_store _ _ _ Hv1) as (m2 & W2 & S2). exists m1, m2. do 2 (split; [done|]). split; [|split].
    + rewrite (mread_mwrite_disj _ _ _ _ _ _ W2) by (rewrite Lr; by apply pdisj_sym). eapply mread_splice; [done..|lia].
    + rewrite <- Lr. exact (mread_mwrite _ _ _ _ W2).
    + transitivity m1; [apply (mframe_mono _ _ _ _ (mwrite_mframe _ _ _ _ W1))|apply (mframe_mono _ _ _ _ (mwrite_mframe _ _ _ _ W2))].
      * rewrite Ln. eapply (covers_sub _ reg 16); [|done]. right. left.
      * rewrite Lr. eapply covers_take; [left|lia].
  - rewrite <- Lr in Hv. destruct (mvalid_store _ _ _ Hv) as (m1 & W1 & S1).
    assert (mvalid m1 (padd reg (Z.of_nat n)) (length new)) as Hv1 by (by eapply mvalid_mwrite_iff).
    destruct (mvalid_store _ _ _ Hv1) as (m2 & W2 & S2). exists m1, m2. do 2 (split; [done|]). split; [|split].
    + eapply mread_splice; [|done|lia]. rewrite (mread_mwrite_disj _ _ _ _ _ _ W1) by (rewrite Lr; by apply pdisj_sym). done.
    + rewrite (mread_mwrite_disj _ _ _ _ _ _ W2) by (rewrite Ln; done). rewrite <- Lr. exact (mread_mwrite _ _ _ _ W1).
    + transitivity m1; [apply (mframe_mono _ _ _ _ (mwrite_mframe _ _ _ _ W1))|apply (mframe_mono _ _ _ _ (mwrite_mframe _ _ _ _ W2))].
      * rewrite Lr. eapply covers_take; [left|lia].
      * rewrite Ln. eapply (covers_sub _ reg 16); [|done]. right. left.
Qed.

Lemma reg_good_splice iv n new : reg_good iv → is_bytes new → (n + length new <= 16)%nat → reg_good (splice n new iv).
Proof.
  intros [Hl Hb] Hn Hk. split; [by rewrite splice_length by lia|]. unfold splice. apply Forall_app_2; [by apply Forall_take|].
  apply Forall_app_2; [done|by apply Forall_drop].
Qed.

Lemma reg_put_good g n b iv : (∀ x y, is_byte x → is_byte y → is_byte (g x y)) → (n < 16)%nat → reg_good iv → is_byte b →
  is_byte (reg_put g n b iv).1 ∧ reg_good (reg_put g n b iv).2.
Proof.
  intros Hg Hn Hiv Hb. pose proof Hiv as [Hl Hbs]. pose proof (bytes_lookup_total iv n Hbs) as Hx. split; [by apply is_word_lxor|].
  cbn [reg_put snd]. rewrite <- splice_1 by lia. apply reg_good_splice; [done| |cbn [length]; lia]. constructor; [by apply Hg|done].
Qed.

Lemma reg_frame iv rs m m' : reg_holds iv m → mframe rs m m' → Forall (λ r, apart rs r.1 r.2) [(reg, 16%nat)] → reg_holds iv m'.
Proof. intros Hh Hf Ha. apply List.Forall_cons_iff in Ha as [Ha _]. by apply (apart_read m m' rs). Qed.
End register.

(** *** CFB *)

Section cfb.
Context {tgt : Target} (block : ptr → ptr → C unit) (E : list Z → list Z) `{!BlockFun block E} `{!BlockMap E}.
Context (ivec : ptr).

Lemma reg_refresh iv m : reg_good iv → reg_holds ivec iv m →
  ∃ m', block ivec ivec m = Some (tt, m') ∧ reg_holds ivec (E iv) m' ∧ mframe [(ivec, 16%nat)] m m'.
Proof.
  intros [Hl Hb] Hh. destruct (block_run ivec ivec m iv Hh Hb (mread_mvalid _ _ _ _ Hh)) as (m' & R & W).
  exists m'. split; [done|]. unfold reg_holds. rewrite <- (map_length iv) at 1. split; [exact (mread_mwrite _ _ _ _ W)|].
  rewrite <- (map_length iv). exact (mwrite_mframe _ _ _ _ W).
Qed.

Lemma reg_good_map b : reg_good (E b).
Proof. split; [apply map_length|apply map_bytes]. Qed.

Lemma cfb_feedback_byte enc x y : is_byte x → is_byte y → is_byte (cfb_feedback enc x y).
Proof. destruct enc; [by apply is_word_lxor|done]. Qed.

#[export] Instance cfb_mode enc :
  StreamMode [(ivec, 16%nat)] [(ivec, 16%nat)] (reg_holds ivec) reg_good (block ivec ivec) (cfb_put enc ivec) (cfb_word enc ivec)
    E (reg_put (cfb_feedback enc)).
Proof.
  split; [done|..].
  - apply reg_frame.
  - intros iv _. apply reg_good_map.
  - intros n b iv Hn Hg Hb. apply reg_put_good; [apply cfb_feedback_byte|done..].
  - apply reg_refresh.
  - intros n b iv inp out m Hn Hg Hh Hb Hr Hv Hi Ho. apply apart_1 in Ho. cbn [reg_put fst snd]. rewrite <- (splice_1 n) by (destruct Hg; lia).
    destruct (write_both ivec m iv n 1 [cfb_feedback enc (iv !!! n) b] out [Z.lxor (iv !!! n) b]) as [(m1 & m2 & S1 & S2 & W) (m1' & m2' & S1' & S2' & W')]; try done; [lia|].
    destruct enc; [exists m2|exists m2']; (split; [|done]); unfold cfb_put; cbv zeta;
      rewrite (bind_Some _ _ m _ m (reg_byte ivec m iv n Hh Hg Hn)), (bind_Some _ _ m _ m (load_byte_Some _ _ _ Hr)).
    + by rewrite (bind_Some _ _ m _ m1 S1).
    + by rewrite (bind_Some _ _ m _ m1' S1').
  - intros n bs iv inp out m Hn Hg Hh Hb Hr Hv Hi Ho _. apply apart_1 in Ho. pose proof (mread_length _ _ _ _ Hr) as Hl.
    rewrite puts_reg by (destruct Hg; lia). rewrite Hl. cbn [fst snd]. set (xs := take size_bytes (drop n iv)).
    pose proof (reg_slice ivec m iv n size_bytes Hh Hn) as Rx. fold xs in Rx. pose proof (reg_slice_length iv n size_bytes Hg Hn) as Lx. fold xs in Lx.
    pose proof (reg_slice_bytes iv n size_bytes Hg) as Bx. fold xs in Bx.
    assert (length (zip_with (cfb_feedback enc) xs bs) = size_bytes) as Lz by (rewrite length_zip_with; lia).
    destruct (write_both ivec m iv n size_bytes (zip_with (cfb_feedback enc) xs bs) out (xor_list xs bs)) as [(m1 & m2 & S1 & S2 & W) (m1' & m2' & S1' & S2' & W')];
      [done|done|done|by rewrite xor_list_length; lia|done|done|].
    destruct enc; [exists m2|exists m2']; (split; [|done]); unfold cfb_word; cbv zeta.
    + rewrite (bind_Some _ _ m _ m (load_size_bytes _ _ _ Rx)), (bind_Some _ _ m _ m (load_size_bytes _ _ _ Hr)).
      rewrite !store_size_xor by (done || congruence). by rewrite (bind_Some _ _ m _ m1 S1).
    + rewrite (bind_Some _ _ m _ m (load_size_bytes _ _ _ Hr)), (bind_Some _ _ m _ m (load_size_bytes _ _ _ Rx)).
      rewrite store_size_xor, store_size_bytes by (done || congruence). rewrite (bind_Some _ _ m _ m1' S1').
      change (cfb_feedback false) with (λ _ c : Z, c) in S2'. rewrite zip_with_snd in S2' by lia. done.
Qed.
End cfb.

(** *** OFB and CTR *)

Section pad.
Context {tgt : Target} (pad : ptr).

Lemma store_out m out bs : mvalid m out (length bs) →
  ∃ m', store out bs m = Some (tt, m') ∧ mread m' out (length bs) = Some bs ∧ mframe [(out, length bs)] m m'.
Proof.
  intros Hv. destruct (mvalid_store _ _ _ Hv) as (m' & W & S). exists m'. split; [done|].
  split; [exact (mread_mwrite _ _ _ _ W)|exact (mwrite_mframe _ _ _ _ W)].
Qed.

Lemma pad_put_run iv n b inp out m : (n < 16)%nat → reg_good iv → reg_holds pad iv m → mread m inp 1 = Some [b] → mvalid m out 1 →
  ∃ m', pad_put pad n inp out m = Some (tt, m') ∧ mread m' out 1 = Some [Z.lxor (iv !!! n) b] ∧ mframe [(out, 1%nat)] m m'.
Proof.
  intros Hn Hg Hh Hr Hv. destruct (store_out m out [Z.lxor (iv !!! n) b] Hv) as (m' & S & R & F). exists m'. split; [|done].
  unfold pad_put. rewrite (bind_Some _ _ m _ m (load_byte_Some _ _ _ Hr)), (bind_Some _ _ m _ m (reg_byte pad m iv n Hh Hg Hn)).
  by rewrite Z.lxor_comm.
Qed.

Lemma pad_word_run iv n bs inp out m : (n + size_bytes <= 16)%nat → reg_good iv → reg_holds pad iv m → is_bytes bs →
  mread m inp size_bytes = Some bs → mvalid m out size_bytes →
  ∃ m', pad_word pad n inp out m = Some (tt, m') ∧ mread m' out size_bytes = Some (xor_list (take size_bytes (drop n iv)) bs) ∧
    mframe [(out, size_bytes)] m m'.
Proof.
  intros Hn Hg Hh Hb Hr Hv. pose proof (mread_length _ _ _ _ Hr) as Hl. set (xs := take size_bytes (drop n iv)).
  pose proof (reg_slice_length iv n size_bytes Hg Hn) as Lx. fold xs in Lx.
  assert (length (xor_list xs bs) = size_bytes) as Lr by (rewrite xor_list_length; lia). rewrite <- Lr in Hv.
  destruct (store_out m out _ Hv) as (m' & S & R & F). rewrite Lr in *. exists m'. split; [|done]. unfold pad_word.
  rewrite (bind_Some _ _ m _ m (load_size_bytes _ _ _ Hr)), (bind_Some _ _ m _ m (load_size_bytes _ _ _ (reg_slice pad m iv n size_bytes Hh Hn))).
  fold xs. rewrite Z.lxor_comm, store_size_xor by (done || by apply reg_slice_bytes). done.
Qed.
End pad.

(** A register that is xored to the input and changes only with a new block. *)
Lemma pad_mode {tgt : Target} (pad : ptr) (ws : regions) (refresh : C unit) (refresh_s : list Z → list Z) :
  covers [(pad, 16%nat)] ws → (∀ iv, reg_good iv → reg_good (refresh_s iv)) →
  (∀ iv m, reg_good iv → reg_holds pad iv m → ∃ m', refresh m = Some (tt, m') ∧ reg_holds pad (refresh_s iv) m' ∧ mframe ws m m') →
  StreamMode [(pad, 16%nat)] ws (reg_holds pad) reg_good refresh (pad_put pad) (pad_word pad) refresh_s (reg_put (λ x _, x)).
Proof.
  intros Hws Hgood Hrefresh. split; [done|apply reg_frame|done| |done|..].
  - intros n b iv Hn Hg Hb. by apply reg_put_good.
  - intros n b iv inp out m Hn Hg Hh Hb Hr Hv Hi Ho. destruct (pad_put_run pad iv n b inp out m) as (m' & R & O & F); [done..|].
    cbn [reg_put fst snd]. exists m'. split; [done|]. rewrite list_insert_id by (apply list_lookup_lookup_total_lt; destruct Hg; lia). split; [|split].
    + apply (reg_frame pad iv _ m m' Hh F). by apply apart_swap.
    + done.
    + eapply mframe_mono; [exact F|]. eapply covers_take; [left|lia].
  - intros n bs iv inp out m Hn Hg Hh Hb Hr Hv Hi Ho _. pose proof (mread_length _ _ _ _ Hr) as Hl.
    destruct (pad_word_run pad iv n bs inp out m) as (m' & R & O & F); [done..|].
    rewrite puts_reg by (destruct Hg; lia). rewrite Hl. cbn [fst snd]. exists m'. split; [done|].
    assert (splice n (zip_with (λ x _, x) (take size_bytes (drop n iv)) bs) iv = iv) as ->.
    { rewrite zip_with_fst by (rewrite Hl; by apply reg_slice_length). destruct Hg as [Hlen _]. unfold splice.
      rewrite length_take, length_drop. replace (n + min size_bytes (length iv - n))%nat with (n + size_bytes)%nat by lia.
      rewrite <- (drop_drop iv size_bytes n). by rewrite take_drop, take_drop. }
    split; [|split].
    + apply (reg_frame pad iv _ m m' Hh F). by apply apart_swap.
    + done.
    + eapply mframe_mono; [exact F|]. eapply covers_take; [left|lia].
Qed.

Section ofb.
Context {tgt : Target} (block : ptr → ptr → C unit) (E : list Z → list Z) `{!BlockFun block E} `{!BlockMap E}.
Context (ivec : ptr).

#[export] Instance ofb_mode :
  StreamMode [(ivec, 16%nat)] [(ivec, 16%nat)] (reg_holds ivec) reg_good (block ivec ivec) (pad_put ivec) (pad_word ivec) E (reg_put (λ x _, x)).
Proof. apply pad_mode; [done|intros iv _; by apply reg_good_map|by apply reg_refresh]. Qed.
End ofb.

(** A block xored to another: no new blocks. *)
#[export] Instance xor_mode {tgt : Target} (pad : ptr) :
  StreamMode [(pad, 16%nat)] [] (reg_holds pad) reg_good (mret tt) (pad_put pad) (pad_word pad) id (reg_put (λ x _, x)).
Proof. apply pad_mode; [apply covers_nil|done|]. intros iv m _ Hh. by exists m. Qed.

(** *** The counter *)

(** Counting up the last byte. *)
Lemma num_bytes_step l c : is_bytes l → is_byte c →
  num_bytes (S (length l)) (be_num (l ++ [c]) + 1) =
  (if decide (wrap 8 (c + 1) = 0) then num_bytes (length l) (be_num l + 1) else l) ++ [wrap 8 (c + 1)].
Proof.
  intros Hl Hc. unfold is_word in Hc. change (2 ^ 8) with 256 in Hc. cbn [num_bytes]. rewrite be_num_app. unfold wrap. change (2 ^ 8) with 256.
  replace (256 * be_num l + c + 1) with (c + 1 + be_num l * 256) by lia. rewrite Z.div_add, Z.mod_add by lia. f_equal.
  destruct (decide (c = 255)) as [->|].
  - rewrite decide_True by done. f_equal. change ((255 + 1) / 256) with 1. lia.
  - rewrite Z.mod_small, Z.div_small by lia. rewrite decide_False by lia. by apply num_bytes_be_num.
Qed.

Lemma ctr_inc_ok counter n : ∀ bs m, is_bytes bs → mread m counter n = Some bs →
  ∃ m', ctr_inc counter n m = Some (tt, m') ∧ mread m' counter n = Some (num_bytes n (be_num bs + 1)) ∧ mframe [(counter, n)] m m'.
Proof.
  induction n as [|n IH]; intros bs m Hb Hr.
  - apply mread_length in Hr as Hl. exists m. split; [done|]. split; [|reflexivity]. apply nil_length_inv in Hl as ->. done.
  - rewrite <- Nat.add_1_r in Hr. apply mread_split in Hr as (l & [|c [|]] & -> & Hl & R1 & R2); [by apply mread_length in R2| |by apply mread_length in R2].
    apply List.Forall_app in Hb as [Bl Bc]. apply List.Forall_cons_iff in Bc as [Bc _]. subst n. rewrite num_bytes_step by done.
    cbn [ctr_inc]. rewrite (bind_Some _ _ m _ m (load_byte_Some _ _ _ R2)). cbv zeta. set (c' := wrap 8 (c + 1)).
    destruct (mvalid_store m (padd counter (Z.of_nat (length l))) [c']) as (m1 & W & S1); [by eapply mread_mvalid|].
    rewrite (bind_Some _ _ m _ m1 S1). pose proof (mread_mwrite _ _ _ _ W) as R3. pose proof (mwrite_mframe _ _ _ _ W) as F1.
    assert (mread m1 counter (length l) = Some l) as R4.
    { apply (apart_read m m1 _ _ _ _ F1); [|done]. apply apart_1, pdisj_sym, pdisj_next. lia. }
    assert (mframe [(counter, S (length l))] m m1) as F2.
    { eapply mframe_mono; [exact F1|]. eapply (covers_sub _ counter (S (length l)) (length l) 1); [left|lia]. }
    case_decide as Hc.
    + destruct (IH l m1 Bl R4) as (m' & E & R & F). exists m'. split; [done|]. split.
      * rewrite <- Nat.add_1_r. apply mread_join; [done|]. apply (apart_read m1 m' _ _ _ _ F); [|done]. apply apart_1, pdisj_next. lia.
      * transitivity m1; [done|]. eapply mframe_mono; [exact F|]. eapply covers_take; [left|lia].
    + exists m1. split; [done|]. split; [|done]. rewrite <- Nat.add_1_r. by apply mread_join.
Qed.

Section ctr.
Context {tgt : Target} (block : ptr → ptr → C unit) (E : list Z → list Z) `{!BlockFun block E} `{!BlockMap E}.
Context (ivec ecount : ptr) (Hap : pdisj ivec 16 ecount 16).

Definition ctr_holds (s : list Z * list Z) (m : mem) : Prop := reg_holds ivec s.1 m ∧ reg_holds ecount s.2 m.
Definition ctr_good (s : list Z * list Z) : Prop := reg_good s.1 ∧ reg_good s.2.

Lemma ctr_next_good iv : reg_good (ctr_next iv).
Proof. split; [apply num_bytes_length|apply num_bytes_is_bytes]. Qed.

Lemma ctr_frame s rs m m' : ctr_holds s m → mframe rs m m' → Forall (λ r, apart rs r.1 r.2) [(ivec, 16%nat); (ecount, 16%nat)] → ctr_holds s m'.
Proof.
  intros [H1 H2] Hf Ha. apply List.Forall_cons_iff in Ha as [A1 A2]. apply List.Forall_cons_iff in A2 as [A2 _].
  split; by apply (apart_read m m' rs).
Qed.

Lemma ctr_refresh_ok s m : ctr_good s → ctr_holds s m →
  ∃ m', (block ivec ecount;; ctr128_inc ivec) m = Some (tt, m') ∧ ctr_holds (ctr_refresh E s) m' ∧ mframe [(ivec, 16%nat); (ecount, 16%nat)] m m'.
Proof.
  intros [[Hl Hb] _] [H1 H2]. destruct (block_run ivec ecount m s.1 H1 Hb (mread_mvalid _ _ _ _ H2)) as (m1 & R1 & W).
  pose proof (mwrite_mframe _ _ _ _ W) as F1. pose proof (mread_mwrite _ _ _ _ W) as R2. rewrite map_length in F1, R2.
  assert (mread m1 ivec 16 = Some s.1) as R3 by (apply (apart_read m m1 _ _ _ _ F1); [by apply apart_1, pdisj_sym|done]).
  destruct (ctr_inc_ok ivec 16 s.1 m1 Hb R3) as (m2 & R4 & R5 & F2). exists m2. rewrite (bind_Some _ _ m tt m1 R1). split; [done|]. split.
  - split; [done|]. apply (apart_read m1 m2 _ _ _ _ F2); [by apply apart_1|done].
  - transitivity m1; [eapply mframe_mono; [exact F1|]; eapply covers_take; [right; left|lia]|eapply mframe_mono; [exact F2|]; eapply covers_take; [left|lia]].
Qed.

#[export] Instance ctr_mode :
  StreamMode [(ivec, 16%nat); (ecount, 16%nat)] [(ivec, 16%nat); (ecount, 16%nat)] ctr_holds ctr_good (block ivec ecount;; ctr128_inc ivec) (pad_put ecount) (pad_word ecount)
    (ctr_refresh E) ctr_put.
Proof.
  split; [done|..].
  - apply ctr_frame.
  - intros s _. split; [apply ctr_next_good|by apply reg_good_map].
  - intros n b s Hn Hg Hb. split; [|done]. apply is_word_lxor; [done| |done]. apply bytes_lookup_total, Hg.
  - apply ctr_refresh_ok.
  - intros n b s inp out m Hn Hg Hh Hb Hr Hv Hi Ho. destruct (pad_put_run ecount s.2 n b inp out m) as (m' & R & O & F); [apply Hg || apply Hh || done..|].
    exists m'. split; [done|]. split; [|split].
    + apply (ctr_frame s _ m m' Hh F). by apply apart_swap.
    + done.
    + eapply mframe_mono; [exact F|]. eapply covers_take; [left|lia].
  - intros n bs s inp out m Hn Hg Hh Hb Hr Hv Hi Ho _. pose proof (mread_length _ _ _ _ Hr) as Hl.
    destruct (pad_word_run ecount s.2 n bs inp out m) as (m' & R & O & F); [apply Hg || apply Hh || done..|].
    rewrite puts_ctr by (destruct Hg as [_ [Hlen _]]; lia). rewrite Hl. cbn [fst snd]. exists m'. split; [done|]. split; [|split].
    + apply (ctr_frame s _ m m' Hh F). by apply apart_swap.
    + done.
    + eapply mframe_mono; [exact F|]. eapply covers_take; [left|lia].
Qed.
End ctr.

(** ** The functions, called twice *)

Section functions.
Context {tgt : Target} (block : ptr → ptr → C unit) (E : list Z → list Z) `{!BlockFun block E} `{!BlockMap E}.

Lemma regs_1 (p : ptr) (x : list Z) (P : ptr * list Z → Prop) : Forall P [(p, x)] ↔ P (p, x).
Proof. apply Forall_singleton. Qed.

Lemma cfb128_encrypt_ok al1 al2 enc inp out ivec num n iv a b m : call_pre [(ivec, iv)] num inp out n (a ++ b) m →
  ∃ m1 m2, CRYPTO_cfb128_encrypt block al1 inp out (length a) ivec num enc m = Some (tt, m1) ∧
    CRYPTO_cfb128_encrypt block al2 (padd inp (Z.of_nat (length a))) (padd out (Z.of_nat (length a))) (length b) ivec num enc m1 = Some (tt, m2) ∧
    let '(cs, n', iv') := cfb_stream E enc n iv (a ++ b) in call_post [(ivec, iv')] num out n' cs m m2.
Proof.
  apply (crypt_calls_ok (λ iv, [(ivec, iv)]) [(ivec, 16%nat)] [(ivec, 16%nat)] (holds := reg_holds ivec) (good := reg_good)); cbn beta;
    [done|intros iv0; by rewrite (regs_1 ivec iv0)|intros iv0 m0; by rewrite (regs_1 ivec iv0)].
Qed.

Lemma ofb128_encrypt_ok al1 al2 inp out ivec num n iv a b m : call_pre [(ivec, iv)] num inp out n (a ++ b) m →
  ∃ m1 m2, CRYPTO_ofb128_encrypt block al1 inp out (length a) ivec num m = Some (tt, m1) ∧
    CRYPTO_ofb128_encrypt block al2 (padd inp (Z.of_nat (length a))) (padd out (Z.of_nat (length a))) (length b) ivec num m1 = Some (tt, m2) ∧
    let '(cs, n', iv') := ofb_stream E n iv (a ++ b) in call_post [(ivec, iv')] num out n' cs m m2.
Proof.
  apply (crypt_calls_ok (λ iv, [(ivec, iv)]) [(ivec, 16%nat)] [(ivec, 16%nat)] (holds := reg_holds ivec) (good := reg_good)); cbn beta;
    [done|intros iv0; by rewrite (regs_1 ivec iv0)|intros iv0 m0; by rewrite (regs_1 ivec iv0)].
Qed.

Lemma ofb128_encrypt_once al inp out ivec num n iv bs m : call_pre [(ivec, iv)] num inp out n bs m →
  ∃ m', CRYPTO_ofb128_encrypt block al inp out (length bs) ivec num m = Some (tt, m') ∧
    let '(cs, n', iv') := ofb_stream E n iv bs in call_post [(ivec, iv')] num out n' cs m m'.
Proof.
  apply (crypt_call_ok (λ iv, [(ivec, iv)]) [(ivec, 16%nat)] [(ivec, 16%nat)] (holds := reg_holds ivec) (good := reg_good)); cbn beta;
    [done|intros iv0; by rewrite (regs_1 ivec iv0)|intros iv0 m0; by rewrite (regs_1 ivec iv0)].
Qed.

Lemma ctr128_encrypt_ok al1 al2 inp out ivec ecount num n iv ec a b m : call_pre [(ivec, iv); (ecount, ec)] num inp out n (a ++ b) m →
  ∃ m1 m2, CRYPTO_ctr128_encrypt block al1 inp out (length a) ivec ecount num m = Some (tt, m1) ∧
    CRYPTO_ctr128_encrypt block al2 (padd inp (Z.of_nat (length a))) (padd out (Z.of_nat (length a))) (length b) ivec ecount num m1 = Some (tt, m2) ∧
    let '(cs, n', (iv', ec')) := ctr_stream E n (iv, ec) (a ++ b) in call_post [(ivec, iv'); (ecount, ec')] num out n' cs m m2.
Proof.
  intros Hpre. assert (pdisj ivec 16 ecount 16) as Hap.
  { destruct Hpre as [_ _ _ _ _ _ _ _ Hp]. cbn in Hp. destruct Hp as (_ & _ & H & _). by apply List.Forall_cons_iff in H as [H _]. }
  pose proof (ctr_mode block E ivec ecount Hap) as Hmode.
  destruct (crypt_calls_ok (λ s, [(ivec, s.1); (ecount, s.2)]) [(ivec, 16%nat); (ecount, 16%nat)] [(ivec, 16%nat); (ecount, 16%nat)]
    (holds := ctr_holds ivec ecount) (good := ctr_good)) with (aligned1 := al1) (aligned2 := al2) (num := num) (inp := inp) (out := out)
    (n := n) (s := (iv, ec)) (a := a) (b := b) (m := m) as (m1 & m2 & R1 & R2 & Hpost).
  - done.
  - intros s. rewrite List.Forall_cons_iff, regs_1. done.
  - intros s m0. rewrite List.Forall_cons_iff, regs_1. done.
  - done.
  - exists m1, m2. do 2 (split; [done|]). unfold ctr_stream. by destruct (byte_stream _ _ n (iv, ec) (a ++ b)) as [[cs n'] [iv' ec']].
Qed.
End functions.

(** ** The modes of the standard *)

Section standard.
Context (E : list Z → list Z) `{!BlockMap E}.

Lemma cfb_stream_length enc n iv bs : length (cfb_stream E enc n iv bs).1.1 = length bs.
Proof. apply stream_length. Qed.
Lemma ofb_stream_length n iv bs : length (ofb_stream E n iv bs).1.1 = length bs.
Proof. apply stream_length. Qed.
Lemma ctr_stream_length n s bs : length (ctr_stream E n s bs).1.1 = length bs.
Proof. apply stream_length. Qed.
Lemma ctr_stream_used n s bs : (n < 16)%nat → (ctr_stream E n s bs).1.2 = ((n + length bs) mod 16)%nat.
Proof. apply stream_used. Qed.

(** Decrypting in CFB needs the same block function, and undoes encrypting. *)
Lemma cfb_stream_roundtrip bs : ∀ n iv, length iv = 16%nat → (n < 16)%nat →
  let '(cs, n', iv') := cfb_stream E true n iv bs in cfb_stream E false n iv cs = (bs, n', iv').
Proof.
  induction bs as [|b bs IH]; intros n iv Hl Hn; [done|]. unfold cfb_stream in *. cbn [byte_stream].
  set (iv0 := if decide (n = 0%nat) then E iv else iv). unfold reg_put at 1. set (c := Z.lxor (iv0 !!! n) b).
  specialize (IH ((n + 1) mod 16)%nat (<[n := c]> iv0)).
  assert (length (<[n := c]> iv0) = 16%nat) as Hl'.
  { rewrite length_insert. unfold iv0. case_decide; [apply map_length|done]. }
  specialize (IH Hl' ltac:(apply Nat.mod_upper_bound; lia)). cbn [cfb_feedback] in *. fold c.
  destruct (byte_stream E (reg_put Z.lxor) ((n + 1) mod 16) (<[n := c]> iv0) bs) as [[cs n'] iv']. cbn [byte_stream].
  unfold reg_put at 1. fold iv0. cbn [cfb_feedback] in IH |- *. rewrite IH. do 3 f_equal. unfold c.
  by rewrite <- Z.lxor_assoc, Z.lxor_nilpotent, Z.lxor_0_l.
Qed.

(** A mode that xors its input with a pad that does not depend on it undoes itself. *)
Lemma pad_stream_roundtrip {S : Type} (refresh : S → S) (put : nat → Z → S → Z * S) (pad : nat → S → Z) (step : nat → S → S) bs : ∀ n s,
  (∀ n b s, put n b s = (Z.lxor (pad n s) b, step n s)) →
  let '(cs, n', s') := byte_stream refresh put n s bs in byte_stream refresh put n s cs = (bs, n', s').
Proof.
  intros n s Hput. revert n s. induction bs as [|b bs IH]; intros n s; [done|]. cbn [byte_stream]. set (s0 := if decide (n = 0%nat) then _ else _).
  rewrite Hput. specialize (IH ((n + 1) mod 16)%nat (step n s0)). destruct (byte_stream _ _ _ (step n s0) bs) as [[cs n'] s']. cbn [byte_stream].
  fold s0. rewrite Hput, IH. do 3 f_equal. by rewrite <- Z.lxor_assoc, Z.lxor_nilpotent, Z.lxor_0_l.
Qed.

Lemma ofb_stream_roundtrip n iv bs : let '(cs, n', iv') := ofb_stream E n iv bs in ofb_stream E n iv cs = (bs, n', iv').
Proof. by apply (pad_stream_roundtrip _ _ (λ n iv, iv !!! n) (λ n iv, <[n := iv !!! n]> iv)). Qed.

Lemma ctr_stream_roundtrip n s bs : let '(cs, n', s') := ctr_stream E n s bs in ctr_stream E n s cs = (bs, n', s').
Proof. by apply (pad_stream_roundtrip _ _ (λ n s, s.2 !!! n) (λ n s, s)). Qed.

(** The key stream of CTR: the images of [v], [v + 1], ... on 16 bytes, that is modulo [2^128]. *)
Fixpoint ctr_keystream (k : nat) (v : Z) : list Z :=
  match k with O => [] | S k => E (num_bytes 16 v) ++ ctr_keystream k (v + 1) end.

Lemma ctr_keystream_mod k : ∀ v v', v mod 2 ^ 128 = v' mod 2 ^ 128 → ctr_keystream k v = ctr_keystream k v'.
Proof.
  induction k as [|k IH]; intros v v' Hv; [done|]. cbn [ctr_keystream]. f_equal.
  - rewrite <- (num_bytes_mod 16 v), <- (num_bytes_mod 16 v'). change (256 ^ Z.of_nat 16) with (2 ^ 128). by rewrite Hv.
  - apply IH. by rewrite <- (Zplus_mod_idemp_l v), <- (Zplus_mod_idemp_l v'), Hv.
Qed.

Lemma ctr_keystream_length k : ∀ v, length (ctr_keystream k v) = (16 * k)%nat.
Proof. induction k as [|k IH]; intros v; [done|]. cbn [ctr_keystream]. rewrite length_app, map_length, IH. lia. Qed.

(** What is left of the encrypted counter. *)
Definition pad_left (n : nat) (ec : list Z) : list Z := if decide (n = 0%nat) then [] else drop n ec.

Lemma be_num_num_bytes_16 v : be_num (num_bytes 16 v) = v mod 2 ^ 128.
Proof.
  rewrite <- num_bytes_mod. change (256 ^ Z.of_nat 16) with (2 ^ 128). apply be_num_bytes. change (256 ^ Z.of_nat 16) with (2 ^ 128).
  by apply Z.mod_pos_bound.
Qed.

Lemma num_bytes_reg iv : reg_good iv → num_bytes 16 (be_num iv) = iv.
Proof. intros [<- Hb]. by apply num_bytes_be_num. Qed.

Lemma pad_step n ec (X : list Z) : (n < 16)%nat → length ec = 16%nat → drop n ec ++ X = ec !!! n :: pad_left ((n + 1) mod 16) ec ++ X.
Proof.
  intros Hn Hl. pose proof (slice_cons n (length ec) ec ltac:(lia)) as H. rewrite !take_ge in H by (rewrite length_drop; lia). rewrite H.
  cbn [app]. do 2 f_equal. unfold pad_left. destruct (decide (n = 15%nat)) as [->|].
  - rewrite decide_True by done. apply nil_length_inv. rewrite length_drop. lia.
  - rewrite Nat.mod_small by lia. by rewrite decide_False by lia.
Qed.

(** Every byte is xored to the next byte of the key stream, however the calls are cut. *)
Lemma ctr_stream_keystream bs : ∀ k n s, ctr_good s → (n < 16)%nat → (length bs <= length (pad_left n s.2) + 16 * k)%nat →
  (ctr_stream E n s bs).1.1 = xor_list (pad_left n s.2 ++ ctr_keystream k (be_num s.1)) bs.
Proof.
  induction bs as [|b bs IH]; intros k n s Hs Hn Hk; [by unfold xor_list; rewrite zip_with_nil_r|].
  assert (∀ k s, ctr_good s → (length (b :: bs) <= length (drop n s.2) + 16 * k)%nat →
    Z.lxor (s.2 !!! n) b :: (ctr_stream E ((n + 1) mod 16) s bs).1.1 = xor_list (drop n s.2 ++ ctr_keystream k (be_num s.1)) (b :: bs)) as Hstep.
  { intros k1 s1 Hs1 Hk1. pose proof Hs1 as [_ [Hl _]]. pose proof (pad_step n s1.2 [] Hn Hl) as Hd. rewrite !app_nil_r in Hd.
    rewrite pad_step by done. unfold xor_list. cbn [zip_with]. f_equal. apply IH; [done|apply Nat.mod_upper_bound; lia|].
    rewrite Hd in Hk1. cbn [length] in Hk1. lia. }
  unfold ctr_stream in *. cbn [byte_stream]. unfold ctr_put at 1. unfold pad_left in *. case_decide as H0.
  - subst n. cbn [app length] in *. destruct k as [|k]; [cbn in Hk; lia|]. destruct Hs as [[Hl Hb] _].
    specialize (Hstep k (ctr_refresh E s)). cbn [ctr_refresh fst snd] in Hstep.
    rewrite drop_0 in Hstep. cbn [ctr_keystream]. rewrite num_bytes_reg by done.
    rewrite (ctr_keystream_mod k (be_num s.1 + 1) (be_num (ctr_next s.1))).
    2:{ unfold ctr_next. by rewrite be_num_num_bytes_16, Z.mod_mod. }
    rewrite <- Hstep; [|by split; [apply ctr_next_good|apply reg_good_map]|rewrite map_length; cbn [length]; lia].
    cbn [ctr_refresh snd]. by destruct (byte_stream _ _ _ (ctr_refresh E s) bs) as [[? ?] ?].
  - specialize (Hstep k s Hs Hk). rewrite <- Hstep. by destruct (byte_stream _ _ _ s bs) as [[? ?] ?].
Qed.

(** The counter afterwards: one more for each block begun. *)
Lemma ctr_stream_counter bs : ∀ n s, ctr_good s → (n < 16)%nat →
  (ctr_stream E n s bs).2.1 = num_bytes 16 (be_num s.1 + (Z.of_nat (n + length bs) + 15) / 16 - (Z.of_nat n + 15) / 16).
Proof.
  induction bs as [|b bs IH]; intros n s Hs Hn.
  - cbn [ctr_stream byte_stream snd length]. rewrite Nat.add_0_r, Z.add_simpl_r. symmetry. apply num_bytes_reg, Hs.
  - unfold ctr_stream in *. cbn [byte_stream]. unfold ctr_put at 1. set (s0 := if decide (n = 0%nat) then ctr_refresh E s else s).
    assert (ctr_good s0) as Hs0 by (unfold s0; case_decide; [split; [apply ctr_next_good|by apply reg_good_map]|done]).
    specialize (IH ((n + 1) mod 16)%nat s0 Hs0 ltac:(apply Nat.mod_upper_bound; lia)).
    destruct (byte_stream _ _ _ s0 bs) as [[cs n'] s']. cbn [snd] in *. rewrite IH. clear IH.
    rewrite <- (num_bytes_mod 16 (_ - _)). rewrite <- (num_bytes_mod 16 (be_num s.1 + _ - _)). f_equal.
    change (256 ^ Z.of_nat 16) with (2 ^ 128).
    assert (be_num s0.1 mod 2 ^ 128 = (be_num s.1 + (if decide (n = 0%nat) then 1 else 0)) mod 2 ^ 128) as Hc.
    { unfold s0. case_decide; [|by rewrite Z.add_0_r]. cbn [ctr_refresh fst]. unfold ctr_next. by rewrite be_num_num_bytes_16, Z.mod_mod. }
    rewrite <- !Z.add_sub_assoc, <- Zplus_mod_idemp_l, Hc, Zplus_mod_idemp_l. f_equal. rewrite <- Z.add_assoc. f_equal.
    cbn [length]. destruct (decide (n = 15%nat)) as [->|].
    + rewrite decide_False by done. change ((15 + 1) mod 16)%nat with 0%nat. Z.to_euclidean_division_equations. lia.
    + rewrite Nat.mod_small by lia. case_decide; Z.to_euclidean_division_equations; lia.
Qed.

Lemma xor_list_take ys : ∀ xs, xor_list (take (length ys) xs) ys = xor_list xs ys.
Proof.
  unfold xor_list. induction ys as [|y ys IH]; intros [|x xs]; [done..|]. cbn. by rewrite IH.
Qed.

(** From the start of a block, block after block. *)
Lemma reg_stream_blocks g next k : (∀ x b, length x = 16%nat → length b = 16%nat → zip_with g x b = next x b) →
  ∀ bs iv, (length bs <= k)%nat → (byte_stream E (reg_put g) 0 iv bs).1.1 = feedback_blocks E next iv (chunks 16 bs).
Proof.
  intros Hg. induction k as [|k IH]; intros bs iv Hk; [by destruct bs; cbn [length] in Hk; [|lia]|]. destruct (decide (bs = [])) as [->|Hne]; [done|].
  assert (length (E iv) = 16%nat) as LE by apply map_length. rewrite chunks_unfold by (done || lia). cbn [feedback_blocks]. cbv zeta.
  rewrite <- (take_drop 16 bs) at 1. rewrite stream_app. assert (length (take 16 bs) <= 16)%nat as Hl by (rewrite length_take; lia).
  rewrite stream_block by (done || by destruct bs). rewrite puts_reg by (rewrite LE; lia). rewrite drop_0, xor_list_take.
  destruct (decide (length bs <= 16)%nat) as [Hs|Hs].
  - rewrite (drop_ge bs 16) by done. cbn [byte_stream fst app]. rewrite chunks_nil. cbn [feedback_blocks]. by rewrite !app_nil_r.
  - assert (length (take 16 bs) = 16%nat) as H16 by (rewrite length_take; lia). rewrite H16. change (16 mod 16)%nat with 0%nat.
    rewrite (take_ge (E iv)) by (by rewrite LE). rewrite Hg by done.
    assert (splice 0 (next (E iv) (take 16 bs)) (E iv) = next (E iv) (take 16 bs)) as ->.
    { rewrite <- Hg by done. unfold splice. cbn [take app]. rewrite (drop_ge (E iv)), app_nil_r; [done|]. rewrite length_zip_with. lia. }
    specialize (IH (drop 16 bs) (next (E iv) (take 16 bs)) ltac:(rewrite length_drop; lia)).
    destruct (byte_stream E _ 0 _ (drop 16 bs)) as [[r n'] s']. cbn [fst] in *. by rewrite IH.
Qed.

Lemma cfb_stream_blocks enc bs iv : (cfb_stream E enc 0 iv bs).1.1 = cfb_blocks E enc iv (chunks 16 bs).
Proof. apply (reg_stream_blocks _ _ (length bs)); [|lia]. intros x b Hx Hb. destruct enc; [done|]. apply zip_with_snd. lia. Qed.

Lemma ofb_stream_blocks bs iv : (ofb_stream E 0 iv bs).1.1 = ofb_blocks E iv (chunks 16 bs).
Proof. apply (reg_stream_blocks _ _ (length bs)); [|lia]. intros x b Hx Hb. apply zip_with_fst. lia. Qed.
End standard.
