(* ===== verification/CfbR.v ===== *)
(** * CfbR: CFB with segments of bits, the second half of [cfb128.c]

    [cfbr_encrypt_block] encrypts one segment of 1 to 128 bits; [CRYPTO_cfb128_1_encrypt] and
    [CRYPTO_cfb128_8_encrypt] call it for every bit and for every byte. Here the register is
    a number of 128 bits, shifted left by one segment at a time. *)

From S2P Require Import Prelude Mem Own Target ModeSpec Stream Modes.

Section code.
Context (block : ptr → ptr → C unit).

(** [out[n] = (ovec[16+n] = in[n] ^ ivec[n]);], or [out[n] = (ovec[16+n] = in[n]) ^ ivec[n];]. *)
Fixpoint cfbr_put (enc : bool) (k : nat) (inp out ivec ovec : ptr) : C unit :=
  match k with
  | O => mret tt
  | S k =>
      c ← load_byte inp; x ← load_byte ivec;
      (if enc then store ovec [Z.lxor c x] else store ovec [c]);; store out [Z.lxor c x];;
      cfbr_put enc k (padd inp 1) (padd out 1) (padd ivec 1) (padd ovec 1)
  end.

(** [ivec[n] = ovec[n+num]<<rem | ovec[n+num+1]>>(8-rem);], with [ovec] starting at [num]. *)
Fixpoint cfbr_shift (rem : Z) (k : nat) (ivec ovec : ptr) : C unit :=
  match k with
  | O => mret tt
  | S k =>
      x ← load_byte ovec; y ← load_byte (padd ovec 1);
      store ivec [wrap 8 (Z.lor (Z.shiftl x rem) (Z.shiftr y (8 - rem)))];;
      cfbr_shift rem k (padd ivec 1) (padd ovec 1)
  end.

Definition cfbr_encrypt_block (inp out : ptr) (nbits : Z) (ivec : ptr) (enc : bool) : C unit :=
  if decide (nbits <= 0 ∨ 128 < nbits) then mret tt else
  local 33 (λ ovec,
    memcpy ovec ivec 16;;
    block ivec ivec;;
    cfbr_put enc (Z.to_nat ((nbits + 7) / 8)) inp out ivec (padd ovec 16);;
    if decide (nbits mod 8 = 0) then memcpy ivec (padd ovec (nbits / 8)) 16
    else cfbr_shift (nbits mod 8) 16 ivec (padd ovec (nbits / 8))).

(** One bit: [c] holds it in its first place, and so does [d] its image. *)
Definition cfb1_bit (c d : ptr) (inp out : ptr) (n : nat) (ivec : ptr) (enc : bool) : C unit :=
  let i := Z.of_nat (n / 8) in let j := Z.of_nat (n mod 8) in
  x ← load_byte (padd inp i);
  store c [if decide (Z.land x (Z.shiftl 1 (7 - j)) = 0) then 0 else 128];;
  cfbr_encrypt_block c d 1 ivec enc;;
  o ← load_byte (padd out i); y ← load_byte d;
  store (padd out i) [wrap 8 (Z.lor (Z.land o (Z.lnot (Z.shiftl 1 (7 - j)))) (Z.shiftr (Z.land y 128) j))].

Fixpoint cfb1_loop (c d : ptr) (k n : nat) (inp out ivec : ptr) (enc : bool) : C unit :=
  match k with O => mret tt | S k => cfb1_bit c d inp out n ivec enc;; cfb1_loop c d k (n + 1) inp out ivec enc end.

Definition CRYPTO_cfb128_1_encrypt (inp out : ptr) (bits : nat) (ivec : ptr) (enc : bool) : C unit :=
  local 1 (λ c, local 1 (λ d, cfb1_loop c d bits 0 inp out ivec enc)).

Fixpoint CRYPTO_cfb128_8_encrypt (inp out : ptr) (length : nat) (ivec : ptr) (enc : bool) : C unit :=
  match length with
  | O => mret tt
  | S length => cfbr_encrypt_block inp out 8 ivec enc;; CRYPTO_cfb128_8_encrypt (padd inp 1) (padd out 1) length ivec enc
  end.
End code.

(** ** CFB with segments of [s] bits, on numbers *)

Section spec.
Context (E : list Z → list Z).

(** The first [s] bits of the image of the register. *)
Definition seg_key (s v : Z) : Z := be_num (E (num_bytes 16 v)) / 2 ^ (128 - s).

Fixpoint cfb_segments (s : Z) (enc : bool) (v : Z) (ps : list Z) : list Z * Z :=
  match ps with
  | [] => ([], v)
  | p :: ps =>
      let c := Z.lxor p (seg_key s v) in
      let '(cs, v') := cfb_segments s enc ((2 ^ s * v + (if enc then c else p)) mod 2 ^ 128) ps in (c :: cs, v')
  end.

Lemma cfb_segments_length s enc ps : ∀ v, length (cfb_segments s enc v ps).1 = length ps.
Proof.
  induction ps as [|p ps IH]; intros v; [done|]. cbn [cfb_segments]. specialize (IH ((2 ^ s * v + (if enc then Z.lxor p (seg_key s v) else p)) mod 2 ^ 128)).
  destruct (cfb_segments _ _ _ ps) as [cs v']. cbn in *. by f_equal.
Qed.

(** Decrypting goes through the same registers. *)
Lemma cfb_segments_roundtrip s ps : ∀ v, let '(cs, v') := cfb_segments s true v ps in cfb_segments s false v cs = (ps, v').
Proof.
  induction ps as [|p ps IH]; intros v; [done|]. cbn [cfb_segments]. specialize (IH ((2 ^ s * v + Z.lxor p (seg_key s v)) mod 2 ^ 128)).
  destruct (cfb_segments _ _ _ ps) as [cs v']. cbn [cfb_segments]. rewrite IH. by rewrite Z.lxor_assoc, Z.lxor_nilpotent, Z.lxor_0_r.
Qed.
End spec.

(** ** Numbers and bytes *)

(** The bytes of a list shifted left by [rem] bits. *)
Fixpoint shl_bytes (rem : Z) (l : list Z) : list Z :=
  match l with
  | [] => []
  | x :: l =>
      match l with [] => [] | y :: _ => wrap 8 (Z.lor (Z.shiftl x rem) (Z.shiftr y (8 - rem))) :: shl_bytes rem l end
  end.

Lemma shl_bytes_snoc rem l x y : shl_bytes rem (l ++ [x; y]) = shl_bytes rem (l ++ [x]) ++ [wrap 8 (Z.lor (Z.shiftl x rem) (Z.shiftr y (8 - rem)))].
Proof. induction l as [|a [|b l] IH]; [done|done|]. cbn [app shl_bytes] in *. by rewrite IH. Qed.

Lemma lor_shiftl x y k : 0 <= k → 0 <= y < 2 ^ k → Z.lor (Z.shiftl x k) y = x * 2 ^ k + y.
Proof.
  intros Hk Hy. rewrite <- Z.shiftl_mul_pow2 by done. pose proof (Z.add_lor_land (Z.shiftl x k) y) as H. enough (Z.land (Z.shiftl x k) y = 0) by lia.
  apply Z.bits_inj'. intros i Hi. rewrite Z.land_spec, Z.bits_0. destruct (decide (i < k)); [by rewrite Z.shiftl_spec_low|].
  rewrite (Z.testbit_eqb y), Z.div_small by (done || (split; [lia|]; eapply Z.lt_le_trans; [apply Hy|]; apply Z.pow_le_mono_r; lia)). apply andb_false_r.
Qed.

Lemma shl_byte rem b x y : 0 < rem < 8 → is_byte x → is_byte y →
  wrap 8 (Z.lor (Z.shiftl x rem) (Z.shiftr y (8 - rem))) = (256 * (256 * b + x) + y) / 2 ^ (8 - rem) mod 256.
Proof.
  intros Hr Hx Hy. unfold is_word in Hx, Hy. change (2 ^ 8) with 256 in *. unfold wrap. change (2 ^ 8) with 256.
  assert (0 < 2 ^ (8 - rem)) by (apply Z.pow_pos_nonneg; lia). assert (0 < 2 ^ rem) by (apply Z.pow_pos_nonneg; lia).
  assert (256 = 2 ^ rem * 2 ^ (8 - rem)) as E by (change 256 with (2 ^ 8); rewrite <- Z.pow_add_r by lia; f_equal; lia).
  set (K := 256 * b + x). rewrite E at 2. replace (2 ^ rem * 2 ^ (8 - rem) * K + y) with (y + 2 ^ rem * K * 2 ^ (8 - rem)) by lia. unfold K.
  assert (0 <= y / 2 ^ (8 - rem) < 2 ^ rem) by (split; [by apply Z.div_pos; lia|apply Z.div_lt_upper_bound; lia]).
  rewrite Z.div_add by lia. rewrite Z.shiftr_div_pow2, lor_shiftl by lia.
  replace (y / 2 ^ (8 - rem) + 2 ^ rem * (256 * b + x)) with (x * 2 ^ rem + y / 2 ^ (8 - rem) + 2 ^ rem * b * 256) by lia. by rewrite Z.mod_add.
Qed.

(** Shifting the bytes shifts the number. *)
Lemma shl_bytes_num rem l : 0 < rem < 8 → is_bytes l → (0 < length l)%nat → shl_bytes rem l = num_bytes (length l - 1) (be_num l / 2 ^ (8 - rem)).
Proof.
  intros Hr. induction l as [|y l IH] using rev_ind; intros Hb Hl; [done|]. apply List.Forall_app in Hb as [Hb Hy]. apply List.Forall_cons_iff in Hy as [Hy _].
  destruct l as [|x l _] using rev_ind; [done|]. rewrite <- app_assoc. cbn [app]. rewrite shl_bytes_snoc, IH by (done || (rewrite length_app; cbn; lia)).
  apply List.Forall_app in Hb as [_ Hx]. apply List.Forall_cons_iff in Hx as [Hx _]. rewrite !length_app. cbn [length].
  replace (length l + 2 - 1)%nat with (S (length l + 1 - 1)) by lia. cbn [num_bytes]. f_equal.
  - f_equal. assert (0 < 2 ^ (8 - rem)) by (apply Z.pow_pos_nonneg; lia). change [x; y] with ([x] ++ [y]).
    rewrite (app_assoc l), be_num_app, (Z.div_div _ (2 ^ (8 - rem)) 256), (Z.mul_comm (2 ^ (8 - rem)) 256), <- (Z.div_div _ 256 (2 ^ (8 - rem))) by lia.
    unfold is_word in Hy. change (2 ^ 8) with 256 in Hy. f_equal. rewrite !be_num_app. set (K := 256 * be_num l + x). rewrite (Z.mul_comm 256 K), Z.div_add_l, (Z.div_small y) by lia. lia.
  - change [x; y] with ([x] ++ [y]). rewrite (app_assoc l), !be_num_app. by rewrite (shl_byte rem (be_num l)).
Qed.

(** The last [k] bytes of a number, and of a multiple of a power of two. *)
Lemma num_bytes_last k h l d : 0 <= d < 8 → num_bytes k (be_num (h ++ l) / 2 ^ d) = num_bytes k (be_num l / 2 ^ d) ∨ (length l * 8 < k * 8 + Z.to_nat d)%nat.
Proof.
  intros Hd. destruct (decide (length l * 8 < k * 8 + Z.to_nat d)%nat) as [|Hk]; [by right|left].
  rewrite <- (num_bytes_mod k (be_num (h ++ l) / _)), <- (num_bytes_mod k (be_num l / _)). f_equal. rewrite be_num_cat.
  assert (0 < 2 ^ d) by (apply Z.pow_pos_nonneg; lia).
  assert (256 ^ Z.of_nat (length l) = 2 ^ (8 * Z.of_nat (length l) - 8 * Z.of_nat k - d) * 256 ^ Z.of_nat k * 2 ^ d) as ->.
  { change 256 with (2 ^ 8). rewrite <- !Z.pow_mul_r, <- !Z.pow_add_r by lia. f_equal. lia. }
  set (P := 2 ^ (_ - _ - d)). replace (P * 256 ^ Z.of_nat k * 2 ^ d * be_num h + be_num l) with (be_num l + P * be_num h * 256 ^ Z.of_nat k * 2 ^ d) by lia.
  rewrite Z.div_add by lia. by rewrite Z.mod_add by lia.
Qed.

(** The register after a segment of [n] bits, in the bytes of the code: [c] is the segment. *)
Lemma cfbr_window (n num : nat) iv c l : length iv = 16%nat → is_bytes iv → is_bytes c → (1 <= n)%nat → num = ((n + 7) / 8)%nat → length c = num →
  l = drop (n / 8) (iv ++ c) →
  (if decide (n mod 8 = 0)%nat then l else shl_bytes (Z.of_nat (n mod 8)) l) =
  num_bytes 16 (2 ^ Z.of_nat n * be_num iv + be_num c / 2 ^ (8 * Z.of_nat num - Z.of_nat n)).
Proof.
  intros Li Bi Bc Hn Hnum Lc ->. set (q := (n / 8)%nat). remember (8 * Z.of_nat num - Z.of_nat n) as d eqn:Ed.
  pose proof (Nat.div_mod n 8 ltac:(lia)) as En. pose proof (Nat.mod_upper_bound n 8 ltac:(lia)) as Hr. fold q in En.
  pose proof (Nat.div_mod (n + 7) 8 ltac:(lia)) as En7. pose proof (Nat.mod_upper_bound (n + 7) 8 ltac:(lia)) as Hr7. rewrite <- Hnum in En7.
  assert (0 <= d < 8) as Hd by lia.
  assert (is_bytes (drop q (iv ++ c))) as Bl by (apply Forall_drop; by apply Forall_app_2).
  assert (length (drop q (iv ++ c)) = 16 + num - q)%nat as Ll by (rewrite length_drop, length_app; lia).
  assert (be_num (iv ++ c) / 2 ^ d = 2 ^ Z.of_nat n * be_num iv + be_num c / 2 ^ d) as <-.
  { rewrite be_num_cat, Lc. assert (0 < 2 ^ d) by (apply Z.pow_pos_nonneg; lia).
    assert (256 ^ Z.of_nat num = 2 ^ Z.of_nat n * 2 ^ d) as -> by (change 256 with (2 ^ 8); rewrite <- Z.pow_mul_r, <- Z.pow_add_r by lia; f_equal; lia).
    replace (2 ^ Z.of_nat n * 2 ^ d * be_num iv) with (2 ^ Z.of_nat n * be_num iv * 2 ^ d) by lia. by rewrite Z.div_add_l by lia. }
  set (l := drop q (iv ++ c)) in *. rewrite <- (take_drop q (iv ++ c)). fold l.
  destruct (num_bytes_last 16 (take q (iv ++ c)) l d Hd) as [->|Hbad].
  2:{ exfalso. lia. }
  case_decide as H0.
  - assert (num = q) as -> by lia. assert (d = 0) as -> by lia.
    rewrite Z.div_1_r. replace 16%nat with (length l) by lia. symmetry. by apply num_bytes_be_num.
  - assert (num = q + 1)%nat as -> by lia. rewrite shl_bytes_num by (done || lia).
    f_equal; [lia|]. do 2 f_equal. lia.
Qed.

(** ** The loops *)

Lemma cfbr_shift_ok rem k : ∀ ivec ovec l m, mread m ovec (k + 1) = Some l → is_bytes l → mvalid m ivec k → pdisj ovec (k + 1) ivec k →
  ∃ m', cfbr_shift rem k ivec ovec m = Some (tt, m') ∧ mread m' ivec k = Some (shl_bytes rem l) ∧ mframe [(ivec, k)] m m'.
Proof.
  induction k as [|k IH]; intros ivec ovec l m Hr Bl Hv Hd.
  - exists m. apply mread_length in Hr as Hl. destruct l as [|x [|y l]]; [done| |done]. split; [done|]. split; [by apply mread_nil|reflexivity].
  - apply (mread_split m ovec 1 (k + 1)) in Hr as (l1 & l2 & -> & L1 & R1 & R2). destruct l1 as [|x [|? ?]]; [done| |done].
    pose proof R2 as R3. rewrite (Nat.add_comm k 1) in R3. apply (mread_split m _ 1 k) in R3 as (l1 & l3 & -> & L2 & R3 & _). destruct l1 as [|y [|? ?]]; [done| |done].
    cbn [app] in *. set (v := wrap 8 (Z.lor (Z.shiftl x rem) (Z.shiftr y (8 - rem)))).
    destruct (mvalid_store m ivec [v]) as (m1 & W & S1); [eapply mvalid_take; [exact Hv|cbn; lia]|]. pose proof (mwrite_mframe _ _ _ _ W) as F1. cbn [length] in F1.
    apply List.Forall_cons_iff in Bl as [_ Bl].
    destruct (IH (padd ivec 1) (padd ovec 1) (y :: l3) m1) as (m2 & E2 & R4 & F2).
    + apply (apart_read m m1 _ _ _ _ F1); [apply apart_1; clear - Hd; solve_pdisj|done].
    + done.
    + apply F1. apply (mvalid_sub m ivec (S k) 1 k); [done|lia].
    + clear - Hd. solve_pdisj.
    + exists m2. split; [|split].
      * cbn [cfbr_shift]. rewrite (bind_Some _ _ m _ m (load_byte_Some _ _ _ R1)), (bind_Some _ _ m _ m (load_byte_Some _ _ _ R3)). by rewrite (bind_Some _ _ m _ m1 S1).
      * cbn [shl_bytes]. apply (mread_join m2 ivec 1 k [v]); [|done]. apply (apart_read m1 m2 _ _ _ _ F2); [apply apart_1; clear; solve_pdisj|]. exact (mread_mwrite _ _ _ _ W).
      * transitivity m1; [eapply mframe_mono; [exact F1|]; eapply covers_take; [left|lia]|]. eapply mframe_mono; [exact F2|]. eapply (covers_sub _ ivec (S k) 1 k); [left|lia].
Qed.

(** The segment that goes into the register. *)
Definition seg_bytes (enc : bool) (xs bs : list Z) : list Z := if enc then xor_list bs xs else bs.

Lemma cfbr_put_ok enc k : ∀ inp out ivec ovec bs xs m, mread m inp k = Some bs → mread m ivec k = Some xs →
  mvalid m out k → mvalid m ovec k → same_or_apart out inp k → pdisj ovec k inp k → pdisj ovec k out k → pdisj ovec k ivec k → pdisj out k ivec k →
  ∃ m', cfbr_put enc k inp out ivec ovec m = Some (tt, m') ∧ mread m' out k = Some (xor_list bs xs) ∧ mread m' ovec k = Some (seg_bytes enc xs bs) ∧
    mframe [(out, k); (ovec, k)] m m'.
Proof.
  induction k as [|k IH]; intros inp out ivec ovec bs xs m Rb Rx Vo Vv Ha D1 D2 D3 D4.
  - apply mread_length in Rb as Lb. apply mread_length in Rx as Lx. apply nil_length_inv in Lb as ->. apply nil_length_inv in Lx as ->.
    exists m. split; [done|]. split; [by apply mread_nil|]. split; [unfold seg_bytes; destruct enc; by apply mread_nil|reflexivity].
  - apply (mread_split m inp 1 k) in Rb as (b1 & b & -> & L1 & R1 & R2). destruct b1 as [|c [|? ?]]; [done| |done].
    apply (mread_split m ivec 1 k) in Rx as (x1 & xs' & -> & L2 & R3 & R4). destruct x1 as [|x [|? ?]]; [done| |done].
    cbn [app]. set (s := if enc then Z.lxor c x else c).
    destruct (mvalid_store m ovec [s]) as (m1 & W1 & S1); [eapply mvalid_take; [exact Vv|cbn; lia]|]. pose proof (mwrite_mframe _ _ _ _ W1) as F1. cbn [length] in F1.
    destruct (mvalid_store m1 out [Z.lxor c x]) as (m2 & W2 & S2); [apply F1; eapply mvalid_take; [exact Vo|cbn; lia]|]. pose proof (mwrite_mframe _ _ _ _ W2) as F2. cbn [length] in F2.
    destruct (IH (padd inp 1) (padd out 1) (padd ivec 1) (padd ovec 1) b xs' m2) as (m3 & E3 & Ro & Rv & F3).
    + apply (apart_read m1 m2 _ _ _ _ F2); [apply apart_1; clear - Ha; destruct Ha as [->|Ha]; solve_pdisj|].
      apply (apart_read m m1 _ _ _ _ F1); [apply apart_1; clear - D1; solve_pdisj|done].
    + apply (apart_read m1 m2 _ _ _ _ F2); [apply apart_1; clear - D4; solve_pdisj|].
      apply (apart_read m m1 _ _ _ _ F1); [apply apart_1; clear - D3; solve_pdisj|done].
    + apply F2, F1, (mvalid_sub m out (S k) 1 k); [done|lia].
    + apply F2, F1, (mvalid_sub m ovec (S k) 1 k); [done|lia].
    + apply (same_or_apart_drop out inp 1 k). done.
    + clear - D1; solve_pdisj.
    + clear - D2; solve_pdisj.
    + clear - D3; solve_pdisj.
    + clear - D4; solve_pdisj.
    + exists m3. split; [|split; [|split]].
      * cbn [cfbr_put]. rewrite (bind_Some _ _ m _ m (load_byte_Some _ _ _ R1)), (bind_Some _ _ m _ m (load_byte_Some _ _ _ R3)).
        assert ((if enc then store ovec [Z.lxor c x] else store ovec [c]) m = Some (tt, m1)) as S1' by (unfold s in S1; by destruct enc).
        rewrite (bind_Some _ _ m _ m1 S1'). by rewrite (bind_Some _ _ m1 _ m2 S2).
      * apply (mread_join m3 out 1 k [Z.lxor c x]); [|done]. apply (apart_read m2 m3 _ _ _ _ F3); [constructor; cbn [fst snd]; [clear; solve_pdisj|apply apart_1; clear - D2; solve_pdisj]|].
        exact (mread_mwrite _ _ _ _ W2).
      * assert (mread m3 ovec (1 + k) = Some ([s] ++ seg_bytes enc xs' b)) as H; [|unfold s, seg_bytes in *; by destruct enc].
        apply (mread_join m3 ovec 1 k); [|done]. apply (apart_read m2 m3 _ _ _ _ F3); [constructor; cbn [fst snd]; [clear - D2; solve_pdisj|apply apart_1; clear; solve_pdisj]|].
        apply (apart_read m1 m2 _ _ _ _ F2); [apply apart_1; clear - D2; solve_pdisj|]. exact (mread_mwrite _ _ _ _ W1).
      * transitivity m1; [eapply mframe_mono; [exact F1|]; eapply covers_take; [right; left|lia]|].
        transitivity m2; [eapply mframe_mono; [exact F2|]; eapply covers_take; [left|lia]|]. eapply mframe_mono; [exact F3|].
        apply covers_cons; [eapply (covers_sub _ out (S k) 1 k); [left|lia]|eapply (covers_sub _ ovec (S k) 1 k); [right; left|lia]].
Qed.

(** ** A segment *)

Section block.
Context (block : ptr → ptr → C unit) (E : list Z → list Z) `{!BlockFun block E} `{!BlockMap E}.

(** The last step: the window of the 32 bytes that is the new register. *)
Lemma cfbr_register_ok (n : nat) ivec ovec iv c m : (1 <= n)%nat → length iv = 16%nat → is_bytes iv → is_bytes c → length c = ((n + 7) / 8)%nat →
  mread m ovec (16 + length c) = Some (iv ++ c) → mvalid m ivec 16 → pdisj ovec (16 + length c) ivec 16 →
  ∃ m', (if decide (Z.of_nat n mod 8 = 0) then memcpy ivec (padd ovec (Z.of_nat n / 8)) 16
         else cfbr_shift (Z.of_nat n mod 8) 16 ivec (padd ovec (Z.of_nat n / 8))) m = Some (tt, m') ∧
    mread m' ivec 16 = Some (num_bytes 16 (2 ^ Z.of_nat n * be_num iv + be_num c / 2 ^ (8 * Z.of_nat (length c) - Z.of_nat n))) ∧ mframe [(ivec, 16%nat)] m m'.
Proof.
  intros Hn Li Bi Bc Lc Hr Hv Hd. rewrite <- (cfbr_window n (length c) iv c _ Li Bi Bc Hn Lc eq_refl eq_refl).
  pose proof (Nat.div_mod n 8 ltac:(lia)) as En. pose proof (Nat.mod_upper_bound n 8 ltac:(lia)) as Hr8.
  pose proof (Nat.div_mod (n + 7) 8 ltac:(lia)) as En7. pose proof (Nat.mod_upper_bound (n + 7) 8 ltac:(lia)) as Hr7. rewrite <- Lc in En7.
  assert (Z.of_nat n mod 8 = Z.of_nat (n mod 8)) as -> by (by rewrite Nat2Z.inj_mod). assert (Z.of_nat n / 8 = Z.of_nat (n / 8)) as -> by (by rewrite Nat2Z.inj_div).
  set (q := (n / 8)%nat) in *. set (r := (n mod 8)%nat) in *.
  assert (is_bytes (drop q (iv ++ c))) as Bl by (apply Forall_drop; by apply Forall_app_2).
  assert (length (drop q (iv ++ c)) = 16 + length c - q)%nat as Ll by (rewrite length_drop, length_app; lia).
  pose proof (mread_sub m ovec _ _ q (16 + length c - q) Hr ltac:(lia)) as Rl. rewrite take_ge in Rl by lia. set (l := drop q (iv ++ c)) in *.
  destruct (decide (r = 0%nat)) as [H0|H0].
  - rewrite decide_True by lia. replace (16 + length c - q)%nat with 16%nat in * by lia. rewrite <- Ll in Hv.
    destruct (mvalid_store m ivec l Hv) as (m' & W & S). exists m'. split; [apply (memcpy_Some _ _ _ _ l); [|done..]; apply pdisj_sym, (pdisj_sub ovec (16 + length c)); [done|lia]|].
    pose proof (mread_mwrite _ _ _ _ W) as R. pose proof (mwrite_mframe _ _ _ _ W) as F. rewrite Ll in R, F. done.
  - rewrite decide_False by lia. replace (16 + length c - q)%nat with (16 + 1)%nat in * by lia.
    apply cfbr_shift_ok; [done..|]. apply (pdisj_sub ovec (16 + length c)); [done|lia].
Qed.

Lemma cfbr_block_ok enc (n : nat) inp out ivec iv bs m : (1 <= n <= 128)%nat → length bs = ((n + 7) / 8)%nat →
  mread m ivec 16 = Some iv → is_bytes iv → mread m inp (length bs) = Some bs → is_bytes bs → mvalid m out (length bs) →
  same_or_apart out inp (length bs) → pdisj out (length bs) ivec 16 → pdisj inp (length bs) ivec 16 →
  let c := seg_bytes enc (take (length bs) (E iv)) bs in
  ∃ m', cfbr_encrypt_block block inp out (Z.of_nat n) ivec enc m = Some (tt, m') ∧
    mframe [(out, length bs); (ivec, 16%nat)] m m' ∧
    mread m' out (length bs) = Some (xor_list bs (take (length bs) (E iv))) ∧
    mread m' ivec 16 = Some (num_bytes 16 (2 ^ Z.of_nat n * be_num iv + be_num c / 2 ^ (8 * Z.of_nat (length bs) - Z.of_nat n))).
Proof.
  intros Hn Lb Ri Bi Rb Bb Vo Ha D1 D2 c. pose proof (mread_length _ _ _ _ Ri) as Li.
  pose proof (Nat.div_mod (n + 7) 8 ltac:(lia)) as En7. pose proof (Nat.mod_upper_bound (n + 7) 8 ltac:(lia)) as Hr7. rewrite <- Lb in En7.
  assert (length (take (length bs) (E iv)) = length bs) as Lk by (rewrite length_take, map_length; lia).
  assert (length c = length bs) as Lc by (unfold c, seg_bytes; destruct enc; [by apply xor_list_length|done]).
  assert (is_bytes c) as Bc by (unfold c, seg_bytes; destruct enc; [apply xor_list_bytes; [done|by apply Forall_take, map_bytes]|done]).
  unfold cfbr_encrypt_block. rewrite decide_False by lia.
  replace (Z.to_nat ((Z.of_nat n + 7) / 8)) with (length bs) by (rewrite Lb, <- (Nat2Z.id ((n + 7) / 8)), Nat2Z.inj_div, Nat2Z.inj_add; done).
  match goal with |- ∃ _, local 33 ?body m = _ ∧ _ ∧ mread _ _ _ = ?ro ∧ mread _ _ _ = ?ri =>
    destruct (local_ok 33 body [(out, length bs); (ivec, 16%nat)] m (λ _ m', mread m' out (length bs) = ro ∧ mread m' ivec 16 = ri)) as ([] & m' & H); [|by exists m'] end.
  intros b m1 Hb F1 V1 Hfresh.
  assert (∀ q k l, mread m q k = Some l → mread m1 q k = Some l) as Hkeep by (intros q k l Hq; apply (apart_read m m1 _ _ _ _ F1); [constructor|done]).
  pose proof (Hfresh ivec 16%nat (mread_mvalid _ _ _ _ Ri)) as Di. pose proof (Hfresh out (length bs) Vo) as Do. pose proof (Hfresh inp (length bs) (mread_mvalid _ _ _ _ Rb)) as Db.
  set (ovec := Ptr b 0) in *.
  assert (mvalid m1 ovec (length iv)) as Vv by (rewrite Li; eapply mvalid_take; [exact V1|lia]).
  destruct (mvalid_store m1 ovec iv Vv) as (m2 & W2 & S2). pose proof (mwrite_mframe _ _ _ _ W2) as F2. rewrite Li in F2.
  assert (mread m2 ivec 16 = Some iv) as Ri2 by (apply (apart_read m1 m2 _ _ _ _ F2); [apply apart_1; clear - Di; solve_pdisj|by apply Hkeep]).
  destruct (block_run ivec ivec m2 iv Ri2 Bi (mread_mvalid _ _ _ _ Ri2)) as (m3 & E3 & W3). pose proof (mwrite_mframe _ _ _ _ W3) as F3. pose proof (mread_mwrite _ _ _ _ W3) as Ri3.
  rewrite map_length in F3, Ri3.
  assert (mread m3 inp (length bs) = Some bs) as Rb3.
  { apply (apart_read m2 m3 _ _ _ _ F3); [apply apart_1; by apply pdisj_sym|]. apply (apart_read m1 m2 _ _ _ _ F2); [apply apart_1; clear - Db; solve_pdisj|by apply Hkeep]. }
  destruct (cfbr_put_ok enc (length bs) inp out ivec (padd ovec 16) bs (take (length bs) (E iv)) m3) as (m4 & E4 & Ro4 & Rv4 & F4).
  - done.
  - apply (mread_take m3 ivec 16); [done|lia].
  - by apply F3, F2, F1.
  - apply F3, F2, (mvalid_sub m1 ovec 33 16); [done|lia].
  - done.
  - apply (pdisj_sub ovec 33 inp (length bs) 16); [done|lia].
  - apply (pdisj_sub ovec 33 out (length bs) 16); [done|lia].
  - apply (pdisj_sub ovec 33 ivec (length bs) 16); [apply pdisj_sym; eapply pdisj_take; [apply pdisj_sym; exact Di|lia]|lia].
  - apply pdisj_sym. eapply pdisj_take; [apply pdisj_sym; exact D1|lia].
  - assert (mread m4 ovec (16 + length c) = Some (iv ++ c)) as Rw.
    { apply mread_join; [|by rewrite Lc]. apply (apart_read m3 m4 _ _ _ _ F4); [constructor; cbn [fst snd]; [clear - Do; solve_pdisj|apply apart_1; clear; solve_pdisj]|].
      apply (apart_read m2 m3 _ _ _ _ F3); [apply apart_1; clear - Di; solve_pdisj|]. pose proof (mread_mwrite _ _ _ _ W2) as R. by rewrite Li in R. }
    destruct (cfbr_register_ok n ivec ovec iv c m4 ltac:(lia) Li Bi Bc) as (m5 & E5 & Ri5 & F5);
      [by rewrite Lc|done|by apply F4, F3, F2, F1; eapply mread_mvalid|eapply pdisj_take; [exact Di|lia]|].
    assert (mread m5 out (length bs) = Some (xor_list bs (take (length bs) (E iv)))) as Ro5.
    { apply (apart_read m4 m5 _ _ _ _ F5); [apply apart_1; by apply pdisj_sym|done]. }
    exists tt, m5. split; [|split].
    + assert (memcpy ovec ivec 16 m1 = Some (tt, m2)) as E2 by (apply (memcpy_Some _ _ _ _ iv); [eapply pdisj_take; [exact Di|lia]|by apply Hkeep|done]).
      rewrite (bind_Some _ _ m1 _ m2 E2), (bind_Some _ _ m2 _ m3 E3), (bind_Some _ _ m3 _ m4 E4). exact E5.
    + transitivity m2; [eapply mframe_mono; [exact F2|]; eapply covers_take; [left|lia]|].
      transitivity m3; [eapply mframe_mono; [exact F3|]; eapply covers_take; [right; right; left|lia]|].
      transitivity m4; [eapply mframe_mono; [exact F4|]|eapply mframe_mono; [exact F5|]; eapply covers_take; [right; right; left|lia]].
      apply covers_cons; [eapply covers_take; [right; left|lia]|eapply (covers_sub _ ovec 33 16); [left|lia]].
    + intros m6 Hm6. rewrite !Hm6 by (done || by eapply mread_mvalid). rewrite Lc in Ri5. done.
Qed.
End block.

(** *** The first bits of the image *)

Lemma be_num_take k l : is_bytes l → (k <= length l)%nat → be_num (take k l) = be_num l / 256 ^ Z.of_nat (length l - k).
Proof.
  intros Bl Hk. rewrite <- (take_drop k l) at 2. rewrite be_num_cat, length_drop. pose proof (be_num_bound (drop k l)) as H.
  rewrite length_drop in H. rewrite Z.mul_comm, Z.div_add_l by (apply Z.pow_nonzero; lia). rewrite Z.div_small by (apply H; by apply Forall_drop). lia.
Qed.

Section segments.
Context (block : ptr → ptr → C unit) (E : list Z → list Z) `{!BlockFun block E} `{!BlockMap E}.

(** Up to 8 bits are in the first byte. *)
Lemma take_1_key iv s : reg_good iv → 0 <= s <= 8 → ∃ x, take 1 (E iv) = [x] ∧ is_byte x ∧ seg_key E s (be_num iv) = x / 2 ^ (8 - s).
Proof.
  intros Hg Hs. pose proof (map_length iv) as Hl. pose proof (map_bytes iv) as Hb. pose proof (be_num_take 1 (E iv) Hb ltac:(lia)) as Hn. rewrite Hl in Hn.
  change (256 ^ Z.of_nat (16 - 1)) with (2 ^ 120) in Hn. unfold seg_key. rewrite num_bytes_reg by done.
  replace (2 ^ (128 - s)) with (2 ^ 120 * 2 ^ (8 - s)) by (rewrite <- Z.pow_add_r by lia; f_equal; lia).
  rewrite <- Z.div_div, <- Hn by (lia || apply Z.pow_pos_nonneg; lia).
  destruct (E iv) as [|x r]; [done|]. exists x. split; [done|]. split; [by apply List.Forall_cons_iff in Hb as [Hb _]|]. cbn [take]. by rewrite <- (Z.add_0_l x) at 2.
Qed.

(** *** Segments of a byte *)

Lemma cfb128_8_encrypt_ok enc bs : ∀ inp out ivec iv m, mread m ivec 16 = Some iv → is_bytes iv → mread m inp (length bs) = Some bs → is_bytes bs →
  mvalid m out (length bs) → same_or_apart out inp (length bs) → pdisj out (length bs) ivec 16 → pdisj inp (length bs) ivec 16 →
  let '(cs, v) := cfb_segments E 8 enc (be_num iv) bs in
  ∃ m', CRYPTO_cfb128_8_encrypt block inp out (length bs) ivec enc m = Some (tt, m') ∧ is_bytes cs ∧
    mread m' out (length bs) = Some cs ∧ mread m' ivec 16 = Some (num_bytes 16 v) ∧ mframe [(out, length bs); (ivec, 16%nat)] m m'.
Proof.
  induction bs as [|p bs IH]; intros inp out ivec iv m Ri Bi Rb Bb Vo Ha D1 D2; cbn [cfb_segments length] in *.
  - exists m. split; [done|]. split; [constructor|]. split; [by apply mread_nil|]. split; [|reflexivity]. pose proof (mread_length _ _ _ _ Ri) as Li. rewrite <- Li at 2. by rewrite num_bytes_be_num.
  - pose proof (mread_length _ _ _ _ Ri) as Li. destruct (take_1_key iv 8 (conj Li Bi) ltac:(lia)) as (x & Ex & Bx & ->). rewrite Z.div_1_r.
    apply List.Forall_cons_iff in Bb as [Bp Bb]. apply (mread_split m inp 1 (length bs)) in Rb as (p1 & bs' & Ep & L1 & R1 & R2).
    destruct p1 as [|p' [|? ?]]; [done| |done]. injection Ep as <- <-.
    destruct (cfbr_block_ok block E enc 8 inp out ivec iv [p] m) as (m1 & E1 & F1 & Ro & Ri1);
      [lia|done|done|done|done|by constructor|eapply mvalid_take; [exact Vo|cbn; lia]|eapply same_or_apart_take; [exact Ha|cbn; lia]
      |eapply pdisj_take; [exact D1|cbn; lia]|eapply pdisj_take; [exact D2|cbn; lia]|].
    cbn [length] in *. rewrite Ex in Ro, Ri1. change (xor_list [p] [x]) with [Z.lxor p x] in Ro. change (Z.of_nat 8) with 8 in *. rewrite Z.div_1_r in Ri1.
    assert (be_num (seg_bytes enc [x] [p]) = if enc then Z.lxor p x else p) as Ec by (destruct enc; cbn; lia). rewrite Ec in Ri1. clear Ec.
    set (w := 2 ^ 8 * be_num iv + (if enc then Z.lxor p x else p)) in *.
    specialize (IH (padd inp 1) (padd out 1) ivec (num_bytes 16 w) m1 Ri1 (num_bytes_is_bytes 16 w)). rewrite be_num_num_bytes_16 in IH.
    destruct (cfb_segments E 8 enc (w mod 2 ^ 128) bs) as [cs v] eqn:Es.
    destruct IH as (m2 & E2 & Bcs & Ro2 & Ri2 & F2).
    + apply (apart_read m m1 _ _ _ _ F1); [|done]. constructor; cbn [fst snd]; [clear - Ha; destruct Ha as [->|Ha]; solve_pdisj|apply apart_1; clear - D2; solve_pdisj].
    + done.
    + apply F1, (mvalid_sub m out (S (length bs)) 1); [done|lia].
    + by apply (same_or_apart_drop out inp 1).
    + clear - D1. solve_pdisj.
    + clear - D2. solve_pdisj.
    + exists m2. split; [cbn [CRYPTO_cfb128_8_encrypt]; by rewrite (bind_Some _ _ m _ m1 E1)|]. split; [constructor; [by apply is_word_lxor|done]|].
      split; [|split; [done|]].
      * apply (mread_join m2 out 1 (length bs) [Z.lxor p x]); [|done]. apply (apart_read m1 m2 _ _ _ _ F2); [|done].
        constructor; cbn [fst snd]; [clear; solve_pdisj|apply apart_1; clear - D1; solve_pdisj].
      * transitivity m1; [eapply mframe_mono; [exact F1|]; apply covers_cons; [eapply covers_take; [left|lia]|eapply covers_take; [right; left|lia]]|].
        eapply mframe_mono; [exact F2|]. apply covers_cons; [eapply (covers_sub _ out (S (length bs)) 1); [left|lia]|eapply covers_take; [right; left|lia]].
Qed.
End segments.

(** ** Single bits *)

(** The bits of a list of bytes, the highest of each byte first. *)
Definition get_bit (l : list Z) (n : nat) : Z := Z.shiftr (l !!! (n / 8)%nat) (7 - Z.of_nat (n mod 8)) mod 2.
Definition set_bit (l : list Z) (n : nat) (b : Z) : list Z :=
  let k := 7 - Z.of_nat (n mod 8) in <[(n / 8)%nat := Z.lor (Z.land (l !!! (n / 8)%nat) (Z.lnot (Z.shiftl 1 k))) (Z.shiftl b k)]> l.

Lemma bit_range z : 0 <= z mod 2 < 2. Proof. by apply Z.mod_pos_bound. Qed.

Lemma bit_mod z : z mod 2 = Z.b2z (Z.testbit z 0).
Proof. by rewrite Z.bit0_mod. Qed.

Lemma get_bit_testbit l n : get_bit l n = Z.b2z (Z.testbit (l !!! (n / 8)%nat) (7 - Z.of_nat (n mod 8))).
Proof. unfold get_bit. rewrite bit_mod, Z.shiftr_spec by lia. by rewrite Z.add_0_l. Qed.

Lemma set_bit_length l n b : length (set_bit l n b) = length l.
Proof. apply length_insert. Qed.

Lemma put_bit_testbit o k b i : 0 <= k → 0 <= i → 0 <= b < 2 →
  Z.testbit (Z.lor (Z.land o (Z.lnot (Z.shiftl 1 k))) (Z.shiftl b k)) i = (if decide (i = k) then Z.testbit b 0 else Z.testbit o i).
Proof.
  intros Hk Hi Hb. rewrite Z.lor_spec, Z.land_spec, Z.lnot_spec, !Z.shiftl_spec by done. case_decide as E.
  - subst. rewrite Z.sub_diag. change (Z.testbit 1 0) with true. cbn [negb]. by rewrite andb_false_r.
  - destruct (decide (i < k)); [rewrite !(Z.testbit_neg_r _ (i - k)) by lia; cbn [negb]; by rewrite andb_true_r, orb_false_r|].
    assert (∀ y, 0 <= y < 2 → Z.testbit y (i - k) = false) as H2.
    { intros y Hy. rewrite Z.testbit_eqb, Z.div_small; [done| |lia]. split; [lia|]. apply Z.lt_le_trans with (2 ^ 1); [lia|apply Z.pow_le_mono_r; lia]. }
    rewrite (H2 1), (H2 b) by lia. cbn [negb]. by rewrite andb_true_r, orb_false_r.
Qed.

Lemma get_set_bit l n b i : 0 <= b < 2 → (n < 8 * length l)%nat → get_bit (set_bit l n b) i = (if decide (i = n) then b else get_bit l i).
Proof.
  intros Hb Hn. rewrite !get_bit_testbit. unfold set_bit. pose proof (Nat.mod_upper_bound n 8 ltac:(lia)) as Hr. pose proof (Nat.mod_upper_bound i 8 ltac:(lia)) as Hi.
  pose proof (Nat.div_mod n 8 ltac:(lia)) as En. pose proof (Nat.div_mod i 8 ltac:(lia)) as Ei.
  destruct (decide (i / 8 = n / 8)%nat) as [E|E].
  - rewrite E, list_lookup_total_insert_eq by lia. rewrite put_bit_testbit by lia. destruct (decide (i = n)) as [->|Hne].
    + rewrite decide_True by done. rewrite <- bit_mod. by apply Z.mod_small.
    + rewrite decide_False by lia. done.
  - rewrite list_lookup_total_insert_ne by done. by rewrite decide_False by congruence.
Qed.

Lemma put_bit_byte o k b : is_byte o → 0 <= k < 8 → 0 <= b < 2 → is_byte (Z.lor (Z.land o (Z.lnot (Z.shiftl 1 k))) (Z.shiftl b k)).
Proof.
  intros Ho Hk Hb. apply is_word_lor; [done|by apply is_word_land|]. unfold is_word. rewrite Z.shiftl_mul_pow2 by lia.
  assert (0 < 2 ^ k <= 2 ^ 7) by (split; [apply Z.pow_pos_nonneg|apply Z.pow_le_mono_r]; lia). change (2 ^ 7) with 128 in *. change (2 ^ 8) with 256. nia.
Qed.

Lemma set_bit_bytes l n b : is_bytes l → (n < 8 * length l)%nat → 0 <= b < 2 → is_bytes (set_bit l n b).
Proof.
  intros Hl Hn Hb. apply Forall_insert; [done|]. apply put_bit_byte; [by apply bytes_lookup_total|pose proof (Nat.mod_upper_bound n 8 ltac:(lia)); lia|done].
Qed.

(** A bit in the first place of a byte, and back. *)
Lemma test_bit x j : 0 <= j → (if decide (Z.land x (Z.shiftl 1 j) = 0) then 0 else 128) = 128 * (Z.shiftr x j mod 2).
Proof.
  intros Hj. rewrite bit_mod, Z.shiftr_spec, Z.add_0_l by lia. rewrite Z.shiftl_1_l. case_decide as H.
  - destruct (Z.testbit x j) eqn:E; [|done]. exfalso. assert (Z.testbit (Z.land x (2 ^ j)) j = true) as H'; [|by rewrite H, Z.bits_0 in H'].
    by rewrite Z.land_spec, E, Z.pow2_bits_true.
  - destruct (Z.testbit x j) eqn:E; [done|]. exfalso. apply H. apply Z.bits_inj'. intros i Hi. rewrite Z.land_spec, Z.pow2_bits_eqb, Z.bits_0 by done.
    destruct (Z.eqb_spec j i) as [<-|]; [by rewrite E|apply andb_false_r].
Qed.

Lemma high_bit y j : is_byte y → 0 <= j < 8 → Z.shiftr (Z.land y 128) j = Z.shiftl (y / 128) (7 - j).
Proof.
  intros Hy Hj. change 128 with (2 ^ 7) at 2. rewrite <- Z.shiftr_div_pow2 by done. apply Z.bits_inj'. intros i Hi.
  change 128 with (2 ^ 7). rewrite Z.shiftr_spec, Z.land_spec, Z.pow2_bits_eqb, Z.shiftl_spec by lia.
  destruct (Z.eqb_spec 7 (i + j)) as [E|E].
  - rewrite Z.shiftr_spec by lia. rewrite andb_true_r. f_equal. lia.
  - rewrite andb_false_r. destruct (decide (i < 7 - j)); [by rewrite Z.testbit_neg_r by lia|]. rewrite Z.shiftr_spec by lia.
    symmetry. rewrite Z.testbit_eqb, Z.div_small; [done| |lia]. unfold is_word in Hy. split; [lia|]. eapply Z.lt_le_trans; [apply Hy|]. apply Z.pow_le_mono_r; lia.
Qed.

(** [all_apart]: a list of regions, one by one. *)
Ltac all_apart := repeat (apply List.Forall_cons; [cbn [fst snd]; first [assumption|by apply pdisj_sym]|]); try apply List.Forall_nil.

Section bits.
Context (block : ptr → ptr → C unit) (E : list Z → list Z) `{!BlockFun block E} `{!BlockMap E}.
Context (c d inp out ivec : ptr) (len : nat).
Context (Hapart : pairwise [(c, 1%nat); (d, 1%nat); (ivec, 16%nat); (out, len)]) (Hinp : apart [(c, 1%nat); (d, 1%nat); (ivec, 16%nat)] inp len).
Context (Halias : same_or_apart out inp len).

(** The regions that change. *)
Definition bit_regs : regions := [(c, 1%nat); (d, 1%nat); (ivec, 16%nat); (out, len)].

(** Message [x], output so far [o], register [iv]. *)
Record bit_state (x o iv : list Z) (m : mem) : Prop := {
  bit_inp : mread m inp len = Some x;
  bit_out : mread m out len = Some o;
  bit_reg : mread m ivec 16 = Some iv;
  bit_bytes : is_bytes x ∧ is_bytes o ∧ is_bytes iv;
  bit_c : mvalid m c 1;
  bit_d : mvalid m d 1;
}.

(** The segment in [c] and its image in [d]. *)
Lemma cfb1_segment_ok enc p iv m : 0 <= p < 2 → mread m ivec 16 = Some iv → is_bytes iv → mvalid m c 1 → mvalid m d 1 →
  let q := Z.lxor p (seg_key E 1 (be_num iv)) in
  ∃ m1 m2 y, store c [128 * p] m = Some (tt, m1) ∧ cfbr_encrypt_block block c d 1 ivec enc m1 = Some (tt, m2) ∧ 0 <= q < 2 ∧
    mread m2 d 1 = Some [y] ∧ is_byte y ∧ y / 128 = q ∧ mread m2 ivec 16 = Some (num_bytes 16 (2 * be_num iv + (if enc then q else p))) ∧
    mframe [(c, 1%nat); (d, 1%nat); (ivec, 16%nat)] m m2.
Proof.
  intros Hp Ri Bi Vc Vd q. cbn [pairwise fst snd] in Hapart. destruct Hapart as (Hc & Hd & _).
  apply List.Forall_cons_iff in Hc as [Dcd Hc]. apply List.Forall_cons_iff in Hc as [Dci _]. apply List.Forall_cons_iff in Hd as [Ddi _]. cbn [fst snd] in *.
  pose proof (mread_length _ _ _ _ Ri) as Li. destruct (take_1_key E iv 1 (conj Li Bi) ltac:(lia)) as (y & Ey & By & Ek). change (8 - 1) with 7 in Ek.
  assert (is_byte (128 * p)) as Bp by (unfold is_word; change (2 ^ 8) with 256; lia). assert (is_byte (Z.lxor (128 * p) y)) as Bq by (by apply is_word_lxor).
  assert (Z.lxor (128 * p) y / 128 = q) as Eq.
  { unfold q. rewrite Ek. change 128 with (2 ^ 7). rewrite <- !Z.shiftr_div_pow2, Z.shiftr_lxor by done. f_equal. rewrite Z.shiftr_div_pow2, Z.mul_comm by done. by apply Z.div_mul. }
  assert (0 <= q < 2) as Hq by (rewrite <- Eq; unfold is_word in Bq; change (2 ^ 8) with 256 in Bq; split; [apply Z.div_pos|apply Z.div_lt_upper_bound]; lia).
  destruct (mvalid_store m c [128 * p] Vc) as (m1 & W1 & S1). pose proof (mwrite_mframe _ _ _ _ W1) as F1. cbn [length] in F1.
  destruct (cfbr_block_ok block E enc 1 c d ivec iv [128 * p] m1) as (m2 & E2 & F2 & Rd & Ri2);
    [lia|done|by apply (apart_read m m1 _ _ _ _ F1); [apply apart_1|]|done|exact (mread_mwrite _ _ _ _ W1)|by constructor|by apply F1|right; by apply pdisj_sym|done|done|].
  cbn [length] in *. rewrite Ey in Rd, Ri2. change (xor_list [128 * p] [y]) with [Z.lxor (128 * p) y] in Rd. change (8 * Z.of_nat 1 - Z.of_nat 1) with 7 in Ri2.
  assert (be_num (seg_bytes enc [y] [128 * p]) / 2 ^ 7 = if enc then q else p) as Es.
  { destruct enc; cbn [seg_bytes]; change (2 ^ 7) with 128; [rewrite <- Eq; done|]. change (be_num [128 * p]) with (256 * 0 + 128 * p). rewrite Z.add_0_l, Z.mul_comm. by apply Z.div_mul. }
  rewrite Es in Ri2. exists m1, m2, (Z.lxor (128 * p) y). do 7 (split; [done|]).
  transitivity m1; [eapply mframe_mono; [exact F1|]; eapply covers_take; [left|lia]|].
  eapply mframe_mono; [exact F2|]; apply covers_cons; [eapply covers_take; [right; left|lia]|eapply covers_take; [right; right; left|lia]].
Qed.

(** The bit goes to its place in [out]; it may be the message that changes. *)
Lemma cfb1_put_ok n q x o m : (n < 8 * len)%nat → 0 <= q < 2 → mread m inp len = Some x → mread m out len = Some o → is_bytes x → is_bytes o →
  let b := Z.lor (Z.land (o !!! (n / 8)%nat) (Z.lnot (Z.shiftl 1 (7 - Z.of_nat (n mod 8))))) (Z.shiftl q (7 - Z.of_nat (n mod 8))) in
  mread m (padd out (Z.of_nat (n / 8))) 1 = Some [o !!! (n / 8)%nat] ∧ is_byte b ∧
  ∃ m' x', store (padd out (Z.of_nat (n / 8))) [b] m = Some (tt, m') ∧ mread m' out len = Some (set_bit o n q) ∧ mread m' inp len = Some x' ∧ is_bytes x' ∧
    (∀ k, k ≠ n → get_bit x' k = get_bit x k) ∧ mframe [(out, len)] m m'.
Proof.
  intros Hn Hq Rx Ro Bx Bo. pose proof (mread_length _ _ _ _ Ro) as Lo.
  pose proof (Nat.div_mod n 8 ltac:(lia)) as En. pose proof (Nat.mod_upper_bound n 8 ltac:(lia)) as Hr. unfold set_bit. set (i := (n / 8)%nat) in *. set (j := (n mod 8)%nat) in *.
  pose proof (mread_sub m out len o i 1 Ro ltac:(lia)) as Rob. rewrite (slice_cons i 0 o) in Rob by lia. set (b := Z.lor _ _). split; [done|].
  split; [apply put_bit_byte; [by apply bytes_lookup_total|lia|done]|].
  destruct (mvalid_store m (padd out (Z.of_nat i)) [b]) as (m' & W & S); [by eapply mread_mvalid|]. pose proof (mwrite_mframe _ _ _ _ W) as F. cbn [length] in F.
  assert (mread m' out len = Some (<[i := b]> o)) as Ro' by (rewrite <- splice_1 by lia; apply (mread_splice m out len o i [b] m' Ro W); cbn [length]; lia).
  assert (mframe [(out, len)] m m') as F' by (eapply mframe_mono; [exact F|]; eapply (covers_sub _ out len i 1); [left|lia]).
  destruct Halias as [<-|Ha].
  - assert (x = o) as -> by congruence. exists m', (<[i := b]> o). do 3 (split; [done|]). split; [exact (set_bit_bytes o n q Bo ltac:(lia) Hq)|]. split; [|done].
    intros k Hk. pose proof (get_set_bit o n q k Hq ltac:(lia)) as H. by rewrite decide_False in H.
  - exists m', x. do 2 (split; [done|]). split; [|done]. apply (apart_read m m' _ _ _ _ F'); [by apply apart_1|done].
Qed.

Lemma cfb1_bit_ok enc n x o iv m : (n < 8 * len)%nat → bit_state x o iv m →
  let p := get_bit x n in let q := Z.lxor p (seg_key E 1 (be_num iv)) in
  ∃ m' x', cfb1_bit block c d inp out n ivec enc m = Some (tt, m') ∧
    bit_state x' (set_bit o n q) (num_bytes 16 (2 * be_num iv + (if enc then q else p))) m' ∧
    (∀ i, i ≠ n → get_bit x' i = get_bit x i) ∧ 0 <= q < 2 ∧ mframe bit_regs m m'.
Proof.
  intros Hn [Rx Ro Ri (Bx & Bo & Bi) Vc Vd] p q. assert (0 <= p < 2) as Hp by apply bit_range.
  destruct (cfb1_segment_ok enc p iv m Hp Ri Bi Vc Vd) as (m1 & m2 & y & S1 & E2 & Hq & Rd & By & Eq & Ri2 & F2). fold q in Hq, Eq, Ri2.
  assert (apart [(c, 1%nat); (d, 1%nat); (ivec, 16%nat)] out len ∧ pdisj ivec 16 out len) as [Do Dio].
  { cbn [pairwise fst snd] in Hapart. destruct Hapart as (Hc & Hd & Hi & _).
    apply List.Forall_cons_iff in Hc as [_ Hc]. apply List.Forall_cons_iff in Hc as [_ Hc]. apply List.Forall_cons_iff in Hc as [Dco _].
    apply List.Forall_cons_iff in Hd as [_ Hd]. apply List.Forall_cons_iff in Hd as [Ddo _]. apply List.Forall_cons_iff in Hi as [Dio _].
    split; [|done]. all_apart. }
  pose proof (apart_read m m2 _ _ _ _ F2 Do Ro) as Ro2. pose proof (apart_read m m2 _ _ _ _ F2 Hinp Rx) as Rx2.
  destruct (cfb1_put_ok n q x o m2 Hn Hq Rx2 Ro2 Bx Bo) as (Rob & Bw & m3 & x' & S3 & Ro3 & Rx3 & Bx' & Hx' & F3).
  pose proof (Nat.div_mod n 8 ltac:(lia)) as En. pose proof (Nat.mod_upper_bound n 8 ltac:(lia)) as Hr. pose proof (mread_length _ _ _ _ Rx) as Lx. pose proof (mread_length _ _ _ _ Ro) as Lo.
  assert (mread m (padd inp (Z.of_nat (n / 8))) 1 = Some [x !!! (n / 8)%nat]) as Rxb.
  { pose proof (mread_sub m inp len x (n / 8) 1 Rx ltac:(lia)) as H. by rewrite (slice_cons (n / 8) 0 x) in H by lia. }
  exists m3, x'. split; [|split; [|split; [done|split; [done|]]]].
  - unfold cfb1_bit. rewrite (bind_Some _ _ m _ m (load_byte_Some _ _ _ Rxb)), test_bit by lia. change (Z.shiftr _ _ mod 2) with p.
    rewrite (bind_Some _ _ m _ m1 S1), (bind_Some _ _ m1 _ m2 E2).
    rewrite (bind_Some _ _ m2 _ m2 (load_byte_Some _ _ _ Rob)), (bind_Some _ _ m2 _ m2 (load_byte_Some _ _ _ Rd)).
    rewrite high_bit by (done || lia). by rewrite Eq, (wrap_small 8).
  - split; [done|done| |split; [done|]|..].
    + apply (apart_read m2 m3 _ _ _ _ F3); [by apply apart_1, pdisj_sym|done].
    + split; [apply set_bit_bytes; [done|lia|done]|apply num_bytes_is_bytes].
    + by apply F3, F2.
    + by apply F3, F2.
  - transitivity m2; [eapply mframe_mono; [exact F2|]; exact (λ a k Ha, proj1 (proj1 (List.Forall_app _ [(c, 1%nat); (d, 1%nat); (ivec, 16%nat)] [(out, len)]) Ha))|].
    eapply mframe_mono; [exact F3|]. eapply covers_take; [by do 3 right; left|lia].
Qed.

Lemma cfb1_loop_ok enc k : ∀ n x o iv m, (n + k <= 8 * len)%nat → bit_state x o iv m →
  let '(cs, v) := cfb_segments E 1 enc (be_num iv) (get_bit x <$> seq n k) in
  ∃ m' o', cfb1_loop block c d k n inp out ivec enc m = Some (tt, m') ∧ mread m' out len = Some o' ∧ is_bytes o' ∧
    (∀ i, get_bit o' i = if decide (n <= i < n + k)%nat then cs !!! (i - n)%nat else get_bit o i) ∧
    mread m' ivec 16 = Some (num_bytes 16 v) ∧ mframe bit_regs m m'.
Proof.
  induction k as [|k IH]; intros n x o iv m Hk Hs; cbn [seq fmap list_fmap cfb_segments].
  - destruct Hs as [Rx Ro Ri (Bx & Bo & Bi) Vc Vd]. exists m, o. do 3 (split; [done|]). split; [intros i; by rewrite decide_False by lia|]. split; [|done].
    by rewrite num_bytes_reg by (split; [by eapply mread_length|done]).
  - destruct (cfb1_bit_ok enc n x o iv m ltac:(lia) Hs) as (m1 & x1 & E1 & Hs1 & Hx1 & Hq & F1). cbv zeta in Hs1, Hq |- *.
    set (q := Z.lxor (get_bit x n) (seg_key E 1 (be_num iv))) in *. set (w := 2 * be_num iv + (if enc then q else get_bit x n)) in *.
    pose proof (mread_length _ _ _ _ (bit_out _ _ _ _ Hs)) as Lo.
    specialize (IH (n + 1)%nat x1 _ _ m1 ltac:(lia) Hs1). rewrite be_num_num_bytes_16 in IH.
    assert (get_bit x1 <$> seq (n + 1) k = get_bit x <$> seq (S n) k) as Eseq.
    { rewrite Nat.add_1_r. apply list_fmap_ext. intros i j Hj. apply lookup_seq in Hj as [-> _]. apply Hx1. lia. }
    rewrite Eseq in IH. change (2 ^ 1) with 2. fold w.
    destruct (cfb_segments E 1 enc (w mod 2 ^ 128) (get_bit x <$> seq (S n) k)) as [cs v].
    destruct IH as (m2 & o' & E2 & Ro2 & Bo2 & Hbits & Ri2 & F2). exists m2, o'.
    split; [cbn [cfb1_loop]; by rewrite (bind_Some _ _ m _ m1 E1)|]. do 2 (split; [done|]). split; [|split; [done|by transitivity m1]].
    intros i. rewrite Hbits, get_set_bit by (done || lia). destruct (decide (i = n)) as [->|Hne].
    + rewrite decide_False, decide_True by lia. by rewrite Nat.sub_diag.
    + destruct (decide (n <= i < n + S k)%nat) as [Hi|Hi]; [|by rewrite decide_False by lia].
      rewrite decide_True by lia. by replace (i - n)%nat with (S (i - (n + 1))) by lia.
Qed.
End bits.

(** *** The function: it allocates [c] and [d] *)

Lemma cfb128_1_encrypt_ok block E `{!BlockFun block E} `{!BlockMap E} enc bits inp out ivec len x o iv m : (bits <= 8 * len)%nat →
  mread m inp len = Some x → mread m out len = Some o → mread m ivec 16 = Some iv → is_bytes x → is_bytes o → is_bytes iv →
  same_or_apart out inp len → pdisj out len ivec 16 → pdisj inp len ivec 16 →
  let '(cs, v) := cfb_segments E 1 enc (be_num iv) (get_bit x <$> seq 0 bits) in
  ∃ m', CRYPTO_cfb128_1_encrypt block inp out bits ivec enc m = Some (tt, m') ∧ mframe [(out, len); (ivec, 16%nat)] m m' ∧
    mread m' ivec 16 = Some (num_bytes 16 v) ∧
    ∃ o', mread m' out len = Some o' ∧ is_bytes o' ∧ ∀ i, get_bit o' i = if decide (i < bits)%nat then cs !!! i else get_bit o i.
Proof.
  intros Hbits Rx Ro Ri Bx Bo Bi Ha D1 D2. unfold CRYPTO_cfb128_1_encrypt.
  destruct (cfb_segments E 1 enc (be_num iv) (get_bit x <$> seq 0 bits)) as [cs v] eqn:Es.
  set (P := λ (_ : unit) m', mread m' ivec 16 = Some (num_bytes 16 v) ∧
    ∃ o', mread m' out len = Some o' ∧ is_bytes o' ∧ ∀ i, get_bit o' i = if decide (i < bits)%nat then cs !!! i else get_bit o i).
  assert (∀ m0 m2 m3, mvalid m0 ivec 16 → mvalid m0 out len → (∀ q k, mvalid m0 q k → mread m3 q k = mread m2 q k) → P tt m2 → P tt m3) as HP.
  { intros m0 m2 m3 V1 V2 He [H1 (o' & H2 & H3)]. split; [by rewrite He|]. exists o'. split; [by rewrite He|done]. }
  match goal with |- ∃ _, local 1 ?body m = _ ∧ _ => destruct (local_ok 1 body [(out, len); (ivec, 16%nat)] m P) as ([] & m' & H); [|by exists m'] end.
  intros bc m1 Hc F1 Vc Dc. set (c := Ptr bc 0) in *.
  assert (∀ q k l, mread m q k = Some l → mread m1 q k = Some l) as K1 by (intros q k l Hq; apply (apart_read m m1 _ _ _ _ F1); [constructor|done]).
  match goal with |- ∃ _ _, local 1 ?body m1 = _ ∧ _ => destruct (local_ok 1 body [(c, 1%nat); (out, len); (ivec, 16%nat)] m1 P) as ([] & m' & R & F & HPm) end.
  2:{ exists tt, m'. split; [exact R|]. split; [exact F|]. intros m3 H3. apply (HP m m' m3); [by eapply mread_mvalid|by eapply mread_mvalid|done|done]. }
  intros bd m2 Hd F2 Vd Dd. set (d := Ptr bd 0) in *.
  assert (∀ q k l, mread m1 q k = Some l → mread m2 q k = Some l) as K2 by (intros q k l Hq; apply (apart_read m1 m2 _ _ _ _ F2); [constructor|done]).
  assert (pairwise [(c, 1%nat); (d, 1%nat); (ivec, 16%nat); (out, len)]) as Hp.
  { pose proof (Dc ivec 16%nat (mread_mvalid _ _ _ _ Ri)). pose proof (Dc out len (mread_mvalid _ _ _ _ Ro)). pose proof (Dd c 1%nat Vc).
    pose proof (Dd ivec 16%nat (mread_mvalid _ _ _ _ (K1 _ _ _ Ri))). pose proof (Dd out len (mread_mvalid _ _ _ _ (K1 _ _ _ Ro))).
    cbn [pairwise]. repeat split; all_apart. }
  assert (apart [(c, 1%nat); (d, 1%nat); (ivec, 16%nat)] inp len) as Hx.
  { pose proof (Dc inp len (mread_mvalid _ _ _ _ Rx)). pose proof (Dd inp len (mread_mvalid _ _ _ _ (K1 _ _ _ Rx))). all_apart. }
  assert (bit_state c d inp out ivec len x o iv m2) as Hs by (split; [by apply K2, K1..|done|by apply F2|done]).
  pose proof (cfb1_loop_ok block E c d inp out ivec len Hp Hx Ha enc bits 0 x o iv m2 ltac:(lia) Hs) as Hloop. rewrite Es in Hloop.
  destruct Hloop as (m3 & o' & E3 & Ro3 & Bo3 & Hb & Ri3 & F3). exists tt, m3. split; [exact E3|]. split.
  - eapply mframe_mono; [exact F3|]. intros a k H. unfold bit_regs.
    apply List.Forall_cons_iff in H as [H1 H]. apply List.Forall_cons_iff in H as [H2 H]. apply List.Forall_cons_iff in H as [H3 H]. apply List.Forall_cons_iff in H as [H4 _]. all_apart.
  - intros m4 H4. apply (HP m1 m3 m4); [by eapply mread_mvalid, K1|by eapply mread_mvalid, K1|done|]. split; [done|]. exists o'. do 2 (split; [done|]).
    intros i. rewrite Hb, Nat.sub_0_r. destruct (decide (i < bits)%nat); [by rewrite decide_True by lia|by rewrite decide_False by lia].
Qed.

(** ** What a caller provides *)

(** The register, the input and room for the output, which may be the input. *)
Record cfbr_pre (inp out ivec : ptr) (len : nat) (iv x : list Z) (m : mem) : Prop := {
  cfbr_reg : mread m ivec 16 = Some iv;
  cfbr_inp : mread m inp len = Some x;
  cfbr_out : mvalid m out len;
  cfbr_bytes : is_bytes iv ∧ is_bytes x;
  cfbr_alias : same_or_apart out inp len;
  cfbr_apart : pdisj out len ivec 16 ∧ pdisj inp len ivec 16;
}.
