(* ===== verification/Cbc.v ===== *)
(** * Cbc: [cbc128.c]

    The block function is an argument, as in the code. Encryption pads a last block that is
    not whole, so it writes whole blocks; decryption reads whole blocks and writes only the
    bytes that were asked for. *)

From S2P Require Import Prelude Mem Own Target ModeSpec Stream Modes.

Section code.
Context {tgt : Target} (block : ptr → ptr → C unit).

(** [for (n = 0; n < 16; ++n) out[n] = in[n] ^ iv[n];], or a [size_t] at a time. *)
Definition xor_block (aligned : bool) (iv inp out : ptr) : C unit :=
  if aligned then word_loop (pad_word iv) 16 0 inp out else _ ← put_loop (pad_put iv) 16 0 inp out; mret tt.

(** [for (; n < 16; ++n) dst[n] = src[n];], [k] bytes from [n] on. *)
Fixpoint copy_rest (k n : nat) (src dst : ptr) : C unit :=
  match k with
  | O => mret tt
  | S k => b ← load_byte (padd src (Z.of_nat n)); store (padd dst (Z.of_nat n)) [b];; copy_rest k (n + 1) src dst
  end.

(** The variables [iv], [in], [out] and [len]. *)
Record cbc_vars := CbcVars { cv_iv : ptr; cv_in : ptr; cv_out : ptr; cv_len : nat }.

(** The loop [while (len >= 16)] of the encryption. *)
Fixpoint cbc_enc_loop (fuel : nat) (aligned : bool) (iv inp out : ptr) (len : nat) : C cbc_vars :=
  if decide (16 <= len)%nat then
    match fuel with
    | O => undefined
    | S fuel => xor_block aligned iv inp out;; block out out;; cbc_enc_loop fuel aligned out (padd inp 16) (padd out 16) (len - 16)
    end
  else mret (CbcVars iv inp out len).

(** [while (len) { ... if (len <= 16) break; ... }]: the pointer [iv] afterwards. *)
Fixpoint cbc_enc_last (fuel : nat) (iv inp out : ptr) (len : nat) : C ptr :=
  if decide (len = 0%nat) then mret iv else
  match fuel with
  | O => undefined
  | S fuel =>
      n ← put_loop (pad_put iv) (min 16 len) 0 inp out;
      copy_rest (16 - n) n iv out;; block out out;;
      if decide (len <= 16)%nat then mret out else cbc_enc_last fuel out (padd inp 16) (padd out 16) (len - 16)
  end.

Definition CRYPTO_cbc128_encrypt (aligned : bool) (inp out : ptr) (len : nat) (ivec : ptr) : C unit :=
  v ← cbc_enc_loop len aligned ivec inp out len;
  iv ← cbc_enc_last (cv_len v) (cv_iv v) (cv_in v) (cv_out v) (cv_len v);
  memcpy_same ivec iv 16.

(** [if (in != out)]: the chaining value is the block of input before. *)
Fixpoint cbc_dec_apart (fuel : nat) (aligned : bool) (iv inp out : ptr) (len : nat) : C cbc_vars :=
  if decide (16 <= len)%nat then
    match fuel with
    | O => undefined
    | S fuel => block inp out;; xor_block aligned iv out out;; cbc_dec_apart fuel aligned inp (padd inp 16) (padd out 16) (len - 16)
    end
  else mret (CbcVars iv inp out len).

(** [c = in[n]; out[n] = tmp.c[n] ^ ivec[n]; ivec[n] = c;], and on a [size_t]. *)
Definition cbc_dec_put (tmp ivec : ptr) (n : nat) (inp out : ptr) : C unit :=
  c ← load_byte inp; t ← load_byte (padd tmp (Z.of_nat n)); v ← load_byte (padd ivec (Z.of_nat n));
  store out [Z.lxor t v];; store (padd ivec (Z.of_nat n)) [c].
Definition cbc_dec_word (tmp ivec : ptr) (n : nat) (inp out : ptr) : C unit :=
  c ← load_size inp; t ← load_size (padd tmp (Z.of_nat n)); v ← load_size (padd ivec (Z.of_nat n));
  store_size out (Z.lxor t v);; store_size (padd ivec (Z.of_nat n)) c.

Definition dec_block (aligned : bool) (tmp ivec inp out : ptr) : C unit :=
  if aligned then word_loop (cbc_dec_word tmp ivec) 16 0 inp out else _ ← put_loop (cbc_dec_put tmp ivec) 16 0 inp out; mret tt.

(** [if (in == out)]: through [tmp]. *)
Fixpoint cbc_dec_in_place (fuel : nat) (aligned : bool) (tmp ivec inp out : ptr) (len : nat) : C cbc_vars :=
  if decide (16 <= len)%nat then
    match fuel with
    | O => undefined
    | S fuel => block inp tmp;; dec_block aligned tmp ivec inp out;; cbc_dec_in_place fuel aligned tmp ivec (padd inp 16) (padd out 16) (len - 16)
    end
  else mret (CbcVars ivec inp out len).

Fixpoint cbc_dec_last (fuel : nat) (tmp ivec inp out : ptr) (len : nat) : C unit :=
  if decide (len = 0%nat) then mret tt else
  match fuel with
  | O => undefined
  | S fuel =>
      block inp tmp;;
      n ← put_loop (cbc_dec_put tmp ivec) (min 16 len) 0 inp out;
      if decide (len <= 16)%nat then copy_rest (16 - n) n inp ivec
      else cbc_dec_last fuel tmp ivec (padd inp 16) (padd out 16) (len - 16)
  end.

Definition CRYPTO_cbc128_decrypt (aligned : bool) (inp out : ptr) (len : nat) (ivec : ptr) : C unit :=
  local 16 (λ tmp,
    v ← (if decide (inp = out) then cbc_dec_in_place len aligned tmp ivec inp out len
         else v ← cbc_dec_apart len aligned ivec inp out len; memcpy_same ivec (cv_iv v) 16;; mret v);
    cbc_dec_last (cv_len v) tmp ivec (cv_in v) (cv_out v) (cv_len v)).
End code.

(** ** One block *)

(** [len] rounded up to whole blocks, and the message padded. *)
Definition blocks16 (len : nat) : nat := 16 * ((len + 15) / 16).
Definition zero_pad (bs : list Z) : list Z := bs ++ replicate (blocks16 (length bs) - length bs) 0.

Section blocks.
Context {tgt : Target}.

Lemma reg_pair iv y : Forall (λ r : ptr * list Z, length r.2 = 16%nat ∧ is_bytes r.2) [(iv, y)] → reg_good y.
Proof. intros H. by apply List.Forall_cons_iff in H as [H _]. Qed.

Lemma xor_before iv inp out m x y : mread m iv 16 = Some y → is_bytes y → mread m inp (length x) = Some x → is_bytes x →
  mvalid m out (length x) → same_or_apart out inp (length x) → pdisj iv 16 inp (length x) → pdisj iv 16 out (length x) →
  before (regs := [(iv, 16%nat)]) (holds := reg_holds iv) (good := reg_good) y inp out x m.
Proof.
  intros Ry By Rx Bx Hv Ha Hi Ho. split; [|done..| |by apply apart_1|by apply apart_1|done]; [split; [by apply mread_length in Ry|done]|done].
Qed.

Lemma xor_bytes_ok iv inp out m x y : (length x <= 16)%nat → mread m iv 16 = Some y → is_bytes y → mread m inp (length x) = Some x → is_bytes x →
  mvalid m out (length x) → same_or_apart out inp (length x) → pdisj iv 16 inp (length x) → pdisj iv 16 out (length x) →
  ∃ m', put_loop (pad_put iv) (length x) 0 inp out m = Some (length x, m') ∧ mread m' out (length x) = Some (xor_list y x) ∧
    mframe [(out, length x)] m m'.
Proof.
  intros Hl Ry By Rx Bx Hv Ha Hi Ho. pose proof (xor_before iv inp out m x y Ry By Rx Bx Hv Ha Hi Ho) as B.
  destruct (put_loop_ok (regs := [(iv, 16%nat)]) (writes := []) (refresh_s := id) (put_s := reg_put (λ x _, x)) (refresh := mret tt) (word := pad_word iv)
    x 0 y inp out m Hl) as (m' & R & [_ _ _ Ro F]); [by rewrite !padd_0|]. rewrite padd_0 in Ro, F. apply mread_length in Ry as Ly.
  rewrite puts_reg in Ro, F by lia. cbn [fst] in Ro, F. rewrite drop_0, xor_list_take in Ro, F.
  assert (length (xor_list y x) = length x) as Lx by (unfold xor_list; rewrite length_zip_with; lia). rewrite Lx in *. by exists m'.
Qed.

Lemma xor_block_ok aligned iv inp out m x y : length x = 16%nat → mread m iv 16 = Some y → is_bytes y → mread m inp 16 = Some x → is_bytes x →
  mvalid m out 16 → same_or_apart out inp 16 → pdisj iv 16 inp 16 → pdisj iv 16 out 16 →
  ∃ m', xor_block aligned iv inp out m = Some (tt, m') ∧ mread m' out 16 = Some (xor_list y x) ∧ mframe [(out, 16%nat)] m m'.
Proof.
  intros Lx Ry By Rx Bx Hv Ha Hi Ho. unfold xor_block. destruct aligned.
  - pose proof (xor_before iv inp out m x y Ry By) as B. rewrite Lx in B. specialize (B Rx Bx Hv Ha Hi Ho). rewrite <- (padd_0 inp), <- (padd_0 out) in B.
    destruct (word_loop_ok (regs := [(iv, 16%nat)]) (writes := []) (refresh_s := id) (put_s := reg_put (λ x _, x)) (refresh := mret tt) (put := pad_put iv)
      (16 / size_bytes) 16 x 0 y inp out m) as (m' & R & [_ _ _ Ro F]); [rewrite Lx; by destruct size_bytes_ok as [-> | ->]|by rewrite Lx|by rewrite Lx|done|].
    rewrite padd_0 in Ro, F. apply mread_length in Ry as Ly. rewrite puts_reg in Ro, F by lia. cbn [fst] in Ro, F. rewrite drop_0, xor_list_take in Ro, F.
    assert (length (xor_list y x) = 16%nat) as Lxy by (unfold xor_list; rewrite length_zip_with; lia). rewrite Lxy in *. by exists m'.
  - pose proof (xor_bytes_ok iv inp out m x y ltac:(lia) Ry By) as B. rewrite Lx in B.
    destruct (B Rx Bx Hv Ha Hi Ho) as (m' & R & Ro & F). exists m'. split; [|done]. by rewrite (bind_Some _ _ m _ m' R).
Qed.

Lemma copy_rest_ok k : ∀ n src dst m bs, mread m (padd src (Z.of_nat n)) k = Some bs → mvalid m (padd dst (Z.of_nat n)) k →
  pdisj (padd dst (Z.of_nat n)) k (padd src (Z.of_nat n)) k →
  ∃ m', copy_rest k n src dst m = Some (tt, m') ∧ mwrite m (padd dst (Z.of_nat n)) bs = Some m'.
Proof.
  induction k as [|k IH]; intros n src dst m bs Hr Hv Hd.
  - apply mread_length, nil_length_inv in Hr as ->. destruct (mvalid_mwrite m _ [] Hv) as [m' W]. exists m'. split; [|done].
    by rewrite (mwrite_nil _ _ _ W).
  - apply mread_cons in Hr as (x & bs' & -> & R1 & R2). cbn [copy_rest]. rewrite (bind_Some _ _ m _ m (load_byte_Some _ _ _ R1)).
    destruct (mvalid_store m (padd dst (Z.of_nat n)) [x]) as (m1 & W & S1); [eapply mvalid_take; [exact Hv|cbn; lia]|].
    rewrite (bind_Some _ _ m _ m1 S1). rewrite padd_add in R2. replace (Z.of_nat n + 1) with (Z.of_nat (n + 1)) in R2 by lia.
    destruct (IH (n + 1)%nat src dst m1 bs') as (m' & R & W2).
    + rewrite (mread_mwrite_disj _ _ _ _ _ _ W); [done|]. cbn [length]. apply pdisj_sym. replace (Z.of_nat (n + 1)) with (Z.of_nat n + Z.of_nat 1) by lia.
      rewrite <- padd_add. apply (pdisj_sub _ (S k)); [|lia]. apply pdisj_sym. eapply pdisj_take; [exact Hd|lia].
    + eapply mvalid_mwrite_iff; [exact W|]. replace (Z.of_nat (n + 1)) with (Z.of_nat n + Z.of_nat 1) by lia. rewrite <- padd_add.
      apply (mvalid_sub m _ (S k)); [done|lia].
    + replace (Z.of_nat (n + 1)) with (Z.of_nat n + Z.of_nat 1) by lia. rewrite <- !padd_add. apply (pdisj_sub _ (S k)); [|lia].
      apply pdisj_sym, (pdisj_sub _ (S k)); [by apply pdisj_sym|lia].
    + exists m'. split; [done|]. change (x :: bs') with ([x] ++ bs'). rewrite mwrite_app, W. cbn [mbind option_bind length].
      rewrite padd_add. by replace (Z.of_nat n + Z.of_nat 1) with (Z.of_nat (n + 1)) by lia.
Qed.
End blocks.
(** ** Encryption *)

Section encrypt.
Context {tgt : Target} (block : ptr → ptr → C unit) (E : list Z → list Z) `{!BlockFun block E} `{!BlockMap E}.

Lemma block_fun_ok inp out m b : mread m inp 16 = Some b → is_bytes b → mvalid m out 16 →
  ∃ m', block inp out m = Some (tt, m') ∧ mread m' out 16 = Some (E b) ∧ mframe [(out, 16%nat)] m m'.
Proof.
  intros Hr Hb Hv. destruct (block_run inp out m b Hr Hb Hv) as (m' & R & W). exists m'. split; [done|].
  rewrite <- (map_length b). split; [exact (mread_mwrite _ _ _ _ W)|exact (mwrite_mframe _ _ _ _ W)].
Qed.

Lemma enc_block_ok aligned iv inp out m x y : length x = 16%nat → mread m iv 16 = Some y → is_bytes y → mread m inp 16 = Some x → is_bytes x →
  mvalid m out 16 → same_or_apart out inp 16 → pdisj iv 16 inp 16 → pdisj iv 16 out 16 →
  ∃ m1 m2, xor_block aligned iv inp out m = Some (tt, m1) ∧ block out out m1 = Some (tt, m2) ∧
    mread m2 out 16 = Some (E (xor_list x y)) ∧ mframe [(out, 16%nat)] m m2.
Proof.
  intros Lx Ry By Rx Bx Hv Ha Hi Ho. destruct (xor_block_ok aligned iv inp out m x y) as (m1 & R1 & Ro1 & F1); [done..|].
  destruct (block_fun_ok out out m1 (xor_list y x)) as (m2 & R2 & Ro2 & F2); [done|by apply xor_list_bytes|by apply F1|].
  exists m1, m2. rewrite xor_list_comm. do 3 (split; [done|]). by transitivity m1.
Qed.

(** The regions of the loops: the input, which may be the output, and the chaining value. *)
Definition cbc_regions (iv inp out : ptr) (n w : nat) : Prop :=
  (inp = out ∨ pdisj out w inp n) ∧ pdisj iv 16 inp n ∧ pdisj iv 16 out w.

(** One block further, the block before being the chaining value. *)
Lemma cbc_regions_next iv inp out n w : cbc_regions iv inp out (16 + n) (16 + w) →
  cbc_regions out (padd inp 16) (padd out 16) n w ∧ same_or_apart out inp 16 ∧ pdisj iv 16 inp 16 ∧ pdisj iv 16 out 16 ∧
  pdisj out 16 (padd inp 16) n.
Proof.
  intros ([->|H1] & H2 & H3); unfold cbc_regions, same_or_apart.
  - split_and!; try (by left); try solve_pdisj.
  - split_and!; try right; try solve_pdisj.
Qed.

Lemma cbc_enc_loop_ok aligned k : ∀ fuel iv inp out m bs tl y w, length bs = (16 * k)%nat → (length tl < 16)%nat → (length bs <= fuel)%nat →
  mread m iv 16 = Some y → is_bytes y → is_bytes bs → mread m inp (length bs + length tl) = Some (bs ++ tl) →
  mvalid m out (length bs + w) → cbc_regions iv inp out (length bs + length tl) (length bs + w) →
  ∃ iv' m', cbc_enc_loop block fuel aligned iv inp out (length bs + length tl) m =
      Some (CbcVars iv' (padd inp (Z.of_nat (length bs))) (padd out (Z.of_nat (length bs))) (length tl), m') ∧
    let '(cs, y') := cbc_encrypt E y bs in
    mread m' iv' 16 = Some y' ∧ is_bytes y' ∧ mread m' out (length bs) = Some cs ∧ mframe [(out, length bs)] m m' ∧
    mread m' (padd inp (Z.of_nat (length bs))) (length tl) = Some tl ∧
    cbc_regions iv' (padd inp (Z.of_nat (length bs))) (padd out (Z.of_nat (length bs))) (length tl) w.
Proof.
  induction k as [|k IH]; intros fuel iv inp out m bs tl y w Hl Ht Hf Ry By Bb Rb Hv Hreg.
  - rewrite Nat.mul_0_r in Hl. apply nil_length_inv in Hl as ->. cbn [length Nat.add] in *. exists iv, m.
    split; [destruct fuel; cbn [cbc_enc_loop]; rewrite decide_False by lia; by rewrite !padd_0|]. rewrite cbc_encrypt_nil, !padd_0.
    split; [done|]. split; [done|]. split; [apply mread_nil; eapply mvalid_take; [exact Hv|lia]|]. done.
  - apply first_block in Hl as (b & bs' & -> & Lb & Lbs). apply List.Forall_app in Bb as [Bb Bbs]. rewrite <- app_assoc in Rb.
    rewrite length_app, Lb in *. rewrite <- !Nat.add_assoc in *. pose proof Rb as Rb'.
    apply mread_split in Rb as (b0 & r & Eb & Lb0 & R1 & R2). apply app_inj_1 in Eb as [<- <-]; [|lia].
    destruct (cbc_regions_next _ _ _ _ _ Hreg) as (Hreg' & Ha & Hi & Ho & Hd).
    destruct (enc_block_ok aligned iv inp out m b y) as (m1 & m2 & E1 & E2 & Ro & F); [first [done|eapply mvalid_take; [exact Hv|lia]]..|].
    destruct fuel as [|fuel]; [lia|]. cbn [cbc_enc_loop]. rewrite decide_True by lia.
    rewrite (bind_Some _ _ m _ m1 E1), (bind_Some _ _ m1 _ m2 E2). replace (16 + (length bs' + length tl) - 16)%nat with (length bs' + length tl)%nat by lia.
    destruct (IH fuel out (padd inp 16) (padd out 16) m2 bs' tl (E (xor_list b y)) w) as (iv' & m' & Erun & Hpost);
      [done|done|lia|done|apply map_bytes|done| | |done|].
    { apply (apart_read m m2 _ _ _ _ F); [by apply apart_1|exact R2]. }
    { apply F. apply (mvalid_sub m out (16 + (length bs' + w)) 16); [exact Hv|lia]. }
    exists iv', m'. rewrite !padd_add in Erun, Hpost. rewrite Nat2Z.inj_add. split; [exact Erun|]. rewrite cbc_encrypt_cons by done. cbv zeta.
    destruct (cbc_encrypt E _ bs') as [cs y'] eqn:Ecbc. destruct Hpost as (P1 & P2 & P3 & P4 & P5 & P6).
    split; [done|]. split; [done|]. split; [|split; [|done]].
    + apply mread_join; [|exact P3]. apply (apart_read m2 m' _ _ _ _ P4); [|done]. apply apart_1. clear. solve_pdisj.
    + transitivity m2; [eapply mframe_mono; [exact F|]; eapply covers_take; [left|lia]|].
      eapply mframe_mono; [exact P4|]. eapply (covers_sub _ out (16 + length bs') 16); [left|lia].
Qed.

Lemma xor_zero_pad tl y : (length tl <= 16)%nat → length y = 16%nat →
  xor_list y tl ++ drop (length tl) y = xor_list y (tl ++ replicate (16 - length tl) 0).
Proof.
  intros Ht Hy. unfold xor_list. rewrite <- (take_drop (length tl) y) at 3. rewrite zip_with_app by (rewrite length_take; lia).
  assert (zip_with Z.lxor (take (length tl) y) tl = zip_with Z.lxor y tl) as -> by apply xor_list_take. f_equal.
  assert (length (drop (length tl) y) = 16 - length tl)%nat as Hd by (rewrite length_drop; lia). rewrite <- Hd. generalize (drop (length tl) y).
  intros l. induction l as [|x l IH]; [done|]. cbn. by rewrite Z.lxor_0_r, <- IH.
Qed.

Lemma zero_pad_last tl : tl ≠ [] → (length tl < 16)%nat → zero_pad tl = tl ++ replicate (16 - length tl) 0 ∧ blocks16 (length tl) = 16%nat.
Proof.
  intros Hne Hl. assert (0 < length tl)%nat by (destruct tl; [done|cbn; lia]). unfold zero_pad.
  assert (blocks16 (length tl) = 16%nat) as H16; [|by rewrite H16]. unfold blocks16.
  replace ((length tl + 15) / 16)%nat with 1%nat; [done|]. apply (Nat.div_unique _ 16 1 (length tl - 1)); lia.
Qed.

Lemma cbc_enc_last_ok fuel iv inp out m tl y : (length tl < 16)%nat → (length tl <= fuel)%nat →
  mread m iv 16 = Some y → is_bytes y → is_bytes tl → mread m inp (length tl) = Some tl →
  mvalid m out (blocks16 (length tl)) → cbc_regions iv inp out (length tl) (blocks16 (length tl)) →
  ∃ iv' m', cbc_enc_last block fuel iv inp out (length tl) m = Some (iv', m') ∧
    let '(cs, y') := cbc_encrypt E y (zero_pad tl) in
    mread m' iv' 16 = Some y' ∧ mread m' out (blocks16 (length tl)) = Some cs ∧ mframe [(out, blocks16 (length tl))] m m' ∧
    (iv' = iv ∨ iv' = out ∧ blocks16 (length tl) = 16%nat).
Proof.
  intros Hl Hf Ry By Bt Rt Hv Hreg. pose proof (mread_length _ _ _ _ Ry) as Ly. destruct (decide (tl = [])) as [->|Hne].
  - exists iv, m. split; [by destruct fuel|]. change (zero_pad []) with ([] : list Z). rewrite cbc_encrypt_nil. split; [done|].
    split; [by apply mread_nil|]. split; [reflexivity|by left].
  - destruct (zero_pad_last tl Hne Hl) as [Ez Ew]. rewrite Ez, Ew in *. clear Ez Ew. destruct fuel as [|fuel]; [by destruct tl; cbn in Hf; [|lia]|].
    cbn [cbc_enc_last]. rewrite decide_False by (by destruct tl). rewrite Nat.min_r by lia. destruct Hreg as (Ha & Hi & Ho).
    destruct (xor_bytes_ok iv inp out m tl y) as (m1 & R1 & Ro1 & F1); [lia|done..|eapply mvalid_take; [exact Hv|lia]| |done| |].
    { destruct Ha as [->|Ha]; [by left|right]. eapply pdisj_take; [exact Ha|lia]. }
    { apply pdisj_sym. eapply pdisj_take; [apply pdisj_sym; exact Ho|lia]. }
    rewrite (bind_Some _ _ m _ m1 R1).
    assert (mread m1 iv 16 = Some y) as Ry1.
    { apply (apart_read m m1 _ _ _ _ F1); [|done]. apply apart_1, pdisj_sym. apply pdisj_sym. eapply pdisj_take; [apply pdisj_sym; exact Ho|lia]. }
    destruct (copy_rest_ok (16 - length tl) (length tl) iv out m1 (drop (length tl) y)) as (m2 & R2 & W2).
    { pose proof (mread_sub _ _ _ _ (length tl) (16 - length tl) Ry1 ltac:(lia)) as H. by rewrite take_ge in H by (rewrite length_drop; lia). }
    { apply F1. apply (mvalid_sub m out 16); [done|lia]. }
    { apply (pdisj_sub _ 16); [|lia]. apply pdisj_sym, (pdisj_sub _ 16); [done|lia]. }
    rewrite (bind_Some _ _ m1 _ m2 R2).
    assert (length (drop (length tl) y) = 16 - length tl)%nat as Ld by (rewrite length_drop; lia).
    assert (mread m2 out 16 = Some (xor_list y (tl ++ replicate (16 - length tl) 0))) as Ro2.
    { rewrite <- xor_zero_pad by lia. replace 16%nat with (length tl + (16 - length tl))%nat at 1 by lia. apply mread_join.
      - rewrite (mread_mwrite_disj _ _ _ _ _ _ W2); [done|]. apply pdisj_sym, pdisj_next. lia.
      - rewrite <- Ld at 1. exact (mread_mwrite _ _ _ _ W2). }
    assert (mframe [(out, 16%nat)] m m2) as F2.
    { transitivity m1; [eapply mframe_mono; [exact F1|]; eapply covers_take; [left|lia]|].
      eapply mframe_mono; [exact (mwrite_mframe _ _ _ _ W2)|]. rewrite Ld. eapply (covers_sub _ out 16); [left|lia]. }
    assert (is_bytes (tl ++ replicate (16 - length tl) 0)) as Bz by (apply Forall_app_2; [done|by apply Forall_replicate]).
    destruct (block_fun_ok out out m2 _ Ro2) as (m3 & R3 & Ro3 & F3); [by apply xor_list_bytes|by apply F2|].
    rewrite (bind_Some _ _ m2 _ m3 R3). rewrite decide_True by lia. exists out, m3. split; [done|].
    rewrite <- (app_nil_r (tl ++ _)). rewrite cbc_encrypt_cons by (rewrite length_app, length_replicate; lia). cbv zeta. rewrite cbc_encrypt_nil, app_nil_r.
    rewrite xor_list_comm. do 2 (split; [done|]). split; [by transitivity m2|by right].
Qed.

(** The pointer the loop ends with: the one it was given, or a block of the output. *)
Lemma cbc_enc_loop_iv aligned fuel : ∀ iv inp out len m v m', cbc_enc_loop block fuel aligned iv inp out len m = Some (v, m') →
  (cv_len v <= len)%nat ∧ (cv_iv v = iv ∨ ∃ i, (i + 16 + cv_len v <= len)%nat ∧ cv_iv v = padd out (Z.of_nat i)).
Proof.
  induction fuel as [|fuel IH]; intros iv inp out len m v m'; cbn [cbc_enc_loop]; case_decide; try done; try (intros [= <- <-]; split; [done|by left]).
  intros (? & m1 & _ & (? & m2 & _ & Er)%bind_inv)%bind_inv. destruct (IH _ _ _ _ _ _ _ Er) as [Hl [->|(i & Hi & ->)]]; (split; [lia|right]).
  - exists 0%nat. rewrite padd_0. split; [lia|done].
  - exists (16 + i)%nat. change 16 with (Z.of_nat 16). rewrite padd_add, Nat2Z.inj_add. split; [lia|done].
Qed.

Lemma blocks16_add k n : blocks16 (16 * k + n) = (16 * k + blocks16 n)%nat.
Proof. unfold blocks16. rewrite <- Nat.mul_add_distr_l. f_equal. rewrite <- Nat.add_assoc, (Nat.mul_comm 16). by rewrite Nat.div_add_l by lia. Qed.

Lemma zero_pad_app k bs tl : length bs = (16 * k)%nat → zero_pad (bs ++ tl) = bs ++ zero_pad tl.
Proof.
  intros Hl. unfold zero_pad. rewrite length_app, Hl, blocks16_add, <- app_assoc. do 3 f_equal. lia.
Qed.

(** A message cut into whole blocks and the rest. *)
Lemma cut_blocks (bs : list Z) : ∃ k b tl, bs = b ++ tl ∧ length b = (16 * k)%nat ∧ (length tl < 16)%nat.
Proof.
  exists (length bs / 16)%nat, (take (16 * (length bs / 16)) bs), (drop (16 * (length bs / 16)) bs).
  pose proof (Nat.div_mod (length bs) 16 ltac:(lia)) as Hd. pose proof (Nat.mod_upper_bound (length bs) 16 ltac:(lia)).
  rewrite take_drop, length_take, length_drop. split; [done|]. lia.
Qed.

(** What a caller provides, in both directions: [n] bytes are read and [w] are written. *)
Record cbc_pre (inp out ivec : ptr) (n w : nat) (iv bs : list Z) (m : mem) : Prop := {
  cbc_iv : mread m ivec 16 = Some iv;
  cbc_iv_bytes : is_bytes iv;
  cbc_bytes : is_bytes bs;
  cbc_read : mread m inp n = Some bs;
  cbc_valid : mvalid m out w;
  cbc_apart : cbc_regions ivec inp out n w;
}.

Lemma cbc128_encrypt_ok aligned inp out ivec iv bs m : cbc_pre inp out ivec (length bs) (blocks16 (length bs)) iv bs m →
  ∃ m', CRYPTO_cbc128_encrypt block aligned inp out (length bs) ivec m = Some (tt, m') ∧
    let '(cs, iv') := cbc_encrypt E iv (zero_pad bs) in
    mread m' out (blocks16 (length bs)) = Some cs ∧ mread m' ivec 16 = Some iv' ∧
    mframe [(out, blocks16 (length bs)); (ivec, 16%nat)] m m'.
Proof.
  intros [Ry By Bb Rb Hv Hreg]. destruct (cut_blocks bs) as (k & b & tl & -> & Lb & Lt). rewrite length_app in *.
  apply List.Forall_app in Bb as [Bb Bt]. rewrite (zero_pad_app k) by done.
  assert (blocks16 (length b + length tl) = length b + blocks16 (length tl))%nat as Ew by (by rewrite Lb, blocks16_add). rewrite Ew in *.
  destruct (cbc_enc_loop_ok aligned k (length b + length tl) ivec inp out m b tl iv (blocks16 (length tl))) as (iv1 & m1 & R1 & H1); [done|done|lia|done..|].
  unfold CRYPTO_cbc128_encrypt. rewrite (bind_Some _ _ m _ m1 R1). cbn [cv_iv cv_in cv_out cv_len].
  unfold cbc_encrypt. rewrite (cbc_enc_app E k) by done. fold (cbc_encrypt E iv b). destruct (cbc_encrypt E iv b) as [cs1 y1].
  destruct H1 as (P1 & P2 & P3 & P4 & P5 & P6).
  destruct (cbc_enc_last_ok (length tl) iv1 (padd inp (Z.of_nat (length b))) (padd out (Z.of_nat (length b))) m1 tl y1 Lt (le_n _) P1 P2 Bt P5) as (iv2 & m2 & R2 & H2); [|exact P6|].
  { apply P4. apply (mvalid_sub m out (length b + blocks16 (length tl)) (length b)); [exact Hv|lia]. }
  rewrite (bind_Some _ _ m1 _ m2 R2). fold (cbc_encrypt E y1 (zero_pad tl)). destruct (cbc_encrypt E y1 (zero_pad tl)) as [cs2 y2].
  destruct H2 as (Q1 & Q2 & Q3 & Q4). pose proof (mread_length _ _ _ _ Q1) as L2. destruct Hreg as (_ & _ & Ho).
  assert (same_or_apart ivec iv2 16) as Hiv.
  { apply cbc_enc_loop_iv in R1 as [_ H1]. cbn [cv_iv cv_len] in H1. clear - Lb Lt Ho H1 Q4. destruct Q4 as [->|[-> E16]].
    - destruct H1 as [->|(i & Hi & ->)]; [by left|right]. apply pdisj_sym, (pdisj_sub _ (length b + blocks16 (length tl))); [by apply pdisj_sym|lia].
    - right. rewrite E16 in Ho. apply pdisj_sym, (pdisj_sub _ (length b + 16)); [by apply pdisj_sym|lia]. }
  assert (mframe [(out, (length b + blocks16 (length tl))%nat)] m m2) as F.
  { transitivity m1; [eapply mframe_mono; [exact P4|]; eapply covers_take; [left|lia]|].
    eapply mframe_mono; [exact Q3|]. eapply (covers_sub _ out _ (length b)); [left|lia]. }
  destruct (mvalid_store m2 ivec y2) as (m3 & W & S3); [rewrite L2; apply F; by eapply mread_mvalid|].
  exists m3. split; [by apply (memcpy_same_Some _ _ _ _ y2)|]. pose proof (mwrite_mframe _ _ _ _ W) as F3. rewrite L2 in F3. split; [|split].
  - apply (apart_read m2 m3 _ _ _ _ F3); [by apply apart_1|]. apply mread_join; [|done].
    apply (apart_read m1 m2 _ _ _ _ Q3); [|done]. apply apart_1, pdisj_sym, pdisj_next. lia.
  - rewrite <- L2. exact (mread_mwrite _ _ _ _ W).
  - transitivity m2; [eapply mframe_mono; [exact F|]; intros q j Hq; inversion Hq; by constructor|].
    eapply mframe_mono; [exact F3|]. intros q j Hq; inversion Hq; by subst.
Qed.
End encrypt.

(** ** Decryption *)

(** The state of the loop over a block: the chaining value, replaced byte after byte by the
    input, and the decrypted block. *)
Definition dec_step (n : nat) (b : Z) (s : list Z * list Z) : Z * (list Z * list Z) :=
  (Z.lxor (s.2 !!! n) (s.1 !!! n), (<[n := b]> s.1, s.2)).

Lemma puts_dec bs : ∀ n s, (n + length bs <= length s.1)%nat → (n + length bs <= length s.2)%nat →
  puts dec_step n s bs = (xor_list (take (length bs) (drop n s.2)) (take (length bs) (drop n s.1)), (splice n bs s.1, s.2)).
Proof.
  induction bs as [|b bs IH]; intros n s H1 H2; cbn [length] in *.
  - cbn [puts]. destruct s as [iv t]. unfold splice. cbn [length app fst snd]. by rewrite Nat.add_0_r, take_drop.
  - cbn [puts]. unfold dec_step at 1. rewrite IH by (cbn [fst snd]; rewrite ?length_insert; lia). cbn [fst snd].
    rewrite (slice_cons n (length bs) s.1), (slice_cons n (length bs) s.2) by lia. unfold xor_list. cbn [zip_with].
    rewrite drop_insert_lt by lia. by rewrite splice_insert by lia.
Qed.

Section dec_block.
Context {tgt : Target} (tmp ivec : ptr) (Hd : pdisj ivec 16 tmp 16).

Lemma dec_step_good n b s : (n < 16)%nat → ctr_good s → is_byte b → is_byte (dec_step n b s).1 ∧ ctr_good (dec_step n b s).2.
Proof.
  intros Hn [[L1 B1] [L2 B2]] Hb. split; [apply is_word_lxor; [done|by apply bytes_lookup_total..]|]. split; [|done]. cbn.
  split; [by rewrite length_insert|]. by apply Forall_insert.
Qed.

Lemma dec_writes m s n k out new res : ctr_holds ivec tmp s m → (n + k <= 16)%nat → length new = k → length res = k → mvalid m out k →
  apart [(ivec, 16%nat); (tmp, 16%nat)] out k →
  ∃ m1 m2, store out res m = Some (tt, m1) ∧ store (padd ivec (Z.of_nat n)) new m1 = Some (tt, m2) ∧
    ctr_holds ivec tmp (splice n new s.1, s.2) m2 ∧ mread m2 out k = Some res ∧ mframe [(out, k); (ivec, 16%nat)] m m2.
Proof.
  intros [H1 H2] Hn Ln Lr Hv Ho. apply List.Forall_cons_iff in Ho as [Ho1 Ho2]. apply apart_1 in Ho2. cbn [fst snd] in *.
  destruct (write_both ivec m s.1 n k new out res H1 Hn Ln Lr Hv Ho1) as [_ (m1 & m2 & S1 & S2 & W1 & W2 & W3)].
  exists m1, m2. do 2 (split; [done|]). split; [|done]. split; [done|].
  apply (apart_read m m2 _ _ _ _ W3); [|done]. constructor; [by apply pdisj_sym|by apply apart_1].
Qed.

#[export] Instance dec_mode :
  StreamMode [(ivec, 16%nat); (tmp, 16%nat)] [(ivec, 16%nat)] (ctr_holds ivec tmp) ctr_good (mret tt) (cbc_dec_put tmp ivec) (cbc_dec_word tmp ivec) id dec_step.
Proof.
  split.
  - eapply covers_take; [left|lia].
  - apply ctr_frame.
  - done.
  - apply dec_step_good.
  - intros s m _ Hh. by exists m.
  - intros n b s inp out m Hn Hg Hh Hb Hr Hv Hi Ho. pose proof Hg as [G1 G2]. pose proof Hh as [H1 H2].
    destruct (dec_writes m s n 1 out [b] [Z.lxor (s.2 !!! n) (s.1 !!! n)] Hh ltac:(lia) eq_refl eq_refl Hv Ho) as (m1 & m2 & S1 & S2 & W1 & W2 & W3).
    exists m2. rewrite splice_1 in W1 by (destruct G1; lia). split; [|done]. unfold cbc_dec_put.
    rewrite (bind_Some _ _ m _ m (load_byte_Some _ _ _ Hr)), (bind_Some _ _ m _ m (reg_byte tmp m s.2 n H2 G2 Hn)), (bind_Some _ _ m _ m (reg_byte ivec m s.1 n H1 G1 Hn)).
    by rewrite (bind_Some _ _ m _ m1 S1).
  - intros n bs s inp out m Hn Hg Hh Hb Hr Hv Hi Ho _. pose proof (mread_length _ _ _ _ Hr) as Hl. pose proof Hg as [G1 G2]. pose proof Hh as [H1 H2].
    rewrite puts_dec by (destruct G1, G2; lia). rewrite Hl. cbn [fst snd].
    pose proof (reg_slice_length s.1 n size_bytes G1 Hn) as L1. pose proof (reg_slice_length s.2 n size_bytes G2 Hn) as L2.
    destruct (dec_writes m s n size_bytes out bs (xor_list (take size_bytes (drop n s.2)) (take size_bytes (drop n s.1))) Hh Hn Hl) as (m1 & m2 & S1 & S2 & W);
      [rewrite xor_list_length; lia|done|done|]. exists m2. split; [|done]. unfold cbc_dec_word.
    rewrite (bind_Some _ _ m _ m (load_size_bytes _ _ _ Hr)), (bind_Some _ _ m _ m (load_size_bytes _ _ _ (reg_slice tmp m s.2 n size_bytes H2 Hn))),
      (bind_Some _ _ m _ m (load_size_bytes _ _ _ (reg_slice ivec m s.1 n size_bytes H1 Hn))).
    rewrite store_size_xor, store_size_bytes by (done || by apply reg_slice_bytes). by rewrite (bind_Some _ _ m _ m1 S1).
Qed.

Lemma dec_before inp out m x iv t : ctr_holds ivec tmp (iv, t) m → ctr_good (iv, t) → mread m inp (length x) = Some x → is_bytes x →
  mvalid m out (length x) → same_or_apart out inp (length x) →
  apart [(ivec, 16%nat); (tmp, 16%nat)] inp (length x) → apart [(ivec, 16%nat); (tmp, 16%nat)] out (length x) →
  before (regs := [(ivec, 16%nat); (tmp, 16%nat)]) (holds := ctr_holds ivec tmp) (good := ctr_good) (iv, t) inp out x m.
Proof. by split. Qed.

(** The first bytes of a block, and a whole block. *)
Lemma dec_bytes_ok inp out m x iv t : (length x <= 16)%nat → ctr_holds ivec tmp (iv, t) m → ctr_good (iv, t) →
  mread m inp (length x) = Some x → is_bytes x → mvalid m out (length x) → same_or_apart out inp (length x) →
  apart [(ivec, 16%nat); (tmp, 16%nat)] inp (length x) → apart [(ivec, 16%nat); (tmp, 16%nat)] out (length x) →
  ∃ m', put_loop (cbc_dec_put tmp ivec) (length x) 0 inp out m = Some (length x, m') ∧ ctr_holds ivec tmp (splice 0 x iv, t) m' ∧
    mread m' out (length x) = Some (take (length x) (xor_list t iv)) ∧ mframe [(out, length x); (ivec, 16%nat)] m m'.
Proof.
  intros Hl Hh Hg Rx Bx Hv Ha Hi Ho. pose proof (dec_before inp out m x iv t Hh Hg Rx Bx Hv Ha Hi Ho) as B. destruct Hg as [[L1 _] [L2 _]]. cbn [fst snd] in *.
  destruct (put_loop_ok (refresh := mret tt) (word := cbc_dec_word tmp ivec) (refresh_s := id) (put_s := dec_step) (writes := [(ivec, 16%nat)])
    x 0 (iv, t) inp out m Hl) as (m' & R & [_ Hh' _ Ro F]); [by rewrite !padd_0|]. rewrite padd_0 in Ro, F.
  rewrite puts_dec in Hh', Ro, F by (cbn [fst snd]; lia). cbn [fst snd] in Hh', Ro, F. rewrite !drop_0 in *.
  assert (xor_list (take (length x) t) (take (length x) iv) = take (length x) (xor_list t iv)) as E by (unfold xor_list; by rewrite zip_with_take_both).
  rewrite E in *. assert (length (take (length x) (xor_list t iv)) = length x) as Lx.
  { rewrite length_take, xor_list_length by lia. lia. }
  rewrite Lx in *. by exists m'.
Qed.

Lemma dec_block_ok aligned inp out m x iv t : length x = 16%nat → ctr_holds ivec tmp (iv, t) m → ctr_good (iv, t) →
  mread m inp 16 = Some x → is_bytes x → mvalid m out 16 → same_or_apart out inp 16 →
  apart [(ivec, 16%nat); (tmp, 16%nat)] inp 16 → apart [(ivec, 16%nat); (tmp, 16%nat)] out 16 →
  ∃ m', dec_block aligned tmp ivec inp out m = Some (tt, m') ∧ mread m' ivec 16 = Some x ∧
    mread m' out 16 = Some (xor_list t iv) ∧ mframe [(out, 16%nat); (ivec, 16%nat)] m m'.
Proof.
  intros Lx Hh Hg Rx Bx Hv Ha Hi Ho. pose proof Hg as [[L1 _] [L2 _]]. cbn [fst snd] in *.
  assert (splice 0 x iv = x) as Es by (unfold splice; cbn [take app]; rewrite (drop_ge iv), app_nil_r; [done|lia]).
  assert (take 16 (xor_list t iv) = xor_list t iv) as Et by (apply take_ge; rewrite xor_list_length; lia).
  unfold dec_block. destruct aligned.
  - pose proof (dec_before inp out m x iv t Hh Hg) as B. rewrite Lx in B. specialize (B Rx Bx Hv Ha Hi Ho). rewrite <- (padd_0 inp), <- (padd_0 out) in B.
    destruct (word_loop_ok (refresh := mret tt) (put := cbc_dec_put tmp ivec) (refresh_s := id) (put_s := dec_step) (writes := [(ivec, 16%nat)])
      (16 / size_bytes) 16 x 0 (iv, t) inp out m) as (m' & R & [_ Hh' _ Ro F]); [rewrite Lx; by destruct size_bytes_ok as [-> | ->]|by rewrite Lx|by rewrite Lx|done|].
    rewrite padd_0 in Ro, F. rewrite puts_dec in Hh', Ro, F by (cbn [fst snd]; lia). cbn [fst snd] in Hh', Ro, F. rewrite !drop_0, Lx, !take_ge in Ro, F by lia.
    assert (length (xor_list t iv) = 16%nat) as Lxy by (rewrite xor_list_length; lia). rewrite Lxy in *. exists m'. split; [done|]. split; [|done].
    destruct Hh' as [H1 _]. cbn [fst] in H1. by rewrite Es in H1.
  - pose proof (dec_bytes_ok inp out m x iv t ltac:(lia) Hh Hg) as B. rewrite Lx, Et, Es in B.
    destruct (B Rx Bx Hv Ha Hi Ho) as (m' & R & [H1 _] & Ro & F). exists m'. split; [|done]. by rewrite (bind_Some _ _ m _ m' R).
Qed.
End dec_block.

Section decrypt.
Context {tgt : Target} (block : ptr → ptr → C unit) (D : list Z → list Z) `{!BlockFun block D} `{!BlockMap D}.

Lemma cbc_dec_apart_ok aligned k : ∀ fuel iv inp out m bs tl l y, length bs = (16 * k)%nat → (l < 16)%nat → (length bs <= fuel)%nat →
  mread m iv 16 = Some y → is_bytes y → is_bytes bs → mread m inp (length bs + length tl) = Some (bs ++ tl) →
  mvalid m out (length bs + l) → pdisj out (length bs + l) inp (length bs + length tl) → pdisj iv 16 out (length bs + l) →
  ∃ iv' m', cbc_dec_apart block fuel aligned iv inp out (length bs + l) m =
      Some (CbcVars iv' (padd inp (Z.of_nat (length bs))) (padd out (Z.of_nat (length bs))) l, m') ∧
    let '(ps, y') := cbc_decrypt D y bs in
    mread m' iv' 16 = Some y' ∧ is_bytes y' ∧ mread m' out (length bs) = Some ps ∧ mframe [(out, length bs)] m m'.
Proof.
  induction k as [|k IH]; intros fuel iv inp out m bs tl l y Hl Ht Hf Ry By Bb Rb Hv Ha Ho.
  - rewrite Nat.mul_0_r in Hl. apply nil_length_inv in Hl as ->. cbn [length Nat.add] in *. exists iv, m.
    split; [destruct fuel; cbn [cbc_dec_apart]; rewrite decide_False by lia; by rewrite !padd_0|]. change (cbc_decrypt D y []) with (([] : list Z), y).
    split; [done|]. split; [done|]. split; [apply mread_nil; eapply mvalid_take; [exact Hv|lia]|]. done.
  - apply first_block in Hl as (b & bs' & -> & Lb & Lbs). apply List.Forall_app in Bb as [Bb Bbs]. rewrite <- app_assoc in Rb.
    rewrite length_app, Lb in *. rewrite <- !Nat.add_assoc in *.
    apply mread_split in Rb as (b0 & r & Eb & Lb0 & R1 & R2). apply app_inj_1 in Eb as [<- <-]; [|lia].
    assert (pdisj out 16 inp 16) as A1 by (clear - Ha; solve_pdisj).
    assert (pdisj out 16 (padd inp 16) (length bs' + length tl)) as A2 by (clear - Ha; solve_pdisj).
    assert (pdisj out 16 iv 16) as A3 by (clear - Ho; solve_pdisj).
    destruct (block_fun_ok block D inp out m b R1 Bb) as (m1 & E1 & Ro1 & F1); [eapply mvalid_take; [exact Hv|lia]|].
    assert (mread m1 iv 16 = Some y) as Ry1 by (apply (apart_read m m1 _ _ _ _ F1); [by apply apart_1|done]).
    destruct (xor_block_ok aligned iv out out m1 (D b) y) as (m2 & E2 & Ro2 & F2);
      [apply map_length|done|done|done|apply map_bytes|apply F1; eapply mvalid_take; [exact Hv|lia]|by left|by apply pdisj_sym..|].
    assert (mframe [(out, 16%nat)] m m2) as F by (by transitivity m1).
    destruct fuel as [|fuel]; [lia|]. cbn [cbc_dec_apart]. rewrite decide_True by lia.
    rewrite (bind_Some _ _ m _ m1 E1), (bind_Some _ _ m1 _ m2 E2). replace (16 + (length bs' + l) - 16)%nat with (length bs' + l)%nat by lia.
    destruct (IH fuel inp (padd inp 16) (padd out 16) m2 bs' tl l b) as (iv' & m' & Erun & Hpost);
      [done|done|lia|by apply (apart_read m m2 _ _ _ _ F); [apply apart_1|]|done|done|by apply (apart_read m m2 _ _ _ _ F); [apply apart_1|]| | | |].
    { apply F. apply (mvalid_sub m out (16 + (length bs' + l)) 16); [exact Hv|lia]. }
    { clear - Ha. solve_pdisj. }
    { clear - Ha. solve_pdisj. }
    exists iv', m'. rewrite !padd_add in Erun. rewrite Nat2Z.inj_add. split; [exact Erun|]. rewrite cbc_decrypt_cons by done.
    destruct (cbc_decrypt D b bs') as [ps y']. destruct Hpost as (P1 & P2 & P3 & P4). rewrite xor_list_comm.
    split; [done|]. split; [done|]. split.
    + apply mread_join; [|exact P3]. apply (apart_read m2 m' _ _ _ _ P4); [|done]. apply apart_1. clear. solve_pdisj.
    + transitivity m2; [eapply mframe_mono; [exact F|]; eapply covers_take; [left|lia]|].
      eapply mframe_mono; [exact P4|]. eapply (covers_sub _ out (16 + length bs') 16); [left|lia].
Qed.

(** The local block is apart from what the caller gives. *)
Definition dec_regions (tmp ivec inp out : ptr) (n w : nat) : Prop :=
  cbc_regions ivec inp out n w ∧ pdisj tmp 16 inp n ∧ pdisj tmp 16 out w ∧ pdisj ivec 16 tmp 16.

Lemma cbc_dec_in_place_ok aligned k : ∀ fuel tmp ivec inp out m bs tl l iv, length bs = (16 * k)%nat → (l < 16)%nat → (length bs <= fuel)%nat →
  mread m ivec 16 = Some iv → is_bytes iv → mvalid m tmp 16 → is_bytes bs → mread m inp (length bs + length tl) = Some (bs ++ tl) →
  mvalid m out (length bs + l) → dec_regions tmp ivec inp out (length bs + length tl) (length bs + l) →
  ∃ m', cbc_dec_in_place block fuel aligned tmp ivec inp out (length bs + l) m =
      Some (CbcVars ivec (padd inp (Z.of_nat (length bs))) (padd out (Z.of_nat (length bs))) l, m') ∧
    let '(ps, y') := cbc_decrypt D iv bs in
    mread m' ivec 16 = Some y' ∧ is_bytes y' ∧ mread m' out (length bs) = Some ps ∧
    mframe [(out, length bs); (ivec, 16%nat); (tmp, 16%nat)] m m'.
Proof.
  induction k as [|k IH]; intros fuel tmp ivec inp out m bs tl l iv Hl Ht Hf Ry By Vt Bb Rb Hv Hreg.
  - rewrite Nat.mul_0_r in Hl. apply nil_length_inv in Hl as ->. cbn [length Nat.add] in *. exists m.
    split; [destruct fuel; cbn [cbc_dec_in_place]; rewrite decide_False by lia; by rewrite !padd_0|]. change (cbc_decrypt D iv []) with (([] : list Z), iv).
    split; [done|]. split; [done|]. split; [apply mread_nil; eapply mvalid_take; [exact Hv|lia]|]. done.
  - apply first_block in Hl as (b & bs' & -> & Lb & Lbs). apply List.Forall_app in Bb as [Bb Bbs]. rewrite <- app_assoc in Rb.
    rewrite length_app, Lb in *. rewrite <- !Nat.add_assoc in *. pose proof (mread_length _ _ _ _ Ry) as Ly.
    apply mread_split in Rb as (b0 & r & Eb & Lb0 & R1 & R2). apply app_inj_1 in Eb as [<- <-]; [|lia].
    destruct Hreg as ((Ha & H1 & H2) & H3 & H4 & H5).
    assert (apart [(tmp, 16%nat)] ivec 16) as A1 by (by apply apart_1, pdisj_sym).
    assert (apart [(tmp, 16%nat)] inp 16 ∧ apart [(tmp, 16%nat)] (padd inp 16) (length bs' + length tl)) as [A2 A2']
      by (clear - H3; split; apply apart_1; solve_pdisj).
    assert (apart [(ivec, 16%nat); (tmp, 16%nat)] inp 16) as A3 by (clear - H1 H3; constructor; [|apply apart_1]; cbn [fst snd]; solve_pdisj).
    assert (apart [(ivec, 16%nat); (tmp, 16%nat)] out 16) as A4 by (clear - H2 H4; constructor; [|apply apart_1]; cbn [fst snd]; solve_pdisj).
    assert (same_or_apart out inp 16) as A5 by (clear - Ha; destruct Ha as [->|]; [by left|right; solve_pdisj]).
    assert (apart [(out, 16%nat); (ivec, 16%nat)] (padd inp 16) (length bs' + length tl)) as A6.
    { clear - Ha H1 H3. constructor; [|apply apart_1]; cbn [fst snd]; solve_pdisj. }
    destruct (block_fun_ok block D inp tmp m b R1 Bb Vt) as (m1 & E1 & Ro1 & F1).
    assert (ctr_holds ivec tmp (iv, D b) m1) as Hh1 by (split; [by apply (apart_read m m1 _ _ _ _ F1)|done]).
    destruct (dec_block_ok tmp ivec H5 aligned inp out m1 b iv (D b) Lb Hh1) as (m2 & E2 & Ry2 & Ro2 & F2);
      [split; [by split|by apply reg_good_map]|by apply (apart_read m m1 _ _ _ _ F1)|done|apply F1; eapply mvalid_take; [exact Hv|lia]|done..|].
    destruct fuel as [|fuel]; [lia|]. cbn [cbc_dec_in_place]. rewrite decide_True by lia.
    rewrite (bind_Some _ _ m _ m1 E1), (bind_Some _ _ m1 _ m2 E2). replace (16 + (length bs' + l) - 16)%nat with (length bs' + l)%nat by lia.
    destruct (IH fuel tmp ivec (padd inp 16) (padd out 16) m2 bs' tl l b) as (m' & Erun & Hpost); [done|done|lia|done|done| |done| | | |].
    { by apply F2, F1. }
    { apply (apart_read m1 m2 _ _ _ _ F2); [done|]. by apply (apart_read m m1 _ _ _ _ F1). }
    { apply F2, F1. apply (mvalid_sub m out (16 + (length bs' + l)) 16); [exact Hv|lia]. }
    { clear - Ha H1 H2 H3 H4 H5. unfold dec_regions, cbc_regions. split_and!; [|solve_pdisj..|done].
      destruct Ha as [->|]; [by left|right; solve_pdisj]. }
    exists m'. rewrite !padd_add in Erun. rewrite Nat2Z.inj_add. split; [exact Erun|]. rewrite cbc_decrypt_cons by done.
    destruct (cbc_decrypt D b bs') as [ps y']. destruct Hpost as (P1 & P2 & P3 & P4). split; [done|]. split; [done|]. split.
    + apply mread_join; [|exact P3]. apply (apart_read m2 m' _ _ _ _ P4); [|done].
      clear - H2 H4. constructor; [cbn [fst snd]; solve_pdisj|]. constructor; [cbn [fst snd]; solve_pdisj|]. apply apart_1. solve_pdisj.
    + transitivity m1; [|transitivity m2].
      * eapply mframe_mono; [exact F1|]. eapply covers_take; [right; right; left|lia].
      * eapply mframe_mono; [exact F2|]. apply covers_cons; [eapply covers_take; [left|lia]|eapply covers_take; [right; left|lia]].
      * eapply mframe_mono; [exact P4|]. apply covers_cons; [eapply (covers_sub _ out (16 + length bs') 16); [left|lia]|].
        apply covers_cons; [eapply covers_take; [right; left|lia]|eapply covers_take; [right; right; left|lia]].
Qed.

Lemma blocks16_last l : (0 < l < 16)%nat → blocks16 l = 16%nat.
Proof.
  intros Hl. unfold blocks16. replace ((l + 15) / 16)%nat with 1%nat; [done|]. apply (Nat.div_unique _ 16 1 (l - 1)); lia.
Qed.

Lemma cbc_dec_last_ok fuel tmp ivec inp out m tl l iv : (l < 16)%nat → (l <= fuel)%nat → length tl = blocks16 l →
  mread m ivec 16 = Some iv → is_bytes iv → mvalid m tmp 16 → is_bytes tl → mread m inp (length tl) = Some tl →
  mvalid m out l → dec_regions tmp ivec inp out (length tl) l →
  ∃ m', cbc_dec_last block fuel tmp ivec inp out l m = Some (tt, m') ∧
    let '(ps, y') := cbc_decrypt D iv tl in
    mread m' ivec 16 = Some y' ∧ mread m' out l = Some (take l ps) ∧ mframe [(out, l); (ivec, 16%nat); (tmp, 16%nat)] m m'.
Proof.
  intros Hl Hf Lt Ry By Vt Bt Rt Hv Hreg. pose proof (mread_length _ _ _ _ Ry) as Ly. destruct (decide (l = 0%nat)) as [->|Hne].
  - change (blocks16 0) with 0%nat in Lt. apply nil_length_inv in Lt as ->. exists m. split; [by destruct fuel|].
    change (cbc_decrypt D iv []) with (([] : list Z), iv). split; [done|]. split; [by apply mread_nil|reflexivity].
  - rewrite blocks16_last in Lt by lia. rewrite Lt in *. destruct Hreg as ((Ha & H1 & H2) & H3 & H4 & H5).
    destruct fuel as [|fuel]; [lia|]. cbn [cbc_dec_last]. rewrite decide_False by done. rewrite Nat.min_r by lia.
    assert (apart [(tmp, 16%nat)] ivec 16 ∧ apart [(tmp, 16%nat)] inp 16 ∧ apart [(tmp, 16%nat)] inp l) as (A1 & A2 & A3)
      by (clear - H3 H5 Hl; split_and!; apply apart_1; solve_pdisj).
    assert (apart [(ivec, 16%nat); (tmp, 16%nat)] inp l) as A4 by (clear - H1 H3 Hl; constructor; [|apply apart_1]; cbn [fst snd]; solve_pdisj).
    assert (apart [(ivec, 16%nat); (tmp, 16%nat)] out l) as A5 by (clear - H2 H4; constructor; [|apply apart_1]; cbn [fst snd]; solve_pdisj).
    assert (same_or_apart out inp l) as A6 by (clear - Ha Hl; destruct Ha as [->|]; [by left|right; solve_pdisj]).
    assert (apart [(out, l); (ivec, 16%nat)] (padd inp (Z.of_nat l)) (16 - l)) as A7.
    { clear - Ha H1 Hl. constructor; [|apply apart_1]; cbn [fst snd]; solve_pdisj. }
    assert (pdisj (padd ivec (Z.of_nat l)) (16 - l) (padd inp (Z.of_nat l)) (16 - l)) as A8 by (clear - H1 Hl; solve_pdisj).
    assert (length (take l tl) = l) as Ltk by (rewrite length_take; lia).
    destruct (block_fun_ok block D inp tmp m tl Rt Bt Vt) as (m1 & E1 & Ro1 & F1). rewrite (bind_Some _ _ m _ m1 E1).
    assert (ctr_holds ivec tmp (iv, D tl) m1) as Hh1 by (split; [by apply (apart_read m m1 _ _ _ _ F1)|done]).
    pose proof (mread_take _ _ _ _ l Rt ltac:(lia)) as Rt1.
    pose proof (dec_bytes_ok tmp ivec H5 inp out m1 (take l tl) iv (D tl)) as B. rewrite Ltk in B.
    destruct B as (m2 & E2 & [Ry2 _] & Ro2 & F2);
      [lia|done|split; [by split|by apply reg_good_map]|by apply (apart_read m m1 _ _ _ _ F1)|by apply Forall_take|by apply F1|done..|].
    rewrite (bind_Some _ _ m1 _ m2 E2), decide_True by lia.
    destruct (copy_rest_ok (16 - l) l inp ivec m2 (drop l tl)) as (m3 & E3 & W3).
    { apply (apart_read m1 m2 _ _ _ _ F2); [done|]. apply (apart_read m m1 _ _ _ _ F1).
      - apply apart_1. clear - H3 Hl. solve_pdisj.
      - pose proof (mread_sub _ _ _ _ l (16 - l) Rt ltac:(lia)) as H. by rewrite take_ge in H by (rewrite length_drop; lia). }
    { apply (mvalid_sub m2 ivec 16); [by eapply mread_mvalid|lia]. }
    { done. }
    exists m3. split; [done|]. assert (cbc_decrypt D iv tl = (xor_list (D tl) iv, tl)) as ->.
    { rewrite <- (app_nil_r tl) at 1. rewrite cbc_decrypt_cons by done. change (cbc_decrypt D tl []) with (([] : list Z), tl). cbv beta iota. by rewrite app_nil_r. } pose proof (mwrite_mframe _ _ _ _ W3) as F3.
    assert (length (drop l tl) = 16 - l)%nat as Ld by (rewrite length_drop; lia). rewrite Ld in F3. split; [|split].
    + rewrite <- (take_drop l tl). replace 16%nat with (l + (16 - l))%nat at 1 by lia. apply mread_join.
      * rewrite (mread_mwrite_disj _ _ _ _ _ _ W3) by (apply pdisj_sym, pdisj_next; lia).
        pose proof (mread_take _ _ _ _ l Ry2 ltac:(lia)) as H. cbn [fst] in H. unfold splice in H. cbn [take app] in H.
        assert (∀ r, take l (take l tl ++ r) = take l tl) as Et by (intros; by apply take_app_length'). by rewrite take_0, app_nil_l, Et in H.
      * rewrite <- Ld at 1. exact (mread_mwrite _ _ _ _ W3).
    + apply (apart_read m2 m3 _ _ _ _ F3); [apply apart_1; clear - H2 Hl; solve_pdisj|done].
    + transitivity m1; [|transitivity m2].
      * eapply mframe_mono; [exact F1|]. eapply covers_take; [right; right; left|lia].
      * eapply mframe_mono; [exact F2|]. apply covers_cons; [eapply covers_take; [left|lia]|eapply covers_take; [right; left|lia]].
      * eapply mframe_mono; [exact F3|]. eapply (covers_sub _ ivec 16); [right; left|lia].
Qed.

Lemma cbc_decrypt_parts k b tl iv : length b = (16 * k)%nat →
  cbc_decrypt D iv (b ++ tl) = (let '(ps, y) := cbc_decrypt D iv b in let '(ps', y') := cbc_decrypt D y tl in (ps ++ ps', y')).
Proof. apply cbc_dec_app. Qed.

(** The pointer the loop ends with: the one it was given, or a block of the input. *)
Lemma cbc_dec_apart_iv aligned fuel : ∀ iv inp out len m v m', cbc_dec_apart block fuel aligned iv inp out len m = Some (v, m') →
  (cv_len v <= len)%nat ∧ (cv_iv v = iv ∨ ∃ i, (i + 16 + cv_len v <= len)%nat ∧ cv_iv v = padd inp (Z.of_nat i)).
Proof.
  induction fuel as [|fuel IH]; intros iv inp out len m v m'; cbn [cbc_dec_apart]; case_decide; try done; try (intros [= <- <-]; split; [done|by left]).
  intros (? & m1 & _ & (? & m2 & _ & Er)%bind_inv)%bind_inv. destruct (IH _ _ _ _ _ _ _ Er) as [Hl [->|(i & Hi & ->)]]; (split; [lia|right]).
  - exists 0%nat. rewrite padd_0. split; [lia|done].
  - exists (16 + i)%nat. change 16 with (Z.of_nat 16). rewrite padd_add, Nat2Z.inj_add. split; [lia|done].
Qed.

(** The pointer to the last chaining value is copied to [ivec]. *)
Lemma cbc_dec_apart_all aligned k inp out ivec l iv b tl m : length b = (16 * k)%nat → (l < 16)%nat → cbc_pre inp out ivec (length b + length tl) (length b + l) iv (b ++ tl) m →
  pdisj out (length b + l) inp (length b + length tl) →
  ∃ v m', (v ← cbc_dec_apart block (length b + l) aligned ivec inp out (length b + l); memcpy_same ivec (cv_iv v) 16;; mret v) m = Some (v, m') ∧
    (cv_in v, cv_out v, cv_len v) = (padd inp (Z.of_nat (length b)), padd out (Z.of_nat (length b)), l) ∧
    let '(ps, y') := cbc_decrypt D iv b in
    mread m' ivec 16 = Some y' ∧ is_bytes y' ∧ mread m' out (length b) = Some ps ∧ mframe [(out, length b); (ivec, 16%nat)] m m'.
Proof.
  intros Lb Hl [Ry By Bb Rb Hv (_ & H1 & H2)] Hd. apply List.Forall_app in Bb as [Bb _]. assert (∀ i, (i + 16 <= length b)%nat → pdisj ivec 16 (padd inp (Z.of_nat i)) 16) as Hb.
  { intros i Hi. clear - H1 Hi. apply pdisj_sym, (pdisj_sub _ (length b + length tl)); [by apply pdisj_sym|lia]. }
  destruct (cbc_dec_apart_ok aligned k (length b + l) ivec inp out m b tl l iv Lb Hl ltac:(lia) Ry By Bb Rb Hv Hd H2) as (iv1 & m1 & E1 & P).
  rewrite (bind_Some _ _ m _ m1 E1). cbn [cv_iv cv_in cv_out cv_len]. destruct (cbc_decrypt D iv b) as [ps y']. destruct P as (P1 & P2 & P3 & P4).
  pose proof (mread_length _ _ _ _ P1) as Ly. destruct (mvalid_store m1 ivec y') as (m2 & W & S2); [rewrite Ly; apply P4; by eapply mread_mvalid|].
  exists (CbcVars iv1 (padd inp (Z.of_nat (length b))) (padd out (Z.of_nat (length b))) l), m2. split.
  { rewrite (bind_Some _ _ m1 tt m2); [done|]. apply (memcpy_same_Some _ _ _ _ y'); [|done|done].
    apply cbc_dec_apart_iv in E1 as [_ E1]. cbn [cv_iv cv_len] in E1. destruct E1 as [->|(i & Hi & ->)]; [by left|right]. apply Hb. lia. }
  split; [done|]. pose proof (mread_mwrite _ _ _ _ W) as R. pose proof (mwrite_mframe _ _ _ _ W) as F. rewrite Ly in *.
  split; [done|]. split; [done|]. split.
  - apply (apart_read m1 m2 _ _ _ _ F); [apply apart_1; clear - H2; solve_pdisj|done].
  - transitivity m1; [eapply mframe_mono; [exact P4|]; eapply covers_take; [left|lia]|eapply mframe_mono; [exact F|]; eapply covers_take; [right; left|lia]].
Qed.

Lemma cbc128_decrypt_parts aligned k inp out ivec l iv b tl m : length b = (16 * k)%nat → (l < 16)%nat → length tl = blocks16 l →
  cbc_pre inp out ivec (length b + length tl) (length b + l) iv (b ++ tl) m →
  ∃ m', CRYPTO_cbc128_decrypt block aligned inp out (length b + l) ivec m = Some (tt, m') ∧
    let '(ps, iv') := cbc_decrypt D iv (b ++ tl) in
    mread m' out (length b + l) = Some (take (length b + l) ps) ∧ mread m' ivec 16 = Some iv' ∧
    mframe [(out, (length b + l)%nat); (ivec, 16%nat)] m m'.
Proof.
  intros Lb Hl Lt Hpre. pose proof Hpre as [Ry By Bb Rb Hv Hreg]. apply List.Forall_app in Bb as [Bb Bt]. pose proof Hreg as (Ha & H1 & H2).
  pose proof (mread_length _ _ _ _ Ry) as Ly. rewrite (cbc_decrypt_parts k) by done.
  destruct (local_ok 16 (λ tmp, v ← (if decide (inp = out) then cbc_dec_in_place block (length b + l) aligned tmp ivec inp out (length b + l)
         else v ← cbc_dec_apart block (length b + l) aligned ivec inp out (length b + l); memcpy_same ivec (cv_iv v) 16;; mret v);
    cbc_dec_last block (cv_len v) tmp ivec (cv_in v) (cv_out v) (cv_len v)) [(out, (length b + l)%nat); (ivec, 16%nat)] m
    (λ _ m', let '(ps, iv') := (let '(ps, y) := cbc_decrypt D iv b in let '(ps', y') := cbc_decrypt D y tl in (ps ++ ps', y')) in
      mread m' out (length b + l) = Some (take (length b + l) ps) ∧ mread m' ivec 16 = Some iv')) as ([] & m' & R & F & P).
  2:{ exists m'. split; [exact R|]. destruct (cbc_decrypt D iv b) as [ps y]. destruct (cbc_decrypt D y tl) as [ps' y']. tauto. }
  intros c m1 Hc F1 V1 Hfresh. set (tmp := Ptr c 0) in *.
  assert (mread m1 ivec 16 = Some iv ∧ mread m1 inp (length b + length tl) = Some (b ++ tl) ∧ mvalid m1 out (length b + l)) as (Ry1 & Rb1 & Hv1).
  { split; [|split]; [by apply (apart_read m m1 _ _ _ _ F1); [apply Forall_nil_2|]..|by apply F1]. }
  assert (dec_regions tmp ivec inp out (length b + length tl) (length b + l)) as Hreg1.
  { split; [done|]. split; [|split]; [apply Hfresh; by eapply mread_mvalid|by apply Hfresh|apply pdisj_sym, Hfresh; by eapply mread_mvalid]. }
  assert (∃ v m2, (if decide (inp = out) then cbc_dec_in_place block (length b + l) aligned tmp ivec inp out (length b + l)
         else v ← cbc_dec_apart block (length b + l) aligned ivec inp out (length b + l); memcpy_same ivec (cv_iv v) 16;; mret v) m1 = Some (v, m2) ∧
    (cv_in v, cv_out v, cv_len v) = (padd inp (Z.of_nat (length b)), padd out (Z.of_nat (length b)), l) ∧
    let '(ps, y') := cbc_decrypt D iv b in
    mread m2 ivec 16 = Some y' ∧ is_bytes y' ∧ mread m2 out (length b) = Some ps ∧ mframe [(out, length b); (ivec, 16%nat); (tmp, 16%nat)] m1 m2)
    as (v & m2 & E2 & Ev & P).
  { case_decide as Hin.
    - destruct (cbc_dec_in_place_ok aligned k (length b + l) tmp ivec inp out m1 b tl l iv) as (m2 & E2 & P); [first [done|lia]..|].
      by eexists _, m2.
    - destruct Ha as [|Ha]; [done|]. destruct (cbc_dec_apart_all aligned k inp out ivec l iv b tl m1 Lb Hl) as (v & m2 & E2 & Ev & P);
        [split; [done|done|by apply List.Forall_app|done..]|done|]. exists v, m2. do 2 (split; [done|]).
      destruct (cbc_decrypt D iv b) as [ps y']. destruct P as (P1 & P2 & P3 & P4). do 3 (split; [done|]). eapply mframe_mono; [exact P4|].
      apply covers_cons; [eapply covers_take; [left|lia]|eapply covers_take; [right; left|lia]]. }
  rewrite (bind_Some _ _ m1 _ m2 E2). injection Ev as -> -> ->. destruct (cbc_decrypt D iv b) as [ps y]. destruct P as (P1 & P2 & P3 & P4).
  destruct Hreg1 as ((_ & _ & _) & H3 & H4 & H5).
  destruct (cbc_dec_last_ok l tmp ivec (padd inp (Z.of_nat (length b))) (padd out (Z.of_nat (length b))) m2 tl l y) as (m3 & E3 & Q);
    [done|lia|done|done|done|by apply P4|done| | | |].
  { apply (apart_read m1 m2 _ _ _ _ P4).
    - clear - Ha H1 H3 Lt. constructor; [|constructor; [|apply apart_1]]; cbn [fst snd]; solve_pdisj.
    - pose proof (mread_sub _ _ _ _ (length b) (length tl) Rb1 ltac:(lia)) as H. rewrite drop_app_length, take_ge in H by lia. done. }
  { apply P4. apply (mvalid_sub m1 out (length b + l)); [done|lia]. }
  { clear - Ha H1 H2 H3 H4 H5. split; [split_and!; [destruct Ha as [->|]; [by left|right; solve_pdisj]|solve_pdisj..]|split_and!; [solve_pdisj..|done]]. }
  exists tt, m3. split; [exact E3|]. destruct (cbc_decrypt D y tl) as [ps' y']. destruct Q as (Q1 & Q2 & Q3).
  assert (mframe [(tmp, 16%nat); (out, (length b + l)%nat); (ivec, 16%nat)] m1 m3) as F3.
  { transitivity m2.
    - eapply mframe_mono; [exact P4|]. apply covers_cons; [eapply covers_take; [right; left|lia]|].
      apply covers_cons; [eapply covers_take; [right; right; left|lia]|eapply covers_take; [left|lia]].
    - eapply mframe_mono; [exact Q3|]. apply covers_cons; [eapply (covers_sub _ out (length b + l)); [right; left|lia]|].
      apply covers_cons; [eapply covers_take; [right; right; left|lia]|eapply covers_take; [left|lia]]. }
  split; [done|]. intros m4 Hm4. rewrite !Hm4 by (done || by eapply mread_mvalid). split; [|done].
  pose proof (mread_length _ _ _ _ P3) as Lps. rewrite <- Lps at 2. rewrite take_app_add. apply mread_join; [|done].
  apply (apart_read m2 m3 _ _ _ _ Q3); [|done]. clear - H2 H4. constructor; [|constructor; [|apply apart_1]]; cbn [fst snd]; solve_pdisj.
Qed.

Lemma cbc128_decrypt_ok aligned inp out ivec l iv bs m : length bs = blocks16 l → cbc_pre inp out ivec (length bs) l iv bs m →
  ∃ m', CRYPTO_cbc128_decrypt block aligned inp out l ivec m = Some (tt, m') ∧
    let '(ps, iv') := cbc_decrypt D iv bs in
    mread m' out l = Some (take l ps) ∧ mread m' ivec 16 = Some iv' ∧ mframe [(out, l); (ivec, 16%nat)] m m'.
Proof.
  intros Lbs Hpre. set (k := (l / 16)%nat). set (r := (l mod 16)%nat). assert (l = 16 * k + r)%nat as El by (apply Nat.div_mod; lia).
  assert (r < 16)%nat as Hr by (apply Nat.mod_upper_bound; lia). clearbody k r. subst l. rewrite blocks16_add in Lbs.
  assert (length (take (16 * k) bs) = 16 * k)%nat as Lb by (rewrite length_take; lia).
  pose proof (cbc128_decrypt_parts aligned k inp out ivec r iv (take (16 * k) bs) (drop (16 * k) bs) m Lb Hr) as H.
  rewrite length_drop, Lb, take_drop in H. replace (16 * k + (length bs - 16 * k))%nat with (length bs) in H by lia. apply H; [lia|done].
Qed.
End decrypt.
