(* ===== verification/AesModes.v ===== *)
(** * AesModes: AES in the chaining modes, [aes_ecb.c], [aes_cbc.c], [aes_cfb.c], [aes_ofb.c]
    and [aes_ctr.c]

    Each file gives [AES_encrypt] or [AES_decrypt] to a function of the mode files. The
    theorems are about these functions, with a key made by [AES_set_encrypt_key]. *)

From S2P Require Import Prelude Mem Own Target ModeSpec Aes Stream Modes CfbR Cbc.

Section code.
Context {tgt : Target}.

(** [assert] is compiled out. *)
Definition AES_ecb_encrypt (inp out : ptr) (key : AES_KEY) (enc : Z) : C unit :=
  if decide (enc = 1) then AES_encrypt key inp out else AES_decrypt key inp out.

Definition AES_cbc_encrypt (aligned : bool) (inp out : ptr) (len : nat) (key : AES_KEY) (ivec : ptr) (enc : Z) : C unit :=
  if decide (enc = 0) then CRYPTO_cbc128_decrypt (AES_decrypt key) aligned inp out len ivec
  else CRYPTO_cbc128_encrypt (AES_encrypt key) aligned inp out len ivec.

Definition AES_cfb128_encrypt (aligned : bool) (inp out : ptr) (length : nat) (key : AES_KEY) (ivec num : ptr) (enc : Z) : C unit :=
  CRYPTO_cfb128_encrypt (AES_encrypt key) aligned inp out length ivec num (bool_decide (enc ≠ 0)).

(** [num] is not used. *)
Definition AES_cfb1_encrypt (inp out : ptr) (length : nat) (key : AES_KEY) (ivec : ptr) (enc : Z) : C unit :=
  CRYPTO_cfb128_1_encrypt (AES_encrypt key) inp out length ivec (bool_decide (enc ≠ 0)).

Definition AES_cfb8_encrypt (inp out : ptr) (length : nat) (key : AES_KEY) (ivec : ptr) (enc : Z) : C unit :=
  CRYPTO_cfb128_8_encrypt (AES_encrypt key) inp out length ivec (bool_decide (enc ≠ 0)).

Definition AES_ofb128_encrypt (aligned : bool) (inp out : ptr) (length : nat) (key : AES_KEY) (ivec num : ptr) : C unit :=
  CRYPTO_ofb128_encrypt (AES_encrypt key) aligned inp out length ivec num.

Definition AES_ctr128_encrypt (aligned : bool) (inp out : ptr) (length : nat) (key : AES_KEY) (ivec ecount_buf num : ptr) : C unit :=
  CRYPTO_ctr128_encrypt (AES_encrypt key) aligned inp out length ivec ecount_buf num.
End code.

(** ** The block functions *)

Lemma aes_enc_map key : 1 < rounds key → BlockMap (aes_enc key).
Proof.
  intros Hr. split; intros b; destruct (aes_crypt_total enc_round enc_last key b Hr) as (c & Hc & Hl & Hb); unfold aes_enc, aes_encrypt_bytes; by rewrite Hc.
Qed.

Lemma aes_dec_map key : 1 < rounds key → BlockMap (aes_dec key).
Proof.
  intros Hr. split; intros b; destruct (aes_crypt_total dec_round dec_last key b Hr) as (c & Hc & Hl & Hb); unfold aes_dec, aes_decrypt_bytes; by rewrite Hc.
Qed.

(** [key_ready]: the block functions of a key. *)
Ltac key_ready Hk :=
  pose proof (AES_encrypt_block_fun _ Hk); pose proof (AES_decrypt_block_fun _ Hk);
  pose proof (aes_enc_map _ Hk); pose proof (aes_dec_map _ Hk).

(** ** Properties *)

Section properties.
Context {tgt : Target}.

(** C15: [AES_cfb128_encrypt] called for the two parts of a message, in either direction, in
    place or not, and whichever of its two loops each call takes, leaves the output, the
    register and [*num] that CFB gives byte by byte for the whole message; from the start of
    a block that is CFB of the standard, block after block, a last short block included. *)
Theorem aes_cfb128_two_calls key al1 al2 inp out ivec num enc n iv a b m :
  1 < rounds key → call_pre [(ivec, iv)] num inp out n (a ++ b) m →
  ∃ m1 m2, AES_cfb128_encrypt al1 inp out (length a) key ivec num enc m = Some (tt, m1) ∧
    AES_cfb128_encrypt al2 (padd inp (Z.of_nat (length a))) (padd out (Z.of_nat (length a))) (length b) key ivec num enc m1 = Some (tt, m2) ∧
    let '(cs, n', iv') := cfb_stream (aes_enc key) (bool_decide (enc ≠ 0)) n iv (a ++ b) in
    call_post [(ivec, iv')] num out n' cs m m2 ∧ n' = ((n + length (a ++ b)) mod 16)%nat ∧
    (n = 0%nat → cs = cfb_blocks (aes_enc key) (bool_decide (enc ≠ 0)) iv (chunks 16 (a ++ b))).
Proof.
  intros Hk Hpre. key_ready Hk. unfold AES_cfb128_encrypt. set (e := bool_decide (enc ≠ 0)).
  destruct (cfb128_encrypt_ok (AES_encrypt key) (aes_enc key) al1 al2 e inp out ivec num n iv a b m Hpre) as (m1 & m2 & R1 & R2 & P).
  exists m1, m2. do 2 (split; [done|]). pose proof (stream_used (aes_enc key) (reg_put (cfb_feedback e)) (a ++ b) n iv (pre_used _ _ _ _ _ _ _ Hpre)) as Hn.
  pose proof (cfb_stream_blocks (aes_enc key) e (a ++ b) iv) as Hb. unfold cfb_stream in *.
  destruct (byte_stream (aes_enc key) (reg_put (cfb_feedback e)) n iv (a ++ b)) as [[cs n'] iv'] eqn:E. split; [done|]. split; [done|].
  intros ->. by rewrite E in Hb.
Qed.

(** The registers of a second use of a mode on the output of the first. *)
Record second_pre (regs regs' : list (ptr * list Z)) (num mid num' out : ptr) (n len : nat) (m : mem) : Prop := {
  second_regs : Forall (λ r, length r.2 = 16%nat ∧ is_bytes r.2 ∧ mread m r.1 16 = Some r.2) regs';
  second_num : mread m num' 4 = Some (le_bytes 4 (Z.of_nat n));
  second_valid : mvalid m out len;
  second_alias : same_or_apart out mid len;
  second_mid : apart ((num', 4%nat) :: ((λ r, (r.1, 16%nat)) <$> regs')) mid len;
  second_apart : pairwise ((num', 4%nat) :: (out, len) :: ((λ r, (r.1, 16%nat)) <$> regs'));
  second_first : Forall (λ r, apart ((num, 4%nat) :: (mid, len) :: ((λ r, (r.1, 16%nat)) <$> regs)) r.1 r.2)
    ((num', 4%nat) :: ((λ r, (r.1, 16%nat)) <$> regs'));
  second_out : apart ((num, 4%nat) :: ((λ r, (r.1, 16%nat)) <$> regs)) out len;
}.

Lemma second_call regs regs1 regs' num mid num' out n n' cs len m m2 : length cs = len → (n < 16)%nat →
  ((λ r, (r.1, 16%nat)) <$> regs) = ((λ r, (r.1, 16%nat)) <$> regs1) →
  second_pre regs regs' num mid num' out n len m → call_post regs1 num mid n' cs m m2 → call_pre regs' num' mid out n cs m2.
Proof.
  intros <- Hn Hregs [Hr Hnum Hv Ha Hm Hp Hf Ho] [Pr Pn Pb Po Pf]. rewrite <- Hregs in Pf. apply List.Forall_cons_iff in Hf as [Hf1 Hf2].
  split; try done.
  - clear - Hr Hf2 Pf. induction regs' as [|r rs IH]; [done|]. cbn [fmap list_fmap] in Hf2. apply List.Forall_cons_iff in Hf2 as [H1 H2].
    apply List.Forall_cons_iff in Hr as [(R1 & R2 & R3) Hr]. constructor; [|by apply IH]. split; [done|]. split; [done|]. by apply (apart_read m m2 _ _ _ _ Pf).
  - by apply (apart_read m m2 _ _ _ _ Pf).
  - by apply Pf.
Qed.

(** The registers of the first use are still as it left them. *)
Lemma second_keeps regs regs1 regs' regs2 num mid num' out n n' cs n2 ps len m m2 m4 : length cs = len → length ps = len →
  ((λ r, (r.1, 16%nat)) <$> regs) = ((λ r, (r.1, 16%nat)) <$> regs1) → ((λ r, (r.1, 16%nat)) <$> regs') = ((λ r, (r.1, 16%nat)) <$> regs2) →
  second_pre regs regs' num mid num' out n len m → call_post regs1 num mid n' cs m m2 → call_post regs2 num' out n2 ps m2 m4 →
  Forall (λ r, mread m4 r.1 16 = Some r.2) regs1 ∧ mread m4 num 4 = Some (le_bytes 4 (Z.of_nat n')).
Proof.
  intros Lc Lp Hregs Hregs2 [Hr Hnum Hv Ha Hm Hp Hf Ho] [Pr Pn Pb Po Pf] [Qr Qn Qb Qo Qf]. rewrite <- Hregs2, Lp in Qf. rewrite Hregs in Hf, Ho.
  assert (∀ q k, (q, k) ∈ (num, 4%nat) :: ((λ r, (r.1, 16%nat)) <$> regs1) → apart ((num', 4%nat) :: (out, len) :: ((λ r, (r.1, 16%nat)) <$> regs')) q k) as Hap.
  { intros q k Hin. assert (∀ r, r ∈ (num', 4%nat) :: ((λ r, (r.1, 16%nat)) <$> regs') → pdisj r.1 r.2 q k) as Hd.
    { intros r Hr0. pose proof (proj1 (list.Forall_forall _ _) Hf r Hr0) as H. apply pdisj_sym.
      apply (proj1 (list.Forall_forall _ _) H (q, k)). apply elem_of_cons in Hin as [->|Hin]; [left|by right; right]. }
    constructor; [apply (Hd (num', 4%nat)); left|]. constructor.
    - cbn [fst snd]. apply pdisj_sym. exact (proj1 (list.Forall_forall _ _) Ho (q, k) Hin).
    - apply list.Forall_forall. intros r Hr0. apply Hd. by right. }
  split.
  - apply list.Forall_forall. intros r Hin. pose proof (proj1 (list.Forall_forall _ _) Pr r Hin) as (_ & _ & R).
    apply (apart_read m2 m4 _ _ _ _ Qf); [|done]. apply Hap. right. apply list_elem_of_fmap. by exists r.
  - apply (apart_read m2 m4 _ _ _ _ Qf); [|done]. apply Hap. left.
Qed.

(** what [AES_cfb128_encrypt] encrypts in two calls it decrypts in two calls cut elsewhere,
    from equal registers and [*num], and both sides end with equal registers and [*num]. *)
Theorem aes_cfb128_roundtrip key al1 al2 al3 al4 inp mid out ivec num ivec' num' n iv a b k m :
  1 < rounds key → (k <= length (a ++ b))%nat → call_pre [(ivec, iv)] num inp mid n (a ++ b) m →
  second_pre [(ivec, iv)] [(ivec', iv)] num mid num' out n (length (a ++ b)) m →
  ∃ m1 m2 m3 m4, AES_cfb128_encrypt al1 inp mid (length a) key ivec num 1 m = Some (tt, m1) ∧
    AES_cfb128_encrypt al2 (padd inp (Z.of_nat (length a))) (padd mid (Z.of_nat (length a))) (length b) key ivec num 1 m1 = Some (tt, m2) ∧
    AES_cfb128_encrypt al3 mid out k key ivec' num' 0 m2 = Some (tt, m3) ∧
    AES_cfb128_encrypt al4 (padd mid (Z.of_nat k)) (padd out (Z.of_nat k)) (length (a ++ b) - k) key ivec' num' 0 m3 = Some (tt, m4) ∧
    mread m4 out (length (a ++ b)) = Some (a ++ b) ∧ mread m4 ivec' 16 = mread m4 ivec 16 ∧ mread m4 num' 4 = mread m4 num 4.
Proof.
  intros Hk Hkl Hpre Hsec. key_ready Hk.
  destruct (cfb128_encrypt_ok (AES_encrypt key) (aes_enc key) al1 al2 true inp mid ivec num n iv a b m Hpre) as (m1 & m2 & R1 & R2 & P).
  exists m1, m2. pose proof (pre_used _ _ _ _ _ _ _ Hpre) as Hn. pose proof (pre_regs _ _ _ _ _ _ _ Hpre) as Hregs.
  apply regs_1 in Hregs as (Liv & _ & _). cbn [snd] in Liv.
  pose proof (cfb_stream_roundtrip (aes_enc key) (a ++ b) n iv Liv Hn) as Hrt.
  pose proof (stream_length (aes_enc key) (reg_put (cfb_feedback true)) (a ++ b) n iv) as Hl. fold (cfb_stream (aes_enc key) true n iv (a ++ b)) in Hl.
  destruct (cfb_stream (aes_enc key) true n iv (a ++ b)) as [[cs n'] iv'] eqn:Ecs. cbn [fst] in Hl.
  pose proof (second_call [(ivec, iv)] [(ivec, iv')] [(ivec', iv)] num mid num' out n n' cs (length (a ++ b)) m m2 Hl Hn eq_refl Hsec P) as Hpre2. rewrite <- (take_drop k cs) in Hpre2.
  destruct (cfb128_encrypt_ok (AES_encrypt key) (aes_enc key) al3 al4 false mid out ivec' num' n iv (take k cs) (drop k cs) m2 Hpre2) as (m3 & m4 & R3 & R4 & P3).
  rewrite take_drop, Hrt in P3. assert (length (take k cs) = k) as Lk by (rewrite length_take; lia). rewrite Lk in R3, R4. rewrite length_drop, Hl in R4. exists m3, m4. do 4 (split; [done|]).
  destruct (second_keeps [(ivec, iv)] [(ivec, iv')] [(ivec', iv)] [(ivec', iv')] num mid num' out n n' cs n' (a ++ b) (length (a ++ b)) m m2 m4 Hl eq_refl eq_refl eq_refl Hsec P P3) as [K1 K2]. apply List.Forall_cons_iff in K1 as [K1 _]. cbn [fst snd] in K1.
  destruct P3 as [Q1 Q2 _ Q3 _]. apply List.Forall_cons_iff in Q1 as [(_ & _ & Q1) _]. cbn [fst snd] in Q1. split; [done|]. by rewrite Q2, K2, K1.
Qed.

(** [AES_cfb8_encrypt], in place or not, writes CFB with segments of one byte and leaves
    the register of that mode; called on this output with the old register it gives the
    message back, and the same register. *)
Theorem aes_cfb8_segments key inp out ivec iv x m : 1 < rounds key → cfbr_pre inp out ivec (length x) iv x m →
  let '(cs, v) := cfb_segments (aes_enc key) 8 true (be_num iv) x in
  ∃ m', AES_cfb8_encrypt inp out (length x) key ivec 1 m = Some (tt, m') ∧
    mread m' out (length x) = Some cs ∧ mread m' ivec 16 = Some (num_bytes 16 v) ∧ mframe [(out, length x); (ivec, 16%nat)] m m' ∧
    ∀ inp' out' ivec' m1, cfbr_pre inp' out' ivec' (length cs) iv cs m1 →
      ∃ m2, AES_cfb8_encrypt inp' out' (length cs) key ivec' 0 m1 = Some (tt, m2) ∧
        mread m2 out' (length x) = Some x ∧ mread m2 ivec' 16 = Some (num_bytes 16 v) ∧ mframe [(out', length x); (ivec', 16%nat)] m1 m2.
Proof.
  intros Hk [Ri Rx Vo [Bi Bx] Ha [D1 D2]]. key_ready Hk. unfold AES_cfb8_encrypt. rewrite bool_decide_true, bool_decide_false by lia.
  pose proof (cfb128_8_encrypt_ok (AES_encrypt key) (aes_enc key) true x inp out ivec iv m Ri Bi Rx Bx Vo Ha D1 D2) as Henc.
  pose proof (cfb_segments_roundtrip (aes_enc key) 8 x (be_num iv)) as Hrt. pose proof (cfb_segments_length (aes_enc key) 8 true x (be_num iv)) as Hl.
  destruct (cfb_segments (aes_enc key) 8 true (be_num iv) x) as [cs v]. cbn [fst] in Hl. destruct Henc as (m' & E & Bcs & Ro & Ri' & F).
  exists m'. do 4 (split; [done|]). intros inp' out' ivec' m1 [Ri1 Rx1 Vo1 [_ _] Ha1 [D3 D4]].
  pose proof (cfb128_8_encrypt_ok (AES_encrypt key) (aes_enc key) false cs inp' out' ivec' iv m1 Ri1 Bi Rx1 Bcs Vo1 Ha1 D3 D4) as Hdec.
  rewrite Hrt in Hdec. destruct Hdec as (m2 & E2 & _ & R2). exists m2. by rewrite Hl in *.
Qed.

(** [AES_cfb1_encrypt], in place or not, puts CFB with segments of one bit, highest bit of
    a byte first, in the first [bits] bits of the output and leaves all others as they are;
    called on this output with the old register it gives these bits back. *)
Theorem aes_cfb1_segments key inp out ivec iv x o bits m : 1 < rounds key → cfbr_pre inp out ivec (length x) iv x m → (bits <= 8 * length x)%nat →
  mread m out (length x) = Some o → is_bytes o →
  let '(cs, v) := cfb_segments (aes_enc key) 1 true (be_num iv) (get_bit x <$> seq 0 bits) in
  ∃ m' o', AES_cfb1_encrypt inp out bits key ivec 1 m = Some (tt, m') ∧
    mread m' out (length x) = Some o' ∧ (∀ i, get_bit o' i = if decide (i < bits)%nat then cs !!! i else get_bit o i) ∧
    mread m' ivec 16 = Some (num_bytes 16 v) ∧ mframe [(out, length x); (ivec, 16%nat)] m m' ∧
    ∀ inp' out' ivec' p m1, cfbr_pre inp' out' ivec' (length o') iv o' m1 → mread m1 out' (length o') = Some p → is_bytes p →
      ∃ m2 p', AES_cfb1_encrypt inp' out' bits key ivec' 0 m1 = Some (tt, m2) ∧
        mread m2 out' (length x) = Some p' ∧ (∀ i, get_bit p' i = if decide (i < bits)%nat then get_bit x i else get_bit p i) ∧
        mread m2 ivec' 16 = Some (num_bytes 16 v).
Proof.
  intros Hk [Ri Rx Vo [Bi Bx] Ha [D1 D2]] Hb Ro Bo. key_ready Hk. unfold AES_cfb1_encrypt. rewrite bool_decide_true, bool_decide_false by lia.
  pose proof (cfb128_1_encrypt_ok (AES_encrypt key) (aes_enc key) true bits inp out ivec (length x) x o iv m Hb Rx Ro Ri Bx Bo Bi Ha D1 D2) as Henc.
  pose proof (cfb_segments_roundtrip (aes_enc key) 1 (get_bit x <$> seq 0 bits) (be_num iv)) as Hrt.
  pose proof (cfb_segments_length (aes_enc key) 1 true (get_bit x <$> seq 0 bits) (be_num iv)) as Hl. rewrite length_fmap, length_seq in Hl.
  destruct (cfb_segments (aes_enc key) 1 true (be_num iv) (get_bit x <$> seq 0 bits)) as [cs v]. cbn [fst] in Hl.
  destruct Henc as (m' & E & F & Ri' & o' & Ro' & Bo' & Ho'). exists m', o'. do 5 (split; [done|]).
  intros inp' out' ivec' p m1 [Ri1 Rx1 Vo1 [_ _] Ha1 [D3 D4]] Rp Bp. pose proof (mread_length _ _ _ _ Ro') as Lo'.
  pose proof (cfb128_1_encrypt_ok (AES_encrypt key) (aes_enc key) false bits inp' out' ivec' (length o') o' p iv m1 ltac:(lia) Rx1 Rp Ri1 Bo' Bp Bi Ha1 D3 D4) as Hdec.
  assert (get_bit o' <$> seq 0 bits = cs) as Ecs.
  { apply list_eq_same_length with bits; [done|by rewrite length_fmap, length_seq|]. intros i y z Hi Hy Hz.
    rewrite list_lookup_fmap, lookup_seq_lt in Hy by done. injection Hy as <-. rewrite Ho', decide_True by done. by apply list_lookup_total_correct. }
  rewrite Ecs, Hrt in Hdec. destruct Hdec as (m2 & E2 & _ & Ri2 & p' & Rp' & _ & Hp'). exists m2, p'. rewrite Lo' in Rp'. do 2 (split; [done|]). split; [|done].
  intros i. rewrite Hp'. case_decide as Hi; [|done]. apply list_lookup_total_correct. by rewrite list_lookup_fmap, lookup_seq_lt.
Qed.

(** [AES_ofb128_encrypt] called for the two parts of a message leaves the output, the
    register and [*num] of OFB for the whole message, from the start of a block OFB of the
    standard; called again from the same register on that output it gives the message back. *)
Theorem aes_ofb128_two_calls key al1 al2 inp out ivec num n iv a b m :
  1 < rounds key → call_pre [(ivec, iv)] num inp out n (a ++ b) m →
  ∃ m1 m2, AES_ofb128_encrypt al1 inp out (length a) key ivec num m = Some (tt, m1) ∧
    AES_ofb128_encrypt al2 (padd inp (Z.of_nat (length a))) (padd out (Z.of_nat (length a))) (length b) key ivec num m1 = Some (tt, m2) ∧
    let '(cs, n', iv') := ofb_stream (aes_enc key) n iv (a ++ b) in
    call_post [(ivec, iv')] num out n' cs m m2 ∧ n' = ((n + length (a ++ b)) mod 16)%nat ∧
    (n = 0%nat → cs = ofb_blocks (aes_enc key) iv (chunks 16 (a ++ b))) ∧
    ∀ al inp' out' ivec' num' m', call_pre [(ivec', iv)] num' inp' out' n cs m' →
      ∃ m'', AES_ofb128_encrypt al inp' out' (length cs) key ivec' num' m' = Some (tt, m'') ∧
        call_post [(ivec', iv')] num' out' n' (a ++ b) m' m''.
Proof.
  intros Hk Hpre. key_ready Hk. unfold AES_ofb128_encrypt.
  destruct (ofb128_encrypt_ok (AES_encrypt key) (aes_enc key) al1 al2 inp out ivec num n iv a b m Hpre) as (m1 & m2 & R1 & R2 & P).
  exists m1, m2. do 2 (split; [done|]). pose proof (stream_used (aes_enc key) (reg_put (λ x _, x)) (a ++ b) n iv (pre_used _ _ _ _ _ _ _ Hpre)) as Hn.
  pose proof (ofb_stream_blocks (aes_enc key) (a ++ b) iv) as Hb. pose proof (ofb_stream_roundtrip (aes_enc key) n iv (a ++ b)) as Hrt.
  unfold ofb_stream in Hb. destruct (ofb_stream (aes_enc key) n iv (a ++ b)) as [[cs n'] iv'] eqn:E. unfold ofb_stream in E. rewrite E in Hn.
  split; [done|]. split; [done|]. split; [intros ->; by rewrite E in Hb|].
  intros al inp' out' ivec' num' m' Hpre'. pose proof (ofb128_encrypt_once (AES_encrypt key) (aes_enc key) al inp' out' ivec' num' n iv cs m' Hpre') as H'.
  by rewrite Hrt in H'.
Qed.

(** C16: [AES_ctr128_encrypt] called for the two parts of a message xors every byte with the
    next byte of the key stream: what is left of [ecount_buf], then the images of the counter
    and its successors modulo [2^128], however the message is cut and whichever loops run;
    afterwards the counter has gone up by the number of blocks begun. *)
Theorem aes_ctr128_keystream key al1 al2 inp out ivec ecount num n iv ec a b k m :
  1 < rounds key → call_pre [(ivec, iv); (ecount, ec)] num inp out n (a ++ b) m →
  (length (a ++ b) <= length (pad_left n ec) + 16 * k)%nat →
  ∃ m1 m2 ec', AES_ctr128_encrypt al1 inp out (length a) key ivec ecount num m = Some (tt, m1) ∧
    AES_ctr128_encrypt al2 (padd inp (Z.of_nat (length a))) (padd out (Z.of_nat (length a))) (length b) key ivec ecount num m1 = Some (tt, m2) ∧
    let len := length (a ++ b) in
    call_post [(ivec, num_bytes 16 (be_num iv + (Z.of_nat (n + len) + 15) / 16 - (Z.of_nat n + 15) / 16)); (ecount, ec')] num out ((n + len) mod 16)
      (xor_list (pad_left n ec ++ ctr_keystream (aes_enc key) k (be_num iv)) (a ++ b)) m m2.
Proof.
  intros Hk Hpre Hlen. key_ready Hk. unfold AES_ctr128_encrypt.
  destruct (ctr128_encrypt_ok (AES_encrypt key) (aes_enc key) al1 al2 inp out ivec ecount num n iv ec a b m Hpre) as (m1 & m2 & R1 & R2 & P).
  pose proof (pre_used _ _ _ _ _ _ _ Hpre) as Hu. pose proof (pre_regs _ _ _ _ _ _ _ Hpre) as Hregs.
  apply List.Forall_cons_iff in Hregs as [(L1 & B1 & _) Hregs]. apply List.Forall_cons_iff in Hregs as [(L2 & B2 & _) _]. cbn [fst snd] in *.
  assert (ctr_good (iv, ec)) as Hg by done.
  pose proof (stream_used (ctr_refresh (aes_enc key)) ctr_put (a ++ b) n (iv, ec) Hu) as Hn. fold (ctr_stream (aes_enc key) n (iv, ec) (a ++ b)) in Hn.
  pose proof (ctr_stream_keystream (aes_enc key) (a ++ b) k n (iv, ec) Hg Hu Hlen) as Hks.
  pose proof (ctr_stream_counter (aes_enc key) (a ++ b) n (iv, ec) Hg Hu) as Hctr.
  destruct (ctr_stream (aes_enc key) n (iv, ec) (a ++ b)) as [[cs n'] [iv' ec']]. cbn [fst snd] in *. subst.
  by exists m1, m2, ec'.
Qed.

(** C18: [AES_cbc_encrypt] encrypts a message of any length, in place or not, as CBC of the
    message padded with zero bytes: it writes whole blocks and leaves the last one in [ivec].
    Decrypting that many blocks with the key of [AES_set_decrypt_key] and the old [ivec],
    in place or not, writes exactly the message, and the same chaining value. *)
Theorem aes_cbc_roundtrip Nk k ek dk al1 al2 inp mid out ivec ivec' iv bs m :
  is_key Nk k → key_pair Nk k ek dk → let len := length bs in
  cbc_pre inp mid ivec len (blocks16 len) iv bs m →
  mread m ivec' 16 = Some iv → mvalid m out len → cbc_regions ivec' mid out (blocks16 len) len → pdisj ivec 16 ivec' 16 →
  ∃ m1 m2, AES_cbc_encrypt al1 inp mid len ek ivec 1 m = Some (tt, m1) ∧
    AES_cbc_encrypt al2 mid out len dk ivec' 0 m1 = Some (tt, m2) ∧
    let '(cs, iv') := cbc_encrypt (aes_enc ek) iv (zero_pad bs) in
    mread m1 mid (blocks16 len) = Some cs ∧ mread m1 ivec 16 = Some iv' ∧ mframe [(mid, blocks16 len); (ivec, 16%nat)] m m1 ∧
    mread m2 out len = Some bs ∧ mread m2 ivec' 16 = Some iv' ∧ mframe [(out, len); (ivec', 16%nat)] m1 m2.
Proof.
  intros Hkey Hp len Hpre Riv Hv Hreg Hd. destruct (key_pair_spec Nk k ek dk Hkey Hp) as (Hek & Hdk & _). pose proof (aes_block_cipher Nk k ek dk Hkey Hp) as HC.
  key_ready Hek. key_ready Hdk. unfold AES_cbc_encrypt. rewrite decide_False, decide_True by done.
  destruct (cbc128_encrypt_ok (AES_encrypt ek) (aes_enc ek) al1 inp mid ivec iv bs m Hpre) as (m1 & R1 & P). exists m1.
  pose proof (mread_length _ _ _ _ Riv) as Liv. pose proof Hpre as [_ Biv Bbs _ _ _]. fold len in R1, P.
  assert (length (zero_pad bs) = blocks16 len ∧ is_bytes (zero_pad bs)) as [Lz Bz].
  { unfold zero_pad. rewrite length_app, length_replicate. fold len. split; [|by apply Forall_app_2; [|apply Forall_replicate]].
    unfold blocks16. pose proof (Nat.div_mod (len + 15) 16 ltac:(lia)) as E1. pose proof (Nat.mod_upper_bound (len + 15) 16 ltac:(lia)). lia. }
  pose proof (cbc_roundtrip (aes_enc ek) (aes_dec dk) ((len + 15) / 16) iv (zero_pad bs) Lz Liv Bz Biv) as Hrt.
  destruct (cbc_encrypt_length (aes_enc ek) (aes_dec dk) ((len + 15) / 16) iv (zero_pad bs) Lz Liv) as [Lcs _].
  pose proof (cbc_encrypt_bytes (aes_enc ek) ((len + 15) / 16) iv (zero_pad bs) Lz) as Bcs.
  destruct (cbc_encrypt (aes_enc ek) iv (zero_pad bs)) as [cs iv'] eqn:Ecs. cbn [fst snd] in *. destruct P as (P1 & P2 & P3).
  change (16 * ((len + 15) / 16))%nat with (blocks16 len) in Lcs.
  destruct (cbc128_decrypt_ok (AES_decrypt dk) (aes_dec dk) al2 mid out ivec' len iv cs m1 Lcs) as (m2 & R2 & Q).
  { destruct Hreg as (Ha & H1' & H2'). split; rewrite ?Lcs; try done.
    - apply (apart_read m m1 _ _ _ _ P3); [|done]. constructor; [by apply pdisj_sym|by apply apart_1].
    - by apply P3. }
  exists m2. do 2 (split; [done|]). rewrite Hrt in Q. destruct Q as (Q1 & Q2 & Q3). do 3 (split; [done|]).
  split; [|done]. rewrite Q1. unfold zero_pad, len. by rewrite take_app_length.
Qed.
End properties.

(** *** Instances *)

(** The key of FIPS-197, C.1; a message of 37 bytes; registers and room for outputs. *)
Definition demo_ek : AES_KEY := default fresh_key (AES_set_encrypt_key (Some (fips_key 16)) 128 (Some fresh_key)).2.
Definition demo_dk : AES_KEY := default fresh_key (AES_set_decrypt_key (Some (fips_key 16)) 128 (Some fresh_key)).2.
Definition demo_text : list Z := (λ i, (7 * Z.of_nat i + 3) mod 256) <$> seq 0 37.
Definition demo_iv : list Z := replicate 15 255 ++ [254].
Definition demo_mem (n : nat) : mem :=
  {[1%positive := Some <$> demo_text; 2%positive := replicate 48 None; 3%positive := replicate 37 None;
    4%positive := Some <$> demo_iv; 5%positive := Some <$> le_bytes 4 (Z.of_nat n);
    6%positive := Some <$> demo_iv; 7%positive := Some <$> le_bytes 4 (Z.of_nat n)]}.

Lemma demo_key_rounds : 1 < rounds demo_ek.
Proof. vm_compute. done. Qed.

Lemma aes_cfb128_two_calls_witness :
  ∃ m1 m2, AES_cfb128_encrypt (tgt := LP64_x86) true (Ptr 1 0) (Ptr 2 0) 20 demo_ek (Ptr 4 0) (Ptr 5 0) 1 (demo_mem 0) = Some (tt, m1) ∧
    AES_cfb128_encrypt (tgt := LP64_x86) false (Ptr 1 20) (Ptr 2 20) 17 demo_ek (Ptr 4 0) (Ptr 5 0) 1 m1 = Some (tt, m2) ∧
    mread m2 (Ptr 2 0) 37 = Some (cfb_blocks (aes_enc demo_ek) true demo_iv (chunks 16 demo_text)).
Proof.
  destruct (aes_cfb128_two_calls (tgt := LP64_x86) demo_ek true false (Ptr 1 0) (Ptr 2 0) (Ptr 4 0) (Ptr 5 0) 1 0 demo_iv
    (take 20 demo_text) (drop 20 demo_text) (demo_mem 0) demo_key_rounds) as (m1 & m2 & R1 & R2 & H); [split; decide_by_compute|].
  exists m1, m2. split; [exact R1|]. split; [exact R2|]. rewrite take_drop in H.
  pose proof (cfb_stream_length (aes_enc demo_ek) (bool_decide (1 ≠ 0)) 0 demo_iv demo_text) as Hl.
  destruct (cfb_stream _ _ 0 demo_iv demo_text) as [[cs n'] iv']. destruct H as (P & _ & H0).
  destruct P as [_ _ _ Po _]. cbn [fst] in Hl. rewrite Hl, (H0 eq_refl) in Po. exact Po.
Defined.

Lemma aes_cfb128_roundtrip_witness :
  ∃ m1 m2 m3 m4, AES_cfb128_encrypt (tgt := ILP32_arm) true (Ptr 1 0) (Ptr 2 0) 5 demo_ek (Ptr 4 0) (Ptr 5 0) 1 (demo_mem 3) = Some (tt, m1) ∧
    AES_cfb128_encrypt (tgt := ILP32_arm) false (Ptr 1 5) (Ptr 2 5) 32 demo_ek (Ptr 4 0) (Ptr 5 0) 1 m1 = Some (tt, m2) ∧
    AES_cfb128_encrypt (tgt := ILP32_arm) false (Ptr 2 0) (Ptr 2 0) 30 demo_ek (Ptr 6 0) (Ptr 7 0) 0 m2 = Some (tt, m3) ∧
    AES_cfb128_encrypt (tgt := ILP32_arm) true (Ptr 2 30) (Ptr 2 30) 7 demo_ek (Ptr 6 0) (Ptr 7 0) 0 m3 = Some (tt, m4) ∧
    mread m4 (Ptr 2 0) 37 = Some demo_text ∧ mread m4 (Ptr 6 0) 16 = mread m4 (Ptr 4 0) 16 ∧ mread m4 (Ptr 7 0) 4 = mread m4 (Ptr 5 0) 4.
Proof.
  apply (aes_cfb128_roundtrip (tgt := ILP32_arm) demo_ek true false false true (Ptr 1 0) (Ptr 2 0) (Ptr 2 0) (Ptr 4 0) (Ptr 5 0) (Ptr 6 0) (Ptr 7 0) 3 demo_iv
    (take 5 demo_text) (drop 5 demo_text) 30 (demo_mem 3) demo_key_rounds); [vm_compute; lia|split; decide_by_compute|split; decide_by_compute].
Defined.

Lemma aes_ofb128_two_calls_witness :
  ∃ m1 m2, AES_ofb128_encrypt (tgt := LP64_x86) true (Ptr 1 0) (Ptr 1 0) 16 demo_ek (Ptr 4 0) (Ptr 5 0) (demo_mem 0) = Some (tt, m1) ∧
    AES_ofb128_encrypt (tgt := LP64_x86) false (Ptr 1 16) (Ptr 1 16) 21 demo_ek (Ptr 4 0) (Ptr 5 0) m1 = Some (tt, m2) ∧
    mread m2 (Ptr 1 0) 37 = Some (ofb_blocks (aes_enc demo_ek) demo_iv (chunks 16 demo_text)).
Proof.
  destruct (aes_ofb128_two_calls (tgt := LP64_x86) demo_ek true false (Ptr 1 0) (Ptr 1 0) (Ptr 4 0) (Ptr 5 0) 0 demo_iv
    (take 16 demo_text) (drop 16 demo_text) (demo_mem 0) demo_key_rounds) as (m1 & m2 & R1 & R2 & H); [split; decide_by_compute|].
  exists m1, m2. split; [exact R1|]. split; [exact R2|]. rewrite take_drop in H.
  pose proof (ofb_stream_length (aes_enc demo_ek) 0 demo_iv demo_text) as Hl.
  destruct (ofb_stream _ 0 demo_iv demo_text) as [[cs n'] iv']. destruct H as (P & _ & H0 & _).
  destruct P as [_ _ _ Po _]. cbn [fst] in Hl. rewrite Hl, (H0 eq_refl) in Po. exact Po.
Defined.

(** The counter starts two blocks before it wraps around. *)
Lemma aes_ctr128_keystream_witness :
  ∃ m1 m2, AES_ctr128_encrypt (tgt := LP64_x86) true (Ptr 1 0) (Ptr 2 0) 20 demo_ek (Ptr 4 0) (Ptr 6 0) (Ptr 5 0) (demo_mem 0) = Some (tt, m1) ∧
    AES_ctr128_encrypt (tgt := LP64_x86) false (Ptr 1 20) (Ptr 2 20) 17 demo_ek (Ptr 4 0) (Ptr 6 0) (Ptr 5 0) m1 = Some (tt, m2) ∧
    mread m2 (Ptr 4 0) 16 = Some (num_bytes 16 1) ∧
    mread m2 (Ptr 2 0) 37 = Some (xor_list (aes_enc demo_ek demo_iv ++ aes_enc demo_ek (replicate 16 255) ++ aes_enc demo_ek (replicate 16 0)) demo_text).
Proof.
  destruct (aes_ctr128_keystream (tgt := LP64_x86) demo_ek true false (Ptr 1 0) (Ptr 2 0) (Ptr 4 0) (Ptr 6 0) (Ptr 5 0) 0 demo_iv demo_iv
    (take 20 demo_text) (drop 20 demo_text) 3 (demo_mem 0) demo_key_rounds) as (m1 & m2 & ec' & R1 & R2 & H); [split; decide_by_compute|vm_compute; lia|].
  exists m1, m2. split; [exact R1|]. split; [exact R2|]. rewrite take_drop in H. destruct H as [Pr _ _ Po _]. split.
  - apply List.Forall_cons_iff in Pr as [(_ & _ & Pr) _]. exact Pr.
  - assert (xor_list (pad_left 0 demo_iv ++ ctr_keystream (aes_enc demo_ek) 3 (be_num demo_iv)) demo_text =
      xor_list (aes_enc demo_ek demo_iv ++ aes_enc demo_ek (replicate 16 255) ++ aes_enc demo_ek (replicate 16 0)) demo_text) as E by (vm_compute; reflexivity).
    rewrite E in Po. exact Po.
Defined.

Lemma aes_cbc_roundtrip_witness :
  ∃ ek dk m1 m2, key_pair 8 (fips_key 32) ek dk ∧
    AES_cbc_encrypt (tgt := LP64_x86) true (Ptr 1 0) (Ptr 2 0) 37 ek (Ptr 4 0) 1 (demo_mem 0) = Some (tt, m1) ∧
    AES_cbc_encrypt (tgt := LP64_x86) false (Ptr 2 0) (Ptr 2 0) 37 dk (Ptr 6 0) 0 m1 = Some (tt, m2) ∧
    mread m2 (Ptr 2 0) 37 = Some demo_text.
Proof.
  assert (Hk : is_key 8 (fips_key 32)) by decide_by_compute.
  destruct (key_pair_exists 8 (fips_key 32) fresh_key fresh_key Hk eq_refl eq_refl) as (ek & dk & _ & _ & Hp). exists ek, dk.
  destruct (aes_cbc_roundtrip (tgt := LP64_x86) 8 (fips_key 32) ek dk true false (Ptr 1 0) (Ptr 2 0) (Ptr 2 0) (Ptr 4 0) (Ptr 6 0) demo_iv demo_text (demo_mem 0) Hk Hp)
    as (m1 & m2 & R1 & R2 & H); [split; decide_by_compute|decide_by_compute..|].
  exists m1, m2. split; [exact Hp|]. split; [exact R1|]. split; [exact R2|]. destruct (cbc_encrypt _ _ _) as [cs iv']. apply H.
Defined.

Lemma aes_cfb8_segments_witness :
  ∃ m', AES_cfb8_encrypt (Ptr 1 0) (Ptr 2 0) 37 demo_ek (Ptr 4 0) 1 (demo_mem 0) = Some (tt, m') ∧
    mread m' (Ptr 2 0) 37 = Some (cfb_segments (aes_enc demo_ek) 8 true (be_num demo_iv) demo_text).1.
Proof.
  pose proof (aes_cfb8_segments demo_ek (Ptr 1 0) (Ptr 2 0) (Ptr 4 0) demo_iv demo_text (demo_mem 0) demo_key_rounds ltac:(split; decide_by_compute)) as H.
  destruct (cfb_segments _ 8 true _ demo_text) as [cs v]. destruct H as (m' & R & Ro & _). exists m'. split; [exact R|exact Ro].
Defined.

(** In place, 13 bits: two bytes change, the second only in its first five bits. *)
Lemma aes_cfb1_segments_witness :
  ∃ m' o', AES_cfb1_encrypt (Ptr 1 0) (Ptr 1 0) 13 demo_ek (Ptr 4 0) 1 (demo_mem 0) = Some (tt, m') ∧
    mread m' (Ptr 1 0) 37 = Some o' ∧ get_bit o' 13 = get_bit demo_text 13.
Proof.
  pose proof (aes_cfb1_segments demo_ek (Ptr 1 0) (Ptr 1 0) (Ptr 4 0) demo_iv demo_text demo_text 13 (demo_mem 0) demo_key_rounds
    ltac:(split; decide_by_compute) ltac:(vm_compute; lia) ltac:(vm_compute; reflexivity) ltac:(decide_by_compute)) as H.
  destruct (cfb_segments _ 1 true _ _) as [cs v]. destruct H as (m' & o' & R & Ro & Hb & _). exists m', o'. split; [exact R|]. split; [exact Ro|]. exact (Hb 13%nat).
Defined.
