(* ===== verification/Ctr32.v ===== *)
(** * Ctr32: the other loop of [ctr128.c], for processors with AES instructions

    [CRYPTO_ctr128_encrypt_ctr32] gives whole blocks to a function [func] that counts in the
    last 32 bits only, and propagates the carry itself. [func] is a parameter; the class
    [Ctr32Fun] says what the comments of the code say about it. *)

From S2P Require Import Prelude Mem Own Target ModeSpec Stream Modes Aes AesModes.

Section code.
Context {tgt : Target} (func : ptr → ptr → nat → ptr → C unit).

(** [GETU32(p)] and [PUTU32(p, v)]: big-endian words. *)
Definition get_u32 (p : ptr) : C Z := bs ← load p 4; mret (be_num bs).
Definition put_u32 (p : ptr) (v : Z) : C unit := store p (num_bytes 4 v).

(** [PUTU32(ivec+12, ctr32); if (ctr32 == 0) ctr96_inc(ivec);] *)
Definition set_ctr32 (ivec : ptr) (ctr32 : Z) : C unit :=
  put_u32 (padd ivec 12) ctr32;; if decide (ctr32 = 0) then ctr96_inc ivec else mret tt.

(** How many blocks go to [func], and [ctr32] after them: at most [1 << 28] when [size_t]
    is larger than [unsigned int], and none after the 32-bit counter wraps around. *)
Definition ctr32_blocks (len : nat) (ctr32 : Z) : nat * Z :=
  let blocks := Z.of_nat len / 16 in
  let blocks := if decide (4 < size_bytes)%nat then Z.min blocks (2 ^ 28) else blocks in
  let ctr32 := wrap 32 (ctr32 + wrap 32 blocks) in
  if decide (ctr32 < blocks) then (Z.to_nat (blocks - ctr32), 0) else (Z.to_nat blocks, ctr32).

(** The variables [in], [out], [len] and [ctr32]. *)
Record ctr32_vars := Ctr32Vars { c32_in : ptr; c32_out : ptr; c32_len : nat; c32_ctr : Z }.

(** [while (len >= 16)] *)
Fixpoint ctr32_loop (fuel : nat) (inp out : ptr) (len : nat) (ivec : ptr) (ctr32 : Z) : C ctr32_vars :=
  if decide (16 <= len)%nat then
    match fuel with
    | O => undefined
    | S fuel =>
        let '(blocks, ctr32) := ctr32_blocks len ctr32 in
        func inp out blocks ivec;; set_ctr32 ivec ctr32;;
        ctr32_loop fuel (padd inp (Z.of_nat (16 * blocks))) (padd out (Z.of_nat (16 * blocks))) (len - 16 * blocks) ivec ctr32
    end
  else mret (Ctr32Vars inp out len ctr32).

Definition CRYPTO_ctr128_encrypt_ctr32 (inp out : ptr) (len : nat) (ivec ecount_buf num : ptr) : C unit :=
  n ← load_uint num;
  c ← head_loop (pad_put ecount_buf) len (Z.to_nat n) inp out;
  ctr32 ← get_u32 (padd ivec 12);
  v ← ctr32_loop (left c) (at_in c) (at_out c) (left c) ivec ctr32;
  n ← (if decide (c32_len v = 0%nat) then mret (used c) else
       memset ecount_buf 0 16;;
       func ecount_buf ecount_buf 1 ivec;;
       set_ctr32 ivec (wrap 32 (c32_ctr v + 1));;
       put_loop (pad_put ecount_buf) (c32_len v) (used c) (c32_in v) (c32_out v));
  store_int num (Z.of_nat n).
End code.

(** ** The contract of [func] *)

(** The images of [k] counters that share the first 12 bytes. *)
Fixpoint ctr32_keystream (E : list Z → list Z) (k : nat) (high : list Z) (c : Z) : list Z :=
  match k with O => [] | S k => E (high ++ num_bytes 4 c) ++ ctr32_keystream E k high (c + 1) end.

(** It encrypts whole blocks, in place or not, and leaves [ivec] alone. *)
Class Ctr32Fun (func : ptr → ptr → nat → ptr → C unit) (E : list Z → list Z) : Prop :=
  ctr32_run inp out k ivec m iv x :
    mread m ivec 16 = Some iv → is_bytes iv → mread m inp (16 * k) = Some x → is_bytes x → mvalid m out (16 * k) →
    same_or_apart out inp (16 * k) → pdisj ivec 16 out (16 * k) →
    ∃ m', func inp out k ivec m = Some (tt, m') ∧
      mwrite m out (xor_list (ctr32_keystream E k (take 12 iv) (be_num (drop 12 iv))) x) = Some m'.

(** ** The counter *)

Lemma num_bytes_16 v : num_bytes 16 v = num_bytes 12 (v / 2 ^ 32) ++ num_bytes 4 v.
Proof. exact (num_bytes_app 12 4 v). Qed.

Section counter.
Context (E : list Z → list Z).

(** While the low word does not wrap around, the two key streams agree. *)
Lemma ctr32_keystream_eq k : ∀ v, v mod 2 ^ 32 + Z.of_nat k <= 2 ^ 32 →
  ctr32_keystream E k (num_bytes 12 (v / 2 ^ 32)) (v mod 2 ^ 32) = ctr_keystream E k v.
Proof.
  induction k as [|k IH]; intros v Hk; [done|]. cbn [ctr32_keystream ctr_keystream]. rewrite num_bytes_16.
  pose proof (num_bytes_mod 4 v) as Hm. change (256 ^ Z.of_nat 4) with (2 ^ 32) in Hm. rewrite Hm. f_equal.
  destruct k as [|k]; [done|]. rewrite <- IH; change (2 ^ 32) with 4294967296 in *.
  - f_equal; [f_equal|]; Z.to_euclidean_division_equations; lia.
  - Z.to_euclidean_division_equations; lia.
Qed.
End counter.

Lemma set_ctr32_ok ivec v k m : mread m ivec 16 = Some (num_bytes 16 v) → v mod 2 ^ 32 + k <= 2 ^ 32 → 1 <= k →
  ∃ m', set_ctr32 ivec ((v + k) mod 2 ^ 32) m = Some (tt, m') ∧ mread m' ivec 16 = Some (num_bytes 16 (v + k)) ∧ mframe [(ivec, 16%nat)] m m'.
Proof.
  intros Hr Hk Hk1. rewrite num_bytes_16 in Hr. apply (mread_split m ivec 12 4) in Hr as (l1 & l2 & E & L1 & R1 & R2).
  apply app_inj_1 in E as [<- <-]; [|by rewrite num_bytes_length]. unfold set_ctr32, put_u32.
  assert (num_bytes 4 ((v + k) mod 2 ^ 32) = num_bytes 4 (v + k)) as E4 by exact (num_bytes_mod 4 (v + k)). rewrite E4.
  destruct (mvalid_store m (padd ivec 12) (num_bytes 4 (v + k))) as (m1 & W & S1); [by eapply mread_mvalid|]. rewrite (bind_Some _ _ m _ m1 S1).
  pose proof (mwrite_mframe _ _ _ _ W) as F1. rewrite num_bytes_length in F1. pose proof (mread_mwrite _ _ _ _ W) as R3. rewrite num_bytes_length in R3.
  assert (mread m1 ivec 12 = Some (num_bytes 12 (v / 2 ^ 32))) as R4 by (apply (apart_read m m1 _ _ _ _ F1); [apply apart_1; clear; solve_pdisj|done]).
  assert (mframe [(ivec, 16%nat)] m m1) as F by (eapply mframe_mono; [exact F1|]; eapply (covers_sub _ ivec 16 12); [left|lia]).
  rewrite (num_bytes_16 (v + k)). case_decide as H0.
  - destruct (ctr_inc_ok ivec 12 _ m1 (num_bytes_is_bytes 12 _) R4) as (m2 & E2 & R5 & F2). exists m2. split; [done|].
    assert (num_bytes 12 (be_num (num_bytes 12 (v / 2 ^ 32)) + 1) = num_bytes 12 ((v + k) / 2 ^ 32)) as E12.
    { rewrite <- (num_bytes_mod 12), <- (num_bytes_mod 12 ((v + k) / 2 ^ 32)). f_equal. rewrite <- (num_bytes_mod 12 (v / 2 ^ 32)).
      rewrite be_num_bytes by (apply Z.mod_pos_bound; lia). rewrite Zplus_mod_idemp_l. f_equal.
      change (2 ^ 32) with 4294967296 in *. Z.to_euclidean_division_equations. lia. }
    rewrite E12 in R5. split; [|transitivity m1; [done|]; eapply mframe_mono; [exact F2|]; eapply covers_take; [left|lia]].
    apply (mread_join m2 ivec 12 4); [done|]. apply (apart_read m1 m2 _ _ _ _ F2); [apply apart_1; clear; solve_pdisj|done].
  - exists m1. split; [done|]. split; [|done]. apply (mread_join m1 ivec 12 4); [|done]. rewrite R4. do 2 f_equal.
    change (2 ^ 32) with 4294967296 in *. Z.to_euclidean_division_equations. lia.
Qed.

(** ** The loop *)

Section loop.
Context {tgt : Target} (func : ptr → ptr → nat → ptr → C unit) (E : list Z → list Z) `{!Ctr32Fun func E} `{!BlockMap E}.

Lemma ctr32_blocks_ok len v b c : (16 <= len)%nat → Z.of_nat len < 2 ^ size_bits → ctr32_blocks len (v mod 2 ^ 32) = (b, c) →
  (1 <= b)%nat ∧ (16 * b <= len)%nat ∧ v mod 2 ^ 32 + Z.of_nat b <= 2 ^ 32 ∧ c = (v + Z.of_nat b) mod 2 ^ 32.
Proof.
  intros Hlen Hsize. unfold ctr32_blocks. set (B := if decide (4 < size_bytes)%nat then Z.min (Z.of_nat len / 16) (2 ^ 28) else Z.of_nat len / 16).
  assert (1 <= B <= 2 ^ 28 ∧ 16 * B <= Z.of_nat len) as [HB1 HB2].
  { unfold B. assert (1 <= Z.of_nat len / 16) by (apply Z.div_le_lower_bound; lia). pose proof (Z.mul_div_le (Z.of_nat len) 16 ltac:(lia)).
    case_decide as Hd; [change (2 ^ 28) with 268435456; lia|]. split; [|lia]. split; [done|]. unfold size_bits in Hsize.
    destruct size_bytes_ok as [Hs|Hs]; [|lia]. rewrite Hs in Hsize. change (2 ^ (8 * Z.of_nat 4)) with 4294967296 in Hsize.
    change (2 ^ 28) with 268435456. apply Z.div_le_upper_bound; lia. }
  clearbody B. change (2 ^ 28) with 268435456 in HB1. pose proof (Z.mod_pos_bound v (2 ^ 32) ltac:(lia)) as Hv. cbv zeta.
  rewrite (wrap_small 32 B) by (unfold is_word; change (2 ^ 32) with 4294967296; lia). unfold wrap. rewrite Zplus_mod_idemp_l.
  change (2 ^ 32) with 4294967296 in *. case_decide as Hd; intros [= <- <-].
  - assert (0 <= B - (v + B) mod 4294967296) by lia. rewrite Z2Nat.id by done. Z.to_euclidean_division_equations. lia.
  - assert (0 <= B) by lia. rewrite Z2Nat.id by done. Z.to_euclidean_division_equations. lia.
Qed.

Lemma ctr_keystream_app k j : ∀ v, ctr_keystream E (k + j) v = ctr_keystream E k v ++ ctr_keystream E j (v + Z.of_nat k).
Proof.
  induction k as [|k IH]; intros v; [by rewrite Z.add_0_r|]. cbn [Nat.add ctr_keystream]. rewrite IH, <- app_assoc. do 3 f_equal. lia.
Qed.

Lemma xor_list_app a1 a2 b1 b2 : length a1 = length b1 → xor_list (a1 ++ a2) (b1 ++ b2) = xor_list a1 b1 ++ xor_list a2 b2.
Proof. intros Hl. unfold xor_list. by rewrite zip_with_app. Qed.

Lemma be_num_4 v : be_num (num_bytes 4 v) = v mod 2 ^ 32.
Proof. rewrite <- num_bytes_mod. apply be_num_bytes. by apply Z.mod_pos_bound. Qed.

(** [func] on blocks whose counters do not wrap around. *)
Lemma func_ok inp out ivec v k m x : mread m ivec 16 = Some (num_bytes 16 v) → mread m inp (16 * k) = Some x → is_bytes x → mvalid m out (16 * k) →
  same_or_apart out inp (16 * k) → pdisj ivec 16 out (16 * k) → v mod 2 ^ 32 + Z.of_nat k <= 2 ^ 32 →
  ∃ m', func inp out k ivec m = Some (tt, m') ∧ mread m' out (16 * k) = Some (xor_list (ctr_keystream E k v) x) ∧ mframe [(out, (16 * k)%nat)] m m'.
Proof.
  intros Hiv Hx Bx Hv Ha Hd Hk. destruct (ctr32_run inp out k ivec m _ x Hiv (num_bytes_is_bytes 16 v) Hx Bx Hv Ha Hd) as (m' & R & W).
  rewrite num_bytes_16 in W. rewrite (take_app_length' (num_bytes 12 _)) in W by (by rewrite num_bytes_length).
  rewrite (drop_app_length' (num_bytes 12 _)) in W by (by rewrite num_bytes_length). rewrite be_num_4, ctr32_keystream_eq in W by done.
  pose proof (mread_length _ _ _ _ Hx) as Lx. pose proof (ctr_keystream_length E k v) as Lk.
  pose proof (mread_mwrite _ _ _ _ W) as Ro. pose proof (mwrite_mframe _ _ _ _ W) as F. rewrite xor_list_length, Lk in Ro, F by lia. by exists m'.
Qed.

Lemma ctr32_loop_ok fuel : ∀ inp out ivec v bs m, (length bs <= fuel)%nat → Z.of_nat (length bs) < 2 ^ size_bits →
  mread m ivec 16 = Some (num_bytes 16 v) → mread m inp (length bs) = Some bs → is_bytes bs → mvalid m out (length bs) →
  same_or_apart out inp (length bs) → pdisj ivec 16 out (length bs) → pdisj ivec 16 inp (length bs) →
  ∃ k c d m', bs = c ++ d ∧ length c = (16 * k)%nat ∧ (length d < 16)%nat ∧
    ctr32_loop func fuel inp out (length bs) ivec (v mod 2 ^ 32) m =
      Some (Ctr32Vars (padd inp (Z.of_nat (16 * k))) (padd out (Z.of_nat (16 * k))) (length d) ((v + Z.of_nat k) mod 2 ^ 32), m') ∧
    mread m' ivec 16 = Some (num_bytes 16 (v + Z.of_nat k)) ∧ mread m' out (16 * k) = Some (xor_list (ctr_keystream E k v) c) ∧
    mframe [(out, (16 * k)%nat); (ivec, 16%nat)] m m'.
Proof.
  induction fuel as [|fuel IH]; intros inp out ivec v bs m Hf Hs Riv Rbs Bbs Hv Ha Ho Hi.
  all: destruct (decide (16 <= length bs)%nat) as [Hl|Hl];
    [|exists 0%nat, [], bs, m; cbn [Nat.mul length ctr32_loop]; rewrite decide_False by done; rewrite !padd_0, !Z.add_0_r;
      do 2 (split; [done|]); split; [lia|]; do 2 (split; [done|]); split; [apply mread_nil; eapply mvalid_take; [exact Hv|lia]|reflexivity]].
  - lia.
  - cbn [ctr32_loop]. rewrite decide_True by done. destruct (ctr32_blocks (length bs) (v mod 2 ^ 32)) as [b cc] eqn:Eb.
    destruct (ctr32_blocks_ok _ v b cc Hl Hs Eb) as (Hb1 & Hb2 & Hb3 & ->). clear Eb.
    assert (∃ x y, bs = x ++ y ∧ length x = (16 * b)%nat) as (x & y & -> & L1).
    { exists (take (16 * b) bs), (drop (16 * b) bs). rewrite take_drop, length_take. split; [done|lia]. }
    rewrite length_app, L1 in Hf, Hs, Rbs, Hv, Ha, Ho, Hi, Hl, Hb2 |- *.
    apply List.Forall_app in Bbs as [Bx By]. apply mread_split in Rbs as (x' & y' & Exy & Lx' & R1 & R2). apply app_inj_1 in Exy as [<- <-]; [|lia].
    destruct (func_ok inp out ivec v b m x Riv R1 Bx) as (m1 & E1 & Ro & F1);
      [eapply mvalid_take; [exact Hv|lia]|eapply same_or_apart_take; [exact Ha|lia]|clear - Ho; solve_pdisj|done|].
    rewrite (bind_Some _ _ m _ m1 E1).
    assert (mread m1 ivec 16 = Some (num_bytes 16 v)) as Riv1 by (apply (apart_read m m1 _ _ _ _ F1); [apply apart_1; clear - Ho; solve_pdisj|done]).
    destruct (set_ctr32_ok ivec v (Z.of_nat b) m1 Riv1 Hb3 ltac:(lia)) as (m2 & E2 & Riv2 & F2). rewrite (bind_Some _ _ m1 _ m2 E2).
    replace (16 * b + length y - 16 * b)%nat with (length y) by lia.
    assert (mread m2 (padd inp (Z.of_nat (16 * b))) (length y) = Some y) as R2'.
    { apply (apart_read m1 m2 _ _ _ _ F2); [apply apart_1; clear - Hi; solve_pdisj|]. apply (apart_read m m1 _ _ _ _ F1); [|done]. apply apart_1.
      clear - Ha. destruct Ha as [->|Ha]; solve_pdisj. }
    destruct (IH (padd inp (Z.of_nat (16 * b))) (padd out (Z.of_nat (16 * b))) ivec (v + Z.of_nat b) y m2) as (k & c & d & m3 & Ey & Lc & Ld & E3 & Riv3 & Ro3 & F3);
      [lia|lia|done|done|done|by apply F2, F1; eapply mvalid_sub; [exact Hv|lia]|by apply same_or_apart_drop|clear - Ho; solve_pdisj|clear - Hi; solve_pdisj|].
    exists (b + k)%nat, (x ++ c), d, m3. split; [by rewrite Ey, app_assoc|]. split; [rewrite length_app; lia|]. split; [done|].
    rewrite !padd_add in E3. replace (Z.of_nat (16 * (b + k))) with (Z.of_nat (16 * b) + Z.of_nat (16 * k)) by lia.
    replace (v + Z.of_nat (b + k)) with (v + Z.of_nat b + Z.of_nat k) by lia. split; [exact E3|]. split; [done|].
    replace (16 * (b + k))%nat with (16 * b + 16 * k)%nat by lia. split.
    + rewrite ctr_keystream_app. rewrite (xor_list_app (ctr_keystream E b v)) by (rewrite (ctr_keystream_length E b v); lia). apply mread_join; [|done].
      apply (apart_read m2 m3 _ _ _ _ F3); [constructor; [cbn [fst snd]; clear; solve_pdisj|apply apart_1; clear - Ho; solve_pdisj]|].
      apply (apart_read m1 m2 _ _ _ _ F2); [apply apart_1; clear - Ho; solve_pdisj|done].
    + transitivity m1; [eapply mframe_mono; [exact F1|]; eapply covers_take; [left|lia]|].
      transitivity m2; [eapply mframe_mono; [exact F2|]; eapply covers_take; [right; left|lia]|]. eapply mframe_mono; [exact F3|].
      apply covers_cons; [eapply (covers_sub _ out (16 * b + 16 * k)); [left|lia]|eapply covers_take; [right; left|lia]].
Qed.
End loop.

(** ** The function against [ctr_stream] *)

Section whole.
Context {tgt : Target} (func : ptr → ptr → nat → ptr → C unit) (E : list Z → list Z) `{!Ctr32Fun func E} `{!BlockMap E}.
Context (ivec ecount : ptr) (Hap : pdisj ivec 16 ecount 16).

(** A block function for [E], for the lemmas on [ctr128.c]. *)
Definition pure_block (inp out : ptr) : C unit := b ← load inp 16; store out (E b).
Lemma pure_block_fun : BlockFun pure_block E.
Proof.
  intros inp out m b Hb Bb Hv. rewrite <- (map_length b) in Hv. destruct (mvalid_store _ _ _ Hv) as (m' & W & S). exists m'. split; [|done].
  unfold pure_block, load. by rewrite (bind_Some _ _ m b m) by (by rewrite Hb).
Qed.

Abbreviation bufs := [(ivec, 16%nat); (ecount, 16%nat)].
Abbreviation ready := (before (regs := bufs) (holds := ctr_holds ivec ecount) (good := ctr_good)).
Abbreviation finished := (after (writes := bufs) (holds := ctr_holds ivec ecount) (good := ctr_good)).

Lemma ctr_keystream_1 v : ctr_keystream E 1 v = E (num_bytes 16 v).
Proof. apply app_nil_r. Qed.

Lemma xor_list_zeros l : xor_list l (replicate (length l) 0) = l.
Proof. unfold xor_list. induction l as [|x l IH]; [done|]. cbn. by rewrite IH, Z.lxor_0_r. Qed.

(** The block for the last bytes is the image of the counter. *)
Lemma ctr32_refresh_ok s m : ctr_good s → ctr_holds ivec ecount s m →
  ∃ m', (memset ecount 0 16;; func ecount ecount 1 ivec;; set_ctr32 ivec (wrap 32 (be_num s.1 mod 2 ^ 32 + 1))) m = Some (tt, m') ∧
    ctr_holds ivec ecount (ctr_refresh E s) m' ∧ mframe bufs m m'.
Proof.
  intros [Hg _] [H1 H2]. unfold reg_holds in *. set (v := be_num s.1). rewrite <- (num_bytes_reg s.1 Hg) in H1. fold v in H1.
  destruct (mvalid_store m ecount (replicate 16 0)) as (m1 & W1 & S1); [by eapply mread_mvalid|].
  pose proof (mread_mwrite _ _ _ _ W1) as R1. pose proof (mwrite_mframe _ _ _ _ W1) as F1. rewrite length_replicate in R1, F1.
  assert (mread m1 ivec 16 = Some (num_bytes 16 v)) as Ri1 by (apply (apart_read m m1 _ _ _ _ F1); [by apply apart_1, pdisj_sym|done]).
  pose proof (Z.mod_pos_bound v (2 ^ 32) ltac:(lia)) as Hv.
  destruct (func_ok func E ecount ecount ivec v 1 m1 (replicate 16 0) Ri1 R1) as (m2 & E2 & R2 & F2);
    [by apply Forall_replicate|by eapply mread_mvalid|by left|done|lia|].
  assert (mread m2 ivec 16 = Some (num_bytes 16 v)) as Ri2 by (apply (apart_read m1 m2 _ _ _ _ F2); [by apply apart_1, pdisj_sym|done]).
  destruct (set_ctr32_ok ivec v 1 m2 Ri2 ltac:(lia) ltac:(lia)) as (m3 & E3 & R3 & F3). exists m3.
  split; [|split; [split|]].
  - rewrite (bind_Some _ _ m _ m1 S1), (bind_Some _ _ m1 _ m2 E2). unfold wrap. by rewrite Zplus_mod_idemp_l.
  - exact R3.
  - apply (apart_read m2 m3 _ _ _ _ F3); [by apply apart_1|]. rewrite ctr_keystream_1 in R2. unfold v in R2. rewrite num_bytes_reg in R2 by done.
    pose proof (xor_list_zeros (E s.1)) as Hz. rewrite map_length in Hz. by rewrite Hz in R2.
  - transitivity m1; [eapply mframe_mono; [exact F1|]; eapply covers_take; [right; left|lia]|].
    transitivity m2; [eapply mframe_mono; [exact F2|]; eapply covers_take; [right; left|lia]|]. eapply mframe_mono; [exact F3|]. eapply covers_take; [left|lia].
Qed.

(** The whole blocks: [ecount_buf] is not used. *)
Lemma ctr32_whole_ok s inp out bs m : ready s inp out bs m → Z.of_nat (length bs) < 2 ^ size_bits →
  ∃ c d r s1 m1, bs = c ++ d ∧ (length d < 16)%nat ∧ byte_stream (ctr_refresh E) ctr_put 0 s c = (r, 0%nat, s1) ∧
    ctr32_loop func (length bs) inp out (length bs) ivec (be_num s.1 mod 2 ^ 32) m =
      Some (Ctr32Vars (padd inp (Z.of_nat (length c))) (padd out (Z.of_nat (length c))) (length d) (be_num s1.1 mod 2 ^ 32), m1) ∧
    finished (s1.1, s.2) out r m m1.
Proof.
  intros [Hg [Hi He] Bbs Rbs Hv Ain Aout Hal] Hsize. pose proof Hg as [Gi Ge]. unfold reg_holds in *. set (v0 := be_num s.1).
  apply List.Forall_cons_iff in Ain as [Ain _]. pose proof Aout as Ao. apply List.Forall_cons_iff in Ao as [Ao Ae]. apply List.Forall_cons_iff in Ae as [Ae _].
  cbn [fst snd] in *. rewrite <- (num_bytes_reg s.1 Gi) in Hi. fold v0 in Hi.
  destruct (ctr32_loop_ok func E (length bs) inp out ivec v0 bs m (le_n _) Hsize Hi Rbs Bbs Hv Hal Ao Ain) as (k & c & d & m1 & -> & Lc & Ld & E1 & Ri1 & Ro1 & F1).
  rewrite length_app, Lc in Ae. pose proof (ctr_stream_keystream E c k 0 s Hg ltac:(lia)) as Hks. pose proof (ctr_stream_counter E c 0 s Hg ltac:(lia)) as Hct.
  pose proof (stream_used (ctr_refresh E) ctr_put c 0 s ltac:(lia)) as Hn1. unfold ctr_stream in *.
  destruct (byte_stream (ctr_refresh E) ctr_put 0 s c) as [[r1 n1] s1] eqn:Es1. cbn [fst snd] in *. fold v0 in Hks, Hct.
  specialize (Hks ltac:(rewrite Lc; lia)). change (pad_left 0 s.2) with (@nil Z) in Hks. cbn [app] in Hks. rewrite Lc in Hct, Hn1.
  replace (0 + 16 * k)%nat with (k * 16)%nat in Hn1 by lia. rewrite Nat.Div0.mod_mul in Hn1. subst n1.
  replace (v0 + _ - _) with (v0 + Z.of_nat k) in Hct by (rewrite Nat.add_0_l; Z.to_euclidean_division_equations; lia).
  assert (length r1 = (16 * k)%nat) as Lr by (rewrite Hks, xor_list_length, (ctr_keystream_length E) by (rewrite (ctr_keystream_length E); lia); lia).
  exists c, d, r1, s1, m1. do 3 (split; [done|]). rewrite Lc. split; [rewrite Hct, be_num_num_bytes_16, Z.mod_mod_divide by (by exists (2 ^ 96)); exact E1|].
  split.
  - split; [rewrite Hct; split; [apply num_bytes_length|apply num_bytes_is_bytes]|done].
  - split; [unfold reg_holds; by rewrite Hct|]. apply (apart_read m m1 _ _ _ _ F1); [|done]. constructor; [|by apply apart_1].
    cbn [fst snd]. eapply pdisj_take; [apply pdisj_sym, Ae|lia].
  - rewrite Hks. apply List.Forall_app in Bbs as [Bc _]. apply xor_list_bytes; [|done]. clear - BlockMap0. generalize v0. induction k as [|k IH]; intros v; [constructor|].
    cbn [ctr_keystream]. apply Forall_app_2; [apply map_bytes|apply IH].
  - by rewrite Lr, Hks.
  - rewrite Lr. eapply mframe_mono; [exact F1|]. apply covers_cons; [eapply covers_take; [left|lia]|eapply covers_take; [right; left|lia]].
Qed.

(** The last bytes. *)
Lemma ctr32_tail_ok s inp out d m : ready s inp out d m → (length d < 16)%nat → d ≠ [] →
  ∃ m', let '(r, _, s') := byte_stream (ctr_refresh E) ctr_put 0 s d in
    (memset ecount 0 16;; func ecount ecount 1 ivec;; set_ctr32 ivec (wrap 32 (be_num s.1 mod 2 ^ 32 + 1));;
     put_loop (pad_put ecount) (length d) 0 inp out) m = Some (length d, m') ∧ finished s' out r m m'.
Proof.
  intros HB Hl Hne. pose proof pure_block_fun as HF. pose proof (ctr_mode pure_block E ivec ecount Hap) as Hmode.
  pose proof HB as [Hg Hh Hb Hr Hv Hi Ho Ha]. destruct (ctr32_refresh_ok s m Hg Hh) as (m1 & E1 & H1 & F1).
  assert (ready (ctr_refresh E s) inp out d m1) as B1.
  { split; try done; [by apply (mode_good_refresh s)|by apply (apart_read m m1 _ _ _ _ F1)|by apply F1]. }
  rewrite <- (padd_0 inp), <- (padd_0 out) in B1.
  destruct (put_loop_ok d 0 (ctr_refresh E s) inp out m1 ltac:(lia) B1) as (m2 & E2 & A2).
  exists m2. rewrite stream_block by (done || lia). rewrite (surjective_pairing (puts ctr_put 0 (ctr_refresh E s) d)). rewrite padd_0 in A2. split.
  - unfold mbind, C_bind in E1 |- *. destruct (memset ecount 0 16 m) as [[[] ma]|]; [|done]. destruct (func ecount ecount 1 ivec ma) as [[[] mb]|]; [|done]. by rewrite E1.
  - destruct A2 as [G H B R F]. split; try done. transitivity m1; [|done]. eapply mframe_mono; [exact F1|]. intros q n Hq. by inversion Hq.
Qed.

(** From the start of a block to the end of the data. *)
Lemma ctr32_rest_ok s inp out bs m : ready s inp out bs m → Z.of_nat (length bs) < 2 ^ size_bits →
  ∃ v m1 m2 n' r s' ec, ctr32_loop func (length bs) inp out (length bs) ivec (be_num s.1 mod 2 ^ 32) m = Some (v, m1) ∧
    byte_stream (ctr_refresh E) ctr_put 0 s bs = (r, n', s') ∧ (n' ≠ 0%nat → ec = s'.2) ∧ finished (s'.1, ec) out r m m2 ∧
    (if decide (c32_len v = 0%nat) then mret 0%nat else
       memset ecount 0 16;; func ecount ecount 1 ivec;; set_ctr32 ivec (wrap 32 (c32_ctr v + 1));;
       put_loop (pad_put ecount) (c32_len v) 0 (c32_in v) (c32_out v)) m1 = Some (n', m2).
Proof.
  intros HB Hsize. destruct (ctr32_whole_ok s inp out bs m HB Hsize) as (c & d & r1 & s1 & m1 & -> & Ld & Es1 & E1 & A1).
  pose proof pure_block_fun as HF. pose proof (ctr_mode pure_block E ivec ecount Hap) as Hmode.
  pose proof (stream_length (ctr_refresh E) ctr_put c 0 s) as L1. rewrite Es1 in L1. cbn [fst] in L1.
  pose proof (before_drop s _ inp out c d r1 m m1 HB L1 A1) as B1. rewrite stream_app, Es1.
  exists (Ctr32Vars (padd inp (Z.of_nat (length c))) (padd out (Z.of_nat (length c))) (length d) (be_num s1.1 mod 2 ^ 32)), m1. rewrite E1. cbn [c32_in c32_out c32_len c32_ctr]. case_decide as H0.
  - apply nil_length_inv in H0 as ->. exists m1, 0%nat, (r1 ++ []), s1, s.2. split; [done|]. split; [done|]. split; [done|]. split; [by rewrite app_nil_r|done].
  - destruct (ctr32_tail_ok _ _ _ d m1 B1 Ld) as (m2 & E2); [by intros ->|].
    rewrite stream_block in E2 |- * by (lia || by intros ->). change (ctr_refresh E (s1.1, s.2)) with (ctr_refresh E s1) in E2.
    pose proof (puts_length ctr_put d 0 (ctr_refresh E s1)) as L2. destruct (puts ctr_put 0 (ctr_refresh E s1) d) as [r2 s2]. cbn [fst snd] in *. destruct E2 as [E2 A2].
    exists m2, (length d), (r1 ++ r2), s2, s2.2. split; [done|]. split; [by rewrite Nat.mod_small by lia|]. split; [done|]. split; [|exact E2].
    rewrite <- surjective_pairing. by apply (after_join s (s1.1, s.2) s2 inp out c d r1 r2 m m1 m2 HB L1); [lia|..].
Qed.

(** [ctr32 = GETU32(ivec+12);] and the rest, wherever the first loop stops. *)
Lemma ctr32_after_head n s inp out bs m : (n = 0%nat ∨ bs = []) → ready s inp out bs m → Z.of_nat (length bs) < 2 ^ size_bits →
  ∃ m' n' r s' ec, (ctr32 ← get_u32 (padd ivec 12);
      v ← ctr32_loop func (length bs) inp out (length bs) ivec ctr32;
      if decide (c32_len v = 0%nat) then mret n else
        memset ecount 0 16;; func ecount ecount 1 ivec;; set_ctr32 ivec (wrap 32 (c32_ctr v + 1));;
        put_loop (pad_put ecount) (c32_len v) n (c32_in v) (c32_out v)) m = Some (n', m') ∧
    byte_stream (ctr_refresh E) ctr_put n s bs = (r, n', s') ∧ (n' ≠ 0%nat → ec = s'.2) ∧ finished (s'.1, ec) out r m m'.
Proof.
  intros Hn HB Hsize. pose proof HB as [[Gi _] [Hi _] _ _ _ _ _ _]. pose proof Hi as Hi'. unfold reg_holds in Hi'. rewrite <- (num_bytes_reg s.1 Gi), num_bytes_16 in Hi'.
  apply (mread_split m ivec 12 4) in Hi' as (l1 & l2 & E' & L & _ & R2). apply app_inj_1 in E' as [<- <-]; [|by rewrite num_bytes_length].
  assert (get_u32 (padd ivec 12) m = Some (be_num s.1 mod 2 ^ 32, m)) as Eg.
  { unfold get_u32. rewrite (bind_Some _ _ m _ m (load_Some _ _ _ _ R2)). by rewrite be_num_4. }
  destruct Hn as [->| ->].
  - destruct (ctr32_rest_ok s inp out bs m HB Hsize) as (v & m1 & m2 & n' & r & s' & ec & E1 & Es & Hec & A & E2).
    exists m2, n', r, s', ec. split; [|done]. rewrite (bind_Some _ _ m _ m Eg). by rewrite (bind_Some _ _ m _ m1 E1).
  - pose proof pure_block_fun as HF. pose proof (ctr_mode pure_block E ivec ecount Hap) as Hmode.
    exists m, n, [], s, s.2. rewrite (bind_Some _ _ m _ m Eg). cbn [length ctr32_loop]. do 3 (split; [done|]). rewrite <- surjective_pairing. by apply (after_nil (regs := bufs) (writes := bufs) s inp).
Qed.
End whole.

(** ** Properties *)

(** C17: [CRYPTO_ctr128_encrypt_ctr32], which hands whole blocks to a function that counts in 32
    bits only, leaves the output, [ivec] and [*num] of [CRYPTO_ctr128_encrypt], which counts
    block by block in 128 bits, wherever the low word of the counter wraps around and however
    many blocks there are; and the same [ecount_buf] when some of it is still to be used. *)
Theorem ctr32_is_ctr128 {tgt : Target} func block E `{!Ctr32Fun func E} `{!BlockFun block E} `{!BlockMap E} al inp out ivec ecount num n iv ec bs m :
  Z.of_nat (length bs) < 2 ^ size_bits → call_pre [(ivec, iv); (ecount, ec)] num inp out n bs m →
  ∃ m1 m2, CRYPTO_ctr128_encrypt block al inp out (length bs) ivec ecount num m = Some (tt, m1) ∧
    CRYPTO_ctr128_encrypt_ctr32 func inp out (length bs) ivec ecount num m = Some (tt, m2) ∧
    let '(cs, n', (iv', ec')) := ctr_stream E n (iv, ec) bs in
    call_post [(ivec, iv'); (ecount, ec')] num out n' cs m m1 ∧
    ∃ ec2, call_post [(ivec, iv'); (ecount, ec2)] num out n' cs m m2 ∧ (n' ≠ 0%nat → ec2 = ec').
Proof.
  intros Hsize Hpre. assert (pdisj ivec 16 ecount 16) as Hap.
  { destruct (pre_apart _ _ _ _ _ _ _ Hpre) as (_ & _ & H & _). by apply List.Forall_cons_iff in H as [H _]. }
  pose proof (ctr_mode block E ivec ecount Hap) as Hmode. set (regs := λ s : list Z * list Z, [(ivec, s.1); (ecount, s.2)]).
  assert (∀ s, ctr_good s ↔ Forall (λ r, length r.2 = 16%nat ∧ is_bytes r.2) (regs s)) as Hgood by (intros s; unfold regs; rewrite List.Forall_cons_iff, regs_1; done).
  assert (∀ s m0, ctr_holds ivec ecount s m0 ↔ Forall (λ r, mread m0 r.1 16 = Some r.2) (regs s)) as Hholds by (intros s m0; unfold regs; rewrite List.Forall_cons_iff, regs_1; done).
  set (ps := [(ivec, 16%nat); (ecount, 16%nat)]). assert (∀ s, ((λ r, (r.1, 16%nat)) <$> regs s) = ps) as Hps by done.
  destruct (crypt_call_ok regs ps ps Hps Hgood Hholds al num inp out n (iv, ec) bs m Hpre) as (m1 & R1 & P1). exists m1.
  pose proof (call_before regs ps Hps Hgood Hholds num inp out n (iv, ec) bs m Hpre) as HB.
  destruct (head_loop_ok bs n (iv, ec) inp out m (pre_used _ _ _ _ _ _ _ Hpre) HB) as (a & b & r & n1 & s1 & m2 & -> & Es1 & Hn1 & A1 & E1).
  pose proof (stream_length (ctr_refresh E) ctr_put a n (iv, ec)) as L1. rewrite Es1 in L1. cbn [fst] in L1.
  pose proof (before_drop _ s1 inp out a b r m m2 HB L1 A1) as B1. rewrite length_app in Hsize.
  assert (Z.of_nat (length b) < 2 ^ size_bits) as Hb by lia. destruct (ctr32_after_head func E ivec ecount Hap n1 s1 _ _ b m2 Hn1 B1 Hb) as (m3 & n' & r' & s' & ec' & E3 & Es2 & Hec & A3).
  pose proof (stream_length (ctr_refresh E) ctr_put b n1 s1) as L2. rewrite Es2 in L2. cbn [fst] in L2.
  assert (length r' <= length b)%nat as L2' by (rewrite L2; done). pose proof (after_join (iv, ec) s1 (s'.1, ec') inp out a b r r' m m2 m3 HB L1 L2' A1 A3) as A.
  destruct (call_end regs ps ps Hps Hgood Hholds num inp out n (iv, ec) (s'.1, ec') n' (a ++ b) (r ++ r') m m3 Hpre) as (m4 & E4 & P4); [by rewrite !length_app, L1, L2|done|].
  exists m4. split; [done|]. split.
  - unfold CRYPTO_ctr128_encrypt_ctr32. rewrite (bind_Some _ _ m _ m (call_start regs num inp out n (iv, ec) (a ++ b) m Hpre)), Nat2Z.id, (bind_Some _ _ m _ m2 E1).
    cbn [at_in at_out left used]. clear - E3 E4. unfold mbind, C_bind in *. destruct (get_u32 _ m2) as [[c mg]|]; [|done]. destruct (ctr32_loop _ _ _ _ _ _ c mg) as [[v ml]|]; [|done]. by rewrite E3.
  - unfold ctr_stream. rewrite stream_app, Es1, Es2 in P1 |- *. destruct s' as [iv2 ec2]. cbn [fst snd] in *. split; [done|]. by exists ec'.
Qed.

(** *** Instance *)

(** [func] of AES, block by block. *)
Definition demo_func (inp out : ptr) (k : nat) (ivec : ptr) : C unit :=
  x ← load inp (16 * k); iv ← load ivec 16;
  store out (xor_list (ctr32_keystream (aes_enc demo_ek) k (take 12 iv) (be_num (drop 12 iv))) x).

Lemma ctr32_keystream_length E `{!BlockMap E} k h : ∀ c, length (ctr32_keystream E k h c) = (16 * k)%nat.
Proof. induction k as [|k IH]; intros c; [done|]. cbn [ctr32_keystream]. rewrite length_app, map_length, IH. lia. Qed.

Lemma demo_func_ok : Ctr32Fun demo_func (aes_enc demo_ek).
Proof.
  pose proof (aes_enc_map _ demo_key_rounds) as Hm. intros inp out k ivec m iv x Hiv Biv Hx Bx Hv Ha Hd. unfold demo_func.
  rewrite (bind_Some _ _ m _ m (load_Some _ _ _ _ Hx)), (bind_Some _ _ m _ m (load_Some _ _ _ _ Hiv)).
  set (cs := xor_list (ctr32_keystream (aes_enc demo_ek) k (take 12 iv) (be_num (drop 12 iv))) x).
  assert (length cs = (16 * k)%nat) as Lc.
  { unfold cs. rewrite xor_list_length; rewrite (ctr32_keystream_length (aes_enc demo_ek)); [done|]. by rewrite (mread_length _ _ _ _ Hx). }
  rewrite <- Lc in Hv. destruct (mvalid_store _ _ _ Hv) as (m' & W & S). by exists m'.
Qed.

(** The low word of the counter wraps around after two of the 37 bytes' three blocks. *)
Definition demo_wrap : list Z := replicate 8 0 ++ [0; 0; 0; 7; 255; 255; 255; 254].
Definition demo_ctr_mem : mem :=
  {[1%positive := Some <$> demo_text; 2%positive := replicate 37 None; 4%positive := Some <$> demo_wrap;
    5%positive := Some <$> le_bytes 4 0; 6%positive := Some <$> demo_iv]}.

Lemma ctr32_is_ctr128_witness :
  ∃ m1 m2 ec, CRYPTO_ctr128_encrypt (tgt := LP64_x86) (AES_encrypt demo_ek) true (Ptr 1 0) (Ptr 2 0) 37 (Ptr 4 0) (Ptr 6 0) (Ptr 5 0) demo_ctr_mem = Some (tt, m1) ∧
    CRYPTO_ctr128_encrypt_ctr32 (tgt := LP64_x86) demo_func (Ptr 1 0) (Ptr 2 0) 37 (Ptr 4 0) (Ptr 6 0) (Ptr 5 0) demo_ctr_mem = Some (tt, m2) ∧
    mread m1 (Ptr 2 0) 37 = mread m2 (Ptr 2 0) 37 ∧ mread m2 (Ptr 6 0) 16 = Some ec ∧ mread m1 (Ptr 6 0) 16 = Some ec.
Proof.
  pose proof demo_func_ok as Hf. pose proof demo_key_rounds as Hk. key_ready Hk.
  destruct (ctr32_is_ctr128 (tgt := LP64_x86) demo_func (AES_encrypt demo_ek) (aes_enc demo_ek) true (Ptr 1 0) (Ptr 2 0) (Ptr 4 0) (Ptr 6 0) (Ptr 5 0) 0 demo_wrap demo_iv
    demo_text demo_ctr_mem) as (m1 & m2 & R1 & R2 & Hend); [vm_compute; done|split; decide_by_compute|].
  exists m1, m2. pose proof (ctr_stream_used (aes_enc demo_ek) 0 (demo_wrap, demo_iv) demo_text ltac:(lia)) as Hn.
  pose proof (ctr_stream_length (aes_enc demo_ek) 0 (demo_wrap, demo_iv) demo_text) as Hl.
  destruct (ctr_stream (aes_enc demo_ek) 0 (demo_wrap, demo_iv) demo_text) as [[cs n'] [iv' ec']]. cbn [fst snd] in *.
  destruct Hend as ([P1 _ _ O1 _] & ec2 & [P2 _ _ O2 _] & Hec). rewrite Hl in O1, O2.
  apply List.Forall_cons_iff in P1 as [_ P1]. apply regs_1 in P1 as (_ & _ & P1). apply List.Forall_cons_iff in P2 as [_ P2]. apply regs_1 in P2 as (_ & _ & P2).
  rewrite Hec in P2 by (subst n'; vm_compute; done). exists ec'. split; [exact R1|]. split; [exact R2|]. split; [|by split].
  transitivity (Some cs); [exact O1|symmetry; exact O2].
Defined.
