(* ===== verification/KeyWrap.v ===== *)
(** * KeyWrap: the key wrap of RFC 3394, [aes_wrap.c], with [OPENSSL_cleanse] of [mem_clr.c]

    [AES_wrap_key] copies [in] to [out + 8] and [AES_unwrap_key] copies [in + 8] to [out] with
    [memcpy], so that neither works in place ([AES_wrap_key_in_place]). The address of an
    object is an argument of [OPENSSL_cleanse], whose pattern depends on it. *)

From S2P Require Import Prelude Mem Own Target ModeSpec Aes AesModes.

(** ** OPENSSL_cleanse *)

Section cleanse.
Context {tgt : Target} (addr : ptr → Z).

(** [while (loop--) { *(p++) = ctr; ctr += 17 + ((size_t)p & 0xF); }] *)
Fixpoint cleanse_loop (loop : nat) (p : ptr) (ctr : Z) : C Z :=
  match loop with
  | O => mret ctr
  | S loop => store p [wrap 8 ctr];; cleanse_loop loop (padd p 1) (size (ctr + (17 + Z.land (addr (padd p 1)) 15)))
  end.

(** [memchr(ptr, c, len)]: the index of the first byte that is [c]. *)
Definition memchr (p : ptr) (c : Z) (len : nat) : C (option nat) :=
  bs ← load p len; mret (fst <$> list_find (λ b, b = c) bs).

(** The static [cleanse_ctr] before and after. *)
Definition OPENSSL_cleanse (cleanse_ctr : Z) (p : ptr) (len : nat) : C Z :=
  ctr ← cleanse_loop len p cleanse_ctr;
  q ← memchr p (wrap 8 ctr) len;
  mret (wrap 8 (match q with Some i => size (ctr + (63 + addr (padd p (Z.of_nat i)))) | None => ctr end)).
End cleanse.

(** ** The functions *)

Section code.
Context {tgt : Target} (addr : ptr → Z).

Definition default_iv : list Z := replicate 8 0xA6.

(** [p[i] ^= v] *)
Definition xor_at (p : ptr) (i v : Z) : C unit := x ← load_byte (padd p i); store (padd p i) [Z.lxor x v].

(** [A[7] ^= t & 0xff; if (t > 0xff) { A[6] ^= (t >> 8) & 0xff; ... }] *)
Definition xor_t (A : ptr) (t : Z) : C unit :=
  xor_at A 7 (Z.land t 255);;
  if decide (255 < t) then
    xor_at A 6 (Z.land (Z.shiftr t 8) 255);; xor_at A 5 (Z.land (Z.shiftr t 16) 255);; xor_at A 4 (Z.land (Z.shiftr t 24) 255)
  else mret tt.

(** The body of the loop on the block at [R]. *)
Definition wrap_block (key : AES_KEY) (B R : ptr) (t : Z) : C unit :=
  memcpy (padd B 8) R 8;; AES_encrypt key B B;; xor_t B t;; memcpy R (padd B 8) 8.

(** [for (i = 0; i < inlen; i += 8, t++, R += 8)] for [k] blocks: the value of [t] after it. *)
Fixpoint wrap_loop (k : nat) (key : AES_KEY) (B R : ptr) (t : Z) : C Z :=
  match k with
  | O => mret t
  | S k => wrap_block key B R t;; wrap_loop k key B (padd R 8) (wrap 32 (t + 1))
  end.

(** [for (j = 0; j < 6; j++)] *)
Fixpoint wrap_passes (j k : nat) (key : AES_KEY) (B R : ptr) (t : Z) : C unit :=
  match j with O => mret tt | S j => t ← wrap_loop k key B R t; wrap_passes j k key B R t end.

Definition AES_wrap_key (key : AES_KEY) (iv out inp : ptr) (inlen : Z) : C Z :=
  if decide (Z.land inlen 7 ≠ 0 ∨ inlen < 8) then mret (-1) else
  local 16 (λ B,
    memcpy (padd out 8) inp (Z.to_nat inlen);;
    (if decide (iv = Null) then store B default_iv else memcpy B iv 8);;
    wrap_passes 6 (Z.to_nat (inlen / 8)) key B (padd out 8) 1;;
    memcpy out B 8;;
    mret (to_signed 32 (wrap 32 (inlen + 8)))).

Definition unwrap_block (key : AES_KEY) (B R : ptr) (t : Z) : C unit :=
  xor_t B t;; memcpy (padd B 8) R 8;; AES_decrypt key B B;; memcpy R (padd B 8) 8.

(** [for (i = 0; i < inlen; i += 8, t--, R -= 8)] *)
Fixpoint unwrap_loop (k : nat) (key : AES_KEY) (B R : ptr) (t : Z) : C Z :=
  match k with
  | O => mret t
  | S k => unwrap_block key B R t;; unwrap_loop k key B (padd R (-8)) (wrap 32 (t - 1))
  end.

Fixpoint unwrap_passes (j k : nat) (key : AES_KEY) (B R : ptr) (t : Z) : C unit :=
  match j with O => mret tt | S j => t ← unwrap_loop k key B R t; unwrap_passes j k key B R t end.

(** The result and the static counter of [OPENSSL_cleanse]. *)
Definition AES_unwrap_key (cleanse_ctr : Z) (key : AES_KEY) (iv out inp : ptr) (inlen : Z) : C (Z * Z) :=
  let inlen := wrap 32 (inlen - 8) in
  if decide (Z.land inlen 7 ≠ 0) then mret (-1, cleanse_ctr) else
  if decide (inlen < 8) then mret (-1, cleanse_ctr) else
  local 16 (λ B,
    memcpy B inp 8;;
    memcpy out (padd inp 8) (Z.to_nat inlen);;
    unwrap_passes 6 (Z.to_nat (inlen / 8)) key B (padd out (inlen - 8)) (wrap 32 (6 * Z.shiftr inlen 3));;
    a ← load B 8;
    v ← (if decide (iv = Null) then mret default_iv else load iv 8);
    if decide (a ≠ v) then ctr ← OPENSSL_cleanse addr cleanse_ctr out (Z.to_nat inlen); mret (0, ctr)
    else mret (to_signed 32 inlen, cleanse_ctr)).
End code.

(** ** RFC 3394 *)

Section rfc.
Context (E D : list Z → list Z).

(** One step on the register [A] and a block of 8 bytes, and its inverse. *)
Definition wrap_step (t : Z) (A r : list Z) : list Z * list Z :=
  let b := E (A ++ r) in (xor_list (take 8 b) (num_bytes 8 t), drop 8 b).
Definition unwrap_step (t : Z) (A r : list Z) : list Z * list Z :=
  let b := D (xor_list A (num_bytes 8 t) ++ r) in (take 8 b, drop 8 b).

(** A pass over the blocks, [t] counting up from the first. *)
Fixpoint wrap_pass (t : Z) (A : list Z) (rs : list (list Z)) : list Z * list (list Z) :=
  match rs with
  | [] => (A, [])
  | r :: rs => let '(A, r) := wrap_step t A r in let '(A, rs) := wrap_pass (t + 1) A rs in (A, r :: rs)
  end.
Fixpoint unwrap_pass (t : Z) (A : list Z) (rs : list (list Z)) : list Z * list (list Z) :=
  match rs with
  | [] => (A, [])
  | r :: rs => let '(A, rs) := unwrap_pass (t + 1) A rs in let '(A, r) := unwrap_step t A r in (A, r :: rs)
  end.

(** [j] passes. *)
Fixpoint wrap_rfc (j : nat) (t : Z) (A : list Z) (rs : list (list Z)) : list Z * list (list Z) :=
  match j with
  | O => (A, rs)
  | S j => let '(A, rs) := wrap_pass t A rs in wrap_rfc j (t + Z.of_nat (length rs)) A rs
  end.
Fixpoint unwrap_rfc (j : nat) (t : Z) (A : list Z) (rs : list (list Z)) : list Z * list (list Z) :=
  match j with
  | O => (A, rs)
  | S j => let '(A, rs) := unwrap_rfc j (t + Z.of_nat (length rs)) A rs in unwrap_pass t A rs
  end.

(** Registers and blocks of 8 bytes. *)
Definition is_8 (r : list Z) : Prop := length r = 8%nat ∧ is_bytes r.

Lemma wrap_step_8 t A r `{!BlockMap E} : is_8 (wrap_step t A r).1 ∧ is_8 (wrap_step t A r).2.
Proof.
  unfold wrap_step. cbn [fst snd]. pose proof (map_length (E := E) (A ++ r)) as Hl. pose proof (map_bytes (E := E) (A ++ r)) as Hb.
  assert (length (take 8 (E (A ++ r))) = 8%nat) as Lt by (rewrite length_take; lia).
  split; split.
  - by rewrite xor_list_length; rewrite ?num_bytes_length.
  - apply xor_list_bytes; [by apply Forall_take|apply num_bytes_is_bytes].
  - rewrite length_drop. lia.
  - by apply Forall_drop.
Qed.

Lemma unwrap_wrap_step t A r `{!BlockCipher E D} : is_8 A → is_8 r → unwrap_step t (wrap_step t A r).1 (wrap_step t A r).2 = (A, r).
Proof.
  intros [La Ba] [Lr Br]. unfold unwrap_step, wrap_step. cbn [fst snd]. pose proof (block_length (E := E) (A ++ r)) as Hl.
  rewrite xor_list_involutive by (rewrite length_take, num_bytes_length; lia). rewrite take_drop.
  rewrite (block_inverse (E := E)) by (rewrite ?length_app; lia || by apply Forall_app_2).
  by rewrite take_app_length', drop_app_length' by done.
Qed.

Lemma wrap_pass_8 rs `{!BlockMap E} : ∀ t A, is_8 A → Forall is_8 rs → is_8 (wrap_pass t A rs).1 ∧ Forall is_8 (wrap_pass t A rs).2 ∧ length (wrap_pass t A rs).2 = length rs.
Proof.
  induction rs as [|r rs IH]; intros t A HA Hrs; [done|]. apply List.Forall_cons_iff in Hrs as [Hr Hrs]. cbn [wrap_pass].
  pose proof (wrap_step_8 t A r) as [H1 H2]. destruct (wrap_step t A r) as [A1 r1]. cbn [fst snd] in *.
  destruct (IH (t + 1) A1 H1 Hrs) as (H3 & H4 & H5). destruct (wrap_pass (t + 1) A1 rs) as [A2 rs2]. cbn [fst snd length] in *.
  split; [done|]. split; [by constructor|lia].
Qed.

Lemma unwrap_wrap_pass rs `{!BlockCipher E D} : ∀ t A, is_8 A → Forall is_8 rs → unwrap_pass t (wrap_pass t A rs).1 (wrap_pass t A rs).2 = (A, rs).
Proof.
  induction rs as [|r rs IH]; intros t A HA Hrs; [done|]. apply List.Forall_cons_iff in Hrs as [Hr Hrs]. cbn [wrap_pass].
  pose proof (wrap_step_8 t A r) as [H1 _]. pose proof (unwrap_wrap_step t A r HA Hr) as Hu. destruct (wrap_step t A r) as [A1 r1]. cbn [fst snd] in *.
  specialize (IH (t + 1) A1 H1 Hrs). destruct (wrap_pass (t + 1) A1 rs) as [A2 rs2]. cbn [fst snd unwrap_pass] in *. by rewrite IH, Hu.
Qed.

Lemma wrap_rfc_8 j `{!BlockMap E} : ∀ t A rs, is_8 A → Forall is_8 rs → is_8 (wrap_rfc j t A rs).1 ∧ Forall is_8 (wrap_rfc j t A rs).2 ∧ length (wrap_rfc j t A rs).2 = length rs.
Proof.
  induction j as [|j IH]; intros t A rs HA Hrs; [done|]. cbn [wrap_rfc]. destruct (wrap_pass_8 rs t A HA Hrs) as (H1 & H2 & H3).
  destruct (wrap_pass t A rs) as [A1 rs1]. cbn [fst snd] in *. rewrite <- H3. by apply IH.
Qed.

Lemma unwrap_wrap_rfc j `{!BlockCipher E D} : ∀ t A rs, is_8 A → Forall is_8 rs → unwrap_rfc j t (wrap_rfc j t A rs).1 (wrap_rfc j t A rs).2 = (A, rs).
Proof.
  induction j as [|j IH]; intros t A rs HA Hrs; [done|]. cbn [wrap_rfc unwrap_rfc]. destruct (wrap_pass_8 rs t A HA Hrs) as (H1 & H2 & H3).
  pose proof (unwrap_wrap_pass rs t A HA Hrs) as Hu. destruct (wrap_pass t A rs) as [A1 rs1]. cbn [fst snd] in *.
  destruct (wrap_rfc_8 j (t + Z.of_nat (length rs1)) A1 rs1 H1 H2) as (_ & _ & ->). by rewrite IH.
Qed.
End rfc.

(** ** The register *)

Lemma num_bytes_8 t : 0 <= t < 2 ^ 32 →
  num_bytes 8 t = [0; 0; 0; 0; Z.land (Z.shiftr t 24) 255; Z.land (Z.shiftr t 16) 255; Z.land (Z.shiftr t 8) 255; Z.land t 255].
Proof.
  intros Ht. rewrite !land_255. unfold wrap. rewrite !Z.shiftr_div_pow2 by lia. cbn [num_bytes app]. rewrite !Z.div_div by lia. cbn [Z.mul Pos.mul].
  rewrite !(Z.div_small t) by lia. done.
Qed.

Lemma xor_at_ok (B : ptr) b i v m : mread m B 8 = Some b → is_bytes b → (i < 8)%nat →
  ∃ m', xor_at B (Z.of_nat i) v m = Some (tt, m') ∧ mread m' B 8 = Some (<[i := Z.lxor (b !!! i) v]> b) ∧ mframe [(B, 8%nat)] m m'.
Proof.
  intros Hr Hb Hi. pose proof (mread_length _ _ _ _ Hr) as Hl. unfold xor_at.
  assert (load_byte (padd B (Z.of_nat i)) m = Some (b !!! i, m)) as E.
  { apply load_byte_Some. pose proof (mread_sub _ _ _ _ i 1 Hr ltac:(lia)) as H. by rewrite (Modes.slice_cons i 0 b) in H by lia. }
  rewrite (bind_Some _ _ m _ m E).
  destruct (mvalid_store m (padd B (Z.of_nat i)) [Z.lxor (b !!! i) v]) as (m' & W & S); [apply (mvalid_sub m B 8); [by eapply mread_mvalid|cbn; lia]|].
  exists m'. split; [done|]. split.
  - rewrite <- Modes.splice_1 by lia. eapply mread_splice; [done..|cbn; lia].
  - eapply mframe_mono; [exact (mwrite_mframe _ _ _ _ W)|]. eapply (covers_sub _ B 8); [left|cbn; lia].
Qed.

Lemma insert_xor_bytes (b : list Z) i v : is_bytes b → is_bytes (<[i := Z.lxor (b !!! i) (Z.land v 255)]> b).
Proof. intros Hb. apply Forall_insert; [done|]. apply is_word_lxor; [done|by apply bytes_lookup_total|apply land_255_is_byte]. Qed.

Lemma xor_t_ok (B : ptr) b t m : mread m B 8 = Some b → is_bytes b → 0 <= t < 2 ^ 32 →
  ∃ m', xor_t B t m = Some (tt, m') ∧ mread m' B 8 = Some (xor_list b (num_bytes 8 t)) ∧ mframe [(B, 8%nat)] m m'.
Proof.
  intros Hr Hb Ht. pose proof (mread_length _ _ _ _ Hr) as Hl. rewrite num_bytes_8 by done. unfold xor_t.
  destruct (xor_at_ok B b 7 (Z.land t 255) m Hr Hb ltac:(lia)) as (m1 & E1 & R1 & F1). change (Z.of_nat 7) with 7 in E1.
  rewrite (bind_Some _ _ m _ m1 E1). pose proof (insert_xor_bytes b 7 t Hb) as B1. set (b1 := <[7%nat := _]> b) in *.
  case_decide as Hd.
  - destruct (xor_at_ok B b1 6 (Z.land (Z.shiftr t 8) 255) m1 R1 B1 ltac:(lia)) as (m2 & E2 & R2 & F2). change (Z.of_nat 6) with 6 in E2.
    rewrite (bind_Some _ _ m1 _ m2 E2). pose proof (insert_xor_bytes b1 6 (Z.shiftr t 8) B1) as B2. set (b2 := <[6%nat := _]> b1) in *.
    destruct (xor_at_ok B b2 5 (Z.land (Z.shiftr t 16) 255) m2 R2 B2 ltac:(lia)) as (m3 & E3 & R3 & F3). change (Z.of_nat 5) with 5 in E3.
    rewrite (bind_Some _ _ m2 _ m3 E3). pose proof (insert_xor_bytes b2 5 (Z.shiftr t 16) B2) as B3. set (b3 := <[5%nat := _]> b2) in *.
    destruct (xor_at_ok B b3 4 (Z.land (Z.shiftr t 24) 255) m3 R3 B3 ltac:(lia)) as (m4 & E4 & R4 & F4). change (Z.of_nat 4) with 4 in E4.
    exists m4. split; [done|]. split; [|by transitivity m1; [|transitivity m2; [|transitivity m3]]]. rewrite R4. f_equal. clear - Hl. subst b1 b2 b3.
    explode b 8%nat. cbn. by rewrite !Z.lxor_0_r.
  - exists m1. split; [done|]. split; [|done]. rewrite R1. f_equal. rewrite !Z.shiftr_div_pow2 by lia. rewrite !(Z.div_small t) by lia.
    change (Z.land 0 255) with 0. clear - Hl. subst b1. explode b 8%nat. cbn. by rewrite !Z.lxor_0_r.
Qed.

(** ** The loops *)

Lemma memcpy_ok dst src n bs m : pdisj dst n src n → mread m src n = Some bs → mvalid m dst n →
  ∃ m', memcpy dst src n m = Some (tt, m') ∧ mread m' dst n = Some bs ∧ mframe [(dst, n)] m m'.
Proof.
  intros Hd Hr Hv. pose proof (mread_length _ _ _ _ Hr) as Hl. rewrite <- Hl in Hv. destruct (mvalid_store _ _ _ Hv) as (m' & W & S).
  exists m'. split; [by apply (memcpy_Some _ _ _ _ bs)|]. rewrite <- Hl.
  split; [exact (mread_mwrite _ _ _ _ W)|exact (mwrite_mframe _ _ _ _ W)].
Qed.

Section loops.
Context (key : AES_KEY) (Hkey : 1 < rounds key).

(** The block function on the register [A] and a block, then the two halves. *)
Lemma enc_half_ok (B R : ptr) A r t m : mread m B 8 = Some A → is_bytes A → mvalid m B 16 → mread m R 8 = Some r → is_bytes r →
  pdisj B 16 R 8 → 0 <= t < 2 ^ 32 → 
  ∃ m', wrap_block key B R t m = Some (tt, m') ∧
    mread m' B 8 = Some (wrap_step (aes_enc key) t A r).1 ∧ mread m' R 8 = Some (wrap_step (aes_enc key) t A r).2 ∧ mframe [(B, 16%nat); (R, 8%nat)] m m'.
Proof.
  intros HA BA Hv Hr Br Hd Ht. key_ready Hkey. unfold wrap_block. assert (mvalid m (padd B 8) 8) as V8 by (apply (mvalid_sub m B 16 8); [done|lia]).
  destruct (memcpy_ok (padd B 8) R 8 r m ltac:(clear - Hd; solve_pdisj) Hr V8) as (m1 & E1 & R1 & F1). rewrite (bind_Some _ _ m _ m1 E1).
  assert (mread m1 B 16 = Some (A ++ r)) as RB1.
  { apply (mread_join m1 B 8 8); [|done]. apply (apart_read m m1 _ _ _ _ F1); [|done]. apply apart_1. clear. solve_pdisj. }
  destruct (Cbc.block_fun_ok (AES_encrypt key) (aes_enc key) B B m1 (A ++ r) RB1) as (m2 & E2 & RB2 & F2); [by apply Forall_app_2|by eapply mread_mvalid|].
  rewrite (bind_Some _ _ m1 _ m2 E2). set (e := aes_enc key (A ++ r)) in *. assert (length e = 16%nat) as Le by apply map_length.
  assert (is_bytes e) as Be by apply map_bytes. rewrite <- (take_drop 8 e) in RB2.
  apply (mread_split m2 B 8 8) in RB2 as (l1 & l2 & E & L1 & RA2 & RR2). apply app_inj_1 in E as [<- <-]; [|rewrite length_take; lia].
  destruct (xor_t_ok B _ t m2 RA2 ltac:(by apply Forall_take) Ht) as (m3 & E3 & RB3 & F3). rewrite (bind_Some _ _ m2 _ m3 E3).
  assert (mread m3 (padd B 8) 8 = Some (drop 8 e)) as RB4 by (apply (apart_read m2 m3 _ _ _ _ F3); [apply apart_1; clear; solve_pdisj|done]).
  assert (mframe [(B, 16%nat)] m m3) as F13.
  { transitivity m1; [eapply mframe_mono; [exact F1|]; eapply (covers_sub _ B 16 8); [left|lia]|].
    transitivity m2; [done|]. eapply mframe_mono; [exact F3|]. eapply covers_take; [left|lia]. }
  destruct (memcpy_ok R (padd B 8) 8 _ m3 ltac:(clear - Hd; solve_pdisj) RB4) as (m4 & E4 & RR4 & F4); [apply F13; by eapply mread_mvalid|].
  exists m4. split; [done|]. unfold wrap_step. cbn [fst snd]. fold e. split; [|split; [done|]].
  - apply (apart_read m3 m4 _ _ _ _ F4); [|done]. apply apart_1. clear - Hd. solve_pdisj.
  - transitivity m3; [eapply mframe_mono; [exact F13|]; eapply covers_take; [left|lia]|]. eapply mframe_mono; [exact F4|]. eapply covers_take; [right; left|lia].
Qed.

Lemma mjoin_8_length rs : Forall is_8 rs → length (mjoin rs) = (8 * length rs)%nat.
Proof. induction 1 as [|r rs [Hl _] _ IH]; [done|]. change (mjoin (r :: rs)) with (r ++ mjoin rs). rewrite length_app, Hl, IH. cbn [length]. lia. Qed.

Lemma wrap_loop_ok rs : ∀ (B R : ptr) A t m, mread m B 8 = Some A → is_8 A → mvalid m B 16 → mread m R (8 * length rs) = Some (mjoin rs) → Forall is_8 rs →
  pdisj B 16 R (8 * length rs) → 0 <= t → t + Z.of_nat (length rs) < 2 ^ 32 →
  ∃ m', wrap_loop (length rs) key B R t m = Some (t + Z.of_nat (length rs), m') ∧
    let '(A', rs') := wrap_pass (aes_enc key) t A rs in
    mread m' B 8 = Some A' ∧ mread m' R (8 * length rs) = Some (mjoin rs') ∧ mframe [(B, 16%nat); (R, (8 * length rs)%nat)] m m'.
Proof.
  key_ready Hkey. induction rs as [|r rs IH]; intros B R A t m HA H8 Hv Hr Hrs Hd Ht Hlt.
  - exists m. split; [cbn [wrap_loop length]; unfold mret, C_ret; do 2 f_equal; lia|]. split; [done|]. split; [done|reflexivity].
  - apply List.Forall_cons_iff in Hrs as [[Lr Br] Hrs]. cbn [length wrap_loop wrap_pass] in *. replace (8 * S (length rs))%nat with (8 + 8 * length rs)%nat in * by lia.
    cbn [mjoin list_join] in Hr. apply mread_split in Hr as (r0 & j & E & L0 & R1 & R2). apply app_inj_1 in E as [<- <-]; [|by rewrite Lr].
    destruct (enc_half_ok B R A r t m HA (proj2 H8) Hv R1 Br) as (m1 & E1 & RA & RR & F1); [clear - Hd; solve_pdisj|lia|].
    destruct (wrap_step_8 (aes_enc key) t A r) as [G1 G2]. destruct (wrap_step (aes_enc key) t A r) as [A1 r1]. cbn [fst snd] in *.
    rewrite (bind_Some _ _ m _ m1 E1). rewrite wrap_small by (unfold is_word; lia).
    assert (apart [(B, 16%nat); (R, 8%nat)] (padd R 8) (8 * length rs)) as Ap.
    { clear - Hd. constructor; [|apply apart_1]; cbn [fst snd]; solve_pdisj. }
    destruct (IH B (padd R 8) A1 (t + 1) m1 RA G1) as (m2 & E2 & P); [by apply F1|by apply (apart_read m m1 _ _ _ _ F1)|done|clear - Hd; solve_pdisj|lia|lia|].
    exists m2. split; [rewrite E2; do 2 f_equal; lia|]. destruct (wrap_pass (aes_enc key) (t + 1) A1 rs) as [A2 rs2]. destruct P as (P1 & P2 & F2).
    split; [done|]. split.
    + cbn [mjoin list_join]. apply mread_join; [|done]. apply (apart_read m1 m2 _ _ _ _ F2); [|done].
      clear - Hd. constructor; [|apply apart_1]; cbn [fst snd]; solve_pdisj.
    + transitivity m1; [eapply mframe_mono; [exact F1|]|eapply mframe_mono; [exact F2|]].
      * apply covers_cons; [eapply covers_take; [left|lia]|eapply covers_take; [right; left|lia]].
      * apply covers_cons; [eapply covers_take; [left|lia]|eapply (covers_sub _ R (8 + 8 * length rs) 8); [right; left|lia]].
Qed.

Lemma wrap_passes_ok j : ∀ (B R : ptr) A t rs m, mread m B 8 = Some A → is_8 A → mvalid m B 16 → mread m R (8 * length rs) = Some (mjoin rs) → Forall is_8 rs →
  pdisj B 16 R (8 * length rs) → 0 <= t → t + Z.of_nat (j * length rs) < 2 ^ 32 →
  ∃ m', wrap_passes j (length rs) key B R t m = Some (tt, m') ∧
    let '(A', rs') := wrap_rfc (aes_enc key) j t A rs in
    mread m' B 8 = Some A' ∧ mread m' R (8 * length rs) = Some (mjoin rs') ∧ mframe [(B, 16%nat); (R, (8 * length rs)%nat)] m m'.
Proof.
  key_ready Hkey. induction j as [|j IH]; intros B R A t rs m HA H8 Hv Hr Hrs Hd Ht Hlt.
  - exists m. split; [done|]. split; [done|]. split; [done|reflexivity].
  - cbn [wrap_passes wrap_rfc]. destruct (wrap_loop_ok rs B R A t m) as (m1 & E1 & P); [first [done|lia]..|].
    rewrite (bind_Some _ _ m _ m1 E1). destruct (wrap_pass_8 (aes_enc key) rs t A H8 Hrs) as (G1 & G2 & G3).
    destruct (wrap_pass (aes_enc key) t A rs) as [A1 rs1]. cbn [fst snd] in *. destruct P as (P1 & P2 & F1). rewrite <- G3 in *.
    destruct (IH B R A1 (t + Z.of_nat (length rs1)) rs1 m1 P1 G1) as (m2 & E2 & Q); [by apply F1|done|done|done|lia|lia|].
    exists m2. split; [done|]. destruct (wrap_rfc (aes_enc key) j _ A1 rs1) as [A2 rs2]. destruct Q as (Q1 & Q2 & F2).
    do 2 (split; [done|]). by transitivity m1.
Qed.
End loops.

(** *** Unwrapping, from the last block to the first *)

Section rfc_snoc.
Context (D : list Z → list Z).

Lemma unwrap_pass_snoc rs : ∀ t A r, unwrap_pass D t A (rs ++ [r]) =
  (let '(A, r) := unwrap_step D (t + Z.of_nat (length rs)) A r in let '(A, rs) := unwrap_pass D t A rs in (A, rs ++ [r])).
Proof.
  induction rs as [|r0 rs IH]; intros t A r.
  - cbn [app unwrap_pass length]. rewrite Z.add_0_r. by destruct (unwrap_step D t A r).
  - cbn [app unwrap_pass length]. rewrite IH. replace (t + 1 + Z.of_nat (length rs)) with (t + Z.of_nat (S (length rs))) by lia.
    destruct (unwrap_step D _ A r) as [A1 r1]. destruct (unwrap_pass D (t + 1) A1 rs) as [A2 rs2]. by destruct (unwrap_step D t A2 r0).
Qed.

Lemma unwrap_pass_length rs : ∀ t A, length (unwrap_pass D t A rs).2 = length rs.
Proof.
  induction rs as [|r rs IH]; intros t A; [done|]. cbn [unwrap_pass]. specialize (IH (t + 1) A). destruct (unwrap_pass D (t + 1) A rs) as [A1 rs1].
  destruct (unwrap_step D t A1 r). cbn [snd length] in *. by f_equal.
Qed.

Lemma unwrap_rfc_length j : ∀ t A rs, length (unwrap_rfc D j t A rs).2 = length rs.
Proof.
  induction j as [|j IH]; intros t A rs; [done|]. cbn [unwrap_rfc]. specialize (IH (t + Z.of_nat (length rs)) A rs).
  destruct (unwrap_rfc D j _ A rs) as [A1 rs1]. by rewrite unwrap_pass_length.
Qed.

(** The pass that is run first has the highest counters. *)
Lemma unwrap_rfc_first j : ∀ t A rs, unwrap_rfc D (S j) t A rs =
  (let '(A, rs') := unwrap_pass D (t + Z.of_nat (j * length rs)) A rs in unwrap_rfc D j t A rs').
Proof.
  induction j as [|j IH]; intros t A rs.
  - cbn [unwrap_rfc Nat.mul]. rewrite Z.add_0_r. by destruct (unwrap_pass D t A rs).
  - change (unwrap_rfc D (S (S j)) t A rs) with (let '(A, rs) := unwrap_rfc D (S j) (t + Z.of_nat (length rs)) A rs in unwrap_pass D t A rs).
    rewrite IH. replace (t + Z.of_nat (length rs) + Z.of_nat (j * length rs)) with (t + Z.of_nat (S j * length rs)) by lia.
    pose proof (unwrap_pass_length rs (t + Z.of_nat (S j * length rs)) A) as Hl. destruct (unwrap_pass D _ A rs) as [A1 rs1]. cbn [snd] in Hl.
    cbn [unwrap_rfc]. by rewrite Hl.
Qed.

Lemma unwrap_step_8 `{!BlockMap D} t A r : is_8 (unwrap_step D t A r).1 ∧ is_8 (unwrap_step D t A r).2.
Proof.
  unfold unwrap_step. cbn [fst snd]. set (b := D _). assert (length b = 16%nat) as Lb by apply map_length. assert (is_bytes b) as Bb by apply map_bytes.
  split; split; [rewrite length_take; lia|by apply Forall_take|rewrite length_drop; lia|by apply Forall_drop].
Qed.

Lemma unwrap_pass_8 `{!BlockMap D} rs : ∀ t A, is_8 A → Forall is_8 rs → is_8 (unwrap_pass D t A rs).1 ∧ Forall is_8 (unwrap_pass D t A rs).2.
Proof.
  induction rs as [|r rs IH]; intros t A HA Hrs; [done|]. apply List.Forall_cons_iff in Hrs as [Hr Hrs]. cbn [unwrap_pass].
  destruct (IH (t + 1) A HA Hrs) as (H3 & H4). destruct (unwrap_pass D (t + 1) A rs) as [A2 rs2]. pose proof (unwrap_step_8 t A2 r) as [H1 H2].
  destruct (unwrap_step D t A2 r) as [A1 r1]. cbn [fst snd] in *. split; [done|]. by constructor.
Qed.

Lemma unwrap_rfc_8 `{!BlockMap D} j : ∀ t A rs, is_8 A → Forall is_8 rs → is_8 (unwrap_rfc D j t A rs).1 ∧ Forall is_8 (unwrap_rfc D j t A rs).2.
Proof.
  induction j as [|j IH]; intros t A rs HA Hrs; [done|]. cbn [unwrap_rfc]. destruct (IH (t + Z.of_nat (length rs)) A rs HA Hrs) as [H1 H2].
  destruct (unwrap_rfc D j _ A rs) as [A1 rs1]. by apply unwrap_pass_8.
Qed.
End rfc_snoc.

Section unwrap_loops.
Context (key : AES_KEY) (Hkey : 1 < rounds key).

Lemma dec_half_ok (B R : ptr) A r t m : mread m B 8 = Some A → is_8 A → mvalid m B 16 → mread m R 8 = Some r → is_8 r →
  pdisj B 16 R 8 → 0 <= t < 2 ^ 32 →
  ∃ m', unwrap_block key B R t m = Some (tt, m') ∧
    mread m' B 8 = Some (unwrap_step (aes_dec key) t A r).1 ∧ mread m' R 8 = Some (unwrap_step (aes_dec key) t A r).2 ∧ mframe [(B, 16%nat); (R, 8%nat)] m m'.
Proof.
  intros HA [LA BA] Hv Hr [Lr Br] Hd Ht. key_ready Hkey. unfold unwrap_block.
  destruct (xor_t_ok B A t m HA BA Ht) as (m1 & E1 & RA1 & F1). rewrite (bind_Some _ _ m _ m1 E1).
  set (A1 := xor_list A (num_bytes 8 t)) in *.
  assert (is_bytes A1) as BA1 by (apply xor_list_bytes; [done|apply num_bytes_is_bytes]).
  assert (mread m1 R 8 = Some r) as RR1 by (apply (apart_read m m1 _ _ _ _ F1); [apply apart_1; clear - Hd; solve_pdisj|done]).
  destruct (memcpy_ok (padd B 8) R 8 r m1 ltac:(clear - Hd; solve_pdisj) RR1) as (m2 & E2 & R2 & F2); [apply (mvalid_sub m1 B 16 8); [by apply F1|lia]|].
  rewrite (bind_Some _ _ m1 _ m2 E2).
  assert (mread m2 B 16 = Some (A1 ++ r)) as RB2.
  { apply (mread_join m2 B 8 8); [|done]. apply (apart_read m1 m2 _ _ _ _ F2); [|done]. apply apart_1. clear. solve_pdisj. }
  destruct (Cbc.block_fun_ok (AES_decrypt key) (aes_dec key) B B m2 (A1 ++ r) RB2) as (m3 & E3 & RB3 & F3); [by apply Forall_app_2|by eapply mread_mvalid|].
  rewrite (bind_Some _ _ m2 _ m3 E3). unfold unwrap_step. fold A1. cbn [fst snd]. set (e := aes_dec key (A1 ++ r)) in *.
  assert (length e = 16%nat) as Le by apply map_length. rewrite <- (take_drop 8 e) in RB3.
  apply (mread_split m3 B 8 8) in RB3 as (l3 & l4 & E & L3 & RB3 & RB4). apply app_inj_1 in E as [<- <-]; [|rewrite length_take; lia].
  assert (mframe [(B, 16%nat)] m m3) as F13.
  { transitivity m1; [eapply mframe_mono; [exact F1|]; eapply covers_take; [left|lia]|]. transitivity m2; [|done].
    eapply mframe_mono; [exact F2|]; eapply (covers_sub _ B 16 8); [left|lia]. }
  destruct (memcpy_ok R (padd B 8) 8 _ m3 ltac:(clear - Hd; solve_pdisj) RB4) as (m4 & E4 & RR4 & F4); [apply F13; by eapply mread_mvalid|].
  exists m4. split; [done|]. split; [|split; [done|]].
  - apply (apart_read m3 m4 _ _ _ _ F4); [|done]. apply apart_1. clear - Hd. solve_pdisj.
  - transitivity m3; [eapply mframe_mono; [exact F13|]; eapply covers_take; [left|lia]|]. eapply mframe_mono; [exact F4|]. eapply covers_take; [right; left|lia].
Qed.

Lemma unwrap_loop_ok rs : ∀ (B R : ptr) A t m, mread m B 8 = Some A → is_8 A → mvalid m B 16 → mread m R (8 * length rs) = Some (mjoin rs) → Forall is_8 rs →
  pdisj B 16 R (8 * length rs) → 0 < t → t + Z.of_nat (length rs) <= 2 ^ 32 →
  ∃ m', unwrap_loop (length rs) key B (padd R (8 * Z.of_nat (length rs) - 8)) (t + Z.of_nat (length rs) - 1) m = Some (t - 1, m') ∧
    let '(A', rs') := unwrap_pass (aes_dec key) t A rs in
    mread m' B 8 = Some A' ∧ mread m' R (8 * length rs) = Some (mjoin rs') ∧ mframe [(B, 16%nat); (R, (8 * length rs)%nat)] m m'.
Proof.
  key_ready Hkey. induction rs as [|r rs IH] using rev_ind; intros B R A t m HA H8 Hv Hr Hrs Hd Ht Hlt.
  - exists m. split; [cbn [unwrap_loop length]; unfold mret, C_ret; do 2 f_equal; lia|]. split; [done|]. split; [done|reflexivity].
  - apply List.Forall_app in Hrs as [Hrs Hr8]. apply List.Forall_cons_iff in Hr8 as [Hr8 _]. rewrite unwrap_pass_snoc, length_app in *. cbn [length] in *.
    replace (8 * (length rs + 1))%nat with (8 * length rs + 8)%nat in * by lia. rewrite Nat.add_1_r. cbn [unwrap_loop].
    rewrite join_app in Hr. change (mjoin [r]) with (r ++ []) in Hr. rewrite app_nil_r in Hr.
    apply mread_split in Hr as (l1 & l2 & E & L1 & R1 & R2). apply app_inj_1 in E as [<- <-]; [|by rewrite mjoin_8_length].
    replace (8 * Z.of_nat (S (length rs)) - 8) with (Z.of_nat (8 * length rs)) by lia.
    replace (t + Z.of_nat (S (length rs)) - 1) with (t + Z.of_nat (length rs)) by lia.
    destruct (dec_half_ok B _ A r (t + Z.of_nat (length rs)) m HA H8 Hv R2 Hr8) as (m1 & E1 & RA & RR & F1); [clear - Hd; solve_pdisj|lia|].
    rewrite (bind_Some _ _ m _ m1 E1). destruct (unwrap_step_8 (aes_dec key) (t + Z.of_nat (length rs)) A r) as [G1 G2].
    destruct (unwrap_step (aes_dec key) (t + Z.of_nat (length rs)) A r) as [A1 r1]. cbn [fst snd] in *.
    rewrite wrap_small by (unfold is_word; lia). rewrite padd_add. replace (Z.of_nat (8 * length rs) + -8) with (8 * Z.of_nat (length rs) - 8) by lia.
    assert (apart [(B, 16%nat); (padd R (Z.of_nat (8 * length rs)), 8%nat)] R (8 * length rs)) as Ap.
    { clear - Hd. constructor; [|apply apart_1]; cbn [fst snd]; solve_pdisj. }
    destruct (IH B R A1 t m1 RA G1) as (m2 & E2 & P); [by apply F1|by apply (apart_read m m1 _ _ _ _ F1)|done|clear - Hd; solve_pdisj|lia|lia|].
    exists m2. split; [done|]. destruct (unwrap_pass (aes_dec key) t A1 rs) as [A2 rs2] eqn:Eu. destruct P as (P1 & P2 & F2).
    split; [done|]. split.
    + rewrite join_app. change (mjoin [r1]) with (r1 ++ []). rewrite app_nil_r. apply mread_join; [done|]. apply (apart_read m1 m2 _ _ _ _ F2); [|done].
      clear - Hd. constructor; [|apply apart_1]; cbn [fst snd]; solve_pdisj.
    + transitivity m1; [eapply mframe_mono; [exact F1|]|eapply mframe_mono; [exact F2|]].
      * apply covers_cons; [eapply covers_take; [left|lia]|eapply (covers_sub _ R (8 * length rs + 8)); [right; left|lia]].
      * apply covers_cons; [eapply covers_take; [left|lia]|eapply covers_take; [right; left|lia]].
Qed.

Lemma unwrap_passes_ok j : ∀ (B R : ptr) A t rs m, mread m B 8 = Some A → is_8 A → mvalid m B 16 → mread m R (8 * length rs) = Some (mjoin rs) → Forall is_8 rs →
  pdisj B 16 R (8 * length rs) → 0 < t → t + Z.of_nat (j * length rs) <= 2 ^ 32 →
  ∃ m', unwrap_passes j (length rs) key B (padd R (8 * Z.of_nat (length rs) - 8)) (t + Z.of_nat (j * length rs) - 1) m = Some (tt, m') ∧
    let '(A', rs') := unwrap_rfc (aes_dec key) j t A rs in
    mread m' B 8 = Some A' ∧ mread m' R (8 * length rs) = Some (mjoin rs') ∧ mframe [(B, 16%nat); (R, (8 * length rs)%nat)] m m'.
Proof.
  key_ready Hkey. induction j as [|j IH]; intros B R A t rs m HA H8 Hv Hr Hrs Hd Ht Hlt.
  - exists m. split; [done|]. split; [done|]. split; [done|reflexivity].
  - rewrite unwrap_rfc_first. cbn [unwrap_passes]. destruct (unwrap_loop_ok rs B R A (t + Z.of_nat (j * length rs)) m) as (m1 & E1 & P); [first [done|lia]..|].
    replace (t + Z.of_nat (S j * length rs) - 1) with (t + Z.of_nat (j * length rs) + Z.of_nat (length rs) - 1) by lia.
    rewrite (bind_Some _ _ m _ m1 E1). destruct (unwrap_pass_8 (aes_dec key) rs (t + Z.of_nat (j * length rs)) A H8 Hrs) as (G1 & G2).
    pose proof (unwrap_pass_length (aes_dec key) rs (t + Z.of_nat (j * length rs)) A) as G3.
    destruct (unwrap_pass (aes_dec key) (t + Z.of_nat (j * length rs)) A rs) as [A1 rs1]. cbn [fst snd] in *. destruct P as (P1 & P2 & F1). rewrite <- G3 in *.
    destruct (IH B R A1 t rs1 m1 P1 G1) as (m2 & E2 & Q); [by apply F1|done|done|done|lia|lia|].
    exists m2. split; [done|]. destruct (unwrap_rfc (aes_dec key) j t A1 rs1) as [A2 rs2]. destruct Q as (Q1 & Q2 & F2).
    do 2 (split; [done|]). by transitivity m1.
Qed.
End unwrap_loops.

(** ** The functions *)

Lemma chunks_8 n : ∀ p, length p = (8 * n)%nat → is_bytes p → length (chunks 8 p) = n ∧ Forall is_8 (chunks 8 p) ∧ mjoin (chunks 8 p) = p.
Proof.
  induction n as [|n IH]; intros p Hl Hb; [by apply no_block in Hl as ->|]. apply first_block in Hl as (b & k & -> & Lb & Lk).
  apply List.Forall_app in Hb as [Bb Bk]. rewrite chunks_app by (done || lia). destruct (IH k Lk Bk) as (H1 & H2 & H3). cbn [length].
  split; [by rewrite H1|]. split; [by constructor|]. change (mjoin (b :: chunks 8 k)) with (b ++ mjoin (chunks 8 k)). by rewrite H3.
Qed.

Lemma mjoin_chunks_8 rs : Forall is_8 rs → chunks 8 (mjoin rs) = rs.
Proof.
  induction 1 as [|r rs [Hl _] _ IH]; [done|]. change (mjoin (r :: rs)) with (r ++ mjoin rs). rewrite chunks_app by (done || lia). by rewrite IH.
Qed.

Lemma mjoin_8_bytes rs : Forall is_8 rs → is_bytes (mjoin rs).
Proof. induction 1 as [|r rs [_ Hb] _ IH]; [constructor|]. by apply Forall_app_2. Qed.

(** The initial value: the caller's or that of the standard. *)
Definition iv_read (iv : ptr) (v : list Z) (m : mem) : Prop :=
  is_8 v ∧ if decide (iv = Null) then v = default_iv else mread m iv 8 = Some v.

Lemma iv_read_frame iv v rs m m' : iv_read iv v m → mframe rs m m' → apart rs iv 8 → iv_read iv v m'.
Proof. intros [H8 Hv] Hf Ha. split; [done|]. case_decide; [done|]. by apply (apart_read m m' rs). Qed.

Section wrap.
Context (key : AES_KEY) (Hkey : 1 < rounds key).

Lemma iv_load_ok iv v (B : ptr) m : iv_read iv v m → pdisj B 8 iv 8 → mvalid m B 8 →
  ∃ m', (if decide (iv = Null) then store B default_iv else memcpy B iv 8) m = Some (tt, m') ∧ mread m' B 8 = Some v ∧ mframe [(B, 8%nat)] m m'.
Proof.
  intros [[Lv Bv] Hv] Hd Vb. case_decide as Hn; [|by apply memcpy_ok]. subst v. rewrite <- Lv in Vb.
  destruct (mvalid_store _ _ _ Vb) as (m' & W & S). exists m'. rewrite <- Lv. split; [done|].
  split; [exact (mread_mwrite _ _ _ _ W)|exact (mwrite_mframe _ _ _ _ W)].
Qed.

(** The lengths that are accepted. *)
Lemma wrap_length n : (1 <= n)%nat → 8 * Z.of_nat n + 8 < 2 ^ 31 → let inlen := 8 * Z.of_nat n in
  ¬ (Z.land inlen 7 ≠ 0 ∨ inlen < 8) ∧ Z.to_nat inlen = (8 * n)%nat ∧ Z.to_nat (inlen / 8) = n ∧ to_signed 32 (wrap 32 (inlen + 8)) = inlen + 8.
Proof.
  intros H1 Hn inlen. unfold inlen. split; [|split; [lia|split]].
  - intros [H|H]; [|lia]. apply H. change 7 with (Z.ones 3). rewrite Z.land_ones by lia. change (2 ^ 3) with 8. rewrite Z.mul_comm. by apply Z.mod_mul.
  - rewrite Z.mul_comm, Z.div_mul by lia. lia.
  - change (2 ^ 31) with 2147483648 in Hn. rewrite wrap_small by (unfold is_word; change (2 ^ 32) with 4294967296; lia).
    apply to_signed_small; [done|]. change (2 ^ (32 - 1)) with 2147483648. lia.
Qed.

Lemma AES_wrap_key_ok iv v out inp n p m : (1 <= n)%nat → 8 * Z.of_nat n + 8 < 2 ^ 31 → length p = (8 * n)%nat → is_bytes p →
  iv_read iv v m → mread m inp (8 * n) = Some p → mvalid m out (8 * n + 8) → pdisj (padd out 8) (8 * n) inp (8 * n) → pdisj out (8 * n + 8) iv 8 →
  ∃ m', AES_wrap_key key iv out inp (8 * Z.of_nat n) m = Some (8 * Z.of_nat n + 8, m') ∧
    let '(A, rs) := wrap_rfc (aes_enc key) 6 1 v (chunks 8 p) in
    mread m' out (8 * n + 8) = Some (A ++ mjoin rs) ∧ mframe [(out, (8 * n + 8)%nat)] m m'.
Proof.
  intros Hn1 Hn Lp Bp Hiv Rp Hv Hdp Hdi. destruct (wrap_length n Hn1 Hn) as (Hg & L1 & L2 & L3). unfold AES_wrap_key. rewrite decide_False by done. rewrite L1, L2, L3.
  destruct (chunks_8 n p Lp Bp) as (C1 & C2 & C3). pose proof Hiv as [H8 _]. key_ready Hkey.
  pose proof (wrap_rfc_8 (aes_enc key) 6 1 v (chunks 8 p) H8 C2) as W8.
  destruct (local_ok 16 (λ B, memcpy (padd out 8) inp (8 * n);; (if decide (iv = Null) then store B default_iv else memcpy B iv 8);;
    wrap_passes 6 n key B (padd out 8) 1;; memcpy out B 8;; mret (8 * Z.of_nat n + 8)) [(out, (8 * n + 8)%nat)] m
    (λ r m', r = 8 * Z.of_nat n + 8 ∧ let '(A, rs) := wrap_rfc (aes_enc key) 6 1 v (chunks 8 p) in mread m' out (8 * n + 8) = Some (A ++ mjoin rs)))
    as (r & m' & R & F & -> & P).
  2:{ exists m'. split; [exact R|]. by destruct (wrap_rfc _ _ _ _ _). }
  intros c m0 Hc F0 V0 Hfresh. set (B := Ptr c 0) in *. pose proof (Hfresh out _ Hv) as Hfo.
  assert (pdisj B 8 iv 8) as Hfiv.
  { destruct Hiv as [_ Hiv]. case_decide as Hn0; [by rewrite Hn0|]. pose proof (Hfresh iv 8%nat (mread_mvalid _ _ _ _ Hiv)) as Hfv. clear - Hfv. solve_pdisj. }
  assert (mread m0 inp (8 * n) = Some p) as Rp0 by (by apply (apart_read m m0 _ _ _ _ F0); [apply Forall_nil_2|]).
  destruct (memcpy_ok (padd out 8) inp (8 * n) p m0 Hdp Rp0) as (m1 & E1 & R1 & F1); [apply (mvalid_sub m0 out (8 * n + 8) 8); [by apply F0|lia]|].
  rewrite (bind_Some _ _ m0 _ m1 E1).
  assert (iv_read iv v m1) as Hiv1.
  { apply (iv_read_frame iv v [(padd out 8, (8 * n)%nat)] m0 m1); [|exact F1|apply apart_1; clear - Hdi; solve_pdisj]. apply (iv_read_frame iv v [] m m0); [done..|apply Forall_nil_2]. }
  destruct (iv_load_ok iv v B m1 Hiv1 Hfiv) as (m2 & E2 & R2 & F2); [apply F1; eapply mvalid_take; [exact V0|lia]|].
  rewrite (bind_Some _ _ m1 _ m2 E2).
  destruct (wrap_passes_ok key Hkey 6 B (padd out 8) v 1 (chunks 8 p) m2 R2 H8) as (m3 & E3 & P); rewrite ?C1, ?C3;
    [by apply F2, F1|apply (apart_read m1 m2 _ _ _ _ F2); [apply apart_1; clear - Hfo; solve_pdisj|done]|done|clear - Hfo; solve_pdisj|lia|change (2 ^ 31) with 2147483648 in Hn; change (2 ^ 32) with 4294967296; lia|].
  rewrite C1 in *. rewrite (bind_Some _ _ m2 _ m3 E3). destruct (wrap_rfc (aes_enc key) 6 1 v (chunks 8 p)) as [A rs]. cbn [fst snd] in W8.
  destruct W8 as ((LA & _) & _ & Lrs). destruct P as (P1 & P2 & F3).
  assert (mvalid m3 out (8 * n + 8)) as V3 by (by apply F3, F2, F1, F0).
  destruct (memcpy_ok out B 8 A m3 ltac:(clear - Hfo; solve_pdisj) P1) as (m4 & E4 & R4 & F4); [eapply mvalid_take; [exact V3|lia]|]. rewrite (bind_Some _ _ m3 _ m4 E4).
  exists (8 * Z.of_nat n + 8), m4. split; [done|]. split.
  - transitivity m1; [eapply mframe_mono; [exact F1|]; eapply (covers_sub _ out (8 * n + 8) 8); [right; left|lia]|].
    transitivity m2; [eapply mframe_mono; [exact F2|]; eapply covers_take; [left|lia]|].
    transitivity m3; [eapply mframe_mono; [exact F3|]; apply covers_cons; [eapply covers_take; [left|lia]|eapply (covers_sub _ out (8 * n + 8) 8); [right; left|lia]]|].
    eapply mframe_mono; [exact F4|]. eapply covers_take; [right; left|lia].
  - intros m5 Hm5. split; [done|]. rewrite Hm5 by done. replace (8 * n + 8)%nat with (8 + 8 * n)%nat by lia. apply mread_join; [done|].
    apply (apart_read m3 m4 _ _ _ _ F4); [apply apart_1; clear; solve_pdisj|done].
Qed.
End wrap.

(** Wrapping more than one block in place is undefined. *)
Lemma AES_wrap_key_in_place key iv p n m : (2 <= n)%nat → 8 * Z.of_nat n + 8 < 2 ^ 31 → p ≠ Null → AES_wrap_key key iv p p (8 * Z.of_nat n) m = None.
Proof.
  intros Hn1 Hn Hp. destruct (wrap_length n ltac:(lia) Hn) as (Hg & L1 & _ & _). unfold AES_wrap_key. rewrite decide_False by done. rewrite L1.
  unfold local. destruct (alloc_fresh m 16) as (b & _ & Ea). rewrite (bind_Some _ _ m _ _ Ea). destruct (_ ≫= _) as [r|] eqn:E in |- *; [exfalso|done].
  apply bind_inv in E as (t & m1 & (u & m2 & E & _)%bind_inv & _). unfold memcpy in E. rewrite decide_False in E; [done|]. clear - Hn1 Hp. destruct p as [|c o]; [done|]. cbn [padd pdisj]. lia.
Qed.

(** What [OPENSSL_cleanse] leaves: a pattern that depends on addresses only. *)
Fixpoint cleanse_bytes {tgt : Target} (addr : ptr → Z) (n : nat) (p : ptr) (ctr : Z) : list Z :=
  match n with
  | O => []
  | S n => wrap 8 ctr :: cleanse_bytes addr n (padd p 1) (size (ctr + (17 + Z.land (addr (padd p 1)) 15)))
  end.

Section unwrap.
Context {tgt : Target} (addr : ptr → Z).

Lemma cleanse_bytes_length n : ∀ p ctr, length (cleanse_bytes addr n p ctr) = n.
Proof. induction n as [|n IH]; intros p ctr; [done|]. cbn [cleanse_bytes length]. by rewrite IH. Qed.

Lemma cleanse_loop_ok n : ∀ p ctr m, mvalid m p n →
  ∃ ctr' m', cleanse_loop addr n p ctr m = Some (ctr', m') ∧ mread m' p n = Some (cleanse_bytes addr n p ctr) ∧ mframe [(p, n)] m m'.
Proof.
  induction n as [|n IH]; intros p ctr m Hv.
  - exists ctr, m. split; [done|]. split; [by apply mread_nil|reflexivity].
  - cbn [cleanse_loop cleanse_bytes]. destruct (mvalid_store m p [wrap 8 ctr]) as (m1 & W & S1); [eapply mvalid_take; [exact Hv|cbn; lia]|].
    rewrite (bind_Some _ _ m _ m1 S1). pose proof (mwrite_mframe _ _ _ _ W) as F1. cbn [length] in F1.
    destruct (IH (padd p 1) (size (ctr + (17 + Z.land (addr (padd p 1)) 15))) m1) as (ctr' & m' & E & R & F); [apply F1, (mvalid_sub m p (S n) 1); [done|lia]|].
    exists ctr', m'. split; [done|]. split.
    + change (S n) with (1 + n)%nat. change (wrap 8 ctr :: ?l) with ([wrap 8 ctr] ++ l). apply mread_join; [|done].
      apply (apart_read m1 m' _ _ _ _ F); [apply apart_1; clear; solve_pdisj|exact (mread_mwrite _ _ _ _ W)].
    + transitivity m1; [eapply mframe_mono; [exact F1|]; eapply covers_take; [left|lia]|]. eapply mframe_mono; [exact F|]. eapply (covers_sub _ p (S n) 1); [left|lia].
Qed.

Lemma OPENSSL_cleanse_ok ctr p n m : mvalid m p n →
  ∃ ctr' m', OPENSSL_cleanse addr ctr p n m = Some (ctr', m') ∧ mread m' p n = Some (cleanse_bytes addr n p ctr) ∧ mframe [(p, n)] m m'.
Proof.
  intros Hv. destruct (cleanse_loop_ok n p ctr m Hv) as (c & m1 & E1 & R1 & F1). unfold OPENSSL_cleanse. eexists _, m1. split; [|done].
  rewrite (bind_Some _ _ m _ m1 E1). rewrite (bind_Some _ _ m1 (fst <$> list_find (λ b, b = wrap 8 c) (cleanse_bytes addr n p ctr)) m1); [done|].
  unfold memchr. by rewrite (bind_Some _ _ m1 _ m1 (load_Some _ _ _ _ R1)).
Qed.

Lemma unwrap_length n : (1 <= n)%nat → 8 * Z.of_nat n + 8 < 2 ^ 31 →
  wrap 32 (8 * Z.of_nat n + 8 - 8) = 8 * Z.of_nat n ∧ wrap 32 (6 * Z.shiftr (8 * Z.of_nat n) 3) = 6 * Z.of_nat n ∧
  to_signed 32 (8 * Z.of_nat n) = 8 * Z.of_nat n.
Proof.
  intros H1 Hn. change (2 ^ 31) with 2147483648 in Hn. split; [|split].
  - rewrite Z.add_simpl_r. apply wrap_small. unfold is_word. change (2 ^ 32) with 4294967296. lia.
  - rewrite Z.shiftr_div_pow2 by lia. change (2 ^ 3) with 8. rewrite (Z.mul_comm 8), Z.div_mul by lia. apply wrap_small.
    unfold is_word. change (2 ^ 32) with 4294967296. lia.
  - apply to_signed_small; [done|]. change (2 ^ (32 - 1)) with 2147483648. lia.
Qed.

(** The comparison with the initial value, and the two results. *)
Lemma unwrap_check_ok iv v (B out : ptr) A ps n ctr m : iv_read iv v m → mread m B 8 = Some A → mvalid m out (8 * n) → mread m out (8 * n) = Some ps →
  ∃ r m', (a ← load B 8; w ← (if decide (iv = Null) then mret default_iv else load iv 8);
    if decide (a ≠ w) then ctr' ← OPENSSL_cleanse addr ctr out (8 * n); mret (0, ctr') else mret (8 * Z.of_nat n, ctr)) m = Some (r, m') ∧
    mframe [(out, (8 * n)%nat)] m m' ∧
    if decide (A = v) then r = (8 * Z.of_nat n, ctr) ∧ mread m' out (8 * n) = Some ps
    else r.1 = 0 ∧ mread m' out (8 * n) = Some (cleanse_bytes addr (8 * n) out ctr).
Proof.
  intros [_ Hv] HA Vo Ro. rewrite (bind_Some _ _ m _ m (load_Some _ _ _ _ HA)).
  assert ((if decide (iv = Null) then mret default_iv else load iv 8) m = Some (v, m)) as E.
  { case_decide; [by subst|by apply load_Some]. }
  rewrite (bind_Some _ _ m _ m E). destruct (decide (A = v)) as [->|Hne].
  - rewrite decide_False by (by intros []). eexists _, m. split; [done|]. by split.
  - rewrite decide_True by done. destruct (OPENSSL_cleanse_ok ctr out (8 * n) m Vo) as (c & m' & E' & R' & F').
    rewrite (bind_Some _ _ m _ m' E'). eexists _, m'. by split.
Qed.

Lemma AES_unwrap_key_ok key iv v out inp n ctr c m : 1 < rounds key → (1 <= n)%nat → 8 * Z.of_nat n + 8 < 2 ^ 31 → length c = (8 * n + 8)%nat → is_bytes c →
  iv_read iv v m → mread m inp (8 * n + 8) = Some c → mvalid m out (8 * n) → pdisj out (8 * n) inp (8 * n + 8) → pdisj out (8 * n) iv 8 →
  ∃ r m', AES_unwrap_key addr ctr key iv out inp (8 * Z.of_nat n + 8) m = Some (r, m') ∧ mframe [(out, (8 * n)%nat)] m m' ∧
    let '(A, rs) := unwrap_rfc (aes_dec key) 6 1 (take 8 c) (chunks 8 (drop 8 c)) in
    if decide (A = v) then r = (8 * Z.of_nat n, ctr) ∧ mread m' out (8 * n) = Some (mjoin rs)
    else r.1 = 0 ∧ mread m' out (8 * n) = Some (cleanse_bytes addr (8 * n) out ctr).
Proof.
  intros Hkey Hn1 Hn Lc Bc Hiv Rc Hv Hdi Hdv. destruct (wrap_length n Hn1 Hn) as (Hg & L1 & L2 & _). destruct (unwrap_length n Hn1 Hn) as (U1 & U2 & U3).
  unfold AES_unwrap_key. rewrite U1. cbv zeta. rewrite decide_False by (by intros H; apply Hg; left). rewrite decide_False by (by intros H; apply Hg; right). rewrite L1, L2, U2, U3. clear Hg L1 L2 U1 U2 U3.
  pose proof Rc as Rc'. rewrite <- (take_drop 8 c) in Rc'. replace (8 * n + 8)%nat with (8 + 8 * n)%nat in Rc' by lia.
  apply mread_split in Rc' as (a & b & E & La & Ra & Rb). apply app_inj_1 in E as [<- <-]; [|rewrite length_take; lia].
  assert (length (drop 8 c) = (8 * n)%nat) as Ld by (rewrite length_drop; lia).
  destruct (chunks_8 n (drop 8 c) Ld (Forall_drop _ _ _ Bc)) as (C1 & C2 & C3). key_ready Hkey.
  assert (is_8 (take 8 c)) as H8 by (split; [done|by apply Forall_take]).
  pose proof (unwrap_rfc_length (aes_dec key) 6 1 (take 8 c) (chunks 8 (drop 8 c))) as Lrs.
  destruct (unwrap_rfc (aes_dec key) 6 1 (take 8 c) (chunks 8 (drop 8 c))) as [A rs] eqn:Eu. cbn [snd] in Lrs.
  destruct (local_ok 16 (λ B, memcpy B inp 8;; memcpy out (padd inp 8) (8 * n);; unwrap_passes 6 n key B (padd out (8 * Z.of_nat n - 8)) (6 * Z.of_nat n);;
    a ← load B 8; w ← (if decide (iv = Null) then mret default_iv else load iv 8);
    if decide (a ≠ w) then ctr' ← OPENSSL_cleanse addr ctr out (8 * n); mret (0, ctr') else mret (8 * Z.of_nat n, ctr)) [(out, (8 * n)%nat)] m
    (λ r m', if decide (A = v) then r = (8 * Z.of_nat n, ctr) ∧ mread m' out (8 * n) = Some (mjoin rs)
      else r.1 = 0 ∧ mread m' out (8 * n) = Some (cleanse_bytes addr (8 * n) out ctr))) as (r & m' & R & F & P).
  2:{ by exists r, m'. }
  intros l m0 Hc F0 V0 Hfresh. set (B := Ptr l 0) in *. pose proof (Hfresh out _ Hv) as Hfo. pose proof (Hfresh inp _ (mread_mvalid _ _ _ _ Rc)) as Hfi.
  assert (mread m0 inp 8 = Some (take 8 c)) as Ra0 by (by apply (apart_read m m0 _ _ _ _ F0); [apply Forall_nil_2|]).
  destruct (memcpy_ok B inp 8 _ m0 ltac:(clear - Hfi; solve_pdisj) Ra0) as (m1 & E1 & R1 & F1); [eapply mvalid_take; [exact V0|lia]|]. rewrite (bind_Some _ _ m0 _ m1 E1).
  assert (mread m1 (padd inp 8) (8 * n) = Some (drop 8 c)) as Rb1.
  { apply (apart_read m0 m1 _ _ _ _ F1); [apply apart_1; clear - Hfi; solve_pdisj|]. by apply (apart_read m m0 _ _ _ _ F0); [apply Forall_nil_2|]. }
  destruct (memcpy_ok out (padd inp 8) (8 * n) _ m1 ltac:(clear - Hdi; solve_pdisj) Rb1) as (m2 & E2 & R2 & F2); [by apply F1, F0|]. rewrite (bind_Some _ _ m1 _ m2 E2).
  destruct (unwrap_passes_ok key Hkey 6 B out (take 8 c) 1 (chunks 8 (drop 8 c)) m2) as (m3 & E3 & P); rewrite ?C1, ?C3;
    [apply (apart_read m1 m2 _ _ _ _ F2); [apply apart_1; clear - Hfo; solve_pdisj|done]|done|by apply F2, F1|done|done|done|lia
    |change (2 ^ 31) with 2147483648 in Hn; change (2 ^ 32) with 4294967296; lia|].
  rewrite C1 in *. replace (1 + Z.of_nat (6 * n) - 1) with (6 * Z.of_nat n) in E3 by lia. rewrite (bind_Some _ _ m2 _ m3 E3). rewrite Eu in P. destruct P as (P1 & P2 & F3).
  assert (iv_read iv v m3) as Hiv3.
  { destruct (decide (iv = Null)) as [->|Hnn]; [by destruct Hiv as [G1 G2]; split|]. pose proof Hiv as [_ Hr]. rewrite decide_False in Hr by done.
    pose proof (Hfresh iv 8%nat (mread_mvalid _ _ _ _ Hr)) as Hfv.
    apply (iv_read_frame iv v [(B, 16%nat); (out, (8 * n)%nat)] m2 m3); [|exact F3|constructor; [done|by apply apart_1]].
    apply (iv_read_frame iv v [(out, (8 * n)%nat)] m1 m2); [|exact F2|by apply apart_1].
    apply (iv_read_frame iv v [(B, 8%nat)] m0 m1); [|exact F1|apply apart_1; clear - Hfv; solve_pdisj].
    by apply (iv_read_frame iv v [] m m0); [..|apply Forall_nil_2]. }
  destruct (unwrap_check_ok iv v B out A (mjoin rs) n ctr m3 Hiv3 P1) as (r & m4 & E4 & F4 & Q); [by eapply mread_mvalid|done|].
  exists r, m4. split; [exact E4|]. split.
  - transitivity m1; [eapply mframe_mono; [exact F1|]; eapply covers_take; [left|lia]|].
    transitivity m2; [eapply mframe_mono; [exact F2|]; eapply covers_take; [right; left|lia]|].
    transitivity m3; [exact F3|]. eapply mframe_mono; [exact F4|]. eapply covers_take; [right; left|lia].
  - intros m5 Hm5. case_decide; by rewrite Hm5.
Qed.
End unwrap.

(** ** Properties *)

Section properties.
Context {tgt : Target} (addr : ptr → Z).

(** C20: for a key of [AES_set_encrypt_key], [AES_wrap_key] returns 8 more than the length of
    the key it wraps, any multiple of 8 bytes, and writes the six passes of RFC 3394 over it;
    [AES_unwrap_key] with the key of [AES_set_decrypt_key] and the same initial value returns
    the length and writes the wrapped key. *)
Theorem aes_wrap_roundtrip Nk k ek dk iv v mid out inp n p ctr m :
  is_key Nk k → key_pair Nk k ek dk → (1 <= n)%nat → 8 * Z.of_nat n + 8 < 2 ^ 31 → length p = (8 * n)%nat → is_bytes p →
  iv_read iv v m → mread m inp (8 * n) = Some p → mvalid m mid (8 * n + 8) → mvalid m out (8 * n) →
  pdisj (padd mid 8) (8 * n) inp (8 * n) → pdisj mid (8 * n + 8) iv 8 → pdisj out (8 * n) mid (8 * n + 8) → pdisj out (8 * n) iv 8 →
  ∃ m1 m2, AES_wrap_key ek iv mid inp (8 * Z.of_nat n) m = Some (8 * Z.of_nat n + 8, m1) ∧
    AES_unwrap_key addr ctr dk iv out mid (8 * Z.of_nat n + 8) m1 = Some ((8 * Z.of_nat n, ctr), m2) ∧
    let '(A, rs) := wrap_rfc (aes_enc ek) 6 1 v (chunks 8 p) in
    mread m1 mid (8 * n + 8) = Some (A ++ mjoin rs) ∧ mread m2 out (8 * n) = Some p ∧ mframe [(mid, (8 * n + 8)%nat)] m m1 ∧ mframe [(out, (8 * n)%nat)] m1 m2.
Proof.
  intros Hk Hp Hn1 Hn Lp Bp Hiv Rp Vm Vo D0 D1 D2 D3. destruct (key_pair_spec Nk k ek dk Hk Hp) as (Hek & Hdk & _). pose proof (aes_block_cipher Nk k ek dk Hk Hp) as HC.
  destruct (AES_wrap_key_ok ek Hek iv v mid inp n p m Hn1 Hn Lp Bp Hiv Rp Vm D0 D1) as (m1 & E1 & P). destruct (chunks_8 n p Lp Bp) as (C1 & C2 & C3).
  pose proof Hiv as [H8 _]. pose proof (wrap_rfc_8 (aes_enc ek) 6 1 v (chunks 8 p) H8 C2) as (W1 & W2 & W3).
  pose proof (unwrap_wrap_rfc (aes_enc ek) (aes_dec dk) 6 1 v (chunks 8 p) H8 C2) as Hrt.
  destruct (wrap_rfc (aes_enc ek) 6 1 v (chunks 8 p)) as [A rs]. cbn [fst snd] in *. destruct P as [R1 F1]. pose proof (mjoin_8_length rs W2) as Lj.
  destruct (AES_unwrap_key_ok addr dk iv v out mid n ctr (A ++ mjoin rs) m1) as (r & m2 & E2 & F2 & Q); try done.
  - rewrite length_app, Lj, W3, C1, (proj1 W1). lia.
  - apply Forall_app_2; [apply W1|by apply mjoin_8_bytes].
  - by apply (iv_read_frame iv v _ m m1 Hiv F1), apart_1.
  - by apply F1.
  - rewrite (take_app_length' A) in Q by (symmetry; apply W1). rewrite (drop_app_length' A) in Q by (symmetry; apply W1). rewrite mjoin_chunks_8, Hrt in Q by done. rewrite decide_True, C3 in Q by done.
    destruct Q as [-> Q]. exists m1, m2. by repeat (split; [done|]).
Qed.

(** C21: whatever the bytes it is given, [AES_unwrap_key] returns the length and the unwrapped
    key only when the register of RFC 3394 ends as the initial value; otherwise it returns 0
    and what it leaves in [out] is a pattern made of addresses and a static counter alone. *)
Theorem aes_unwrap_integrity key iv v out inp n ctr c m :
  1 < rounds key → (1 <= n)%nat → 8 * Z.of_nat n + 8 < 2 ^ 31 → length c = (8 * n + 8)%nat → is_bytes c →
  iv_read iv v m → mread m inp (8 * n + 8) = Some c → mvalid m out (8 * n) → pdisj out (8 * n) inp (8 * n + 8) → pdisj out (8 * n) iv 8 →
  ∃ r ctr' m', AES_unwrap_key addr ctr key iv out inp (8 * Z.of_nat n + 8) m = Some ((r, ctr'), m') ∧ mframe [(out, (8 * n)%nat)] m m' ∧
    let '(A, rs) := unwrap_rfc (aes_dec key) 6 1 (take 8 c) (chunks 8 (drop 8 c)) in
    if decide (A = v) then r = 8 * Z.of_nat n ∧ mread m' out (8 * n) = Some (mjoin rs)
    else r = 0 ∧ mread m' out (8 * n) = Some (cleanse_bytes addr (8 * n) out ctr).
Proof.
  intros Hk Hn1 Hn Lc Bc Hiv Rc Hv D1 D2. destruct (AES_unwrap_key_ok addr key iv v out inp n ctr c m) as ([r ctr'] & m' & E & F & Q); [done..|].
  exists r, ctr', m'. do 2 (split; [done|]). destruct (unwrap_rfc _ _ _ _ _) as [A rs]. case_decide; [|done]. by destruct Q as [[= -> ->] Q].
Qed.

(** C39: lengths that are not multiples of 8 or too short are refused with -1 and nothing is
    written, except by [AES_unwrap_key] for the length 0: the subtraction wraps around, both
    tests pass and it goes on to copy [2^32 - 8] bytes, undefined behaviour for any input that
    is not that long. *)
Theorem aes_wrap_lengths key iv out inp inlen ctr m :
  0 <= inlen < 2 ^ 32 →
  ((inlen mod 8 ≠ 0 ∨ inlen < 8) → AES_wrap_key key iv out inp inlen m = Some (-1, m)) ∧
  ((inlen mod 8 ≠ 0 ∨ inlen = 8) → AES_unwrap_key addr ctr key iv out inp inlen m = Some ((-1, ctr), m)) ∧
  (inlen = 0 → ¬ mvalid m (padd inp 8) (Z.to_nat (2 ^ 32 - 8)) → AES_unwrap_key addr ctr key iv out inp inlen m = None).
Proof.
  intros Hl. assert (∀ x, Z.land x 7 = x mod 8) as H7 by (intros x; change 7 with (Z.ones 3); by rewrite Z.land_ones). split; [|split].
  - intros H. unfold AES_wrap_key. by rewrite H7, decide_True.
  - intros H. unfold AES_unwrap_key. cbv zeta. rewrite H7. unfold wrap.
    assert ((inlen - 8) mod 2 ^ 32 mod 8 = inlen mod 8) as ->.
    { rewrite Z.mod_mod_divide by (by exists 536870912). rewrite <- (Z.mod_add (inlen - 8) 1 8) by lia. f_equal. lia. }
    case_decide as H1; [done|]. destruct H as [H| ->]; [done|]. by rewrite decide_True by done.
  - intros -> Hv. unfold AES_unwrap_key. cbv zeta. rewrite H7. change (wrap 32 (0 - 8)) with (2 ^ 32 - 8). set (big := 2 ^ 32 - 8) in *.
    assert (big = 4294967288) as Hbig by done. rewrite decide_False by (rewrite Hbig; by intros []). rewrite decide_False by lia. clearbody big.
    unfold local. destruct (alloc_fresh m 16) as (b & Hb & Ea). rewrite (bind_Some _ _ m _ _ Ea). set (m1 := <[b := _]> m).
    unfold mbind, C_bind. destruct (memcpy (Ptr b 0) inp 8 m1) as [[[] m2]|] eqn:E2; [|done].
    rewrite memcpy_unreadable; [done|]. destruct (mread m2 _ _) as [l|] eqn:V; [exfalso|done]. apply mread_mvalid in V. apply Hv.
    apply memcpy_inv in E2 as (bs & _ & W). apply (mvalid_mwrite_iff _ _ _ _ _ _ W) in V.
    destruct inp as [|b' o]; [done|]. destruct V as (cells & Hc & Hr). unfold m1 in Hc. destruct (decide (b' = b)) as [->|Hne].
    + rewrite lookup_insert_eq in Hc. injection Hc as <-. unfold in_range in Hr. cbn [length replicate] in Hr. lia.
    + rewrite lookup_insert_ne in Hc by done. by exists cells.
Qed.
End properties.

(** *** Instances: the first vector of RFC 3394 *)

Definition kw_key : list Z := (λ i, 17 * Z.of_nat i) <$> seq 0 16.
Definition kw_wrapped : list Z :=
  [0x1f; 0xa6; 0x8b; 0x0a; 0x81; 0x12; 0xb4; 0x47; 0xae; 0xf3; 0x4b; 0xd8; 0xfb; 0x5a; 0x7b; 0x82;
   0x9d; 0x3e; 0x86; 0x23; 0x71; 0xd2; 0xcf; 0xe5].
Definition kw_mem : mem :=
  {[1%positive := Some <$> kw_key; 2%positive := replicate 24 None; 3%positive := replicate 16 None; 4%positive := Some <$> kw_wrapped]}.
Definition kw_addr (p : ptr) : Z := match p with Null => 0 | Ptr b o => 4096 * Zpos b + o end.

Example rfc3394_vector :
  (let '(A, rs) := wrap_rfc (aes_enc demo_ek) 6 1 default_iv (chunks 8 kw_key) in A ++ mjoin rs) = kw_wrapped.
Proof. vm_compute. reflexivity. Qed.

Lemma aes_wrap_roundtrip_witness :
  ∃ ek dk m1 m2, key_pair 8 (fips_key 32) ek dk ∧ AES_wrap_key ek Null (Ptr 2 0) (Ptr 1 0) 16 kw_mem = Some (24, m1) ∧
    AES_unwrap_key (tgt := LP64_x86) kw_addr 0 dk Null (Ptr 3 0) (Ptr 2 0) 24 m1 = Some ((16, 0), m2) ∧ mread m2 (Ptr 3 0) 16 = Some kw_key.
Proof.
  assert (Hk : is_key 8 (fips_key 32)) by decide_by_compute.
  destruct (key_pair_exists 8 (fips_key 32) fresh_key fresh_key Hk eq_refl eq_refl) as (ek & dk & _ & _ & Hp). exists ek, dk.
  destruct (aes_wrap_roundtrip (tgt := LP64_x86) kw_addr 8 (fips_key 32) ek dk Null default_iv (Ptr 2 0) (Ptr 3 0) (Ptr 1 0) 2 kw_key 0 kw_mem Hk Hp) as (m1 & m2 & E1 & E2 & H);
    [lia|lia|done|decide_by_compute|split; [split; [done|decide_by_compute]|done]|vm_compute; done|decide_by_compute..|].
  exists m1, m2. split; [exact Hp|]. split; [exact E1|]. split; [exact E2|]. destruct (wrap_rfc _ _ _ _ _) as [A rs]. apply H.
Defined.

(** A wrapped key with the wrong initial value. *)
Lemma aes_unwrap_integrity_witness :
  ∃ ctr m', AES_unwrap_key (tgt := LP64_x86) kw_addr 0 demo_dk (Ptr 1 0) (Ptr 3 0) (Ptr 4 0) 24 kw_mem = Some ((0, ctr), m') ∧
    mread m' (Ptr 3 0) 16 = Some (cleanse_bytes (tgt := LP64_x86) kw_addr 16 (Ptr 3 0) 0).
Proof.
  destruct (aes_unwrap_integrity (tgt := LP64_x86) kw_addr demo_dk (Ptr 1 0) (take 8 kw_key) (Ptr 3 0) (Ptr 4 0) 2 0 kw_wrapped kw_mem) as (r & ctr & m' & E & _ & H);
    [vm_compute; done|lia|lia|done|decide_by_compute|split; [split; [done|decide_by_compute]|vm_compute; done]|vm_compute; done|decide_by_compute..|].
  exists ctr, m'. assert (unwrap_rfc (aes_dec demo_dk) 6 1 (take 8 kw_wrapped) (chunks 8 (drop 8 kw_wrapped)) = (default_iv, chunks 8 kw_key)) as Eu by (vm_compute; reflexivity).
  rewrite Eu in H. rewrite decide_False in H by (vm_compute; discriminate). destruct H as [-> H]. split; [exact E|exact H].
Defined.

Lemma aes_wrap_lengths_witness :
  AES_wrap_key demo_ek Null (Ptr 2 0) (Ptr 1 0) 15 kw_mem = Some (-1, kw_mem) ∧
  AES_unwrap_key (tgt := LP64_x86) kw_addr 0 demo_dk Null (Ptr 3 0) (Ptr 4 0) 8 kw_mem = Some ((-1, 0), kw_mem) ∧
  AES_unwrap_key (tgt := LP64_x86) kw_addr 0 demo_dk Null (Ptr 3 0) (Ptr 4 0) 0 kw_mem = None.
Proof.
  split; [apply (aes_wrap_lengths (tgt := LP64_x86) kw_addr demo_ek Null (Ptr 2 0) (Ptr 1 0) 15 0 kw_mem); [lia|by left]|].
  split; [apply (aes_wrap_lengths (tgt := LP64_x86) kw_addr demo_dk Null (Ptr 3 0) (Ptr 4 0) 8 0 kw_mem); [lia|by right]|].
  apply (aes_wrap_lengths (tgt := LP64_x86) kw_addr demo_dk Null (Ptr 3 0) (Ptr 4 0) 0 0 kw_mem); [lia|done|].
  intros (cells & Hc & Hr). assert (length cells = 24%nat) as Hl by (vm_compute in Hc; injection Hc as <-; done). unfold in_range in Hr. rewrite Hl, Z2Nat.id in Hr by done. lia.
Defined.
