(* ===== verification/MirAes.v ===== *)
(** * MirAes: the AES of MIRACL, [src/sm2/mraes.c]

    A second implementation of AES, which [sm2.c] uses to hide its random numbers. It packs
    bytes into words the other way round than [aes_core.c] and computes its decryption keys
    with logarithm tables. [aes_init] and the block functions are shown to be those of
    FIPS-197 through the first implementation, modelled in [Aes]: [swab] carries one to the
    other. The modes work on the register [f] of the structure and the caller's buffer. *)

From S2P Require Import Prelude Mem Target ModeSpec AesTables Aes MirAesTables.

Definition NB : nat := 4.

(** The struct [aes]; the fields [Nk] and [Nr] are numbers of words and rounds. *)
Record aes := { Nk : Z; Nr : Z; mode : Z; fkey : list Z; rkey : list Z; f : list Z }.

Definition MR_ECB : Z := 0.
Definition MR_CBC : Z := 1.
Definition MR_CFB1 : Z := 2.
Definition MR_CFB2 : Z := 3.
Definition MR_CFB4 : Z := 5.
Definition MR_PCFB1 : Z := 10.
Definition MR_PCFB2 : Z := 11.
Definition MR_PCFB4 : Z := 13.
Definition MR_OFB1 : Z := 14.
Definition MR_OFB2 : Z := 15.
Definition MR_OFB4 : Z := 17.
Definition MR_OFB8 : Z := 21.
Definition MR_OFB16 : Z := 29.

(** ** Words *)

Definition ROTL8 (x : Z) : Z := Z.lor (wrap 32 (Z.shiftl x 8)) (Z.shiftr x 24).
Definition ROTL16 (x : Z) : Z := Z.lor (wrap 32 (Z.shiftl x 16)) (Z.shiftr x 16).
Definition ROTL24 (x : Z) : Z := Z.lor (wrap 32 (Z.shiftl x 24)) (Z.shiftr x 8).

(** [pack(&b[i])]. *)
Definition pack (b : list Z) (i : nat) : Z :=
  Z.lor (Z.lor (Z.lor (Z.shiftl (b !!! (i + 3)%nat) 24) (Z.shiftl (b !!! (i + 2)%nat) 16))
               (Z.shiftl (b !!! (i + 1)%nat) 8)) (b !!! i).
Definition unpack (a : Z) : list Z :=
  [wrap 8 a; wrap 8 (Z.shiftr a 8); wrap 8 (Z.shiftr a 16); wrap 8 (Z.shiftr a 24)].

Definition bmul (x y : Z) : Z :=
  if decide (x ≠ 0 ∧ y ≠ 0) then tab ptab ((tab ltab x + tab ltab y) mod 255) else 0.

Definition SubByte (a : Z) : Z := pack (tab fbsub <$> unpack a) 0.

Definition product (x y : Z) : Z :=
  let xb := unpack x in let yb := unpack y in
  Z.lxor (Z.lxor (Z.lxor (bmul (xb !!! 0%nat) (yb !!! 0%nat)) (bmul (xb !!! 1%nat) (yb !!! 1%nat)))
                 (bmul (xb !!! 2%nat) (yb !!! 2%nat))) (bmul (xb !!! 3%nat) (yb !!! 3%nat)).

Definition InvMixCol (x : Z) : Z :=
  let m := pack InCo 0 in let d3 := product m x in
  let m := ROTL24 m in let d2 := product m x in
  let m := ROTL24 m in let d1 := product m x in
  let m := ROTL24 m in let d0 := product m x in
  pack [d0; d1; d2; d3] 0.

(** ** Keys *)

(** A null [iv] is [None]. *)
Definition aes_reset (a : aes) (md : Z) (iv : option (list Z)) : aes :=
  {| Nk := Nk a; Nr := Nr a; mode := md; fkey := fkey a; rkey := rkey a;
     f := match iv with
          | Some iv => if decide (md ≠ MR_ECB) then take (4 * NB) iv else replicate (4 * NB) 0
          | None => replicate (4 * NB) 0
          end |}.

Definition aes_getreg (a : aes) : list Z := f a.

(** [for (i = lo; i < hi && i + j < N; i++) fkey[i+j] = fkey[i+j-nk] ^ fkey[i+j-1]] *)
Definition xor_words (nk N j lo hi : nat) (fk : list Z) : list Z :=
  for_loop lo (hi `min` (N - j)) (λ i fk, <[(i + j)%nat := Z.lxor (fk !!! (i + j - nk)%nat) (fk !!! (i + j - 1)%nat)]> fk) fk.

(** A turn of the loop of the key schedule. *)
Definition expand_group (nk N j k : nat) (fk : list Z) : list Z :=
  let fk := <[j := Z.lxor (Z.lxor (fk !!! (j - nk)%nat) (SubByte (ROTL24 (fk !!! (j - 1)%nat)))) (rco !!! k)]> fk in
  if decide (nk ≤ 6)%nat then xor_words nk N j 1 nk fk
  else
    let fk := xor_words nk N j 1 4 fk in
    let fk := if decide (j + 4 < N)%nat
              then <[(j + 4)%nat := Z.lxor (fk !!! (j + 4 - nk)%nat) (SubByte (fk !!! (j + 3)%nat))]> fk else fk in
    xor_words nk N j 5 nk fk.

(** [for (j = nk, k = 0; j < N; j += nk, k++)] *)
Fixpoint expand_loop (fuel nk N j k : nat) (fk : list Z) : list Z :=
  match fuel with
  | O => fk
  | S fuel => if decide (j < N)%nat then expand_loop fuel nk N (j + nk) (S k) (expand_group nk N j k fk) else fk
  end.

(** The decryption keys: the rounds backwards. *)
Definition reverse_key (nr N : nat) (fk rk : list Z) : list Z :=
  let rk := for_loop 0 NB (λ j rk, <[(j + N - NB)%nat := fk !!! j]> rk) rk in
  let rk := for_loop 1 nr (λ r rk,
    let i := (NB * r)%nat in let k := (N - NB - i)%nat in
    for_loop 0 NB (λ j rk, <[(k + j)%nat := InvMixCol (fk !!! (i + j)%nat)]> rk) rk) rk in
  for_loop (N - NB) N (λ j rk, <[(j + NB - N)%nat := fk !!! j]> rk) rk.

(** [a] holds what was there before; the number of turns is at most [N]. *)
Definition aes_init (a : aes) (md nk : Z) (key : list Z) (iv : option (list Z)) : bool * aes :=
  let nk := Z.quot nk 4 in
  if decide (nk ≠ 4 ∧ nk ≠ 6 ∧ nk ≠ 8) then (false, a)
  else
    let nr := 6 + nk in
    let a := aes_reset {| Nk := nk; Nr := nr; mode := mode a; fkey := fkey a; rkey := rkey a; f := f a |} md iv in
    let n := Z.to_nat nk in let r := Z.to_nat nr in
    let N := (NB * (r + 1))%nat in
    let fk := for_loop 0 n (λ i fk, <[i := pack key (4 * i)]> fk) (fkey a) in
    let fk := expand_loop N n N n 0 fk in
    let rk := reverse_key r N fk (rkey a) in
    (true, {| Nk := nk; Nr := nr; mode := md; fkey := fk; rkey := rk; f := f a |}).

Definition aes_end (a : aes) : aes :=
  let zero l := for_loop 0 (NB * (Z.to_nat (Nr a) + 1)) (λ i l, <[i := 0]> l) l in
  {| Nk := Nk a; Nr := Nr a; mode := mode a; fkey := zero (fkey a); rkey := zero (rkey a); f := replicate (4 * NB) 0 |}.

(** ** Blocks *)

(** [key ^ T0[MR_TOBYTE(w)] ^ T1[MR_TOBYTE(x>>8)] ^ T2[MR_TOBYTE(y>>16)] ^ T3[z>>24]] *)
Definition mir_word (T0 T1 T2 T3 : Z → Z) (key w x y z : Z) : Z :=
  Z.lxor (Z.lxor (Z.lxor (Z.lxor key (T0 (wrap 8 w))) (T1 (wrap 8 (Z.shiftr x 8)))) (T2 (wrap 8 (Z.shiftr y 16))))
         (T3 (Z.shiftr z 24)).

Definition enc_words (word : Z → Z → Z → Z → Z → Z) (fk : list Z) (k : nat) (x : state) : state :=
  {| s0 := word (fk !!! k) (s0 x) (s1 x) (s2 x) (s3 x);
     s1 := word (fk !!! (k + 1)%nat) (s1 x) (s2 x) (s3 x) (s0 x);
     s2 := word (fk !!! (k + 2)%nat) (s2 x) (s3 x) (s0 x) (s1 x);
     s3 := word (fk !!! (k + 3)%nat) (s3 x) (s0 x) (s1 x) (s2 x) |}.
Definition dec_words (word : Z → Z → Z → Z → Z → Z) (rk : list Z) (k : nat) (x : state) : state :=
  {| s0 := word (rk !!! k) (s0 x) (s3 x) (s2 x) (s1 x);
     s1 := word (rk !!! (k + 1)%nat) (s1 x) (s0 x) (s3 x) (s2 x);
     s2 := word (rk !!! (k + 2)%nat) (s2 x) (s1 x) (s0 x) (s3 x);
     s3 := word (rk !!! (k + 3)%nat) (s3 x) (s2 x) (s1 x) (s0 x) |}.

Definition enc_word := mir_word (tab ftable) (tab ftable1) (tab ftable2) (tab ftable3).
Definition dec_word := mir_word (tab rtable) (tab rtable1) (tab rtable2) (tab rtable3).
Definition last_word (sub : list Z) :=
  mir_word (tab sub) (λ i, ROTL8 (tab sub i)) (λ i, ROTL16 (tab sub i)) (λ i, ROTL24 (tab sub i)).

(** [x] and [y] change places after each round. *)
Definition crypt_block (words : (Z → Z → Z → Z → Z → Z) → list Z → nat → state → state)
    (word last : Z → Z → Z → Z → Z → Z) (nr : Z) (key buff : list Z) : list Z :=
  let p i := Z.lxor (pack buff (4 * i)) (key !!! i) in
  let x := {| s0 := p 0%nat; s1 := p 1%nat; s2 := p 2%nat; s3 := p 3%nat |} in
  let x := for_loop 1 (Z.to_nat nr) (λ i x, words word key (NB * i)%nat x) x in
  let y := words last key (NB * Z.to_nat nr)%nat x in
  unpack (s0 y) ++ unpack (s1 y) ++ unpack (s2 y) ++ unpack (s3 y).

Definition aes_ecb_encrypt (a : aes) (buff : list Z) : list Z :=
  crypt_block enc_words enc_word (last_word fbsub) (Nr a) (fkey a) buff.
Definition aes_ecb_decrypt (a : aes) (buff : list Z) : list Z :=
  crypt_block dec_words dec_word (last_word rbsub) (Nr a) (rkey a) buff.

(** ** Modes *)

Definition set_f (a : aes) (f' : list Z) : aes :=
  {| Nk := Nk a; Nr := Nr a; mode := mode a; fkey := fkey a; rkey := rkey a; f := f' |}.

(** A block cipher on the first 16 bytes of the buffer. *)
Definition in_place (E : list Z → list Z) (buff : list Z) : list Z := E (take 16 buff) ++ drop 16 buff.

(** [for (j = 0; j < n; j++) b[j] ^= s[j]] *)
Definition xor_bytes (n : nat) (s b : list Z) : list Z :=
  for_loop 0 n (λ j b, <[j := Z.lxor (b !!! j) (s !!! j)]> b) b.
(** [for (j = 0; j < n; j++) d[o + j] = s[j]] *)
Definition copy_bytes (n o : nat) (s d : list Z) : list Z :=
  for_loop 0 n (λ j d, <[(o + j)%nat := s !!! j]> d) d.
(** [for (j = n; j < 16; j++) f[j - n] = f[j]] *)
Definition shift_bytes (n : nat) (b : list Z) : list Z :=
  for_loop n 16 (λ j b, <[(j - n)%nat := b !!! j]> b) b.

Definition is_cfb (md : Z) : bool := bool_decide (md = MR_CFB1 ∨ md = MR_CFB2 ∨ md = MR_CFB4).
Definition is_ofb (md : Z) : bool :=
  bool_decide (md = MR_OFB1 ∨ md = MR_OFB2 ∨ md = MR_OFB4 ∨ md = MR_OFB8 ∨ md = MR_OFB16).
Definition is_pcfb (md : Z) : bool := bool_decide (md = MR_PCFB1 ∨ md = MR_PCFB2 ∨ md = MR_PCFB4).

Section modes.
Context {tgt : Target}.

(** The bytes that fall off the register, of type [char], in one word. *)
Definition char_word (b : Z) : Z := if char_signed then wrap 32 (to_signed 8 b) else b.
Definition fall_off (n : nat) (reg : list Z) : Z :=
  for_loop 0 n (λ j w, Z.lor (wrap 32 (Z.shiftl w 8)) (char_word (reg !!! j))) 0.

(** What the feedback modes begin with: the bytes that fall off, the register moved, and the
    key stream. *)
Definition feed (a : aes) (n : nat) : Z * aes * list Z :=
  (fall_off n (f a), set_f a (shift_bytes n (f a)), aes_ecb_encrypt a (f a)).

Definition aes_encrypt (a : aes) (buff : list Z) : Z * aes * list Z :=
  if decide (mode a = MR_ECB) then (0, a, in_place (aes_ecb_encrypt a) buff)
  else if decide (mode a = MR_CBC) then
    let buff := in_place (aes_ecb_encrypt a) (xor_bytes 16 (f a) buff) in
    (0, set_f a (copy_bytes 16 0 buff (f a)), buff)
  else if is_cfb (mode a) then
    let n := Z.to_nat (mode a - MR_CFB1 + 1) in
    let '(fell_off, a, st) := feed a n in
    let buff := xor_bytes n st buff in
    (fell_off, set_f a (copy_bytes n (16 - n) buff (f a)), buff)
  else if is_ofb (mode a) then
    let n := Z.to_nat (mode a - MR_OFB1 + 1) in
    let a := set_f a (aes_ecb_encrypt a (f a)) in
    (0, a, xor_bytes n (f a) buff)
  else if is_pcfb (mode a) then
    let n := Z.to_nat (mode a - MR_PCFB1 + 1) in
    let '(fell_off, a, st) := feed a n in
    let buff := xor_bytes n st buff in
    (fell_off, set_f a (copy_bytes n (16 - n) (xor_bytes n (drop (16 - n) st) buff) (f a)), buff)
  else (0, a, buff).

Definition aes_decrypt (a : aes) (buff : list Z) : Z * aes * list Z :=
  if decide (mode a = MR_ECB) then (0, a, in_place (aes_ecb_decrypt a) buff)
  else if decide (mode a = MR_CBC) then
    let st := f a in
    (0, set_f a (copy_bytes 16 0 buff (f a)), xor_bytes 16 st (in_place (aes_ecb_decrypt a) buff))
  else if is_cfb (mode a) then
    let n := Z.to_nat (mode a - MR_CFB1 + 1) in
    let '(fell_off, a, st) := feed a n in
    (fell_off, set_f a (copy_bytes n (16 - n) buff (f a)), xor_bytes n st buff)
  else if is_ofb (mode a) then
    let n := Z.to_nat (mode a - MR_OFB1 + 1) in
    let a := set_f a (aes_ecb_encrypt a (f a)) in
    (0, a, xor_bytes n (f a) buff)
  else if is_pcfb (mode a) then
    let n := Z.to_nat (mode a - MR_PCFB1 + 1) in
    let '(fell_off, a, st) := feed a n in
    (fell_off, set_f a (copy_bytes n (16 - n) (xor_bytes n (drop (16 - n) st) buff) (f a)), xor_bytes n st buff)
  else (0, a, buff).
End modes.

(** ** The two implementations *)

(** The bytes of a word the other way round. *)
Definition swab (w : Z) : Z :=
  be_word (Z.land w 255) (Z.land (Z.shiftr w 8) 255) (Z.land (Z.shiftr w 16) 255) (Z.land (Z.shiftr w 24) 255).
#[global] Arguments swab : simpl never.
Definition swab_state (x : state) : state :=
  {| s0 := swab (s0 x); s1 := swab (s1 x); s2 := swab (s2 x); s3 := swab (s3 x) |}.

Lemma swab_lxor x y : swab (Z.lxor x y) = Z.lxor (swab x) (swab y).
Proof.
  assert (∀ n, Z.land (Z.shiftr (Z.lxor x y) n) 255 = Z.lxor (Z.land (Z.shiftr x n) 255) (Z.land (Z.shiftr y n) 255)) as E.
  { intros n. apply Z.bits_inj'. intros i Hi. rewrite Z.shiftr_lxor, !Z.lxor_spec, !Z.land_spec, Z.lxor_spec. btauto. }
  unfold swab. rewrite be_word_lxor by apply land_255_is_byte. rewrite <- !E. f_equal. apply (E 0).
Qed.

Lemma swab_word x : is_word 32 (swab x).
Proof. unfold swab. apply be_word_is_word; apply land_255_is_byte. Qed.

Lemma swab_be_word a b c d :
  is_byte a → is_byte b → is_byte c → is_byte d → swab (be_word a b c d) = be_word d c b a.
Proof. intros. unfold swab. f_equal; unfold be_word; bitwise. Qed.

(** A word is made of four bytes. *)
Lemma word_cases w : is_word 32 w →
  ∃ a b c d, w = be_word a b c d ∧ is_byte a ∧ is_byte b ∧ is_byte c ∧ is_byte d.
Proof.
  intros Hw. exists (Z.land (Z.shiftr w 24) 255), (Z.land (Z.shiftr w 16) 255), (Z.land (Z.shiftr w 8) 255), (Z.land w 255).
  split; [exact (eq_sym (word_of_be_bytes w Hw))|]. do 3 (split; [apply land_255_is_byte|]). apply land_255_is_byte.
Qed.

Lemma swab_swab x : is_word 32 x → swab (swab x) = x.
Proof. intros (a & b & c & d & -> & ? & ? & ? & ?)%word_cases. by rewrite !swab_be_word. Qed.

Lemma lookup_swab (l : list Z) i : (i < length l)%nat → (swab <$> l) !!! i = swab (l !!! i).
Proof. apply list_lookup_total_fmap. Qed.

(** The tables of MIRACL are those of OpenSSL. *)
Lemma tables_swab :
  ftable = swab <$> Te0 ∧ ftable1 = swab <$> Te1 ∧ ftable2 = swab <$> Te2 ∧ ftable3 = swab <$> Te3 ∧
  rtable = swab <$> Td0 ∧ rtable1 = swab <$> Td1 ∧ rtable2 = swab <$> Td2 ∧ rtable3 = swab <$> Td3 ∧
  rbsub = Td4.
Proof. vm_compute. done. Qed.

Lemma tab_swab (T : list Z) i : length T = 256%nat → is_byte i → tab (swab <$> T) i = swab (tab T i).
Proof. intros Hl Hi. apply lookup_swab. unfold is_word in Hi. lia. Qed.

Lemma fbsub_sbox x : is_byte x → tab fbsub x = AesSpec.sbox x.
Proof. revert x. apply byte_forall. decide_by_compute. Qed.

#[local] Opaque AesSpec.gmul AesSpec.sbox AesSpec.inv_sbox.

Lemma pack_be l i : pack l i = be_word (l !!! (i + 3)%nat) (l !!! (i + 2)%nat) (l !!! (i + 1)%nat) (l !!! i).
Proof. done. Qed.

Lemma pack_word l i : is_bytes l → is_word 32 (pack l i).
Proof. intros Hl. rewrite pack_be. apply be_word_is_word; by apply bytes_lookup_total. Qed.

Lemma swab_pack l i : is_bytes l → swab (pack l i) = GETU32 l i.
Proof.
  intros Hl. rewrite pack_be, GETU32_spec by done. pose proof (λ i, bytes_lookup_total l i Hl) as Hb.
  by rewrite swab_be_word.
Qed.

Lemma unpack_be_word a b c d :
  is_byte a → is_byte b → is_byte c → is_byte d → unpack (be_word a b c d) = [d; c; b; a].
Proof. intros. unfold unpack, be_word. repeat f_equal; bitwise. Qed.

Lemma unpack_swab w : is_word 32 w → unpack (swab w) = PUTU32 w.
Proof. intros (a & b & c & d & -> & ? & ? & ? & ?)%word_cases. by rewrite swab_be_word, unpack_be_word, PUTU32_be_word. Qed.

Lemma ROTL24_be_word a b c d :
  is_byte a → is_byte b → is_byte c → is_byte d → ROTL24 (be_word a b c d) = be_word d a b c.
Proof. intros. unfold ROTL24, be_word. bitwise. Qed.
Lemma ROTL16_be_word a b c d :
  is_byte a → is_byte b → is_byte c → is_byte d → ROTL16 (be_word a b c d) = be_word c d a b.
Proof. intros. unfold ROTL16, be_word. bitwise. Qed.
Lemma ROTL8_be_word a b c d :
  is_byte a → is_byte b → is_byte c → is_byte d → ROTL8 (be_word a b c d) = be_word b c d a.
Proof. intros. unfold ROTL8, be_word. bitwise. Qed.

(** *** Rounds *)

(** The bytes the table accesses take from a word. *)
Lemma taken_bytes w : is_word 32 w →
  wrap 8 (swab w) = b3 w ∧ wrap 8 (Z.shiftr (swab w) 8) = b2 w ∧
  wrap 8 (Z.shiftr (swab w) 16) = b1 w ∧ Z.shiftr (swab w) 24 = b0 w.
Proof.
  intros (a & b & c & d & -> & ? & ? & ? & ?)%word_cases. rewrite swab_be_word by done.
  rewrite b3_be_word, b2_be_word, b1_be_word, b0_be_word by done.
  split; [unfold be_word; bitwise|]. split; [unfold be_word; bitwise|]. split; [unfold be_word; bitwise|].
  by apply b3_be_word.
Qed.

(** A word of MIRACL's round is the one of OpenSSL's. *)
Lemma mir_word_swab T0 T1 T2 T3 M0 M1 M2 M3 k w x y z :
  (∀ i, is_byte i → M0 i = swab (T0 i)) → (∀ i, is_byte i → M1 i = swab (T1 i)) →
  (∀ i, is_byte i → M2 i = swab (T2 i)) → (∀ i, is_byte i → M3 i = swab (T3 i)) →
  is_word 32 w → is_word 32 x → is_word 32 y → is_word 32 z →
  mir_word M0 M1 M2 M3 (swab k) (swab w) (swab x) (swab y) (swab z) =
  swab (Z.lxor (Z.lxor (Z.lxor (Z.lxor (T0 (b3 w)) (T1 (b2 x))) (T2 (b1 y))) (T3 (b0 z))) k).
Proof.
  intros H0 H1 H2 H3 Hw Hx Hy Hz. unfold mir_word.
  destruct (taken_bytes w Hw) as (-> & _), (taken_bytes x Hx) as (_ & -> & _), (taken_bytes y Hy) as (_ & _ & -> & _),
    (taken_bytes z Hz) as (_ & _ & _ & ->).
  rewrite H0, H1, H2, H3 by word_byte. rewrite !swab_lxor. xor_ac.
Qed.

Lemma enc_word_swab k w x y z : is_word 32 w → is_word 32 x → is_word 32 y → is_word 32 z →
  enc_word (swab k) (swab w) (swab x) (swab y) (swab z) = swab (table_word Te0 Te1 Te2 Te3 w x y z k).
Proof.
  destruct tables_swab as (E0 & E1 & E2 & E3 & _). unfold enc_word. rewrite E0, E1, E2, E3.
  apply mir_word_swab; intros i Hi; by apply tab_swab.
Qed.

Lemma dec_word_swab k w x y z : is_word 32 w → is_word 32 x → is_word 32 y → is_word 32 z →
  dec_word (swab k) (swab w) (swab x) (swab y) (swab z) = swab (table_word Td0 Td1 Td2 Td3 w x y z k).
Proof.
  destruct tables_swab as (_ & _ & _ & _ & E0 & E1 & E2 & E3 & _). unfold dec_word. rewrite E0, E1, E2, E3.
  apply mir_word_swab; intros i Hi; by apply tab_swab.
Qed.

(** The last round, for any box of bytes. *)
Lemma last_word_swab sub k w x y z : (∀ i, is_byte i → is_byte (tab sub i)) →
  is_word 32 w → is_word 32 x → is_word 32 y → is_word 32 z →
  last_word sub (swab k) (swab w) (swab x) (swab y) (swab z) =
  swab (Z.lxor (be_word (tab sub (b3 w)) (tab sub (b2 x)) (tab sub (b1 y)) (tab sub (b0 z))) k).
Proof.
  intros Hs Hw Hx Hy Hz. unfold last_word.
  assert (∀ i, is_byte i → tab sub i = be_word 0 0 0 (tab sub i)) as E by (intros; unfold be_word; by rewrite !Z.shiftl_0_l).
  rewrite (mir_word_swab (λ i, be_word (tab sub i) 0 0 0) (λ i, be_word 0 (tab sub i) 0 0) (λ i, be_word 0 0 (tab sub i) 0)
    (λ i, be_word 0 0 0 (tab sub i))); [|intros i Hi; specialize (Hs i Hi)..|done|done|done|done].
  - pose proof (Hs (b3 w) ltac:(word_byte)). pose proof (Hs (b2 x) ltac:(word_byte)).
    pose proof (Hs (b1 y) ltac:(word_byte)). pose proof (Hs (b0 z) ltac:(word_byte)).
    f_equal. f_equal. rewrite !be_word_lxor by bytes. by rewrite !Z.lxor_0_r, !Z.lxor_0_l.
  - rewrite swab_be_word by bytes. by apply E.
  - rewrite swab_be_word, (E i Hi) by bytes. rewrite ROTL8_be_word by bytes. by rewrite <- E.
  - rewrite swab_be_word, (E i Hi) by bytes. rewrite ROTL16_be_word by bytes. by rewrite <- E.
  - rewrite swab_be_word, (E i Hi) by bytes. rewrite ROTL24_be_word by bytes. by rewrite <- E.
Qed.

(** *** Blocks *)

Definition words_ok (x : state) : Prop :=
  is_word 32 (s0 x) ∧ is_word 32 (s1 x) ∧ is_word 32 (s2 x) ∧ is_word 32 (s3 x).

Lemma table_word_word T0 T1 T2 T3 w x y z k :
  is_words T0 → is_words T1 → is_words T2 → is_words T3 → is_word 32 k → is_word 32 (table_word T0 T1 T2 T3 w x y z k).
Proof.
  intros H0 H1 H2 H3 Hk. unfold table_word, tab.
  repeat (apply is_word_lxor; [done| |]); by (apply Forall_lookup_total_default || assumption).
Qed.

Lemma tables_words :
  is_words Te0 ∧ is_words Te1 ∧ is_words Te2 ∧ is_words Te3 ∧ is_words Td0 ∧ is_words Td1 ∧ is_words Td2 ∧ is_words Td3.
Proof. decide_by_compute. Qed.

Section blocks.
Context (key : list Z) (Hkey : is_words key) (Hlen : length key = 60%nat).
Abbreviation key' := (swab <$> key).

Lemma key_word i : is_word 32 (key !!! i).
Proof. by apply Forall_lookup_total_default. Qed.

Lemma key_swab i : (i < 60)%nat → key !!! i = swab (key' !!! i).
Proof. intros Hi. rewrite lookup_swab, swab_swab by (lia || apply key_word). done. Qed.

Lemma key'_word i : (i < 60)%nat → is_word 32 (key' !!! i).
Proof. intros Hi. rewrite lookup_swab by lia. apply swab_word. Qed.

Lemma enc_round_swab o x : (o + 3 < 60)%nat → words_ok x →
  enc_words enc_word key o (swab_state x) = swab_state (enc_round x key' o) ∧ words_ok (enc_round x key' o).
Proof.
  intros Ho (H0 & H1 & H2 & H3). unfold enc_words. rewrite !key_swab by lia. cbn [s0 s1 s2 s3 swab_state].
  rewrite !enc_word_swab by done. split; [done|].
  destruct tables_words as (T0 & T1 & T2 & T3 & _). unfold words_ok, enc_round. cbn [s0 s1 s2 s3].
  do 3 (split; [by apply table_word_word, key'_word; (done || lia)|]). by apply table_word_word, key'_word; (done || lia).
Qed.

Lemma dec_round_swab o x : (o + 3 < 60)%nat → words_ok x →
  dec_words dec_word key o (swab_state x) = swab_state (dec_round x key' o) ∧ words_ok (dec_round x key' o).
Proof.
  intros Ho (H0 & H1 & H2 & H3). unfold dec_words. rewrite !key_swab by lia. cbn [s0 s1 s2 s3 swab_state].
  rewrite !dec_word_swab by done. split; [done|].
  destruct tables_words as (_ & _ & _ & _ & T0 & T1 & T2 & T3). unfold words_ok, dec_round. cbn [s0 s1 s2 s3].
  do 3 (split; [by apply table_word_word, key'_word; (done || lia)|]). by apply table_word_word, key'_word; (done || lia).
Qed.

Lemma enc_last_swab o x : (o + 3 < 60)%nat → words_ok x →
  enc_words (last_word fbsub) key o (swab_state x) = swab_state (enc_last x key' o) ∧ words_ok (enc_last x key' o).
Proof.
  intros Ho (H0 & H1 & H2 & H3).
  assert (∀ i, is_byte i → is_byte (tab fbsub i)) as Hs by (intros; rewrite fbsub_sbox by done; by apply sbox_byte).
  assert (∀ k w x y z, is_word 32 w → is_word 32 x → is_word 32 y → is_word 32 z → is_word 32 k →
    last_word fbsub (swab k) (swab w) (swab x) (swab y) (swab z) = swab (enc_last_word w x y z k) ∧
    is_word 32 (enc_last_word w x y z k)) as E.
  { intros k w x' y z Hw Hx Hy Hz Hk. rewrite last_word_swab by done. unfold enc_last_word.
    rewrite masked_tables by word_byte. rewrite !fbsub_sbox by word_byte. split; [done|].
    apply is_word_lxor; [done| |done]. apply be_word_is_word; apply sbox_byte; word_byte. }
  unfold enc_words. rewrite !key_swab by lia. cbn [s0 s1 s2 s3 swab_state].
  rewrite (proj1 (E _ _ _ _ _ H0 H1 H2 H3 (key'_word o ltac:(lia)))),
    (proj1 (E _ _ _ _ _ H1 H2 H3 H0 (key'_word (o + 1) ltac:(lia)))),
    (proj1 (E _ _ _ _ _ H2 H3 H0 H1 (key'_word (o + 2) ltac:(lia)))),
    (proj1 (E _ _ _ _ _ H3 H0 H1 H2 (key'_word (o + 3) ltac:(lia)))).
  split; [done|]. unfold words_ok. cbn [s0 s1 s2 s3 enc_last].
  do 3 (split; [apply E; (done || apply key'_word; lia)|]). apply E; (done || apply key'_word; lia).
Qed.

Lemma dec_last_swab o x : (o + 3 < 60)%nat → words_ok x →
  dec_words (last_word rbsub) key o (swab_state x) = swab_state (dec_last x key' o) ∧ words_ok (dec_last x key' o).
Proof.
  intros Ho (H0 & H1 & H2 & H3). destruct tables_swab as (_ & _ & _ & _ & _ & _ & _ & _ & ->).
  assert (∀ i, is_byte i → is_byte (tab Td4 i)) as Hs.
  { intros i Hi. destruct (tables_at_all i Hi) as (_ & _ & -> & _ & _ & _ & Hb). exact Hb. }
  assert (∀ k w x y z, is_word 32 w → is_word 32 x → is_word 32 y → is_word 32 z → is_word 32 k →
    last_word Td4 (swab k) (swab w) (swab x) (swab y) (swab z) = swab (dec_last_word w x y z k) ∧
    is_word 32 (dec_last_word w x y z k)) as E.
  { intros k w x' y z Hw Hx Hy Hz Hk. rewrite last_word_swab by done. unfold dec_last_word.
    rewrite shifted_bytes by (apply Hs; word_byte). split; [done|].
    apply is_word_lxor; [done| |done]. apply be_word_is_word; apply Hs; word_byte. }
  unfold dec_words. rewrite !key_swab by lia. cbn [s0 s1 s2 s3 swab_state].
  rewrite (proj1 (E _ _ _ _ _ H0 H3 H2 H1 (key'_word o ltac:(lia)))),
    (proj1 (E _ _ _ _ _ H1 H0 H3 H2 (key'_word (o + 1) ltac:(lia)))),
    (proj1 (E _ _ _ _ _ H2 H1 H0 H3 (key'_word (o + 2) ltac:(lia)))),
    (proj1 (E _ _ _ _ _ H3 H2 H1 H0 (key'_word (o + 3) ltac:(lia)))).
  split; [done|]. unfold words_ok. cbn [s0 s1 s2 s3 dec_last].
  do 3 (split; [apply E; (done || apply key'_word; lia)|]). apply E; (done || apply key'_word; lia).
Qed.

(** A block of MIRACL is a block of OpenSSL under the same key, bytes the other way round. *)
Lemma crypt_block_swab words word last round lst nr b :
  nr = 10%nat ∨ nr = 12%nat ∨ nr = 14%nat → length b = 16%nat → is_bytes b →
  (∀ o x, (o + 3 < 60)%nat → words_ok x →
    words word key o (swab_state x) = swab_state (round x key' o) ∧ words_ok (round x key' o)) →
  (∀ o x, (o + 3 < 60)%nat → words_ok x →
    words last key o (swab_state x) = swab_state (lst x key' o) ∧ words_ok (lst x key' o)) →
  aes_crypt round lst {| rd_key := key'; rounds := Z.of_nat nr |} b =
  Some (crypt_block words word last (Z.of_nat nr) key b).
Proof.
  intros Hnr Hb Hbb Hround Hlast. unfold aes_crypt, crypt_block. cbn [rd_key rounds]. cbv zeta. rewrite Nat2Z.id.
  set (x0 := {| s0 := Z.lxor (GETU32 b 0) (key' !!! 0%nat); s1 := Z.lxor (GETU32 b 4) (key' !!! 1%nat);
                s2 := Z.lxor (GETU32 b 8) (key' !!! 2%nat); s3 := Z.lxor (GETU32 b 12) (key' !!! 3%nat) |}).
  assert (∀ i, is_word 32 (GETU32 b i)) as Hg.
  { intros i. rewrite GETU32_spec by done. apply be_word_is_word; by apply bytes_lookup_total. }
  assert (words_ok x0) as W0.
  { unfold words_ok. cbn [s0 s1 s2 s3 x0]. do 3 (split; [apply is_word_lxor; [done|done|apply key'_word; lia]|]).
    apply is_word_lxor; [done|done|apply key'_word; lia]. }
  assert (∀ i j, (j < 60)%nat → Z.lxor (pack b i) (key !!! j) = swab (Z.lxor (GETU32 b i) (key' !!! j))) as E.
  { intros i j Hj. rewrite swab_lxor, <- key_swab, <- swab_pack, swab_swab; [done|by apply pack_word|done|done]. }
  rewrite !E by lia. change {| s0 := swab _; s1 := swab _; s2 := swab _; s3 := swab _ |} with (swab_state x0).
  replace (Z.to_nat (Z.shiftr (Z.of_nat nr) 1)) with (S (nr / 2 - 1)) by (destruct Hnr as [-> | [-> | ->]]; done).
  rewrite round_loop_spec. cbn [mbind option_bind].
  replace (2 * S (nr / 2 - 1))%nat with nr by (destruct Hnr as [-> | [-> | ->]]; done).
  replace (0 + 8 * S (nr / 2 - 1))%nat with (NB * nr)%nat by (destruct Hnr as [-> | [-> | ->]]; done).
  assert ((nr ≤ nr)%nat → for_loop 1 nr (λ i x, words word key (NB * i)%nat x) (swab_state x0) =
    swab_state (for_loop 1 nr (λ i s, round s key' (0 + 4 * i)%nat) x0) ∧
    words_ok (for_loop 1 nr (λ i s, round s key' (0 + 4 * i)%nat) x0)) as Hl.
  { apply (for_loop_ind (λ i t, (i ≤ nr)%nat → t = swab_state (for_loop 1 i (λ i s, round s key' (0 + 4 * i)%nat) x0) ∧
      words_ok (for_loop 1 i (λ i s, round s key' (0 + 4 * i)%nat) x0))); [lia|done|].
    intros i t Hi IH Hle. rewrite for_loop_last by lia. destruct IH as [-> Ht]; [lia|].
    apply Hround; [unfold NB; lia|done]. }
  destruct Hl as [-> Hw]; [done|]. destruct (Hlast (NB * nr)%nat _ ltac:(unfold NB; lia) Hw) as [-> (L0 & L1 & L2 & L3)].
  cbn [s0 s1 s2 s3 swab_state]. by rewrite !unpack_swab by done.
Qed.
End blocks.

(** *** Keys *)

Lemma SubByte_be_word a b c d : is_byte a → is_byte b → is_byte c → is_byte d →
  SubByte (be_word a b c d) = be_word (AesSpec.sbox a) (AesSpec.sbox b) (AesSpec.sbox c) (AesSpec.sbox d).
Proof.
  intros. unfold SubByte. rewrite unpack_be_word by done. cbn [fmap list_fmap]. rewrite !fbsub_sbox by done. apply pack_be.
Qed.

Lemma SubByte_swab w : is_word 32 w → swab (SubByte w) = sub_word (swab w) ∧ is_word 32 (SubByte w).
Proof.
  intros (a & b & c & d & -> & ? & ? & ? & ?)%word_cases. rewrite SubByte_be_word by done.
  split; [|by apply be_word_is_word; apply sbox_byte]. rewrite !swab_be_word by (done || by apply sbox_byte).
  unfold sub_word. rewrite b3_be_word, b2_be_word, b1_be_word, b0_be_word by done. by rewrite masked_tables.
Qed.

Lemma SubByte_ROTL24_swab w : is_word 32 w →
  swab (SubByte (ROTL24 w)) = sub_rot (swab w) ∧ is_word 32 (SubByte (ROTL24 w)).
Proof.
  intros (a & b & c & d & -> & ? & ? & ? & ?)%word_cases. rewrite ROTL24_be_word, SubByte_be_word by done.
  split; [|by apply be_word_is_word; apply sbox_byte]. rewrite !swab_be_word by (done || by apply sbox_byte).
  unfold sub_rot. rewrite b3_be_word, b2_be_word, b1_be_word, b0_be_word by done. by rewrite masked_tables.
Qed.

Lemma rco_swab i : (i < 10)%nat → swab (rco !!! i) = rcon !!! i ∧ is_word 32 (rco !!! i).
Proof. intros Hi. do 10 (destruct i as [|i]; [by vm_compute|]). lia. Qed.

Section schedule.
Context (nk : nat) (k : list Z).
Context (HNk : nk = 4%nat ∨ nk = 6%nat ∨ nk = 8%nat) (Hk : length k = (4 * nk)%nat) (Hb : is_bytes k).

(** The array holds the first [n] words of the schedule, bytes the other way round. *)
Definition mfilled (n : nat) (fk : list Z) : Prop := is_words fk ∧ filled nk k n (swab <$> fk).

Lemma mfilled_length n fk : mfilled n fk → length fk = 60%nat.
Proof. intros [_ [Hl _]]. by rewrite length_fmap in Hl. Qed.

Lemma mfilled_word n fk i : mfilled n fk → is_word 32 (fk !!! i).
Proof. intros [Hw _]. by apply Forall_lookup_total_default. Qed.

Lemma mfilled_insert n fk v : mfilled n fk → is_word 32 v → filled nk k (S n) (<[n := swab v]> (swab <$> fk)) →
  mfilled (S n) (<[n := v]> fk).
Proof. intros [Hw _] Hv Hf. split; [by apply Forall_insert|]. by rewrite list_fmap_insert. Qed.

Lemma load_mfilled fk : is_words fk → length fk = 60%nat →
  mfilled nk (for_loop 0 nk (λ i fk, <[i := pack k (4 * i)]> fk) fk).
Proof.
  intros Hw Hl. pose proof (load_key_filled nk k HNk Hk Hb (swab <$> fk)) as Hload. rewrite length_fmap in Hload.
  specialize (Hload Hl). unfold load_key in Hload.
  assert (H : (nk ≤ nk)%nat → is_words (for_loop 0 nk (λ i fk, <[i := pack k (4 * i)]> fk) fk) ∧
    swab <$> for_loop 0 nk (λ i fk, <[i := pack k (4 * i)]> fk) fk =
    for_loop 0 nk (λ j rk, <[j := GETU32 k (4 * j)]> rk) (swab <$> fk)).
  { apply (for_loop_ind (λ i t, (i ≤ nk)%nat → is_words t ∧
      swab <$> t = for_loop 0 i (λ j rk, <[j := GETU32 k (4 * j)]> rk) (swab <$> fk))); [lia|done|].
    intros i t Hi IH Hle. destruct IH as [IH1 IH2]; [lia|]. split; [by apply Forall_insert, pack_word|].
    rewrite list_fmap_insert, IH2, swab_pack, for_loop_last by (done || lia). done. }
  destruct H as [H1 H2]; [done|]. split; [done|]. by rewrite H2.
Qed.

Lemma xor_mfilled n q j fk : (nk ≤ n < 60)%nat → n = (nk * q + j)%nat → (0 < j < nk)%nat → ¬ (6 < nk ∧ j = 4)%nat →
  mfilled n fk → mfilled (S n) (<[n := Z.lxor (fk !!! (n - nk)%nat) (fk !!! (n - 1)%nat)]> fk).
Proof.
  intros Hn Hq Hj Hj4 Hf. pose proof (mfilled_length _ _ Hf) as Hl.
  apply mfilled_insert; [done|apply is_word_lxor; by eauto using mfilled_word|].
  rewrite swab_lxor, <- !lookup_swab by lia.
  apply (rk_xor_filled nk k HNk Hk Hb n q j (swab <$> fk)); [done|apply Hf|done|lia|done..|lia|done].
Qed.

Lemma head_mfilled n q i fk : (nk ≤ n < 60)%nat → n = (nk * q)%nat → q = S i → (i < 10)%nat →
  mfilled n fk →
  mfilled (S n) (<[n := Z.lxor (Z.lxor (fk !!! (n - nk)%nat) (SubByte (ROTL24 (fk !!! (n - 1)%nat)))) (rco !!! i)]> fk).
Proof.
  intros Hn Hq Hqi Hi Hf. pose proof (mfilled_length _ _ Hf) as Hl.
  destruct (SubByte_ROTL24_swab (fk !!! (n - 1)%nat)) as [E1 W1]; [by eapply mfilled_word|].
  destruct (rco_swab i Hi) as [E2 W2].
  apply mfilled_insert; [done| |].
  { apply is_word_lxor; [done| |done]. apply is_word_lxor; [done|by eapply mfilled_word|done]. }
  rewrite !swab_lxor, E1, E2, <- !lookup_swab by lia.
  apply (rk_head_filled nk k HNk Hk Hb n q 0 (swab <$> fk)); [done|apply Hf|lia|lia|done..].
Qed.

Lemma mid_mfilled n q fk : (nk ≤ n < 60)%nat → n = (nk * q + 4)%nat → nk = 8%nat → mfilled n fk →
  mfilled (S n) (<[n := Z.lxor (fk !!! (n - nk)%nat) (SubByte (fk !!! (n - 1)%nat))]> fk).
Proof.
  intros Hn Hq H8 Hf. pose proof (mfilled_length _ _ Hf) as Hl.
  destruct (SubByte_swab (fk !!! (n - 1)%nat)) as [E1 W1]; [by eapply mfilled_word|].
  apply mfilled_insert; [done|apply is_word_lxor; [done|by eapply mfilled_word|done]|].
  rewrite swab_lxor, E1, <- !lookup_swab by lia.
  apply (rk_mid_filled nk k HNk Hk Hb n q 4 (swab <$> fk)); [done|apply Hf|done|lia|done..].
Qed.

Lemma xor_words_mfilled N q j lo hi fk :
  j = (nk * q)%nat → (nk ≤ j)%nat → (N ≤ 60)%nat → (0 < lo)%nat → (hi ≤ nk)%nat → ¬ (6 < nk ∧ lo ≤ 4 < hi)%nat →
  (lo ≤ hi `min` (N - j))%nat → mfilled (j + lo) fk →
  mfilled (j + hi `min` (N - j)) (xor_words nk N j lo hi fk).
Proof.
  intros Hj Hnj HN Hlo Hhi H4 Hle Hf. unfold xor_words.
  assert (H : (hi `min` (N - j) ≤ hi `min` (N - j))%nat → mfilled (j + hi `min` (N - j))
    (for_loop lo (hi `min` (N - j)) (λ i fk, <[(i + j)%nat := Z.lxor (fk !!! (i + j - nk)%nat) (fk !!! (i + j - 1)%nat)]> fk) fk)); [|by apply H].
  apply (for_loop_ind (λ i fk, (i ≤ hi `min` (N - j))%nat → mfilled (j + i) fk)); [done|done|].
  intros i t Hi IH Hi'. rewrite (Nat.add_comm i j), Nat.add_succ_r. apply (xor_mfilled _ q i); (lia || apply IH; lia).
Qed.

Lemma xor_words_none N j lo hi fk : (hi `min` (N - j) ≤ lo)%nat → xor_words nk N j lo hi fk = fk.
Proof. intros Hle. unfold xor_words, for_loop. by replace (hi `min` (N - j) - lo)%nat with 0%nat by lia. Qed.

Lemma expand_group_mfilled N i fk :
  let j := (nk * S i)%nat in
  N = (4 * (nk + 7))%nat → (j < N)%nat → mfilled j fk → mfilled ((j + nk) `min` N) (expand_group nk N j i fk).
Proof.
  intros j HN Hj Hf. unfold expand_group.
  assert (mfilled (j + 1) (<[j := Z.lxor (Z.lxor (fk !!! (j - nk)%nat) (SubByte (ROTL24 (fk !!! (j - 1)%nat)))) (rco !!! i)]> fk)) as H1.
  { rewrite Nat.add_1_r. apply (head_mfilled j (S i) i); (lia || done). }
  revert H1. generalize (<[j := Z.lxor (Z.lxor (fk !!! (j - nk)%nat) (SubByte (ROTL24 (fk !!! (j - 1)%nat)))) (rco !!! i)]> fk).
  clear Hf fk. intros fk H1. case_decide as H6.
  - replace ((j + nk) `min` N)%nat with (j + nk `min` (N - j))%nat by lia.
    apply (xor_words_mfilled N (S i)); (lia || done).
  - pose proof (xor_words_mfilled N (S i) j 1 4 fk ltac:(lia) ltac:(lia) ltac:(lia) ltac:(lia) ltac:(lia) ltac:(lia) ltac:(lia) H1) as H2.
    replace (4 `min` (N - j))%nat with 4%nat in H2 by lia. cbv zeta. case_decide as H4.
    + replace ((j + nk) `min` N)%nat with (j + nk `min` (N - j))%nat by lia.
      apply (xor_words_mfilled N (S i)); [lia..|]. replace (j + 5)%nat with (S (j + 4)) by lia.
      replace (j + 3)%nat with (j + 4 - 1)%nat by lia. apply (mid_mfilled (j + 4) (S i)); (lia || done).
    + rewrite xor_words_none by lia. by replace ((j + nk) `min` N)%nat with (j + 4)%nat by lia.
Qed.

Lemma expand_loop_mfilled N : N = (4 * (nk + 7))%nat → ∀ fuel i fk,
  (N ≤ nk * S i + fuel)%nat → mfilled ((nk * S i) `min` N) fk → mfilled N (expand_loop fuel nk N (nk * S i) i fk).
Proof.
  intros HN. induction fuel as [|fuel IH]; intros i fk Hle Hf.
  - by replace N with ((nk * S i) `min` N)%nat by lia.
  - cbn [expand_loop]. case_decide as Hj; [|by replace N with ((nk * S i) `min` N)%nat at 1 by lia].
    replace ((nk * S i) `min` N)%nat with (nk * S i)%nat in Hf by lia.
    replace (nk * S i + nk)%nat with (nk * S (S i))%nat by lia. apply IH; [lia|].
    replace (nk * S (S i))%nat with (nk * S i + nk)%nat by lia. by apply expand_group_mfilled.
Qed.
End schedule.

Section reversed.
(** [g] stands for [InvMixCol], which these lemmas need not evaluate. *)
Context (g : Z → Z).

Definition reverse_with (nr N : nat) (fk rk : list Z) : list Z :=
  let rk := for_loop 0 NB (λ j rk, <[(j + N - NB)%nat := fk !!! j]> rk) rk in
  let rk := for_loop 1 nr (λ r rk,
    let i := (NB * r)%nat in let k := (N - NB - i)%nat in
    for_loop 0 NB (λ j rk, <[(k + j)%nat := g (fk !!! (i + j)%nat)]> rk) rk) rk in
  for_loop (N - NB) N (λ j rk, <[(j + NB - N)%nat := fk !!! j]> rk) rk.

Lemma reversed_lookup (nr : nat) (fk rk : list Z) :
  nr = 10%nat ∨ nr = 12%nat ∨ nr = 14%nat → length rk = 60%nat →
  ∀ r c, (r ≤ nr)%nat → (c < 4)%nat →
  reverse_with nr (NB * (nr + 1)) fk rk !!! (4 * r + c)%nat =
  (if decide (r = 0 ∨ r = nr)%nat then id else g) (fk !!! (4 * (nr - r) + c)%nat).
Proof.
  intros Hnr Hl r c Hr Hc. explode rk 60%nat.
  destruct Hnr as [-> | [-> | ->]];
    do 15 (destruct r as [|r]; [first [exfalso; lia|do 4 (destruct c as [|c]; [vm_compute; reflexivity|]); lia]|]); lia.
Qed.

Lemma reverse_with_words nr N fk rk : is_words fk → is_words rk → (∀ i, is_word 32 (g (fk !!! i))) →
  is_words (reverse_with nr N fk rk) ∧ length (reverse_with nr N fk rk) = length rk.
Proof.
  intros Hf Hr Hg. assert (∀ i, is_word 32 (fk !!! i)) as Hf' by (intros; by apply Forall_lookup_total_default).
  assert (∀ lo hi (ix : nat → nat) (h : nat → Z) l, (∀ i, is_word 32 (h i)) → is_words l →
    is_words (for_loop lo hi (λ j rk, <[ix j := h j]> rk) l) ∧ length (for_loop lo hi (λ j rk, <[ix j := h j]> rk) l) = length l) as E.
  { intros lo hi ix h l Hh Hw. destruct (decide (lo ≤ hi)%nat); [|by rewrite for_loop_nil by lia].
    apply (for_loop_ind (λ _ t, is_words t ∧ length t = length l)); [done|done|].
    intros i t _ [Ht <-]. split; [by apply Forall_insert|apply length_insert]. }
  unfold reverse_with. destruct (E 0%nat NB (λ j, (j + N - NB)%nat) (λ j, fk !!! j) rk Hf' Hr) as [W1 L1].
  set (r1 := for_loop 0 NB _ rk) in *. rewrite <- L1.
  set (r2 := for_loop 1 nr _ r1). assert (is_words r2 ∧ length r2 = length r1) as [W2 L2].
  { unfold r2. destruct (decide (1 ≤ nr)%nat); [|by rewrite for_loop_nil by lia].
    apply (for_loop_ind (λ _ t, is_words t ∧ length t = length r1)); [done|done|].
    intros i t _ [Ht <-]. by apply (E 0%nat NB (λ j, (N - NB - NB * i + j)%nat) (λ j, g (fk !!! (NB * i + j)%nat))). }
  rewrite <- L2. by apply (E (N - NB)%nat N (λ j, (j + NB - N)%nat) (λ j, fk !!! j)).
Qed.
End reversed.

Lemma reverse_key_with nr N fk rk : reverse_key nr N fk rk = reverse_with InvMixCol nr N fk rk.
Proof. done. Qed.

Lemma bmul_gmul x : is_byte x →
  bmul 11 x = AesSpec.gmul 11 x ∧ bmul 13 x = AesSpec.gmul 13 x ∧ bmul 9 x = AesSpec.gmul 9 x ∧ bmul 14 x = AesSpec.gmul 14 x.
Proof. revert x. apply byte_forall. decide_by_compute. Qed.

Lemma product_be_word x0 x1 x2 x3 a b c d :
  is_byte x0 → is_byte x1 → is_byte x2 → is_byte x3 → is_byte a → is_byte b → is_byte c → is_byte d →
  product (be_word x3 x2 x1 x0) (be_word d c b a) =
  Z.lxor (Z.lxor (Z.lxor (bmul x0 a) (bmul x1 b)) (bmul x2 c)) (bmul x3 d).
Proof. intros. unfold product. by rewrite !unpack_be_word. Qed.

(** The product by logarithms is that of the field. *)
Lemma InvMixCol_swab w : is_word 32 w → swab (InvMixCol w) = inv_mix_word (swab w) ∧ is_word 32 (InvMixCol w).
Proof.
  intros (d & c & b & a & -> & Hd & Hc & Hb & Ha)%word_cases.
  destruct (bmul_gmul a Ha) as (A0 & A1 & A2 & A3), (bmul_gmul b Hb) as (B0 & B1 & B2 & B3),
    (bmul_gmul c Hc) as (C0 & C1 & C2 & C3), (bmul_gmul d Hd) as (D0 & D1 & D2 & D3).
  assert (pack InCo 0 = be_word 14 9 13 11) as E0 by done.
  unfold InvMixCol. rewrite E0. cbv zeta. rewrite !ROTL24_be_word by done. rewrite !product_be_word by done.
  rewrite A0, A1, A2, A3, B0, B1, B2, B3, C0, C1, C2, C3, D0, D1, D2, D3, pack_be.
  cbn [lookup_total list_lookup_total Nat.add].
  rewrite (swab_be_word d c b a), swab_be_word, inv_mix_word_spec, mix_column_4 by (done || bytes).
  split; [|apply be_word_is_word; bytes].
  cbv zeta. unfold word_of. cbn [lookup_total list_lookup_total]. f_equal; xor_ac.
Qed.

(** What [aes_init] makes of a key: the arrays the two block functions of [Aes] need. *)
Lemma aes_init_spec nk k a md iv :
  is_key nk k → is_words (fkey a) → length (fkey a) = 60%nat → is_words (rkey a) → length (rkey a) = 60%nat →
  let nr := Nr_of nk in
  ∃ a', aes_init a md (4 * Z.of_nat nk) k iv = (true, a') ∧ Nr a' = Z.of_nat nr ∧ mode a' = md ∧
    f a' = f (aes_reset a md iv) ∧
    is_words (fkey a') ∧ length (fkey a') = 60%nat ∧ is_words (rkey a') ∧ length (rkey a') = 60%nat ∧
    (∀ j, (j < 4 * (nr + 1))%nat → (swab <$> fkey a') !!! j = schedule nk k !!! j) ∧
    (∀ r, (r ≤ nr)%nat → round_words (swab <$> rkey a') (4 * r) (dec_key nr (schedule nk k) r)).
Proof.
  intros Hkey Hw Hl Hw' Hl' nr. assert (HNr := Nr_of_cases nk k Hkey). destruct (schedule_spec nk k Hkey) as [Hsw Hsl].
  destruct Hkey as (Hnk & Hk & Hb). unfold aes_init. replace (Z.quot (4 * Z.of_nat nk) 4) with (Z.of_nat nk)
    by (rewrite Z.mul_comm; symmetry; apply Z.quot_mul; lia).
  rewrite decide_False by lia. cbn [aes_reset fkey rkey f mode].
  replace (Z.to_nat (6 + Z.of_nat nk)) with nr by (unfold nr, Nr_of; lia). rewrite Nat2Z.id. set (N := (NB * (nr + 1))%nat).
  set (fk := expand_loop N nk N nk 0 (for_loop 0 nk (λ i fk, <[i := pack k (4 * i)]> fk) (fkey a))).
  assert (mfilled nk k N fk) as Hf.
  { unfold fk. pose proof (expand_loop_mfilled nk k Hnk Hk Hb N ltac:(unfold N, nr, NB, Nr_of; lia) N 0) as HE.
    rewrite Nat.mul_1_r in HE. apply HE; [lia|].
    replace (nk `min` N)%nat with nk by (unfold N, nr, NB, Nr_of; lia). by apply load_mfilled. }
  pose proof (mfilled_length _ _ _ _ Hf) as Hfl. pose proof Hf as [Hfw [_ Hfs]].
  eexists. split; [done|]. cbn [Nr mode f fkey rkey].
  assert (∀ i, is_word 32 (InvMixCol (fk !!! i))) as HI by (intros i; apply InvMixCol_swab; by eapply mfilled_word).
  destruct (reverse_with_words InvMixCol nr N fk (rkey a) Hfw Hw' HI) as [Hrw Hrl].
  split; [unfold nr, Nr_of; lia|]. split; [done|]. split; [done|]. split; [done|]. split; [done|].
  split; [done|]. split; [by rewrite reverse_key_with, Hrl|]. split; [exact Hfs|].
  intros r Hr. rewrite reverse_key_with. pose proof (reversed_lookup InvMixCol nr fk (rkey a) HNr Hl' r) as HL. fold N in HL.
  assert (Hlt : ∀ c, (c < 4)%nat → (4 * r + c < 60)%nat) by (intros; lia).
  assert (HS : ∀ c, (c < 4)%nat → (swab <$> reverse_with InvMixCol nr N fk (rkey a)) !!! (4 * r + c)%nat =
    (if decide (r = 0 ∨ r = nr)%nat then id else inv_mix_word) (schedule nk k !!! (4 * (nr - r) + c)%nat)).
  { intros c Hc. rewrite lookup_swab, HL by (rewrite ?Hrl, ?Hl'; auto). change (schedule nk k) with (AesSpec.expand_to nk k N).
    rewrite <- (Hfs (4 * (nr - r) + c)%nat) by (unfold N, NB; lia). rewrite lookup_swab by lia.
    case_decide; [done|]. apply InvMixCol_swab. by eapply mfilled_word. }
  destruct (round_key_spec (schedule nk k) (nr - r)) as (K1 & K2 & K3 & K4 & K5 & K6); [done|unfold nr; lia|].
  pose proof (HS 0%nat ltac:(lia)) as K3'. rewrite !Nat.add_0_r in K3'. unfold round_words.
  rewrite K3', !HS by lia. rewrite K3, K4, K5, K6. unfold dec_key.
  destruct (decide (r = 0 ∨ r = nr)%nat); [done|]. by apply inv_mix_words.
Qed.

(** *** Modes *)

Lemma xor_bytes_lookup n s b : length (xor_bytes n s b) = length b ∧
  ∀ j, (j < length b)%nat → xor_bytes n s b !!! j = if decide (j < n)%nat then Z.lxor (b !!! j) (s !!! j) else b !!! j.
Proof.
  unfold xor_bytes. apply (for_loop_ind (λ n t, length t = length b ∧ ∀ j, (j < length b)%nat →
    t !!! j = if decide (j < n)%nat then Z.lxor (b !!! j) (s !!! j) else b !!! j) 0 n); [lia|by split|].
  intros i t _ [Hl Ht]. split; [by rewrite length_insert|]. intros j Hj. destruct (decide (j = i)) as [->|Hne].
  - rewrite list_lookup_total_insert_eq by lia. rewrite Ht by done. rewrite decide_False by lia. by rewrite decide_True by lia.
  - rewrite list_lookup_total_insert_ne, Ht by done. repeat case_decide; (done || lia).
Qed.

Lemma xor_bytes_involutive n s b : xor_bytes n s (xor_bytes n s b) = b.
Proof.
  destruct (xor_bytes_lookup n s b) as [L1 H1]. destruct (xor_bytes_lookup n s (xor_bytes n s b)) as [L2 H2].
  apply list_eq_total; [congruence|]. intros j Hj. rewrite H2, H1 by lia. case_decide; [|done].
  rewrite Z.lxor_assoc, Z.lxor_nilpotent. apply Z.lxor_0_r.
Qed.

Lemma xor_bytes_bytes n s b : is_bytes s → is_bytes b → is_bytes (xor_bytes n s b).
Proof.
  intros Hs Hb. unfold xor_bytes. apply (for_loop_ind (λ _ t, is_bytes t)); [lia|done|]. intros i t _ Ht.
  apply Forall_insert; [done|]. apply is_word_lxor; [done|by apply bytes_lookup_total..].
Qed.

Lemma copy_bytes_ok n o s d : is_bytes s → is_bytes d →
  is_bytes (copy_bytes n o s d) ∧ length (copy_bytes n o s d) = length d.
Proof.
  intros Hs Hd. unfold copy_bytes. apply (for_loop_ind (λ _ t, is_bytes t ∧ length t = length d)); [lia|done|].
  intros i t _ [Ht <-]. split; [|apply length_insert]. apply Forall_insert; [done|by apply bytes_lookup_total].
Qed.

Lemma shift_bytes_ok n b : (n ≤ 16)%nat → is_bytes b → is_bytes (shift_bytes n b) ∧ length (shift_bytes n b) = length b.
Proof.
  intros Hn Hb. unfold shift_bytes. apply (for_loop_ind (λ _ t, is_bytes t ∧ length t = length b)); [lia|done|].
  intros i t _ [Ht <-]. split; [|apply length_insert]. apply Forall_insert; [done|by apply bytes_lookup_total].
Qed.

Lemma in_place_inverse E D b : BlockCipher E D → is_bytes b → (16 ≤ length b)%nat →
  in_place D (in_place E b) = b ∧ is_bytes (in_place E b) ∧ length (in_place E b) = length b.
Proof.
  intros HC Hb Hl. unfold in_place. pose proof (block_length (E := E) (take 16 b)) as HL.
  rewrite take_app_le, take_ge, drop_app_ge, HL, drop_drop, Nat.add_0_r by lia.
  rewrite (block_inverse (E := E)) by (rewrite ?length_take by lia; (lia || by apply Forall_take)).
  rewrite take_drop. split; [done|]. split; [apply List.Forall_app; split; [apply (block_bytes (E := E))|by apply Forall_drop]|].
  rewrite length_app, HL, length_drop. lia.
Qed.

Lemma crypt_block_shape words word last nr key b :
  length (crypt_block words word last nr key b) = 16%nat ∧ is_bytes (crypt_block words word last nr key b).
Proof.
  assert (∀ w, is_bytes (unpack w)) as Hu by (intros w; unfold unpack; repeat (apply List.Forall_cons; [by apply wrap_is_word|]); apply List.Forall_nil).
  unfold crypt_block. cbv zeta. split; [done|]. rewrite !List.Forall_app. split_and!; apply Hu.
Qed.

Section steps.
Context {tgt : Target} (a : aes) {HC : BlockCipher (aes_ecb_encrypt a) (aes_ecb_decrypt a)}.

(** One call each way, from the same register. *)
Lemma aes_mode_step reg buff : sized reg → is_bytes buff → (16 ≤ length buff)%nat →
  ∃ w reg' c, aes_encrypt (set_f a reg) buff = (w, set_f a reg', c) ∧ aes_decrypt (set_f a reg) c = (w, set_f a reg', buff) ∧
    sized reg' ∧ is_bytes c ∧ length c = length buff.
Proof.
  intros [Hr Hrb] Hb Hl.
  assert (∀ reg b, aes_ecb_encrypt (set_f a reg) b = aes_ecb_encrypt a b) as EE by done.
  assert (∀ reg b, aes_ecb_decrypt (set_f a reg) b = aes_ecb_decrypt a b) as DD by done.
  assert (∀ n b, length (xor_bytes n b buff) = length buff) as LX by (intros; apply xor_bytes_lookup).
  set (st := aes_ecb_encrypt a reg). pose proof (block_length (E := aes_ecb_encrypt a) reg) as Hst.
  pose proof (block_bytes (E := aes_ecb_encrypt a) reg) as Hstb. fold st in Hst, Hstb.
  (* a register moved by [n] and filled with the bytes [s] *)
  assert (∀ n s, (n ≤ 16)%nat → is_bytes s → sized (copy_bytes n (16 - n) s (shift_bytes n reg))) as HF.
  { intros n s Hn Hs. destruct (shift_bytes_ok n reg Hn Hrb) as [B1 L1].
    destruct (copy_bytes_ok n (16 - n) s (shift_bytes n reg) Hs B1) as [B2 L2]. split; [congruence|done]. }
  unfold aes_encrypt, aes_decrypt. cbn [mode set_f]. destruct (decide (mode a = MR_ECB)) as [|_].
  { destruct (in_place_inverse _ _ buff HC Hb Hl) as (E1 & E2 & E3).
    exists 0, reg, (in_place (aes_ecb_encrypt a) buff). split; [done|]. split; [|done]. by rewrite E1 at 1. }
  destruct (decide (mode a = MR_CBC)) as [|_].
  { destruct (in_place_inverse _ _ (xor_bytes 16 reg buff) HC) as (E1 & E2 & E3); [by apply xor_bytes_bytes|by rewrite LX|].
    set (c := in_place (aes_ecb_encrypt a) (xor_bytes 16 reg buff)) in *.
    exists 0, (copy_bytes 16 0 c reg), c. split; [done|]. split; [|split; [|split; [done|congruence]]].
    - cbn [f set_f]. f_equal. rewrite <- (xor_bytes_involutive 16 reg buff). by rewrite <- E1.
    - destruct (copy_bytes_ok 16 0 c reg E2 Hrb) as [B2 L2]. split; [congruence|done]. }
  destruct (is_cfb (mode a)) eqn:Hcfb.
  { set (n := Z.to_nat (mode a - MR_CFB1 + 1)). assert (n ≤ 16)%nat as Hn.
    { apply bool_decide_eq_true in Hcfb. unfold n, MR_CFB1, MR_CFB2, MR_CFB4 in *. lia. }
    exists (fall_off n reg), (copy_bytes n (16 - n) (xor_bytes n st buff) (shift_bytes n reg)), (xor_bytes n st buff).
    split; [done|]. split; [|split; [apply HF; [done|by apply xor_bytes_bytes]|split; [by apply xor_bytes_bytes|apply LX]]].
    cbn [feed f set_f]. by rewrite EE, xor_bytes_involutive. }
  destruct (is_ofb (mode a)).
  { exists 0, st, (xor_bytes (Z.to_nat (mode a - MR_OFB1 + 1)) st buff). split; [done|].
    split; [|split; [done|split; [by apply xor_bytes_bytes|apply LX]]].
    cbn [f set_f]. by rewrite EE, xor_bytes_involutive. }
  destruct (is_pcfb (mode a)) eqn:Hpcfb.
  { set (n := Z.to_nat (mode a - MR_PCFB1 + 1)). assert (n ≤ 16)%nat as Hn.
    { apply bool_decide_eq_true in Hpcfb. unfold n, MR_PCFB1, MR_PCFB2, MR_PCFB4 in *. lia. }
    exists (fall_off n reg), (copy_bytes n (16 - n) (xor_bytes n (drop (16 - n) st) (xor_bytes n st buff)) (shift_bytes n reg)), (xor_bytes n st buff).
    split; [done|]. split; [|split; [|split; [by apply xor_bytes_bytes|apply LX]]].
    - cbn [feed f set_f]. by rewrite EE, xor_bytes_involutive.
    - apply HF; [done|]. apply xor_bytes_bytes; [by apply Forall_drop|by apply xor_bytes_bytes]. }
  by exists 0, reg, buff.
Qed.
End steps.

(** What a mode does with a sequence of buffers: the values returned, the structure at the
    end and the buffers. *)
Fixpoint through {tgt : Target} (step : aes → list Z → Z * aes * list Z) (a : aes) (bl : list (list Z)) : list Z * aes * list (list Z) :=
  match bl with
  | [] => ([], a, [])
  | b :: bl => let '(fell_off, a, c) := step a b in let '(fl, a, cl) := through step a bl in (fell_off :: fl, a, c :: cl)
  end.

(** An initialisation vector that can be read: null, or 16 bytes. *)
Definition iv_ok (iv : option (list Z)) : Prop := match iv with Some v => (16 ≤ length v)%nat ∧ is_bytes v | None => True end.
#[global] Instance iv_ok_dec iv : Decision (iv_ok iv).
Proof. destruct iv; cbn; apply _. Defined.

Lemma aes_reset_sized a md iv : iv_ok iv → sized (f (aes_reset a md iv)).
Proof.
  intros Hiv. assert (sized (replicate (4 * NB) 0)) as H0 by (by split; [|decide_by_compute]).
  unfold aes_reset. destruct iv as [v|]; cbn [f]; [|exact H0]. case_decide; [|exact H0]. destruct Hiv as [Hl Hb].
  split; [rewrite length_take; unfold NB; lia|by apply Forall_take].
Qed.

(** The arrays of an [aes], of 60 words each. *)
Definition aes_arrays (a : aes) : Prop :=
  is_words (fkey a) ∧ length (fkey a) = 60%nat ∧ is_words (rkey a) ∧ length (rkey a) = 60%nat.
#[global] Instance aes_arrays_dec a : Decision (aes_arrays a).
Proof. unfold aes_arrays. apply _. Defined.

Lemma aes_init_crypt nk k a md iv : is_key nk k → aes_arrays a →
  ∃ a', aes_init a md (4 * Z.of_nat nk) k iv = (true, a') ∧ mode a' = md ∧ f a' = f (aes_reset a md iv) ∧
    ∀ b, sized b → aes_ecb_encrypt a' b = AesSpec.Cipher (Nr_of nk) (schedule nk k) b ∧
                   aes_ecb_decrypt a' b = AesSpec.InvCipher (Nr_of nk) (schedule nk k) b.
Proof.
  intros Hkey (Hw & Hl & Hw' & Hl'). assert (HNr := Nr_of_cases nk k Hkey). destruct (schedule_spec nk k Hkey) as [Hsw Hsl].
  destruct (aes_init_spec nk k a md iv Hkey Hw Hl Hw' Hl') as (a' & E & Hnr & Hmd & Hf & W1 & L1 & W2 & L2 & He & Hd).
  exists a'. split; [done|]. split; [done|]. split; [done|]. intros b [Hb Hbb].
  unfold aes_ecb_encrypt, aes_ecb_decrypt. rewrite Hnr.
  split; apply (inj Some).
  - rewrite <- (crypt_block_swab (fkey a') W1 L1 enc_words enc_word (last_word fbsub) enc_round enc_last);
      [|done|done|done|intros; by apply enc_round_swab|intros; by apply enc_last_swab].
    apply (aes_encrypt_bytes_spec (Nr_of nk) (schedule nk k)); [done..| |done]. intros j Hj. apply He. lia.
  - rewrite <- (crypt_block_swab (rkey a') W2 L2 dec_words dec_word (last_word rbsub) dec_round dec_last);
      [|done|done|done|intros; by apply dec_round_swab|intros; by apply dec_last_swab].
    by apply (aes_decrypt_bytes_spec (Nr_of nk) (schedule nk k)).
Qed.

Lemma aes_init_cipher nk k a md iv a' : is_key nk k → aes_arrays a → aes_init a md (4 * Z.of_nat nk) k iv = (true, a') →
  BlockCipher (aes_ecb_encrypt a') (aes_ecb_decrypt a').
Proof.
  intros Hkey Ha E. destruct (aes_init_crypt nk k a md iv Hkey Ha) as (a1 & E1 & _ & _ & Hc). rewrite E1 in E. injection E as ->.
  assert (HNr := Nr_of_cases nk k Hkey). destruct (schedule_spec nk k Hkey) as [Hsw Hsl].
  split; [intros; apply crypt_block_shape..|]. intros b Hl Hb. assert (sized b) as Hs by done.
  rewrite (proj1 (Hc b Hs)), (proj2 (Hc _ (Cipher_sized (Nr_of nk) _ HNr Hsw Hsl b Hs))). by apply InvCipher_Cipher.
Qed.

(** ** Properties *)

(** C6: after [aes_init] with a key of 16, 24 or 32 bytes, in any mode, [aes_ecb_encrypt] and
    [aes_ecb_decrypt] of [mraes.c] are Cipher and InvCipher of FIPS-197, and so the same functions
    as [AES_encrypt] and [AES_decrypt] of [aes_core.c] with the keys made there. A key length that
    does not have 4, 6 or 8 whole words is refused and the structure left as it was. *)
Theorem mir_aes_standard nk k a md iv ek dk :
  is_key nk k → aes_arrays a → key_pair nk k ek dk →
  ∃ a', aes_init a md (4 * Z.of_nat nk) k iv = (true, a') ∧
    (∀ b, sized b →
      aes_ecb_encrypt a' b = AesSpec.Cipher (Nr_of nk) (AesSpec.KeyExpansion nk (Nr_of nk) k) b ∧
      aes_ecb_decrypt a' b = AesSpec.InvCipher (Nr_of nk) (AesSpec.KeyExpansion nk (Nr_of nk) k) b ∧
      aes_encrypt_bytes ek b = Some (aes_ecb_encrypt a' b) ∧ aes_decrypt_bytes dk b = Some (aes_ecb_decrypt a' b)) ∧
    (∀ size, Z.quot size 4 ∉ [4; 6; 8] → aes_init a md size k iv = (false, a)).
Proof.
  intros Hkey Ha Hp. destruct (aes_init_crypt nk k a md iv Hkey Ha) as (a' & E & _ & _ & Hc). exists a'. split; [done|]. split.
  - intros b Hb. destruct (Hc b Hb) as [E1 E2], (key_pair_spec nk k ek dk Hkey Hp) as (_ & _ & Hs).
    destruct (Hs b Hb) as [E3 E4]. by rewrite E1, E2, E3, E4.
  - intros size Hs. unfold aes_init. rewrite decide_True; [done|]. set_solver.
Qed.

(** C29: whatever the mode [aes_init] is given, ECB, CBC, CFB, OFB or PCFB of any width, a key of
    16, 24 or 32 bytes and an initialisation vector or none, [aes_decrypt] undoes
    [aes_encrypt] over every sequence of buffers of at least 16 bytes: it gives the plain
    buffers back, returns at each step the bytes that [aes_encrypt] returned there (those that
    fall off the register), and leaves the structure as the encryption left it. *)
Theorem mir_aes_modes_roundtrip {tgt : Target} nk k a md iv a' bl :
  is_key nk k → aes_arrays a → iv_ok iv → aes_init a md (4 * Z.of_nat nk) k iv = (true, a') →
  Forall (λ b, is_bytes b ∧ 16 ≤ length b)%nat bl →
  let '(fell_off, a2, cl) := through aes_encrypt a' bl in through aes_decrypt a' cl = (fell_off, a2, bl).
Proof.
  intros Hkey Ha Hiv E Hbl. assert (HC := aes_init_cipher nk k a md iv a' Hkey Ha E).
  assert (sized (f a')) as Hf.
  { destruct (aes_init_crypt nk k a md iv Hkey Ha) as (a1 & E1 & _ & Hf & _). rewrite E1 in E. injection E as <-.
    rewrite Hf. by apply aes_reset_sized. }
  assert (∀ reg, sized reg → let '(fell_off, a2, cl) := through aes_encrypt (set_f a' reg) bl in
    through aes_decrypt (set_f a' reg) cl = (fell_off, a2, bl)) as H.
  { induction Hbl as [|b bl [Hb Hl] _ IH]; intros reg Hreg; [done|].
    destruct (aes_mode_step a' reg b Hreg Hb Hl) as (w & reg' & c & Ee & Ed & Hreg' & _). cbn [through]. rewrite Ee.
    specialize (IH reg' Hreg'). destruct (through aes_encrypt (set_f a' reg') bl) as [[fl a2] cl].
    cbn [through]. rewrite Ed. by rewrite IH. }
  specialize (H (f a') Hf). by destruct a'.
Qed.

(** ** Concrete instances *)

Definition fresh_aes : aes := {| Nk := 0; Nr := 0; mode := 0; fkey := replicate 60 0; rkey := replicate 60 0; f := [] |}.

Example mir_aes_vectors :
  map (λ n, aes_ecb_encrypt (aes_init fresh_aes MR_ECB (Z.of_nat n) (fips_key n) None).2 fips_block) [16; 24; 32]%nat =
  [[0x69; 0xc4; 0xe0; 0xd8; 0x6a; 0x7b; 0x04; 0x30; 0xd8; 0xcd; 0xb7; 0x80; 0x70; 0xb4; 0xc5; 0x5a];
   [0xdd; 0xa9; 0x7c; 0xa4; 0x86; 0x4c; 0xdf; 0xe0; 0x6e; 0xaf; 0x70; 0xa0; 0xec; 0x0d; 0x71; 0x91];
   [0x8e; 0xa2; 0xb7; 0xca; 0x51; 0x67; 0x45; 0xbf; 0xea; 0xfc; 0x49; 0x90; 0x4b; 0x49; 0x60; 0x89]].
Proof. vm_compute. reflexivity. Qed.

Lemma mir_aes_standard_witness :
  ∃ ek dk a', aes_init fresh_aes MR_ECB 16 (fips_key 16) None = (true, a') ∧
    aes_encrypt_bytes ek fips_block = Some (aes_ecb_encrypt a' fips_block) ∧
    aes_decrypt_bytes dk fips_block = Some (aes_ecb_decrypt a' fips_block) ∧
    aes_init fresh_aes MR_ECB 17 (fips_key 16) None = (true, a') ∧
    aes_init fresh_aes MR_ECB 20 (fips_key 16) None = (false, fresh_aes).
Proof.
  assert (Hk : is_key 4 (fips_key 16)) by decide_by_compute.
  destruct (key_pair_exists 4 (fips_key 16) fresh_key fresh_key Hk eq_refl eq_refl) as (ek & dk & _ & _ & Hp).
  destruct (mir_aes_standard 4 (fips_key 16) fresh_aes MR_ECB None ek dk) as (a' & E & Hb & Hr); [decide_by_compute..|exact Hp|].
  destruct (Hb fips_block) as (_ & _ & E1 & E2); [split; [done|decide_by_compute]|].
  exists ek, dk, a'. split; [exact E|]. split; [exact E1|]. split; [exact E2|]. split; [exact E|].
  apply (Hr 20). decide_by_compute.
Defined.

(** CFB of two bytes: what falls off is the start of the register. *)
Lemma mir_aes_modes_roundtrip_witness :
  ∃ a' fl a2 cl, aes_init fresh_aes MR_CFB2 24 (fips_key 24) (Some fips_block) = (true, a') ∧ fl = [0x11; 0x2233; 0x4455] ∧
    @through LP64_x86 (@aes_encrypt LP64_x86) a' [fips_block; fips_block; fips_key 20] = (fl, a2, cl) ∧
    @through LP64_x86 (@aes_decrypt LP64_x86) a' cl = (fl, a2, [fips_block; fips_block; fips_key 20]).
Proof.
  set (a' := (aes_init fresh_aes MR_CFB2 24 (fips_key 24) (Some fips_block)).2).
  assert (aes_init fresh_aes MR_CFB2 24 (fips_key 24) (Some fips_block) = (true, a')) as E by (vm_compute; reflexivity).
  pose proof (@mir_aes_modes_roundtrip LP64_x86 6 (fips_key 24) fresh_aes MR_CFB2 (Some fips_block) a' [fips_block; fips_block; fips_key 20]
    ltac:(decide_by_compute) ltac:(decide_by_compute) ltac:(decide_by_compute) E ltac:(decide_by_compute)) as H.
  assert ((@through LP64_x86 (@aes_encrypt LP64_x86) a' [fips_block; fips_block; fips_key 20]).1.1 = [0x11; 0x2233; 0x4455]) as Hf by (vm_compute; reflexivity).
  exists a'. destruct (through aes_encrypt a' [fips_block; fips_block; fips_key 20]) as [[fl a2] cl]. exists fl, a2, cl.
  split; [exact E|]. split; [exact Hf|]. split; [reflexivity|exact H].
Defined.
