(* ===== verification/Wrapper.v ===== *)
(** * Wrapper: the interface of the library ([src/CryptoWrapper.c])

    Encryption of byte strings of any length with SM4 or AES: the blocks in ECB
    mode, a last padded block and four bytes of check data. Works on the memory of
    [Mem]; [*output_length] is an object there too. A parameter [stack] is what the
    stack holds where a function puts its context. *)

From S2P Require Import Prelude Mem Target ModeSpec Sm4 Aes.

(** ** What the interface promises *)
Module SealSpec.

(** Padding to whole blocks of 16: as many bytes as are missing, each the number
    of them, a whole block when none is missing. *)
Definition pad_length (n : nat) : nat := (16 - n mod 16)%nat.
Definition pad (bs : list Z) : list Z :=
  bs ++ replicate (pad_length (length bs)) (Z.of_nat (pad_length (length bs))).

(** The check data: a flag for the cipher and a fixed pattern. *)
Definition check_data (flag : Z) : list Z := [flag; 0xF0; 0xF0; 0xF0].

Definition seal (E : list Z → list Z) (flag : Z) (bs : list Z) : list Z :=
  blockwise E 16 (pad bs) ++ check_data flag.

(** What is recognised as sealed data. *)
Definition is_sealed (flag : Z) (cs : list Z) : Prop :=
  (4 < length cs)%nat ∧ ((length cs - 4) mod 16 = 0)%nat ∧ drop (length cs - 4) cs = check_data flag.

#[global] Instance is_sealed_dec flag cs : Decision (is_sealed flag cs).
Proof. unfold is_sealed. apply _. Defined.

(** Opening: only the value of the last byte is looked at, and only whether it is
    at most 16. *)
Definition decrypted (D : list Z → list Z) (cs : list Z) : list Z :=
  blockwise D 16 (take (length cs - 4) cs).

Definition unseal (D : list Z → list Z) (flag : Z) (cs : list Z) : option (list Z) :=
  if decide (is_sealed flag cs) then
    let p := decrypted D cs in
    let k := p !!! (length p - 1)%nat in
    if decide (k <= 16) then Some (take (length p - Z.to_nat k) p) else None
  else None.

(** What opening [cs] returns and leaves in memory, in its three cases. Data that is
    not sealed: -1, and the memory is as before. A last decrypted byte above 16: -1,
    with all decrypted bytes in the output and their number in [*output_length].
    Otherwise 0, with all decrypted bytes in the output, and in [*output_length]
    the length of the opened text, which is their beginning. *)
Definition opened `{Target} (D : list Z → list Z) (flag : Z) (cs : list Z) (out olen : ptr)
    (m : mem) (ret : Z) (m' : mem) : Prop :=
  match unseal D flag cs with
  | Some bs =>
      ret = 0 ∧ mread m' out (length bs) = Some bs ∧
      mread m' olen size_bytes = Some (le_bytes size_bytes (size (Z.of_nat (length bs)))) ∧
      mread m' out (length cs - 4) = Some (decrypted D cs)
  | None =>
      ret = -1 ∧
      if decide (is_sealed flag cs) then
        mread m' out (length cs - 4) = Some (decrypted D cs) ∧
        mread m' olen size_bytes = Some (le_bytes size_bytes (size (Z.of_nat (length cs - 4))))
      else m' = m
  end.

End SealSpec.

(** ** The code *)

Definition SM4_BLOCK_SIZE : Z := 16.
Definition PASSWORD_LENGTH_128 : Z := 128.
Definition CHECK_ENCRYPTED_SIZE : Z := 4.
Definition ENCRYPTE_FLAG_AES : Z := 0x01.
Definition ENCRYPTE_FLAG_SM4 : Z := 0x02.
Definition CHECK_ENCRYPTE_KEY_VAULE : Z := 0xF0.

Section Wrapper.
Context {tgt : Target}.

(** The product of two [int]s: overflow is undefined. *)
Definition int_mul (x y : Z) : C Z :=
  if decide (- 2 ^ 31 <= x * y < 2 ^ 31) then mret (x * y) else undefined.

(** [*p += x] *)
Definition add_size (p : ptr) (x : Z) : C unit := v ← load_size p; store_size p (v + x).

(** [CheckEncryptedSM4] and [CheckEncryptedAES] differ in the flag only; the copy
    of the last bytes to [nLastBuffer] is a read. *)
Definition check_encrypted (flag block_size : Z) (input_data : ptr) (input_length : Z) : C Z :=
  if decide (input_length <= CHECK_ENCRYPTED_SIZE) then mret (-1)
  else
    let nRemainNum := to_signed 32 (size (input_length - CHECK_ENCRYPTED_SIZE) mod block_size) in
    if decide (nRemainNum ≠ 0) then mret (-1)
    else
      nLastBuffer ← load (padd input_data (size (input_length - CHECK_ENCRYPTED_SIZE))) 4;
      if decide (nLastBuffer !!! 0%nat ≠ flag) then mret (-1)
      else if existsb (λ i, negb (nLastBuffer !!! i =? CHECK_ENCRYPTE_KEY_VAULE)) [1; 2; 3]%nat
      then mret (-1) else mret 0.

Definition CheckEncryptedSM4 := check_encrypted ENCRYPTE_FLAG_SM4 SM4_BLOCK_SIZE.
Definition CheckEncryptedAES := check_encrypted ENCRYPTE_FLAG_AES (Z.of_nat AES_BLOCK_SIZE).

(** [nTemp]: a local array with the last, padded block. *)
Definition last_block (input_data : ptr) (nCurPosition nRemainNum : Z) : C ptr :=
  nTemp ← alloc 17;
  store nTemp (replicate 17 0);;
  memset nTemp 16 17;;
  (if decide (0 < nRemainNum) then
     memset nTemp (16 - nRemainNum) 16;;
     memcpy nTemp (padd input_data nCurPosition) (Z.to_nat nRemainNum)
   else mret tt);;
  mret nTemp.

(** Push the check data. *)
Definition push_check_data (flag : Z) (out_data : ptr) (nCurPosition : Z) (output_length : ptr) : C unit :=
  memset (padd out_data nCurPosition) CHECK_ENCRYPTE_KEY_VAULE 4;;
  memset (padd out_data nCurPosition) flag 1;;
  add_size output_length CHECK_ENCRYPTED_SIZE.

(** The whole blocks of [EncryptSM4]; the position after them. *)
Definition EncryptSM4_blocks (ctx : sm4_context) (nBlockSize : Z) (input_data out_data output_length : ptr)
    : C Z :=
  if decide (0 < nBlockSize) then
    length ← int_mul nBlockSize SM4_BLOCK_SIZE;
    sm4_crypt_ecb ctx 1 length input_data out_data;;
    add_size output_length length;;
    mret (size (0 + length))
  else mret 0.

Definition EncryptSM4 (stack : sm4_context) (password input_data : ptr) (input_length : Z)
    (out_data output_length : ptr) : C Z :=
  if decide (password = Null ∨ input_data = Null ∨ out_data = Null) then mret (-1)
  else
    let nBlockSize := to_signed 32 (input_length / SM4_BLOCK_SIZE) in
    let nRemainNum := to_signed 32 (input_length mod SM4_BLOCK_SIZE) in
    key ← load password 16;
    let ctx := sm4_setkey_enc stack key in
    store_size output_length 0;;
    nCurPosition ← EncryptSM4_blocks ctx nBlockSize input_data out_data output_length;
    nTemp ← last_block input_data nCurPosition nRemainNum;
    n ← load_size output_length;
    sm4_crypt_ecb ctx 1 SM4_BLOCK_SIZE nTemp (padd out_data n);;
    add_size output_length SM4_BLOCK_SIZE;;
    push_check_data ENCRYPTE_FLAG_SM4 out_data (size (nCurPosition + SM4_BLOCK_SIZE)) output_length;;
    dealloc nTemp;;
    mret 0.

(** The end of both decryption functions: the last byte is the length of the padding. *)
Definition delete_padding (out_data : ptr) (nCurPosition : Z) (output_length : ptr) : C Z :=
  nDeleteNum ← load_byte (padd out_data (size (nCurPosition - 1)));
  if decide (16 < nDeleteNum) then mret (-1)
  else n ← load_size output_length; store_size output_length (n - nDeleteNum);; mret 0.

Definition DecryptSM4 (stack : sm4_context) (password input_data : ptr) (input_length : Z)
    (out_data output_length : ptr) : C Z :=
  if decide (password = Null ∨ input_data = Null ∨ out_data = Null) then mret (-1)
  else
    ok ← CheckEncryptedSM4 input_data input_length;
    if decide (0 ≠ ok) then mret (-1)
    else
      let true_data_len := size (input_length - CHECK_ENCRYPTED_SIZE) in
      let nRemainNum := to_signed 32 (true_data_len mod SM4_BLOCK_SIZE) in
      if decide (0 < nRemainNum) then mret (-1)
      else
        store_size output_length 0;;
        key ← load password 16;
        sm4_crypt_ecb (sm4_setkey_dec stack key) 0 (to_signed 32 true_data_len) input_data out_data;;
        store_size output_length true_data_len;;
        delete_padding out_data true_data_len output_length.

(** [for (i = 0; i < nBlockSize; i++)] of [DecryptAES] and [EncryptAES]; the
    position after it. *)
Fixpoint aes_blocks (crypt : ptr → ptr → C unit) (n : nat) (input_data out_data output_length : ptr)
    (nCurPosition : Z) : C Z :=
  match n with
  | O => mret nCurPosition
  | S n =>
      crypt (padd input_data nCurPosition) (padd out_data nCurPosition);;
      add_size output_length (Z.of_nat AES_BLOCK_SIZE);;
      aes_blocks crypt n input_data out_data output_length (size (nCurPosition + Z.of_nat AES_BLOCK_SIZE))
  end.

(** The two key functions, as both callers use them: [None] when they fail. *)
Definition set_key (f : option (list Z) → Z → option AES_KEY → Z * option AES_KEY) (stack : AES_KEY)
    (password : ptr) : C (option AES_KEY) :=
  key ← load password 16;
  let '(status, k) := f (Some key) PASSWORD_LENGTH_128 (Some stack) in
  mret (if decide (status < 0) then None else k).

(** [EncryptAES]: the assignment [output_length = 0] is to the pointer, not to the
    object, so everything after it works with a null pointer. *)
Definition EncryptAES (stack : AES_KEY) (password input_data : ptr) (input_length : Z)
    (out_data output_length : ptr) : C Z :=
  if decide (password = Null ∨ input_data = Null ∨ out_data = Null) then mret (-1)
  else
    k ← set_key AES_set_encrypt_key stack password;
    match k with
    | None => mret (-1)
    | Some nAesKkey =>
        let output_length := Null in
        let nBlockSize := to_signed 32 (input_length / Z.of_nat AES_BLOCK_SIZE) in
        let nRemainNum := to_signed 32 (input_length mod Z.of_nat AES_BLOCK_SIZE) in
        nCurPosition ← aes_blocks (AES_encrypt nAesKkey) (Z.to_nat nBlockSize)
                         input_data out_data output_length 0;
        nTemp ← last_block input_data nCurPosition nRemainNum;
        AES_encrypt nAesKkey nTemp (padd out_data nCurPosition);;
        add_size output_length (Z.of_nat AES_BLOCK_SIZE);;
        push_check_data ENCRYPTE_FLAG_AES out_data (size (nCurPosition + Z.of_nat AES_BLOCK_SIZE))
          output_length;;
        dealloc nTemp;;
        mret 0
    end.

Definition DecryptAES (stack : AES_KEY) (password input_data : ptr) (input_length : Z)
    (out_data output_length : ptr) : C Z :=
  if decide (password = Null ∨ input_data = Null ∨ out_data = Null) then mret (-1)
  else
    ok ← CheckEncryptedAES input_data input_length;
    if decide (0 ≠ ok) then mret (-1)
    else
      let true_data_len := size (input_length - CHECK_ENCRYPTED_SIZE) in
      k ← set_key AES_set_decrypt_key stack password;
      match k with
      | None => mret (-1)
      | Some nAesKkey =>
          store_size output_length 0;;
          let nBlockSize := to_signed 32 (true_data_len / Z.of_nat AES_BLOCK_SIZE) in
          let nRemainNum := to_signed 32 (true_data_len mod Z.of_nat AES_BLOCK_SIZE) in
          if decide (0 < nRemainNum) then mret (-1)
          else
            nCurPosition ← aes_blocks (AES_decrypt nAesKkey) (Z.to_nat nBlockSize)
                             input_data out_data output_length 0;
            delete_padding out_data nCurPosition output_length
      end.

(** *** Keys *)

(** The characters of a generated key. *)
Definition nKey : list Z :=
  [0x61; 0x62; 0x63; 0x64; 0x65; 0x66; 0x67; 0x68; 0x69; 0x6a; 0x6b; 0x6c; 0x6d; 0x6e; 0x6f; 0x70; 0x71;
   0x72; 0x73; 0x74; 0x75; 0x76; 0x77; 0x78; 0x79; 0x7a;
   0x41; 0x42; 0x43; 0x44; 0x45; 0x46; 0x47; 0x48; 0x49; 0x4a; 0x4b; 0x4c; 0x4d; 0x4e; 0x4f; 0x50; 0x51;
   0x52; 0x53; 0x54; 0x55; 0x56; 0x57; 0x58; 0x59; 0x5a;
   0x30; 0x31; 0x32; 0x33; 0x34; 0x35; 0x36; 0x37; 0x38; 0x39;
   0x7e; 0x21; 0x40; 0x23; 0x24; 0x5e; 0x2a; 0x28; 0x29; 0x5f; 0x2b; 0x7c; 0x2c; 0x2e; 0x2d; 0x3d].

(** The loop over the characters: [rand i] is what the [i]-th call of [rand] returns
    after [srand(time(0))]. *)
Fixpoint fill_key (rand : nat → Z) (n i : nat) (buff_password : ptr) : C unit :=
  match n with
  | O => mret tt
  | S n =>
      store (padd buff_password (Z.of_nat i)) [nKey !!! Z.to_nat (rand i mod Z.of_nat (length nKey))];;
      fill_key rand n (S i) buff_password
  end.

(** [CreateSecretKey] and [CreateSecretKeySM4], which have the same body. *)
Definition CreateSecretKey (rand : nat → Z) (buff_password : ptr) (buffer_len : Z) : C Z :=
  let password_len := 16 in
  if decide (buff_password = Null ∨ buffer_len < password_len) then mret 0
  else
    memset buff_password 0 16;;
    fill_key rand (Z.to_nat password_len) 0 buff_password;;
    mret password_len.

Definition CreateSecretKeySM4 := CreateSecretKey.
End Wrapper.

(** ** Facts *)

Module SealFacts.
Import SealSpec.

Lemma pad_length_bounds n : (1 ≤ pad_length n ≤ 16)%nat.
Proof. unfold pad_length. pose proof (Nat.mod_upper_bound n 16). lia. Qed.

Lemma length_pad bs : length (pad bs) = (16 * S (length bs / 16))%nat.
Proof.
  unfold pad, pad_length. rewrite length_app, length_replicate.
  pose proof (Nat.mod_upper_bound (length bs) 16). pose proof (Nat.div_mod_eq (length bs) 16). lia.
Qed.

Lemma pad_bytes bs : is_bytes bs → is_bytes (pad bs).
Proof.
  intros Hb. apply Forall_app_2; [done|]. apply Forall_replicate.
  pose proof (pad_length_bounds (length bs)). unfold is_word. lia.
Qed.

Lemma last_of_pad bs : pad bs !!! (length (pad bs) - 1)%nat = Z.of_nat (pad_length (length bs)).
Proof.
  pose proof (pad_length_bounds (length bs)). unfold pad. rewrite length_app, length_replicate.
  rewrite lookup_total_app_r by lia. apply lookup_total_replicate_2. lia.
Qed.

Lemma length_seal E flag bs :
  (∀ b, length (E b) = 16%nat) → length (seal E flag bs) = (16 * S (length bs / 16) + 4)%nat.
Proof.
  intros HE. unfold seal, check_data. rewrite length_app.
  rewrite (blockwise_length E 16 (S (length bs / 16))), length_pad; [done|lia|by intros|apply length_pad].
Qed.

Lemma unseal_seal E D `{!BlockCipher E D} flag bs :
  is_bytes bs → unseal D flag (seal E flag bs) = Some bs.
Proof.
  intros Hb. unfold unseal. assert (Hl := length_seal E flag bs block_length).
  assert (Hle : length (blockwise E 16 (pad bs)) = (16 * S (length bs / 16))%nat).
  { rewrite (blockwise_length E 16 (S (length bs / 16))), length_pad;
      [done|lia|by intros; apply block_length|apply length_pad]. }
  rewrite decide_True.
  2:{ unfold is_sealed. rewrite Hl. split_and!; [lia| |].
      - replace (_ + 4 - 4)%nat with (S (length bs / 16) * 16)%nat by lia. apply Nat.Div0.mod_mul.
      - unfold seal. apply drop_app_length'. lia. }
  assert (Hp : decrypted D (seal E flag bs) = pad bs).
  { unfold decrypted. rewrite Hl. unfold seal. rewrite take_app_length' by lia.
    apply (blockwise_inverse E D 16 (S (length bs / 16))); [lia| |by apply pad_bytes|apply length_pad].
    intros b Hbl Hbb. split; [apply block_length|by apply block_inverse]. }
  rewrite Hp. cbv zeta. rewrite last_of_pad. pose proof (pad_length_bounds (length bs)).
  rewrite decide_True by lia. f_equal. rewrite Nat2Z.id.
  unfold pad at 2. apply take_app_length'. unfold pad. rewrite length_app, length_replicate. lia.
Qed.
End SealFacts.

Section WrapperFacts.
Context {tgt : Target}.

Lemma add_size_ok m p v x :
  mread m p size_bytes = Some (le_bytes size_bytes (size v)) →
  ∃ m', add_size p x m = Some (tt, m') ∧ mwrite m p (le_bytes size_bytes (size (size v + x))) = Some m'.
Proof.
  intros Hr. assert (Hv : mvalid m p (length (le_bytes size_bytes (size (size v + x)))))
    by (rewrite le_bytes_length; by eapply mread_mvalid).
  destruct (mvalid_store _ _ _ Hv) as (m' & Hw & Hst). exists m'. split; [|done].
  unfold add_size. by rewrite (bind_Some _ _ m (size v) m) by by apply load_size_Some.
Qed.

Lemma add_size_None m x : add_size Null x m = None.
Proof. done. Qed.

(** The check data. *)
Lemma check_data_spec flag (b : list Z) :
  length b = 4%nat →
  (if decide (b !!! 0%nat ≠ flag) then false
   else negb (existsb (λ i, negb (b !!! i =? CHECK_ENCRYPTE_KEY_VAULE)) [1; 2; 3]%nat)) =
  bool_decide (b = SealSpec.check_data flag).
Proof.
  intros Hl. explode b 4%nat. cbn [lookup_total list_lookup_total existsb].
  unfold SealSpec.check_data, CHECK_ENCRYPTE_KEY_VAULE. symmetry.
  case_decide as H.
  - apply bool_decide_eq_false_2. congruence.
  - subst z. destruct (Z.eqb_spec z0 0xF0), (Z.eqb_spec z1 0xF0), (Z.eqb_spec z2 0xF0);
      cbn [negb orb]; first [apply bool_decide_eq_true_2; congruence|apply bool_decide_eq_false_2; congruence].
Qed.

Lemma check_encrypted_ok flag m input cs :
  mread m input (length cs) = Some cs → Z.of_nat (length cs) < 2 ^ 32 →
  check_encrypted flag 16 input (Z.of_nat (length cs)) m =
  Some (if decide (SealSpec.is_sealed flag cs) then 0 else -1, m).
Proof.
  intros Hr Hlt. unfold check_encrypted, CHECK_ENCRYPTED_SIZE.
  destruct (decide (Z.of_nat (length cs) <= 4)).
  { by rewrite decide_False by (unfold SealSpec.is_sealed; lia). }
  cbv zeta. rewrite size_small by lia.
  rewrite to_signed_small by (pose proof (Z.mod_pos_bound (Z.of_nat (length cs) - 4) 16); lia).
  replace (Z.of_nat (length cs) - 4) with (Z.of_nat (length cs - 4)) by lia.
  replace (Z.of_nat (length cs - 4) mod 16) with (Z.of_nat ((length cs - 4) mod 16))
    by (rewrite Nat2Z.inj_mod; done).
  case_decide as Hm.
  { by rewrite decide_False by (unfold SealSpec.is_sealed; lia). }
  assert (Hl4 : length (drop (length cs - 4) cs) = 4%nat) by (rewrite length_drop; lia).
  rewrite (bind_Some _ _ m (drop (length cs - 4) cs) m).
  2:{ apply load_Some. rewrite (mread_sub m input (length cs) cs (length cs - 4) 4 Hr) by lia.
      by rewrite take_ge by lia. }
  assert (Hc := check_data_spec flag _ Hl4).
  assert (Hs : SealSpec.is_sealed flag cs ↔ drop (length cs - 4) cs = SealSpec.check_data flag)
    by (unfold SealSpec.is_sealed; split; [by intros (_ & _ & ?)|intros; split_and!; (done || lia)]).
  rewrite (decide_ext _ _ _ _ Hs).
  destruct (decide (drop (length cs - 4) cs = SealSpec.check_data flag)) as [E|E].
  - rewrite (bool_decide_eq_true_2 _ E) in Hc. destruct (decide _); [done|].
    by destruct (existsb _ _).
  - rewrite (bool_decide_eq_false_2 _ E) in Hc. destruct (decide _); [done|].
    by destruct (existsb _ _).
Qed.

Lemma sm4_crypt_ecb_ok ctx mode n input output m bs :
  mread m input (16 * n) = Some bs → mvalid m output (16 * n) → same_or_apart output input (16 * n) →
  ∃ m', sm4_crypt_ecb ctx mode (Z.of_nat (16 * n)) input output m = Some (tt, m') ∧
        mwrite m output (blockwise (sm4_one_round (sk ctx)) 16 bs) = Some m'.
Proof.
  intros Hr Hv Ha.
  destruct (sm4_ecb_loop_ok (sk ctx) n (Z.to_nat (Z.of_nat (16 * n))) input output m bs)
    as (m' & Hw & Hrun); [lia|done..|]. by exists m'.
Qed.

Lemma last_block_ok m input cur rs :
  (length rs < 16)%nat →
  (rs = [] ∨ mread m (padd input cur) (length rs) = Some rs) →
  ∃ b m', last_block input cur (Z.of_nat (length rs)) m = Some (Ptr b 0, m') ∧ m !! b = None ∧
    mread m' (Ptr b 0) 16 = Some (rs ++ replicate (16 - length rs) (Z.of_nat (16 - length rs))) ∧
    mvalid m' (Ptr b 0) 17 ∧ mframe [] m m'.
Proof.
  intros Hl Hr. destruct (alloc_fresh m 17) as (b & Hb & Hal).
  set (m1 := <[b := replicate 17 None]> m) in *.
  assert (Hv : mvalid m1 (Ptr b 0) 17) by apply (mvalid_alloc m b (replicate 17 None)).
  destruct (mvalid_store m1 (Ptr b 0) (replicate 17 0)) as (m2 & Hw2 & Hs2); [done|].
  destruct (mvalid_store m2 (Ptr b 0) (replicate 17 16)) as (m3 & Hw3 & Hs3); [by read_back|].
  assert (Hf3 : mframe [] m m3).
  { apply (mframe_local [] b 0 17 m m1 m3); [done|by apply mframe_alloc|].
    transitivity m2; by eapply mwrite_frame; [done|left|]. }
  unfold last_block. rewrite (bind_Some _ _ m _ m1 Hal).
  rewrite (bind_Some _ _ m1 tt m2 Hs2).
  rewrite (bind_Some _ _ m2 tt m3) by (unfold memset; done).
  destruct (decide (length rs = 0%nat)) as [->%nil_length_inv|Hpos].
  - rewrite decide_False by (simpl; lia). exists b, m3. split; [done|]. split; [done|].
    split; [|split; [by read_back|done]].
    assert (H17 : mread m3 (Ptr b 0) 17 = Some (replicate 17 16)) by (change 17%nat with (length (replicate 17 16)) at 1; by apply (mread_mwrite m2)).
    by apply (mread_take _ _ _ _ 16) in H17; [|lia].
  - destruct Hr as [->|Hr]; [done|]. rewrite decide_True by lia.
    destruct (mvalid_store m3 (Ptr b 0) (replicate 16 (wrap 8 (16 - Z.of_nat (length rs))))) as (m4 & Hw4 & Hs4).
    { rewrite length_replicate. read_back. by apply (mvalid_take _ _ 17); [|lia]. }
    assert (Hr3 : mread m3 (padd input cur) (length rs) = Some rs).
    { rewrite (mframe_read _ _ _ Hf3); [done|by eapply mread_mvalid|by constructor]. }
    assert (Hr4 : mread m4 (padd input cur) (length rs) = Some rs).
    { rewrite (mread_mwrite_disj _ _ _ _ _ _ Hw4); [done|]. destruct (padd input cur) as [|b' o] eqn:Ep; [done|].
      simpl. left. eapply mvalid_fresh_ne; [done|]. by eapply mread_mvalid. }
    destruct (mvalid_store m4 (Ptr b 0) rs) as (m5 & Hw5 & Hs5).
    { read_back. by apply (mvalid_take _ _ 17); [|lia]. }
    rewrite (bind_Some _ _ m3 tt m5).
    2:{ rewrite (bind_Some _ _ m3 tt m4) by done. rewrite Nat2Z.id. apply (memcpy_Some _ _ _ _ rs); [|done|done].
        apply (fresh_pdisj m); [done|]. by eapply mread_mvalid. }
    exists b, m5. split; [done|]. split; [done|]. split; [|split; [by read_back|]].
    + replace 16%nat with (length rs + (16 - length rs))%nat at 1 by lia.
      apply mread_join; [by apply (mread_mwrite m4)|].
      rewrite (mread_mwrite_disj _ _ _ _ _ _ Hw5) by (simpl; lia).
      assert (H16 : mread m4 (Ptr b 0) 16 = Some (replicate 16 (wrap 8 (16 - Z.of_nat (length rs)))))
        by apply (mread_mwrite _ _ _ _ Hw4).
      apply (mread_sub _ _ _ _ (length rs) (16 - length rs)) in H16; [|lia]. rewrite H16. f_equal.
      rewrite drop_replicate, take_replicate, Nat.min_l by lia.
      rewrite wrap_small by (unfold is_word; lia). f_equal. lia.
    + apply (mframe_local [] b 0 17 m m3 m5); [done|done|].
      transitivity m4; (eapply mwrite_frame; [done|left|]); rewrite ?length_replicate; lia.
Qed.

Lemma mread_le_bytes m p x m' :
  mwrite m p (le_bytes size_bytes x) = Some m' → mread m' p size_bytes = Some (le_bytes size_bytes x).
Proof. intros Hw. apply mread_mwrite in Hw. by rewrite le_bytes_length in Hw. Qed.

(** A local array of the callee is apart from the objects of the caller. *)
Lemma dealloc_ok m b m0 rs :
  m0 !! b = None → mvalid m (Ptr b 0) 17 → mframe rs m0 m →
  ∃ m', dealloc (Ptr b 0) m = Some (tt, m') ∧ mframe rs m0 m' ∧
    ∀ q k, mvalid m0 q k → mread m' q k = mread m q k.
Proof.
  intros Hb (c & Hc & _) Hf. exists (delete b m). split; [by cbn; rewrite Hc|].
  split; [by apply mframe_delete|]. intros q k Hv. apply mread_delete.
  destruct q; [done|]. by eapply mvalid_fresh_ne.
Qed.

Lemma EncryptSM4_blocks_ok ctx q input out olen m full :
  mread m input (16 * q) = Some full → mvalid m out (16 * q) →
  mread m olen size_bytes = Some (le_bytes size_bytes (size 0)) →
  same_or_apart out input (16 * q) → pdisj out (16 * q) olen size_bytes → Z.of_nat (16 * q) < 2 ^ 31 →
  ∃ m', EncryptSM4_blocks ctx (Z.of_nat q) input out olen m = Some (Z.of_nat (16 * q), m') ∧
    mread m' out (16 * q) = Some (blockwise (sm4_one_round (sk ctx)) 16 full) ∧
    mread m' olen size_bytes = Some (le_bytes size_bytes (size (Z.of_nat (16 * q)))) ∧
    mframe [(out, 16 * q)%nat; (olen, size_bytes)] m m'.
Proof.
  intros Hr Hv Hol Ha Hd Hlt. assert (Hl := mread_length _ _ _ _ Hr). unfold EncryptSM4_blocks.
  destruct (decide (q = 0%nat)) as [->|].
  { rewrite decide_False by lia. exists m. apply nil_length_inv in Hl as ->.
    split; [done|]. split; [by apply mread_nil|done]. }
  rewrite decide_True by lia.
  assert (Hmul : int_mul (Z.of_nat q) SM4_BLOCK_SIZE m = Some (Z.of_nat (16 * q), m)).
  { unfold int_mul, SM4_BLOCK_SIZE. rewrite decide_True by lia. unfold mret, C_ret. do 2 f_equal. lia. }
  rewrite (bind_Some _ _ m _ m Hmul).
  destruct (sm4_crypt_ecb_ok ctx 1 q input out m full) as (m1 & R1 & W1); [done..|].
  set (c := blockwise _ 16 full) in *.
  assert (Hlc : length c = (16 * q)%nat).
  { rewrite <- Hl. apply (blockwise_length _ 16 q); [lia|intros; apply sm4_one_round_length|done]. }
  rewrite (bind_Some _ _ m tt m1 R1).
  destruct (add_size_ok m1 olen 0 (Z.of_nat (16 * q))) as (m2 & R2 & W2); [by read_back|].
  rewrite (bind_Some _ _ m1 tt m2 R2). rewrite (size_small 0), Z.add_0_l in W2 by lia.
  pose proof (le_bytes_length size_bytes (size (Z.of_nat (16 * q)))).
  exists m2. rewrite Z.add_0_l. split. { unfold mret, C_ret. rewrite size_small by lia. reflexivity. }
  split; [by read_back|]. split; [by apply (mread_le_bytes _ _ _ _ W2)|]. frame_back.
Qed.

Lemma push_check_data_ok flag out cur olen m v :
  is_byte flag → mvalid m (padd out cur) 4 → mread m olen size_bytes = Some (le_bytes size_bytes (size v)) →
  pdisj (padd out cur) 4 olen size_bytes →
  ∃ m', push_check_data flag out cur olen m = Some (tt, m') ∧
    mread m' (padd out cur) 4 = Some (SealSpec.check_data flag) ∧
    mread m' olen size_bytes = Some (le_bytes size_bytes (size (size v + CHECK_ENCRYPTED_SIZE))) ∧
    mframe [(padd out cur, 4%nat); (olen, size_bytes)] m m'.
Proof.
  intros Hf Hv Hol Hd. unfold push_check_data. set (p := padd out cur) in *.
  change (memset p CHECK_ENCRYPTE_KEY_VAULE 4) with (store p (replicate 4 0xF0)).
  replace (memset p flag 1) with (store p [flag]) by (unfold memset; cbn [replicate]; by rewrite wrap_small).
  destruct (mvalid_store m p (replicate 4 0xF0)) as (m1 & W1 & R1); [done|].
  rewrite (bind_Some _ _ m tt m1 R1).
  destruct (mvalid_store m1 p [flag]) as (m2 & W2 & R2); [read_back; by apply (mvalid_take _ _ 4); [|simpl; lia]|].
  rewrite (bind_Some _ _ m1 tt m2 R2).
  destruct (add_size_ok m2 olen v CHECK_ENCRYPTED_SIZE) as (m3 & R3 & W3).
  { rewrite (mread_mwrite_disj _ _ _ _ _ _ W2) by (by apply (pdisj_take _ 4); [|simpl; lia]).
    by rewrite (mread_mwrite_disj _ _ _ _ _ _ W1). }
  exists m3. split; [done|]. split; [|split; [by apply (mread_le_bytes _ _ _ _ W3)|]].
  - rewrite (mread_mwrite_disj _ _ _ _ _ _ W3) by (rewrite le_bytes_length; by apply pdisj_sym).
    replace 4%nat with (1 + 3)%nat by lia. change (SealSpec.check_data flag) with ([flag] ++ replicate 3 0xF0).
    apply mread_join; [exact (mread_mwrite _ _ _ _ W2)|].
    rewrite (mread_mwrite_disj _ _ _ _ _ _ W2) by by apply (pdisj_next p 1 1 3).
    apply mread_mwrite in W1. by apply (mread_sub _ _ _ _ 1 3) in W1; [|simpl; lia].
  - transitivity m1; [by eapply mwrite_frame; [done|left|]|].
    transitivity m2; [by eapply mwrite_frame; [done|left|simpl; lia]|].
    eapply mwrite_frame; [done|right; left|]. by rewrite le_bytes_length.
Qed.

Section Seal.
Context (ctx : sm4_context).
Let E := sm4_one_round (sk ctx).

(** The part of [EncryptSM4] after the whole blocks, from the position [cur]. *)
Lemma encrypt_tail_ok cur input out olen m rs :
  (length rs < 16)%nat → (rs = [] ∨ mread m (padd input (Z.of_nat cur)) (length rs) = Some rs) →
  mread m olen size_bytes = Some (le_bytes size_bytes (size (Z.of_nat cur))) →
  mvalid m (padd out (Z.of_nat cur)) 20 → pdisj (padd out (Z.of_nat cur)) 20 olen size_bytes →
  Z.of_nat cur + 20 < 2 ^ 32 →
  ∃ m',
    (nTemp ← last_block input (Z.of_nat cur) (Z.of_nat (length rs));
     n ← load_size olen;
     sm4_crypt_ecb ctx 1 SM4_BLOCK_SIZE nTemp (padd out n);;
     add_size olen SM4_BLOCK_SIZE;;
     push_check_data ENCRYPTE_FLAG_SM4 out (size (Z.of_nat cur + SM4_BLOCK_SIZE)) olen;;
     dealloc nTemp;; mret 0) m = Some (0, m') ∧
    mread m' (padd out (Z.of_nat cur)) 20 =
      Some (blockwise E 16 (rs ++ replicate (16 - length rs) (Z.of_nat (16 - length rs)))
            ++ SealSpec.check_data ENCRYPTE_FLAG_SM4) ∧
    mread m' olen size_bytes = Some (le_bytes size_bytes (size (Z.of_nat (cur + 20)))) ∧
    mframe [(padd out (Z.of_nat cur), 20%nat); (olen, size_bytes)] m m'.
Proof.
  intros Hl Hr Hol Hv Hd Hlt. set (po := padd out (Z.of_nat cur)) in *.
  destruct (last_block_ok m input (Z.of_nat cur) rs Hl Hr) as (b & m1 & R1 & Hb & Ht & Hvt & Hf1).
  set (blk := rs ++ replicate (16 - length rs) (Z.of_nat (16 - length rs))) in *.
  assert (Hdo : pdisj (Ptr b 0) 17 po 20) by by apply fresh_pdisj with m.
  assert (Hde : pdisj (Ptr b 0) 17 olen size_bytes) by (apply fresh_pdisj with m; [done|by eapply mread_mvalid]).
  rewrite (bind_Some _ _ m _ m1 R1).
  assert (Hol1 : mread m1 olen size_bytes = Some (le_bytes size_bytes (size (Z.of_nat cur)))).
  { rewrite (mframe_read _ _ _ Hf1); [done|by eapply mread_mvalid|by constructor]. }
  rewrite (bind_Some _ _ m1 _ m1 (load_size_Some _ _ _ Hol1)). rewrite (size_small (Z.of_nat cur)) by lia.
  fold po. assert (Hv1 : mvalid m1 po 20) by by apply (mframe_valid _ _ _ Hf1).
  destruct (sm4_crypt_ecb_ok ctx 1 1 (Ptr b 0) po m1 blk) as (m2 & R2 & W2);
    [done|by eapply mvalid_take; [done|lia]|right; solve_pdisj|].
  fold E in W2. set (c := blockwise E 16 blk) in *.
  assert (Hlc : length c = 16%nat).
  { assert (Hlb := mread_length _ _ _ _ Ht). rewrite <- Hlb.
    apply (blockwise_length _ 16 1); [lia|intros; apply sm4_one_round_length|lia]. }
  change SM4_BLOCK_SIZE with (Z.of_nat (16 * 1)). rewrite (bind_Some _ _ m1 tt m2 R2).
  destruct (add_size_ok m2 olen (Z.of_nat cur) (Z.of_nat (16 * 1))) as (m3 & R3 & W3); [by read_back|].
  rewrite (bind_Some _ _ m2 tt m3 R3).
  assert (Hpo : padd out (size (Z.of_nat cur + Z.of_nat (16 * 1))) = padd po (Z.of_nat 16)).
  { rewrite size_small by lia. unfold po. by rewrite padd_add. }
  destruct (push_check_data_ok ENCRYPTE_FLAG_SM4 out (size (Z.of_nat cur + Z.of_nat (16 * 1))) olen m3
    (size (Z.of_nat cur) + Z.of_nat (16 * 1))) as (m4 & R4 & Hchk & Hol4 & Hf4).
  { done. }
  { rewrite Hpo. read_back. by apply (mvalid_sub m1 po 20 16 4). }
  { by apply (mread_le_bytes _ _ _ _ W3). }
  { rewrite Hpo. by apply (pdisj_sub po 20 _ _ 16 4). }
  rewrite (bind_Some _ _ m3 tt m4 R4). rewrite Hpo in Hchk, Hf4.
  assert (Hfm : mframe [(po, 20%nat); (olen, size_bytes)] m m4).
  { transitivity m1; [eapply mframe_mono; [done|apply covers_nil]|].
    transitivity m2; [eapply mwrite_frame; [done|left|lia]|].
    transitivity m3; [eapply mwrite_frame; [done|right; left|by rewrite le_bytes_length]|].
    eapply mframe_mono; [done|]. apply covers_cons; [apply covers_sub with 20%nat; [left|lia]|].
    apply covers_take with size_bytes; [right; left|done]. }
  assert (Hvt4 : mvalid m4 (Ptr b 0) 17).
  { apply (mframe_valid _ _ _ Hf4). by read_back. }
  destruct (dealloc_ok m4 b m _ Hb Hvt4 Hfm) as (m5 & R5 & Hf5 & Hback).
  rewrite (bind_Some _ _ m4 tt m5 R5). exists m5. split; [done|].
  split; [|split; [|done]].
  - rewrite Hback by done. replace 20%nat with (16 + 4)%nat by lia. apply mread_join; [|done].
    rewrite (mframe_read _ _ _ Hf4).
    + rewrite (mread_mwrite_disj _ _ _ _ _ _ W3)
        by (rewrite le_bytes_length; apply pdisj_sym; by apply (pdisj_take _ 20); [|lia]).
      rewrite <- Hlc. exact (mread_mwrite _ _ _ _ W2).
    + read_back. by apply (mvalid_take _ _ 20); [|lia].
    + apply Forall_cons_2; [|apply Forall_cons_2; [|by constructor]]; cbn [fst snd].
      * apply pdisj_sym. by apply (pdisj_next po 16 16 4).
      * apply pdisj_sym. by apply (pdisj_take _ 20); [|lia].
  - rewrite Hback by (by eapply mread_mvalid). rewrite Hol4. do 2 f_equal.
    rewrite (size_small (Z.of_nat cur)), (size_small (Z.of_nat cur + Z.of_nat (16 * 1))) by lia.
    f_equal. unfold CHECK_ENCRYPTED_SIZE. lia.
Qed.
End Seal.

(** The whole blocks of a string and the rest. *)
Lemma seal_split E flag bs q (full rs : list Z) :
  bs = full ++ rs → length full = (16 * q)%nat → (length rs < 16)%nat →
  SealSpec.seal E flag bs =
  blockwise E 16 full ++
    blockwise E 16 (rs ++ replicate (16 - length rs) (Z.of_nat (16 - length rs))) ++ SealSpec.check_data flag.
Proof.
  intros -> Hl Hr. unfold SealSpec.seal, SealSpec.pad.
  assert (Hp : SealSpec.pad_length (length (full ++ rs)) = (16 - length rs)%nat).
  { unfold SealSpec.pad_length. rewrite length_app, Hl, Nat.add_comm, Nat.mul_comm, Nat.Div0.mod_add.
    by rewrite Nat.mod_small. }
  rewrite Hp, <- app_assoc, (blockwise_app E 16 q), <- app_assoc by (done || lia). done.
Qed.

Lemma EncryptSM4_ok stack password input out olen m key bs :
  let n := length bs in let total := (16 * S (n / 16) + 4)%nat in
  let E := sm4_one_round (sk (sm4_setkey_enc stack key)) in
  mread m password 16 = Some key → mread m input n = Some bs → mvalid m out total →
  mvalid m olen size_bytes → input = out ∨ pdisj out total input n → pdisj out total olen size_bytes →
  pdisj olen size_bytes input n → Z.of_nat n < 2 ^ 31 →
  ∃ m', EncryptSM4 stack password input (Z.of_nat n) out olen m = Some (0, m') ∧
    mread m' out total = Some (SealSpec.seal E ENCRYPTE_FLAG_SM4 bs) ∧
    mread m' olen size_bytes = Some (le_bytes size_bytes (size (Z.of_nat total))) ∧
    mframe [(out, total); (olen, size_bytes)] m m'.
Proof.
  intros n total E Hp Hi Hvo Hve Hio Hoe Hei Hlt.
  pose proof (Nat.div_mod_eq n 16) as Hn. pose proof (Nat.mod_upper_bound n 16 ltac:(lia)) as Hr.
  set (q := (n / 16)%nat) in *. set (r := (n mod 16)%nat) in *.
  unfold EncryptSM4. rewrite decide_False.
  2:{ intros [->|[->| ->]]; [done|done|]. by destruct Hvo. }
  assert (Eq : to_signed 32 (Z.of_nat n / SM4_BLOCK_SIZE) = Z.of_nat q).
  { unfold SM4_BLOCK_SIZE, q. rewrite Nat2Z.inj_div. apply to_signed_small; [lia|].
    pose proof (Z.div_le_upper_bound (Z.of_nat n) 16 (2 ^ 31 - 1)). pose proof (Z.div_pos (Z.of_nat n) 16). lia. }
  assert (Er : to_signed 32 (Z.of_nat n mod SM4_BLOCK_SIZE) = Z.of_nat r).
  { unfold SM4_BLOCK_SIZE, r. rewrite Nat2Z.inj_mod. apply to_signed_small; [lia|].
    pose proof (Z.mod_pos_bound (Z.of_nat n) 16). lia. }
  rewrite Eq, Er. clear Eq Er. clearbody q r.
  rewrite (bind_Some _ _ m key m) by by apply load_Some.
  destruct (mvalid_store m olen (le_bytes size_bytes (size 0))) as (m0 & W0 & R0);
    [by rewrite le_bytes_length|].
  rewrite (bind_Some _ _ m tt m0 R0).
  assert (Hlw : length (le_bytes size_bytes (size 0)) = size_bytes) by apply le_bytes_length.
  assert (Hi0 : mread m0 input n = Some bs).
  { rewrite (mread_mwrite_disj _ _ _ _ _ _ W0); [done|by rewrite Hlw]. }
  assert (Hs := Hi0). rewrite Hn in Hs. apply mread_split in Hs as (full & rs & Hbs & Hlf & Hfull & Hrs).
  assert (Hlr := mread_length _ _ _ _ Hrs).
  destruct (EncryptSM4_blocks_ok (sm4_setkey_enc stack key) q input out olen m0 full)
    as (m1 & R1 & Hout1 & Hol1 & Hf1);
    [done|read_back; by apply (mvalid_take _ _ total); [|lia]|by apply (mread_le_bytes _ _ _ _ W0)|
     destruct Hio as [->|Hio]; [by left|right]|by apply (pdisj_take _ total); [|lia]|lia|].
  { apply (pdisj_take _ total); [|lia]. apply pdisj_sym, (pdisj_take _ n); [by apply pdisj_sym|lia]. }
  fold E in Hout1. rewrite (bind_Some _ _ m0 _ m1 R1). rewrite <- Hlr in *.
  destruct (encrypt_tail_ok (sm4_setkey_enc stack key) (16 * q) input out olen m1 rs)
    as (m2 & R2 & Hout2 & Hol2 & Hf2); [done| |done| | |lia|].
  { destruct (decide (length rs = 0%nat)) as [E0|]; [left; by apply nil_length_inv|right].
    rewrite (mframe_read _ _ _ Hf1); [done|by eapply mread_mvalid|].
    apply Forall_cons_2; [|apply Forall_cons_2; [|by constructor]]; cbn [fst snd].
    - destruct Hio as [->|Hio]; [by apply pdisj_next|].
      apply pdisj_sym, (pdisj_sub input n); [|lia]. apply pdisj_sym. by apply (pdisj_take _ total); [|lia].
    - apply pdisj_sym, (pdisj_sub input n); [by apply pdisj_sym|lia]. }
  { apply (mframe_valid _ _ _ Hf1). read_back. by apply (mvalid_sub m out total (16 * q) 20); [|lia]. }
  { by apply (pdisj_sub out total _ _ (16 * q) 20); [|lia]. }
  exists m2. split; [exact R2|]. split; [|split].
  - rewrite (seal_split E _ bs q full rs) by done. unfold total.
    replace (16 * S q + 4)%nat with (16 * q + 20)%nat by lia. apply mread_join; [|exact Hout2].
    rewrite (mframe_read _ _ _ Hf2); [done|by eapply mread_mvalid|].
    apply Forall_cons_2; [|apply Forall_cons_2; [|by constructor]]; cbn [fst snd].
    + apply pdisj_sym. by apply pdisj_next.
    + apply pdisj_sym. by apply (pdisj_take _ total); [|lia].
  - rewrite Hol2. by replace (16 * q + 20)%nat with total by lia.
  - transitivity m0; [eapply mwrite_frame; [done|right; left|by rewrite Hlw]|].
    transitivity m1; (eapply mframe_mono; [done|]); (apply covers_cons; [|apply covers_take with size_bytes; [right; left|done]]).
    + apply covers_take with total; [left|lia].
    + apply covers_sub with total; [left|lia].
Qed.

(** *** Decryption *)

Lemma delete_padding_ok out olen m (p : list Z) n v :
  mread m out n = Some p → (16 ≤ n)%nat → Z.of_nat n < 2 ^ 32 → is_bytes p →
  mread m olen size_bytes = Some (le_bytes size_bytes (size v)) → v = Z.of_nat n →
  pdisj out n olen size_bytes →
  let k := p !!! (length p - 1)%nat in
  ∃ ret m', delete_padding out (Z.of_nat n) olen m = Some (ret, m') ∧
    mframe [(olen, size_bytes)] m m' ∧ mread m' out n = Some p ∧
    if decide (k <= 16)
    then ret = 0 ∧ mread m' out (n - Z.to_nat k) = Some (take (n - Z.to_nat k) p) ∧
         mread m' olen size_bytes = Some (le_bytes size_bytes (size (Z.of_nat (n - Z.to_nat k))))
    else ret = -1 ∧ m' = m.
Proof.
  intros Hr Hn Hlt Hb Hol -> Hd k. assert (Hl := mread_length _ _ _ _ Hr).
  assert (Hk : is_byte k) by by apply bytes_lookup_total. unfold is_word in Hk.
  unfold delete_padding. rewrite size_small by lia.
  rewrite (bind_Some _ _ m k m).
  2:{ apply load_byte_Some. replace (Z.of_nat n - 1) with (Z.of_nat (n - 1)) by lia.
      rewrite (mread_sub m out n p (n - 1) 1 Hr) by lia. f_equal. unfold k. rewrite Hl.
      destruct (lookup_lt_is_Some_2 p (n - 1)) as [x Hx]; [lia|].
      rewrite (drop_S p x (n - 1)) by done. rewrite (list_lookup_total_correct p _ x Hx).
      rewrite drop_ge by lia. done. }
  destruct (decide (k <= 16)).
  - rewrite decide_False by lia. rewrite (bind_Some _ _ m _ m (load_size_Some _ _ _ Hol)).
    rewrite (size_small (Z.of_nat n)) by lia.
    destruct (mvalid_store m olen (le_bytes size_bytes (size (Z.of_nat n - k)))) as (m' & W & R).
    { rewrite le_bytes_length. by eapply mread_mvalid. }
    rewrite (bind_Some _ _ m tt m' R). exists 0, m'. split; [done|].
    split; [eapply mwrite_frame; [done|left|by rewrite le_bytes_length]|].
    assert (Hr' : mread m' out n = Some p).
    { by rewrite (mread_mwrite_disj _ _ _ _ _ _ W) by (rewrite le_bytes_length; by apply pdisj_sym). }
    split; [done|]. split; [done|].
    split; [apply (mread_take _ _ n); [done|lia]|rewrite (mread_le_bytes _ _ _ _ W); do 3 f_equal; lia].
  - rewrite decide_True by lia. exists (-1), m. split_and!; done.
Qed.

Lemma opened_refused D flag cs out olen m :
  ¬ SealSpec.is_sealed flag cs → SealSpec.opened D flag cs out olen m (-1) m.
Proof. intros Hs. unfold SealSpec.opened, SealSpec.unseal. by rewrite !(decide_False _ _ Hs). Qed.

(** What is left when the padding has been looked at. *)
Lemma opened_intro D flag cs out olen m ret m1 m' :
  let t := (length cs - 4)%nat in let p := SealSpec.decrypted D cs in let k := p !!! (length p - 1)%nat in
  SealSpec.is_sealed flag cs → length p = t → mread m' out t = Some p →
  mread m1 olen size_bytes = Some (le_bytes size_bytes (size (Z.of_nat t))) →
  (if decide (k <= 16)
   then ret = 0 ∧ mread m' out (t - Z.to_nat k) = Some (take (t - Z.to_nat k) p) ∧
        mread m' olen size_bytes = Some (le_bytes size_bytes (size (Z.of_nat (t - Z.to_nat k))))
   else ret = -1 ∧ m' = m1) →
  SealSpec.opened D flag cs out olen m ret m'.
Proof.
  intros t p k Hs Hlp Hp Hol H. unfold SealSpec.opened, SealSpec.unseal. rewrite !(decide_True _ _ Hs).
  cbv zeta. fold p k. destruct (decide (k <= 16)).
  - rewrite Hlp, length_take, Hlp, Nat.min_l by lia. by destruct H as (? & ? & ?).
  - destruct H as [-> ->]. done.
Qed.

Lemma DecryptSM4_ok stack password input out olen m key cs :
  let L := length cs in
  let D := sm4_one_round (sk (sm4_setkey_dec stack key)) in
  mread m password 16 = Some key → mread m input L = Some cs → mvalid m out (L - 4) →
  mvalid m olen size_bytes → same_or_apart out input (L - 4) → pdisj out (L - 4) olen size_bytes →
  pdisj olen size_bytes input L → pdisj olen size_bytes password 16 → Z.of_nat L < 2 ^ 31 →
  ∃ ret m', DecryptSM4 stack password input (Z.of_nat L) out olen m = Some (ret, m') ∧
    mframe [(out, L - 4)%nat; (olen, size_bytes)] m m' ∧
    SealSpec.opened D ENCRYPTE_FLAG_SM4 cs out olen m ret m'.
Proof.
  intros L D Hp Hi Hvo Hve Hio Hoe Hei Hep Hlt. unfold DecryptSM4. rewrite decide_False.
  2:{ intros [->|[->| ->]]; [done|done|]. by destruct Hvo. }
  rewrite (bind_Some _ _ m _ m (check_encrypted_ok ENCRYPTE_FLAG_SM4 m input cs Hi ltac:(lia))).
  fold L. destruct (decide (SealSpec.is_sealed ENCRYPTE_FLAG_SM4 cs)) as [Hs|Hs].
  2:{ rewrite decide_True by done. exists (-1), m. split; [done|]. split; [done|]. by apply opened_refused. }
  rewrite decide_False by lia. assert (Hs' := Hs). destruct Hs' as (H4 & Hmod & _). fold L in H4, Hmod. fold L.
  set (t := (L - 4)%nat) in *. cbv zeta.
  replace (Z.of_nat L - CHECK_ENCRYPTED_SIZE) with (Z.of_nat t) by (unfold CHECK_ENCRYPTED_SIZE; lia).
  rewrite size_small by lia.
  assert (Hr0 : to_signed 32 (Z.of_nat t mod SM4_BLOCK_SIZE) = 0).
  { unfold SM4_BLOCK_SIZE. change 16 with (Z.of_nat 16). rewrite <- Nat2Z.inj_mod, Hmod. done. }
  rewrite Hr0, decide_False by lia.
  pose proof (Nat.div_mod_eq t 16) as Ht. rewrite Hmod, Nat.add_0_r in Ht. set (q := (t / 16)%nat) in *.
  destruct (mvalid_store m olen (le_bytes size_bytes (size 0))) as (m0 & W0 & R0);
    [by rewrite le_bytes_length|].
  rewrite (bind_Some _ _ m tt m0 R0).
  rewrite (bind_Some _ _ m0 key m0).
  2:{ apply load_Some. by rewrite (mread_mwrite_disj _ _ _ _ _ _ W0) by by rewrite le_bytes_length. }
  rewrite to_signed_small by lia.
  assert (Hi0 : mread m0 input (16 * q) = Some (take t cs)).
  { rewrite (mread_mwrite_disj _ _ _ _ _ _ W0).
    - rewrite <- Ht. apply (mread_take _ _ L); [done|lia].
    - rewrite le_bytes_length. apply pdisj_sym, (pdisj_take _ L); [by apply pdisj_sym|lia]. }
  destruct (sm4_crypt_ecb_ok (sm4_setkey_dec stack key) 0 q input out m0 (take t cs)) as (m1 & R1 & W1);
    [done|apply (mvalid_mwrite_iff _ _ _ _ _ _ W0); by rewrite <- Ht|by rewrite <- Ht|].
  rewrite <- Ht in R1. rewrite (bind_Some _ _ m0 tt m1 R1). fold D in W1.
  set (p := blockwise D 16 (take t cs)) in *.
  assert (Hlp : length p = t).
  { unfold p. rewrite (blockwise_length _ 16 q); [|lia|intros; apply sm4_one_round_length|];
      rewrite length_take; unfold L in *; lia. }
  assert (Hpb : is_bytes p).
  { unfold p. apply (blockwise_bytes _ 16 q); [lia|intros; apply sm4_one_round_bytes|].
    rewrite length_take; unfold L in *; lia. }
  destruct (mvalid_store m1 olen (le_bytes size_bytes (size (Z.of_nat t)))) as (m2 & W2 & R2).
  { rewrite le_bytes_length. read_back. done. }
  rewrite (bind_Some _ _ m1 tt m2 R2).
  destruct (delete_padding_ok out olen m2 p t (Z.of_nat t)) as (ret & m3 & R3 & Hf3 & Hp3 & H3);
    [| |lia|done|by apply (mread_le_bytes _ _ _ _ W2)|done|done|].
  { rewrite (mread_mwrite_disj _ _ _ _ _ _ W2) by (rewrite le_bytes_length; by apply pdisj_sym).
    rewrite <- Hlp. exact (mread_mwrite _ _ _ _ W1). }
  { destruct q; lia. }
  exists ret, m3. split; [exact R3|]. split.
  - transitivity m0; [eapply mwrite_frame; [done|right; left|by rewrite le_bytes_length]|].
    transitivity m1; [eapply mwrite_frame; [done|left|lia]|].
    transitivity m2; [eapply mwrite_frame; [done|right; left|by rewrite le_bytes_length]|].
    eapply mframe_mono; [done|]. apply covers_take with size_bytes; [right; left|done].
  - apply (opened_intro D _ cs out olen m ret m2 m3); try done. by apply (mread_le_bytes _ _ _ _ W2).
Qed.

(** *** AES *)

Lemma aes_blocks_ok crypt E `{!BlockFun crypt E} n : ∀ cur input out olen m bs v,
  (∀ b, length (E b) = 16%nat) →
  mread m (padd input (Z.of_nat cur)) (16 * n) = Some bs → is_bytes bs →
  mvalid m (padd out (Z.of_nat cur)) (16 * n) →
  same_or_apart (padd out (Z.of_nat cur)) (padd input (Z.of_nat cur)) (16 * n) →
  mread m olen size_bytes = Some (le_bytes size_bytes (size v)) →
  pdisj (padd out (Z.of_nat cur)) (16 * n) olen size_bytes →
  pdisj olen size_bytes (padd input (Z.of_nat cur)) (16 * n) →
  0 <= v → v + Z.of_nat (16 * n) < 2 ^ 32 → Z.of_nat (cur + 16 * n) < 2 ^ 32 →
  ∃ m', aes_blocks crypt n input out olen (Z.of_nat cur) m = Some (Z.of_nat (cur + 16 * n), m') ∧
    mread m' (padd out (Z.of_nat cur)) (16 * n) = Some (blockwise E 16 bs) ∧
    mread m' olen size_bytes = Some (le_bytes size_bytes (size (v + Z.of_nat (16 * n)))) ∧
    mframe [(padd out (Z.of_nat cur), 16 * n)%nat; (olen, size_bytes)] m m'.
Proof.
  induction n as [|n IH]; intros cur input out olen m bs v HE Hr Hb Hv Ha Hol Hd Hdi Hv0 Hlt Hcur.
  - assert (Hl := mread_length _ _ _ _ Hr). apply no_block in Hl as ->. exists m.
    cbn [aes_blocks]. rewrite Nat.add_0_r, Z.add_0_r.
    split; [done|]. split; [by apply mread_nil|]. split; [done|reflexivity].
  - replace (16 * S n)%nat with (16 + 16 * n)%nat in * by lia.
    set (pi := padd input (Z.of_nat cur)) in *. set (po := padd out (Z.of_nat cur)) in *.
    apply mread_split in Hr as (b & bs' & -> & Hlb & Hrb & Hrest). apply Forall_app in Hb as [Hbb Hbr].
    destruct (block_run pi po m b Hrb Hbb) as (m1 & R1 & W1); [by apply (mvalid_take _ _ (16 + 16 * n)); [|lia]|].
    assert (HlE := HE b).
    destruct (add_size_ok m1 olen v 16) as (m2 & R2 & W2).
    { rewrite (mread_mwrite_disj _ _ _ _ _ _ W1); [done|]. apply (pdisj_take _ (16 + 16 * n)); [done|lia]. }
    destruct (same_or_apart_step m po pi (E b) (16 * n) bs' m1) as [Ha1 Hrest1];
      [by rewrite HlE|done|by rewrite HlE|]. rewrite HlE in Ha1, Hrest1.
    rewrite (size_small v) in W2 by lia.
    assert (Epi : padd input (Z.of_nat (cur + 16)) = padd pi (Z.of_nat 16))
      by (unfold pi; by rewrite padd_add, Nat2Z.inj_add).
    assert (Epo : padd out (Z.of_nat (cur + 16)) = padd po (Z.of_nat 16))
      by (unfold po; by rewrite padd_add, Nat2Z.inj_add).
    destruct (IH (cur + 16)%nat input out olen m2 bs' (v + 16)) as (m3 & R3 & Hout & Hol3 & Hf3);
      rewrite ?Epi, ?Epo; try done; try lia.
    { rewrite (mread_mwrite_disj _ _ _ _ _ _ W2); [done|]. rewrite le_bytes_length.
      apply pdisj_sym, (pdisj_sub pi (16 + 16 * n) _ _ 16); [by apply pdisj_sym|lia]. }
    { apply (mvalid_mwrite_iff _ _ _ _ _ _ W2), (mvalid_mwrite_iff _ _ _ _ _ _ W1).
      by apply (mvalid_sub m po (16 + 16 * n) 16); [|lia]. }
    { by apply (mread_le_bytes _ _ _ _ W2). }
    { by apply (pdisj_sub po (16 + 16 * n) _ _ 16); [|lia]. }
    { apply pdisj_sym, (pdisj_sub pi (16 + 16 * n) _ _ 16); [by apply pdisj_sym|lia]. }
    exists m3. cbn [aes_blocks]. fold pi po. rewrite (bind_Some _ _ m tt m1 R1).
    change (Z.of_nat AES_BLOCK_SIZE) with 16. rewrite (bind_Some _ _ m1 tt m2 R2).
    rewrite (size_small (Z.of_nat cur + 16)) by lia.
    split; [replace (cur + (16 + 16 * n))%nat with (cur + 16 + 16 * n)%nat by lia;
            rewrite <- R3; f_equal; lia|].
    rewrite Epo in Hout, Hf3.
    split; [|split].
    + rewrite blockwise_cons by (done || lia). apply mread_join; [|exact Hout].
      rewrite (mframe_read _ _ _ Hf3).
      * rewrite (mread_mwrite_disj _ _ _ _ _ _ W2).
        { rewrite <- HlE at 1. exact (mread_mwrite _ _ _ _ W1). }
        rewrite le_bytes_length. apply pdisj_sym, (pdisj_take _ (16 + 16 * n)); [done|lia].
      * apply (mvalid_mwrite_iff _ _ _ _ _ _ W2), (mvalid_mwrite_iff _ _ _ _ _ _ W1).
        by apply (mvalid_take m po (16 + 16 * n)); [|lia].
      * apply Forall_cons_2; [|apply Forall_cons_2; [|by constructor]]; cbn [fst snd].
        { apply pdisj_sym. by apply (pdisj_next po 16 16). }
        { apply pdisj_sym, (pdisj_take _ (16 + 16 * n)); [done|lia]. }
    + rewrite Hol3. do 2 f_equal. f_equal. lia.
    + transitivity m1; [eapply mwrite_frame; [done|left|lia]|].
      transitivity m2; [eapply mwrite_frame; [done|right; left|by rewrite le_bytes_length]|].
      eapply mframe_mono; [done|]. apply covers_cons; [|apply covers_take with size_bytes; [right; left|done]].
      apply (covers_sub _ po (16 + 16 * n) 16); [left|lia].
Qed.

Lemma set_key_dec stack password m key :
  mread m password 16 = Some key → is_bytes key → length (rd_key stack) = 60%nat →
  ∃ dk, set_key AES_set_decrypt_key stack password m = Some (Some dk, m) ∧ 1 < rounds dk ∧
    ∀ b, sized b → aes_dec dk b = AesSpec.InvCipher 10 (AesSpec.KeyExpansion 4 10 key) b.
Proof.
  intros Hr Hb Hl. assert (Hk : is_key 4 key) by (split_and!; [lia|by apply mread_length in Hr|done]).
  destruct (key_pair_exists 4 key stack stack Hk Hl Hl) as (ek & dk & _ & E & Hp).
  destruct (key_pair_spec 4 key ek dk Hk Hp) as (_ & Hround & Hs).
  exists dk. split; [|split; [done|]].
  - unfold set_key. rewrite (bind_Some _ _ m key m) by by apply load_Some.
    change PASSWORD_LENGTH_128 with (32 * Z.of_nat 4). by rewrite E.
  - intros b Hsz. unfold aes_dec. by destruct (Hs b Hsz) as [_ ->].
Qed.

Lemma aes_dec_shape dk : 1 < rounds dk → ∀ b, length (aes_dec dk b) = 16%nat ∧ is_bytes (aes_dec dk b).
Proof.
  intros Hr b. destruct (aes_crypt_total dec_round dec_last dk b Hr) as (c & Hc & Hl & Hb).
  unfold aes_dec, aes_decrypt_bytes. by rewrite Hc.
Qed.

Lemma decrypted_ext D D' flag cs :
  is_bytes cs → (∀ b, sized b → D b = D' b) → SealSpec.is_sealed flag cs →
  SealSpec.decrypted D cs = SealSpec.decrypted D' cs.
Proof.
  intros Hb HD (H4 & Hmod & _). unfold SealSpec.decrypted. pose proof (Nat.div_mod_eq (length cs - 4) 16).
  apply (blockwise_ext D D' 16 ((length cs - 4) / 16)); [lia| |by apply Forall_take|rewrite length_take; lia].
  intros b Hl Hbb. by apply HD.
Qed.

Lemma opened_ext D D' flag cs out olen m ret m' :
  is_bytes cs → (∀ b, sized b → D b = D' b) →
  SealSpec.opened D flag cs out olen m ret m' → SealSpec.opened D' flag cs out olen m ret m'.
Proof.
  intros Hb HD. unfold SealSpec.opened, SealSpec.unseal.
  destruct (decide (SealSpec.is_sealed flag cs)) as [Hs|]; [|done]. by rewrite (decrypted_ext D D' flag).
Qed.

Lemma DecryptAES_ok stack password input out olen m key cs :
  let L := length cs in
  length (rd_key stack) = 60%nat → is_bytes key → is_bytes cs →
  mread m password 16 = Some key → mread m input L = Some cs → mvalid m out (L - 4) →
  mvalid m olen size_bytes → same_or_apart out input (L - 4) → pdisj out (L - 4) olen size_bytes →
  pdisj olen size_bytes input L → Z.of_nat L < 2 ^ 31 →
  ∃ ret m', DecryptAES stack password input (Z.of_nat L) out olen m = Some (ret, m') ∧
    mframe [(out, L - 4)%nat; (olen, size_bytes)] m m' ∧
    SealSpec.opened (AesSpec.InvCipher 10 (AesSpec.KeyExpansion 4 10 key)) ENCRYPTE_FLAG_AES cs out olen m ret m'.
Proof.
  intros L Hst Hkb Hcb Hp Hi Hvo Hve Hio Hoe Hei Hlt. unfold DecryptAES. rewrite decide_False.
  2:{ intros [->|[->| ->]]; [done|done|]. by destruct Hvo. }
  rewrite (bind_Some _ _ m _ m (check_encrypted_ok ENCRYPTE_FLAG_AES m input cs Hi ltac:(lia))).
  fold L. destruct (set_key_dec stack password m key Hp Hkb Hst) as (dk & Rk & Hround & Hdk).
  destruct (decide (SealSpec.is_sealed ENCRYPTE_FLAG_AES cs)) as [Hs|Hs].
  2:{ rewrite decide_True by done. exists (-1), m. split; [done|]. split; [done|]. by apply opened_refused. }
  rewrite decide_False by lia. assert (Hs' := Hs). destruct Hs' as (H4 & Hmod & _). fold L in H4, Hmod. fold L.
  set (t := (L - 4)%nat) in *. cbv zeta. rewrite (bind_Some _ _ m _ m Rk).
  replace (Z.of_nat L - CHECK_ENCRYPTED_SIZE) with (Z.of_nat t) by (unfold CHECK_ENCRYPTED_SIZE; lia).
  rewrite (size_small (Z.of_nat t)) by lia.
  destruct (mvalid_store m olen (le_bytes size_bytes (size 0))) as (m0 & W0 & R0);
    [by rewrite le_bytes_length|].
  rewrite (bind_Some _ _ m tt m0 R0). change (Z.of_nat AES_BLOCK_SIZE) with (Z.of_nat 16).
  rewrite <- Nat2Z.inj_mod, Hmod, <- Nat2Z.inj_div.
  pose proof (Nat.div_mod_eq t 16) as Ht. rewrite Hmod, Nat.add_0_r in Ht. set (q := (t / 16)%nat) in *.
  rewrite decide_False by done. rewrite to_signed_small, Nat2Z.id by lia.
  destruct (aes_dec_shape dk Hround (take 16 cs)) as [Hl1 _].
  pose proof (AES_decrypt_block_fun dk Hround) as HBF.
  destruct (aes_blocks_ok (AES_decrypt dk) (aes_dec dk) q 0 input out olen m0 (take t cs) 0)
    as (m1 & R1 & Hout1 & Hol1 & Hf1); rewrite ?padd_0; rewrite <- ?Ht; try done; try lia.
  { intros b. by apply aes_dec_shape. }
  { rewrite (mread_mwrite_disj _ _ _ _ _ _ W0); [apply (mread_take _ _ L); [done|lia]|].
    rewrite le_bytes_length. apply pdisj_sym, (pdisj_take _ L); [by apply pdisj_sym|lia]. }
  { by apply Forall_take. }
  { by apply (mvalid_mwrite_iff _ _ _ _ _ _ W0). }
  { by apply (mread_le_bytes _ _ _ _ W0). }
  { apply pdisj_sym, (pdisj_take _ L); [by apply pdisj_sym|lia]. }
  rewrite padd_0, <- Ht in Hout1, Hf1. rewrite Nat.add_0_l, <- Ht in R1. rewrite Z.add_0_l, <- Ht in Hol1.
  rewrite (bind_Some _ _ m0 _ m1 R1). set (p := blockwise (aes_dec dk) 16 (take t cs)) in *.
  assert (Hlp := mread_length _ _ _ _ Hout1).
  assert (Hpb : is_bytes p).
  { unfold p. apply (blockwise_bytes _ 16 q); [lia|intros; by apply aes_dec_shape|].
    rewrite length_take; unfold L in *; lia. }
  destruct (delete_padding_ok out olen m1 p t (Z.of_nat t)) as (ret & m2 & R2 & Hf2 & Hp2 & H2);
    [done|destruct q; lia|lia|done..|].
  exists ret, m2. split; [exact R2|]. split.
  - transitivity m0; [eapply mwrite_frame; [done|right; left|by rewrite le_bytes_length]|].
    transitivity m1; [done|]. eapply mframe_mono; [done|]. apply covers_take with size_bytes; [right; left|done].
  - apply (opened_ext (aes_dec dk)); [done|done|]. by apply (opened_intro (aes_dec dk) _ cs out olen m ret m1 m2).
Qed.

Lemma set_key_enc stack password m :
  set_key AES_set_encrypt_key stack password m = None ∨
  ∃ k, set_key AES_set_encrypt_key stack password m = Some (Some k, m).
Proof.
  unfold set_key, mbind, C_bind, load. destruct (mread m password 16) as [key|]; [right|by left].
  eexists. reflexivity.
Qed.

(** A computation whose continuation is undefined is undefined. *)
Lemma bind_undefined {A B} (c : C A) (k : A → C B) m :
  (∀ a m', k a m' = None) → (x ← c; k x) m = None.
Proof. intros Hk. unfold mbind, C_bind. destruct (c m) as [[a m']|]; [apply Hk|done]. Qed.

Lemma splice_lookup_inside {A} o (new old : list A) i :
  (o ≤ i < o + length new)%nat → (o ≤ length old)%nat → splice o new old !! i = new !! (i - o)%nat.
Proof.
  intros Hi Hl. unfold splice. rewrite lookup_app_r; rewrite length_take, Nat.min_l by lia; [|lia].
  by rewrite lookup_app_l by lia.
Qed.

Lemma mwrite_over m p xs ys m1 :
  mwrite m p xs = Some m1 → length xs = length ys → mwrite m1 p ys = mwrite m p ys.
Proof.
  unfold mwrite. destruct p as [|b o]; [done|]. destruct (m !! b) as [cells|] eqn:E; simpl; [|done].
  case_decide as Hr; [|done]. intros [= <-] Hl. rewrite lookup_insert_eq. simpl. unfold in_range in Hr.
  assert (Hs : (Z.to_nat o + length (Some <$> xs) ≤ length cells)%nat) by (rewrite length_fmap; lia).
  rewrite !decide_True by (unfold in_range; rewrite ?(splice_length _ _ _ Hs); lia). rewrite insert_insert_eq. do 2 f_equal.
  apply list_eq. intros i. destruct (decide (i < Z.to_nat o ∨ Z.to_nat o + length xs ≤ i)%nat).
  - rewrite !splice_lookup_outside; rewrite ?length_fmap, ?(splice_length _ _ _ Hs); try done; lia.
  - rewrite !splice_lookup_inside; rewrite ?length_fmap, ?(splice_length _ _ _ Hs); try done; lia.
Qed.

Lemma fill_key_ok rand n : ∀ i p m,
  mvalid m (padd p (Z.of_nat i)) n →
  ∃ m', fill_key rand n i p m = Some (tt, m') ∧
    mwrite m (padd p (Z.of_nat i))
      ((λ i, nKey !!! Z.to_nat (rand i mod 78)) <$> seq i n) = Some m'.
Proof.
  induction n as [|n IH]; intros i p m Hv.
  - apply (mvalid_mwrite m _ []) in Hv as [m' W]. exists m'. split; [|done]. by rewrite (mwrite_nil _ _ _ W).
  - cbn [fill_key seq]. change (Z.of_nat (length nKey)) with 78. set (c := nKey !!! _).
    destruct (mvalid_store m (padd p (Z.of_nat i)) [c]) as (m1 & W1 & R1);
      [by apply (mvalid_take _ _ (S n)); [|simpl; lia]|].
    assert (Ep : padd p (Z.of_nat (S i)) = padd (padd p (Z.of_nat i)) (Z.of_nat 1))
      by (rewrite padd_add; f_equal; lia).
    destruct (IH (S i) p m1) as (m2 & R2 & W2).
    { apply (mvalid_mwrite_iff _ _ _ _ _ _ W1). rewrite Ep. by apply (mvalid_sub _ _ (S n)); [|lia]. }
    exists m2. rewrite (bind_Some _ _ m tt m1 R1). split; [done|].
    rewrite fmap_cons. fold c. change (c :: ?l) with ([c] ++ l).
    rewrite mwrite_app, W1. simpl. by rewrite <- Ep.
Qed.
End WrapperFacts.

(** ** Properties *)
Section WrapperProperties.
Context {tgt : Target}.

(** C10: [EncryptSM4] on [n] bytes with [n < 2^31], in place or to a separate buffer of
    [16 * (n / 16 + 1) + 4] bytes, returns 0 without undefined behaviour; it writes
    the SM4 ECB encryption of the padded input and the check data there, the
    length to [*output_length], and changes nothing else. *)
Theorem EncryptSM4_seals stack password input out olen m key bs :
  let n := length bs in let total := (16 * S (n / 16) + 4)%nat in
  length (sk stack) = 32%nat → is_bytes key → is_bytes bs → Z.of_nat n < 2 ^ 31 →
  mread m password 16 = Some key → mread m input n = Some bs → mvalid m out total →
  mvalid m olen size_bytes → input = out ∨ pdisj out total input n → pdisj out total olen size_bytes →
  pdisj olen size_bytes input n →
  ∃ m', EncryptSM4 stack password input (Z.of_nat n) out olen m = Some (0, m') ∧
    mread m' out total = Some (SealSpec.seal (Sm4Spec.encrypt_block key) ENCRYPTE_FLAG_SM4 bs) ∧
    mread m' olen size_bytes = Some (le_bytes size_bytes (size (Z.of_nat total))) ∧
    mframe [(out, total); (olen, size_bytes)] m m'.
Proof.
  intros n total Hc Hkb Hb Hlt Hp Hi Hvo Hve Hio Hoe Hei.
  destruct (EncryptSM4_ok stack password input out olen m key bs) as (m' & R & Ho & He & Hf); [done..|].
  exists m'. split; [done|]. split; [|done]. etransitivity; [exact Ho|]. unfold SealSpec.seal. do 2 f_equal.
  apply (blockwise_ext _ _ 16 (S (n / 16))); [lia| |by apply SealFacts.pad_bytes|apply SealFacts.length_pad].
  intros b Hl Hbb. by apply sm4_setkey_enc_crypt.
Qed.

(** C11: what [DecryptSM4] does on an input of less than [2^31] bytes, sealed or not,
    in place or not, and what it leaves ([SealSpec.opened]). Without the check data it
    returns -1 and the memory is as before. With it, all decrypted bytes are in the
    output: when the last one is above 16 it returns -1 and leaves their number in
    [*output_length]; otherwise it returns 0 and the length left there is that number
    less the last byte. It has no undefined behaviour and writes nothing but the two
    outputs. *)
Theorem DecryptSM4_unseals stack password input out olen m key cs :
  let L := length cs in
  length (sk stack) = 32%nat → is_bytes key → is_bytes cs → Z.of_nat L < 2 ^ 31 →
  mread m password 16 = Some key → mread m input L = Some cs → mvalid m out (L - 4) →
  mvalid m olen size_bytes → same_or_apart out input (L - 4) → pdisj out (L - 4) olen size_bytes →
  pdisj olen size_bytes input L → pdisj olen size_bytes password 16 →
  ∃ ret m', DecryptSM4 stack password input (Z.of_nat L) out olen m = Some (ret, m') ∧
    mframe [(out, L - 4)%nat; (olen, size_bytes)] m m' ∧
    SealSpec.opened (Sm4Spec.decrypt_block key) ENCRYPTE_FLAG_SM4 cs out olen m ret m'.
Proof.
  intros L Hc Hkb Hb Hlt Hp Hi Hvo Hve Hio Hoe Hei Hep.
  destruct (DecryptSM4_ok stack password input out olen m key cs) as (ret & m' & R & Hf & Ho); [done..|].
  exists ret, m'. split; [done|]. split; [done|]. revert Ho. apply opened_ext; [done|].
  intros b [_ Hbb]. by apply sm4_setkey_dec_crypt.
Qed.

(** C9: [DecryptSM4] gives back what [EncryptSM4] was given, bytes and length, for
    every input of less than [2^31 - 20] bytes, the empty one included. *)
Theorem SM4_roundtrip stack stack' password input mid out olen olen' m key bs :
  let n := length bs in let total := (16 * S (n / 16) + 4)%nat in
  length (sk stack) = 32%nat → length (sk stack') = 32%nat → is_bytes key → is_bytes bs →
  Z.of_nat n < 2 ^ 31 - 20 →
  mread m password 16 = Some key → mread m input n = Some bs →
  mvalid m mid total → mvalid m out (total - 4) → mvalid m olen size_bytes → mvalid m olen' size_bytes →
  input = mid ∨ pdisj mid total input n → same_or_apart out mid (total - 4) →
  apart [(mid, total); (olen, size_bytes)] password 16 →
  apart [(mid, total); (input, n)] olen size_bytes →
  apart [(mid, total); (out, total - 4)%nat; (password, 16%nat)] olen' size_bytes →
  ∃ m1 m2, EncryptSM4 stack password input (Z.of_nat n) mid olen m = Some (0, m1) ∧
    DecryptSM4 stack' password mid (Z.of_nat total) out olen' m1 = Some (0, m2) ∧
    mread m2 out n = Some bs ∧
    mread m2 olen' size_bytes = Some (le_bytes size_bytes (size (Z.of_nat n))).
Proof.
  intros n total Hc Hc' Hkb Hb Hlt Hp Hi Hvm Hvo Hve Hve' Him Hom Hap1 Hap2 Hap3.
  assert (Hap1' := Hap1). unfold apart in Hap2, Hap3, Hap1'. split_Forall. cbn [fst snd] in *.
  destruct (EncryptSM4_ok stack password input mid olen m key bs) as (m1 & R1 & Ho1 & He1 & Hf1);
    [done..|by apply pdisj_sym|fold n; lia|].
  fold n total in R1, Ho1, He1, Hf1.
  set (E := sm4_one_round (sk (sm4_setkey_enc stack key))) in *.
  pose proof (sm4_block_cipher stack stack' key Hc Hc' Hkb) as HC.
  set (cs := SealSpec.seal E ENCRYPTE_FLAG_SM4 bs) in *.
  assert (Hlc : length cs = total).
  { unfold cs. rewrite SealFacts.length_seal; [done|intros; apply sm4_one_round_length]. }
  pose proof (Nat.div_mod_eq n 16). rewrite <- Hlc in *.
  destruct (DecryptSM4_ok stack' password mid out olen' m1 key cs) as (ret & m2 & R2 & Hf2 & Hres).
  { rewrite (mframe_read _ _ _ Hf1); [done|by eapply mread_mvalid|done]. }
  { done. }
  { by apply (mframe_valid _ _ _ Hf1). }
  { by apply (mframe_valid _ _ _ Hf1). }
  { done. }
  { done. }
  { by apply pdisj_sym. }
  { by apply pdisj_sym. }
  { rewrite Hlc. lia. }
  unfold SealSpec.opened, cs in Hres. rewrite (SealFacts.unseal_seal E _) in Hres by done.
  destruct Hres as (-> & Hout & Hol & _).
  by exists m1, m2.
Qed.

(** C12: [DecryptAES] in the same way, for AES with a 128-bit key and an input of less
    than [2^31] bytes: the value returned, the output and [*output_length] in the
    three cases of [SealSpec.opened], data that is not sealed, a last byte above 16
    and an opened text. *)
Theorem DecryptAES_unseals stack password input out olen m key cs :
  let L := length cs in
  length (rd_key stack) = 60%nat → is_bytes key → is_bytes cs → Z.of_nat L < 2 ^ 31 →
  mread m password 16 = Some key → mread m input L = Some cs → mvalid m out (L - 4) →
  mvalid m olen size_bytes → same_or_apart out input (L - 4) → pdisj out (L - 4) olen size_bytes →
  pdisj olen size_bytes input L →
  ∃ ret m', DecryptAES stack password input (Z.of_nat L) out olen m = Some (ret, m') ∧
    mframe [(out, L - 4)%nat; (olen, size_bytes)] m m' ∧
    SealSpec.opened (AesSpec.InvCipher 10 (AesSpec.KeyExpansion 4 10 key)) ENCRYPTE_FLAG_AES cs out olen m ret m'.
Proof. intros. by apply DecryptAES_ok. Qed.

(** C14: [EncryptAES] never returns when its pointers are not null: it sets the
    pointer [output_length] to null, where it means to set the length to 0, and
    then adds to the length it points to. *)
Theorem EncryptAES_undefined stack password input input_length out olen m :
  password ≠ Null → input ≠ Null → out ≠ Null →
  EncryptAES stack password input input_length out olen m = None.
Proof.
  intros Hp Hi Ho. unfold EncryptAES. rewrite decide_False by tauto.
  destruct (set_key_enc stack password m) as [E|[k E]]; unfold mbind at 1, C_bind at 1; rewrite E; [done|].
  do 3 (apply bind_undefined; intros). done.
Qed.

(** [CheckEncryptedSM4] and [CheckEncryptedAES] return 0 exactly for data that is
    whole blocks of 16 bytes, at least none, and then the four bytes of check data
    with the flag of the cipher; otherwise -1, and they change nothing. *)
Theorem CheckEncrypted_spec m input cs :
  let L := length cs in
  mread m input L = Some cs → Z.of_nat L < 2 ^ 32 →
  CheckEncryptedSM4 input (Z.of_nat L) m =
    Some (if decide (SealSpec.is_sealed ENCRYPTE_FLAG_SM4 cs) then 0 else -1, m) ∧
  CheckEncryptedAES input (Z.of_nat L) m =
    Some (if decide (SealSpec.is_sealed ENCRYPTE_FLAG_AES cs) then 0 else -1, m).
Proof. intros. split; by apply check_encrypted_ok. Qed.

(** A null password, input or output is refused by all four functions: -1, and
    the memory is as before. *)
Theorem null_arguments_refused stack stack' password input L out olen m :
  password = Null ∨ input = Null ∨ out = Null →
  EncryptSM4 stack password input L out olen m = Some (-1, m) ∧
  DecryptSM4 stack password input L out olen m = Some (-1, m) ∧
  EncryptAES stack' password input L out olen m = Some (-1, m) ∧
  DecryptAES stack' password input L out olen m = Some (-1, m).
Proof.
  intros H. unfold EncryptSM4, DecryptSM4, EncryptAES, DecryptAES. by rewrite !decide_True.
Qed.

(** [CreateSecretKey] returns 0 and does nothing for a null or short buffer, and
    otherwise returns 16 and fills the first 16 bytes with characters of its
    alphabet, the ones that [rand] picks. *)
Theorem CreateSecretKey_spec rand p len m :
  (p = Null ∨ len < 16 → CreateSecretKey rand p len m = Some (0, m)) ∧
  (16 <= len → mvalid m p 16 →
   let key := (λ i, nKey !!! Z.to_nat (rand i mod 78)) <$> seq 0 16 in
   ∃ m', CreateSecretKey rand p len m = Some (16, m') ∧ mwrite m p key = Some m' ∧
     Forall (λ c, c ∈ nKey) key).
Proof.
  unfold CreateSecretKey. cbv zeta. split; [intros; by rewrite decide_True|].
  intros Hlen Hv. rewrite decide_False by (intros [->|?]; [done|lia]).
  destruct (mvalid_store m p (replicate 16 0)) as (m1 & W1 & R1); [done|].
  destruct (fill_key_ok rand 16 0 p m1) as (m2 & R2 & W2);
    [rewrite padd_0; by apply (mvalid_mwrite_iff _ _ _ _ _ _ W1)|].
  exists m2. rewrite padd_0 in W2.
  rewrite (bind_Some _ _ m tt m1) by done. rewrite (bind_Some _ _ m1 tt m2) by done.
  split; [done|]. split; [by rewrite (mwrite_over _ _ _ _ _ W1) in W2|].
  apply Forall_fmap, Forall_true. intros i. cbn [compose].
  destruct (lookup_lt_is_Some_2 nKey (Z.to_nat (rand i mod 78))) as [c Hc].
  - change (length nKey) with 78%nat. pose proof (Z.mod_pos_bound (rand i) 78). lia.
  - rewrite (list_lookup_total_correct _ _ _ Hc). by eapply list_elem_of_lookup_2.
Qed.
End WrapperProperties.

(** *** Instances, on the Linux build *)

Definition demo_key : list Z := Z.of_nat <$> seq 1 16.
Definition demo_text : list Z := Z.of_nat <$> seq 65 20.
Definition demo_aes_key : AES_KEY := {| rd_key := replicate 60 0; rounds := 0 |}.
(** Key, text, sealed data, opened data, two lengths; a sealed text for AES. *)
Definition demo_mem : mem :=
  {[ 1%positive := Some <$> demo_key; 2%positive := Some <$> demo_text; 3%positive := replicate 36 None;
     4%positive := replicate 32 None; 5%positive := replicate 8 None; 6%positive := replicate 8 None ]}.

Lemma EncryptSM4_seals_witness :
  ∃ m', @EncryptSM4 LP64_x86 example_ctx (Ptr 1 0) (Ptr 2 0) 20 (Ptr 3 0) (Ptr 5 0) demo_mem = Some (0, m') ∧
    mread m' (Ptr 3 0) 36 = Some (SealSpec.seal (Sm4Spec.encrypt_block demo_key) 2 demo_text) ∧
    mread m' (Ptr 5 0) 8 = Some (le_bytes 8 (@size LP64_x86 36)) ∧
    mframe [(Ptr 3 0, 36%nat); (Ptr 5 0, 8%nat)] demo_mem m'.
Proof.
  apply (@EncryptSM4_seals LP64_x86 example_ctx (Ptr 1 0) (Ptr 2 0) (Ptr 3 0) (Ptr 5 0) demo_mem demo_key demo_text);
    [done|decide_by_compute|decide_by_compute|done|vm_compute; done|vm_compute; done|decide_by_compute|
     decide_by_compute|right; decide_by_compute|decide_by_compute|decide_by_compute].
Defined.

(** Data that is not sealed, the text itself, is refused. *)
Lemma DecryptSM4_unseals_witness :
  ∃ ret m', @DecryptSM4 LP64_x86 example_ctx (Ptr 1 0) (Ptr 2 0) 20 (Ptr 4 0) (Ptr 5 0) demo_mem = Some (ret, m') ∧
    mframe [(Ptr 4 0, 16%nat); (Ptr 5 0, 8%nat)] demo_mem m' ∧ ret = -1 ∧ m' = demo_mem.
Proof.
  apply (@DecryptSM4_unseals LP64_x86 example_ctx (Ptr 1 0) (Ptr 2 0) (Ptr 4 0) (Ptr 5 0) demo_mem demo_key demo_text);
    [done|decide_by_compute|decide_by_compute|done|vm_compute; done|vm_compute; done|decide_by_compute|
     decide_by_compute|right; decide_by_compute|decide_by_compute|decide_by_compute|decide_by_compute].
Defined.

Lemma SM4_roundtrip_witness :
  ∃ m1 m2,
    @EncryptSM4 LP64_x86 example_ctx (Ptr 1 0) (Ptr 2 0) 20 (Ptr 3 0) (Ptr 5 0) demo_mem = Some (0, m1) ∧
    @DecryptSM4 LP64_x86 example_ctx (Ptr 1 0) (Ptr 3 0) 36 (Ptr 4 0) (Ptr 6 0) m1 = Some (0, m2) ∧
    mread m2 (Ptr 4 0) 20 = Some demo_text ∧
    mread m2 (Ptr 6 0) 8 = Some (le_bytes 8 (@size LP64_x86 20)).
Proof.
  apply (@SM4_roundtrip LP64_x86 example_ctx example_ctx (Ptr 1 0) (Ptr 2 0) (Ptr 3 0) (Ptr 4 0) (Ptr 5 0)
    (Ptr 6 0) demo_mem demo_key demo_text);
    [done|done|decide_by_compute|decide_by_compute|done|vm_compute; done|vm_compute; done|decide_by_compute|
     decide_by_compute|decide_by_compute|decide_by_compute|right; decide_by_compute|decide_by_compute..].
Defined.

(** One block in which the last byte is 3, sealed for AES. *)
Definition demo_sealed : list Z := Eval vm_compute in
  SealSpec.seal (AesSpec.Cipher 10 (AesSpec.KeyExpansion 4 10 demo_key)) 1 (take 13 demo_text).
Definition demo_aes_mem : mem :=
  {[ 1%positive := Some <$> demo_key; 2%positive := Some <$> demo_sealed; 4%positive := replicate 16 None;
     5%positive := replicate 8 None ]}.

Lemma DecryptAES_unseals_witness :
  ∃ ret m', @DecryptAES LP64_x86 demo_aes_key (Ptr 1 0) (Ptr 2 0) 20 (Ptr 4 0) (Ptr 5 0) demo_aes_mem
      = Some (ret, m') ∧
    mframe [(Ptr 4 0, 16%nat); (Ptr 5 0, 8%nat)] demo_aes_mem m' ∧
    ret = 0 ∧ mread m' (Ptr 4 0) 13 = Some (take 13 demo_text) ∧
    mread m' (Ptr 5 0) 8 = Some (le_bytes 8 (@size LP64_x86 13)) ∧
    mread m' (Ptr 4 0) 16 = Some (take 13 demo_text ++ [3; 3; 3]).
Proof.
  assert (E : SealSpec.unseal (AesSpec.InvCipher 10 (AesSpec.KeyExpansion 4 10 demo_key)) 1 demo_sealed
    = Some (take 13 demo_text)) by (vm_compute; done).
  destruct (@DecryptAES_unseals LP64_x86 demo_aes_key (Ptr 1 0) (Ptr 2 0) (Ptr 4 0) (Ptr 5 0) demo_aes_mem
    demo_key demo_sealed) as (ret & m' & R & Hf & H);
    [done|decide_by_compute|decide_by_compute|done|vm_compute; done|vm_compute; done|decide_by_compute|
     decide_by_compute|right; decide_by_compute|decide_by_compute|decide_by_compute|].
  unfold SealSpec.opened in H. change ENCRYPTE_FLAG_AES with 1 in H. rewrite E in H.
  assert (Ed : SealSpec.decrypted (AesSpec.InvCipher 10 (AesSpec.KeyExpansion 4 10 demo_key)) demo_sealed
    = take 13 demo_text ++ [3; 3; 3]) by (vm_compute; done).
  rewrite Ed in H. exists ret, m'. split; [exact R|]. split; [exact Hf|exact H].
Defined.

Lemma EncryptAES_undefined_witness :
  @EncryptAES LP64_x86 demo_aes_key (Ptr 1 0) (Ptr 2 0) 20 (Ptr 3 0) (Ptr 5 0) demo_mem = None.
Proof. apply EncryptAES_undefined; done. Defined.

Lemma CheckEncrypted_spec_witness :
  @CheckEncryptedSM4 LP64_x86 (Ptr 2 0) 20 demo_aes_mem = Some (-1, demo_aes_mem) ∧
  @CheckEncryptedAES LP64_x86 (Ptr 2 0) 20 demo_aes_mem = Some (0, demo_aes_mem).
Proof.
  destruct (@CheckEncrypted_spec LP64_x86 demo_aes_mem (Ptr 2 0) demo_sealed) as [H1 H2];
    [vm_compute; done|done|]. split; [etransitivity; [exact H1|vm_compute; done]|].
  etransitivity; [exact H2|vm_compute; done].
Defined.

Lemma null_arguments_refused_witness :
  @EncryptSM4 LP64_x86 example_ctx (Ptr 1 0) Null 20 (Ptr 3 0) (Ptr 5 0) demo_mem = Some (-1, demo_mem).
Proof. apply (@null_arguments_refused LP64_x86 example_ctx demo_aes_key); right; left; done. Defined.

Lemma CreateSecretKey_spec_witness :
  CreateSecretKey (λ i, 1000 * Z.of_nat i) (Ptr 5 0) 8 demo_mem = Some (0, demo_mem) ∧
  ∃ m', CreateSecretKey (λ i, 1000 * Z.of_nat i) (Ptr 4 0) 32 demo_mem = Some (16, m').
Proof.
  split; [apply (CreateSecretKey_spec (λ i, 1000 * Z.of_nat i)); by right|].
  destruct (CreateSecretKey_spec (λ i, 1000 * Z.of_nat i) (Ptr 4 0) 32 demo_mem) as [_ H].
  destruct H as (m' & R & _); [done|decide_by_compute|]. by exists m'.
Defined.
