(* ===== verification/MsList.v ===== *)
(** * MsList: the doubly linked list of [src/common/Common.c]

    A heap of nodes with [next] and [prev] pointers and a data pointer, and the
    operations as the code has them. [dlist h p l] says that [p] is the head of a
    list whose nodes and data are [l]; each operation refines the operation on the
    list of data. [malloc] is taken to succeed, as the code takes it. *)

From stdpp Require Import sorting.
From S2P Require Import Prelude.

(** A node's address, and a pointer: null or an address. Data pointers are integers. *)
Abbreviation loc := positive.
Abbreviation lptr := (option loc).

(** [MSList]. *)
Record MSList := { next : lptr; prev : lptr; data : Z }.
Abbreviation heap := (gmap loc MSList).

(** Computations on the heap; [None] is undefined behaviour: a null or dangling
    pointer, or a loop that does not end. *)
Definition H (A : Type) : Type := heap → option (A * heap).
#[export] Instance H_ret : MRet H := λ A a h, Some (a, h).
#[export] Instance H_bind : MBind H := λ A B k c h,
  match c h with Some (a, h') => k a h' | None => None end.

Definition get (p : lptr) : H MSList := λ h,
  match p with Some x => match h !! x with Some n => Some (n, h) | None => None end | None => None end.
Definition put (p : lptr) (f : MSList → MSList) : H unit := λ h,
  match p with
  | Some x => match h !! x with Some n => Some (tt, <[x := f n]> h) | None => None end
  | None => None
  end.
Definition set_next (p v : lptr) : H unit := put p (λ n, {| next := v; prev := prev n; data := data n |}).
Definition set_prev (p v : lptr) : H unit := put p (λ n, {| next := next n; prev := v; data := data n |}).
Definition malloc (n : MSList) : H lptr := λ h,
  let x := fresh (dom h) in Some (Some x, <[x := n]> h).
Definition free (p : lptr) : H unit := λ h,
  match p with
  | None => Some (tt, h)
  | Some x => match h !! x with Some _ => Some (tt, delete x h) | None => None end
  end.

(** A loop may take as many turns as the heap has nodes, and one more. *)
Definition with_fuel {A} (f : nat → H A) : H A := λ h, f (S (size h)) h.

(** ** The code *)

Definition ms_list_new (d : Z) : H lptr := malloc {| next := None; prev := None; data := d |}.

(** [while (it->next != NULL) it = ms_list_next(it);] *)
Fixpoint last_node (fuel : nat) (it : lptr) : H lptr :=
  match fuel with
  | O => λ _, None
  | S fuel => n ← get it; match next n with None => mret it | Some _ => last_node fuel (next n) end
  end.

Definition ms_list_append (elem : lptr) (d : Z) : H lptr :=
  new_elem ← ms_list_new d;
  match elem with
  | None => mret new_elem
  | Some _ =>
      it ← with_fuel (λ fuel, last_node fuel elem);
      set_next it new_elem;; set_prev new_elem it;; mret elem
  end.

Definition ms_list_prepend (elem : lptr) (d : Z) : H lptr :=
  new_elem ← ms_list_new d;
  (match elem with
   | None => mret tt
   | Some _ => set_next new_elem elem;; set_prev elem new_elem
   end);;
  mret new_elem.

Definition ms_list_concat (first second : lptr) : H lptr :=
  match first with
  | None => mret second
  | Some _ =>
      it ← with_fuel (λ fuel, last_node fuel first);
      set_next it second;; set_prev second it;; mret first
  end.

Fixpoint free_loop (fuel : nat) (elem : lptr) : H unit :=
  match fuel with
  | O => λ _, None
  | S fuel =>
      n ← get elem;
      match next n with None => free elem | Some _ => free elem;; free_loop fuel (next n) end
  end.
Definition ms_list_free (l : lptr) : H lptr :=
  match l with None => mret None | Some _ => with_fuel (λ fuel, free_loop fuel l);; mret None end.

Fixpoint size_loop (fuel : nat) (first : lptr) (n : Z) : H Z :=
  match first, fuel with
  | None, _ => mret n
  | Some _, O => λ _, None
  | Some _, S fuel => e ← get first; size_loop fuel (next e) (n + 1)
  end.
(** The count is an [int]; a list has fewer than [2^31] nodes in 32 bits of memory. *)
Definition ms_list_size (first : lptr) : H Z := with_fuel (λ fuel, size_loop fuel first 0).

(** The loops of the searching functions: the first node, its position and its data,
    for which [test] holds of the address and the data. *)
Fixpoint search (fuel : nat) (test : loc → Z → Z → bool) (l : lptr) (i : Z) : H (option (loc * Z * Z)) :=
  match l, fuel with
  | None, _ => mret None
  | Some _, O => λ _, None
  | Some x, S fuel =>
      e ← get l;
      if test x (data e) i then mret (Some (x, data e, i)) else search fuel test (next e) (i + 1)
  end.

Definition ms_list_find (l : lptr) (d : Z) : H lptr :=
  r ← with_fuel (λ fuel, search fuel (λ _ e _, e =? d) l 0);
  mret ((λ r, r.1.1) <$> r).
Definition ms_list_find_custom (l : lptr) (compare_func : Z → Z → Z) (user_data : Z) : H lptr :=
  r ← with_fuel (λ fuel, search fuel (λ _ e _, compare_func e user_data =? 0) l 0);
  mret ((λ r, r.1.1) <$> r).
(** A null data pointer is 0. *)
Definition ms_list_nth_data (l : lptr) (index : Z) : H Z :=
  r ← with_fuel (λ fuel, search fuel (λ _ _ i, i =? index) l 0);
  mret (match r with Some r => r.1.2 | None => 0 end).
Definition ms_list_position (l elem : lptr) : H Z :=
  r ← with_fuel (λ fuel, search fuel (λ x _ _, bool_decide (elem = Some x)) l 0);
  mret (match r with Some r => r.2 | None => -1 end).
Definition ms_list_index (l : lptr) (d : Z) : H Z :=
  r ← with_fuel (λ fuel, search fuel (λ _ e _, d =? e) l 0);
  mret (match r with Some r => r.2 | None => -1 end).

Definition ms_list_remove_link (l elem : lptr) : H lptr :=
  if decide (elem = l) then
    e ← get elem;
    let ret := next e in
    set_prev elem None;; set_next elem None;;
    (match ret with None => mret tt | Some _ => set_prev ret None end);;
    free elem;; mret ret
  else
    e ← get elem; set_next (prev e) (next e);;
    e ← get elem;
    (match next e with None => mret tt | Some _ => set_prev (next e) (prev e) end);;
    set_next elem None;; set_prev elem None;; free elem;; mret l.

Definition ms_list_remove (first : lptr) (d : Z) : H lptr :=
  it ← ms_list_find first d;
  match it with Some _ => ms_list_remove_link first it | None => mret first end.

(** The two [for_each] functions; the callback is a computation of its own. *)
Fixpoint for_each_loop (fuel : nat) (func : Z → H unit) (l : lptr) : H unit :=
  match l, fuel with
  | None, _ => mret tt
  | Some _, O => λ _, None
  | Some _, S fuel => e ← get l; func (data e);; e ← get l; for_each_loop fuel func (next e)
  end.
Definition ms_list_for_each (l : lptr) (func : Z → H unit) : H unit :=
  with_fuel (λ fuel, for_each_loop fuel func l).
Definition ms_list_for_each2 (l : lptr) (func : Z → Z → H unit) (user_data : Z) : H unit :=
  with_fuel (λ fuel, for_each_loop fuel (λ d, func d user_data) l).

(** The loop of [ms_list_insert_sorted]; [previt] is the last node seen. *)
Fixpoint insert_loop (fuel : nat) (compare_func : Z → Z → Z) (d : Z) (nelem ret previt it : lptr) : H lptr :=
  match it, fuel with
  | None, _ => set_next previt nelem;; set_prev nelem previt;; mret ret
  | Some _, O => λ _, None
  | Some _, S fuel =>
      e ← get it;
      if decide (compare_func d (data e) <= 0) then
        set_prev nelem (prev e);; set_next nelem it;;
        ret ← match prev e with
              | Some _ => set_next (prev e) nelem;; mret ret
              | None => mret nelem
              end;
        set_prev it nelem;; mret ret
      else insert_loop fuel compare_func d nelem ret it (next e)
  end.
Definition ms_list_insert_sorted (l : lptr) (d : Z) (compare_func : Z → Z → Z) : H lptr :=
  match l with
  | None => ms_list_append l d
  | Some _ =>
      nelem ← ms_list_new d;
      with_fuel (λ fuel, insert_loop fuel compare_func d nelem l None l)
  end.

(** The loop of [ms_list_insert]: it goes on after the insertion, over the rest. *)
Fixpoint insert_before_loop (fuel : nat) (l before : lptr) (d : Z) (elem : lptr) : H lptr :=
  match elem, fuel with
  | None, _ => mret l
  | Some _, O => λ _, None
  | Some _, S fuel =>
      (if decide (elem = before) then
         e ← get elem;
         match prev e with
         | None => r ← ms_list_prepend l d; mret (Some r)
         | Some _ =>
             nelem ← ms_list_new d;
             set_prev nelem (prev e);; set_next nelem elem;;
             set_next (prev e) nelem;; set_prev elem nelem;; mret None
         end
       else mret None) ≫= λ r,
      match r with
      | Some r => mret r
      | None => e ← get elem; insert_before_loop fuel l before d (next e)
      end
  end.
Definition ms_list_insert (l before : lptr) (d : Z) : H lptr :=
  match l, before with
  | None, _ | _, None => ms_list_append l d
  | Some _, Some _ => with_fuel (λ fuel, insert_before_loop fuel l before d l)
  end.

Fixpoint copy_loop (fuel : nat) (iter copy : lptr) : H lptr :=
  match iter, fuel with
  | None, _ => mret copy
  | Some _, O => λ _, None
  | Some _, S fuel => e ← get iter; copy ← ms_list_append copy (data e); e ← get iter; copy_loop fuel (next e) copy
  end.
Definition ms_list_copy (l : lptr) : H lptr := with_fuel (λ fuel, copy_loop fuel l None).

(** ** Lists in the heap *)

Abbreviation nodes := (list (loc * Z)).
Abbreviation locs l := (fst <$> l).
Abbreviation datas l := (snd <$> l).

(** The address of the first node of [l], or [nx]; of the last one, or [pv]. *)
Definition first (l : nodes) (nx : lptr) : lptr := match l with [] => nx | (x, _) :: _ => Some x end.
Fixpoint lastp (l : nodes) (pv : lptr) : lptr := match l with [] => pv | (x, _) :: l' => lastp l' (Some x) end.

Lemma lastp_Some l pv : is_Some pv → is_Some (lastp l pv).
Proof. revert pv. induction l as [|[x d] l IH]; intros pv H; [done|]. cbn. apply IH. eauto. Qed.

Lemma match_last {A} l (a b : A) : l ≠ [] → match lastp l None with None => a | Some _ => b end = b.
Proof.
  destruct l as [|[x d] l]; [done|]. intros _. cbn.
  by destruct (lastp_Some l (Some x) ltac:(eauto)) as [y ->].
Qed.

(** The nodes [l] are linked one after the other, between [pv] and [nx]. *)
Fixpoint seg (h : heap) (pv : lptr) (l : nodes) (nx : lptr) : Prop :=
  match l with
  | [] => True
  | (x, d) :: l' => h !! x = Some {| next := first l' nx; prev := pv; data := d |} ∧ seg h (Some x) l' nx
  end.

Definition dlist (h : heap) (p : lptr) (l : nodes) : Prop :=
  p = first l None ∧ seg h None l None ∧ NoDup (locs l).

(** [h'] agrees with [h] outside the nodes [l]. *)
Definition same_outside (xs : list loc) (h h' : heap) : Prop := ∀ y, y ∉ xs → h' !! y = h !! y.

Lemma bind_ok {A B} (c : H A) (k : A → H B) h a h' :
  c h = Some (a, h') → (x ← c; k x) h = k a h'.
Proof. intros E. unfold mbind, H_bind. by rewrite E. Qed.

Lemma first_app l1 l2 nx : first (l1 ++ l2) nx = first l1 (first l2 nx).
Proof. by destruct l1. Qed.

Lemma match_first {A} l (a b : A) : l ≠ [] → match first l None with None => a | Some _ => b end = b.
Proof. by destruct l as [|[x d] l]. Qed.

Lemma lastp_app l1 : ∀ l2 pv, lastp (l1 ++ l2) pv = lastp l2 (lastp l1 pv).
Proof. induction l1 as [|[x d] l1 IH]; intros; [done|]. cbn. apply IH. Qed.

Lemma lastp_snoc l x d pv : lastp (l ++ [(x, d)]) pv = Some x.
Proof. by rewrite lastp_app. Qed.

Lemma seg_app h l1 : ∀ l2 pv nx,
  seg h pv (l1 ++ l2) nx ↔ seg h pv l1 (first l2 nx) ∧ seg h (lastp l1 pv) l2 nx.
Proof.
  induction l1 as [|[x d] l1 IH]; intros l2 pv nx; cbn [app seg].
  - unfold lastp. simpl. tauto.
  - rewrite IH, first_app. cbn [lastp]. tauto.
Qed.

Lemma seg_outside h h' l : ∀ pv nx,
  (∀ y, y ∈ locs l → h' !! y = h !! y) → seg h pv l nx → seg h' pv l nx.
Proof.
  induction l as [|[x d] l IH]; intros pv nx Hs; [done|]. cbn [seg]. intros [Hx Hl]. split.
  - by rewrite Hs by (left).
  - apply IH; [|done]. intros y Hy. apply Hs. by right.
Qed.

Lemma seg_lookup h l : ∀ pv nx x, seg h pv l nx → x ∈ locs l → ∃ n, h !! x = Some n.
Proof.
  induction l as [|[y d] l IH]; intros pv nx x Hs Hx; [by apply elem_of_nil in Hx|].
  destruct Hs as [Hy Hl]. cbn in Hx. apply elem_of_cons in Hx as [->|Hx]; [eauto|]. by eapply IH.
Qed.

Lemma locs_fresh h pv l nx x : seg h pv l nx → h !! x = None → x ∉ locs l.
Proof. intros Hs Hx Hin. destruct (seg_lookup h l pv nx x Hs Hin). congruence. Qed.

(** A list is no longer than the heap: the fuel is enough. *)
Lemma seg_size h pv l nx : seg h pv l nx → NoDup (locs l) → (length l ≤ size h)%nat.
Proof.
  intros Hs Hnd. rewrite <- (length_fmap fst), <- (size_list_to_set (C := gset loc)) by done.
  rewrite <- (size_dom (D := gset loc)). apply subseteq_size. intros x Hx.
  apply elem_of_list_to_set in Hx. destruct (seg_lookup h l pv nx x Hs Hx) as [n Hn].
  by apply elem_of_dom_2 in Hn.
Qed.

Lemma malloc_ok n h :
  ∃ x, h !! x = None ∧ malloc n h = Some (Some x, <[x := n]> h).
Proof. exists (fresh (dom h)). split; [|done]. apply not_elem_of_dom, is_fresh. Qed.

Lemma get_ok h x n : h !! x = Some n → get (Some x) h = Some (n, h).
Proof. intros E. unfold get. by rewrite E. Qed.

Lemma set_next_ok h x n v :
  h !! x = Some n → set_next (Some x) v h = Some (tt, <[x := {| next := v; prev := prev n; data := data n |}]> h).
Proof. intros E. unfold set_next, put. by rewrite E. Qed.

Lemma set_prev_ok h x n v :
  h !! x = Some n → set_prev (Some x) v h = Some (tt, <[x := {| next := next n; prev := v; data := data n |}]> h).
Proof. intros E. unfold set_prev, put. by rewrite E. Qed.

(** Relinking the last node of a segment, and the first one. *)
Lemma set_next_last h pv l nx nx' :
  seg h pv l nx → NoDup (locs l) → l ≠ [] →
  ∃ h', set_next (lastp l pv) nx' h = Some (tt, h') ∧ seg h' pv l nx' ∧ same_outside (locs l) h h'.
Proof.
  intros Hs Hnd Hl. destruct (exists_last Hl) as [l' [[x d] ->]]. rewrite lastp_snoc.
  rewrite fmap_app in Hnd. apply list.NoDup_app in Hnd as [_ [Hx _]].
  apply seg_app in Hs as [Hl' [Hn _]]. cbn [first] in Hl', Hn. eexists.
  split; [by rewrite (set_next_ok _ _ _ _ Hn)|]. split.
  - apply seg_app. split; [|by split; [rewrite lookup_insert_eq|]].
    apply (seg_outside h); [|done]. intros y Hy. rewrite lookup_insert_ne; [done|]. intros ->. apply (Hx y Hy). by left.
  - intros y Hy. rewrite lookup_insert_ne; [done|]. intros ->. apply Hy. rewrite fmap_app. apply elem_of_app. right. by left.
Qed.

Lemma set_prev_first h pv pv' l nx :
  seg h pv l nx → NoDup (locs l) → l ≠ [] →
  ∃ h', set_prev (first l None) pv' h = Some (tt, h') ∧ seg h' pv' l nx ∧ same_outside (locs l) h h'.
Proof.
  destruct l as [|[x d] l]; [done|]. intros [Hn Hl] Hnd _. apply list.NoDup_cons in Hnd as [Hx _].
  eexists. split; [by rewrite (set_prev_ok _ _ _ _ Hn)|]. split.
  - split; [by rewrite lookup_insert_eq|]. apply (seg_outside h); [|done].
    intros y Hy. rewrite lookup_insert_ne; [done|]. by intros ->.
  - intros y Hy. rewrite lookup_insert_ne; [done|]. intros ->. apply Hy. by left.
Qed.

Lemma seg_frame h h' xs pv l nx :
  same_outside xs h h' → (∀ x, x ∈ xs → x ∉ locs l) → seg h pv l nx → seg h' pv l nx.
Proof. intros Hs Hd. apply seg_outside. intros y Hy. apply Hs. intros Hin. by apply (Hd y). Qed.

(** *** Walking *)

Lemma last_node_ok h l : ∀ fuel pv x d,
  seg h pv ((x, d) :: l) None → (length l < fuel)%nat →
  last_node fuel (Some x) h = Some (lastp l (Some x), h).
Proof.
  induction l as [|[y e] l IH]; intros fuel pv x d Hs Hf; (destruct fuel as [|fuel]; [cbn in Hf; lia|]);
    cbn [last_node]; destruct Hs as [Hx Hl]; rewrite (bind_ok _ _ h _ h (get_ok _ _ _ Hx)); [done|].
  cbn [next first]. rewrite (IH fuel _ _ e Hl) by (cbn in Hf; lia). done.
Qed.

(** The first node whose address, data and position pass the test. *)
Fixpoint search_list (test : loc → Z → Z → bool) (l : nodes) (i : Z) : option (loc * Z * Z) :=
  match l with
  | [] => None
  | (x, d) :: l => if test x d i then Some (x, d, i) else search_list test l (i + 1)
  end.

Lemma search_ok h test l : ∀ fuel pv i,
  seg h pv l None → (length l ≤ fuel)%nat →
  search fuel test (first l None) i h = Some (search_list test l i, h).
Proof.
  induction l as [|[x d] l IH]; intros fuel pv i Hs Hf; [by destruct fuel|].
  destruct fuel as [|fuel]; [cbn in Hf; lia|]. destruct Hs as [Hx Hl]. cbn [search first].
  rewrite (bind_ok _ _ h _ h (get_ok _ _ _ Hx)). cbn [data next search_list].
  destruct (test x d i); [done|]. eapply IH; [done|]. cbn in Hf; lia.
Qed.

(** *** Building blocks *)

Lemma NoDup_locs_app (l1 l2 : nodes) :
  NoDup (locs (l1 ++ l2)) ↔ NoDup (locs l1) ∧ (∀ y, y ∈ locs l1 → y ∉ locs l2) ∧ NoDup (locs l2).
Proof. rewrite fmap_app. apply list.NoDup_app. Qed.

Lemma locs_app_not (l1 l2 : nodes) y : y ∉ locs (l1 ++ l2) ↔ y ∉ locs l1 ∧ y ∉ locs l2.
Proof. rewrite fmap_app. apply not_elem_of_app. Qed.

Lemma same_outside_trans xs h1 h2 h3 : same_outside xs h1 h2 → same_outside xs h2 h3 → same_outside xs h1 h3.
Proof. intros H1 H2 y Hy. by rewrite H2, H1. Qed.

Lemma same_outside_mono xs ys h1 h2 :
  (∀ y, y ∉ ys → y ∉ xs) → same_outside xs h1 h2 → same_outside ys h1 h2.
Proof. intros Hs H1 y Hy. apply H1. by apply Hs. Qed.

Lemma new_ok d h :
  ∃ x h', ms_list_new d h = Some (Some x, h') ∧ h !! x = None ∧ seg h' None [(x, d)] None ∧ same_outside [x] h h'.
Proof.
  destruct (malloc_ok {| next := None; prev := None; data := d |} h) as (x & Hx & E).
  exists x, (<[x := {| next := None; prev := None; data := d |}]> h). split; [done|]. split; [done|]. split.
  - split; [|done]. by rewrite lookup_insert_eq.
  - intros y Hy. rewrite lookup_insert_ne; [done|]. intros ->. apply Hy. by left.
Qed.

(** Two segments become one: the code links the last node of one and the first of the other. *)
Lemma join_ok h l1 l2 nx pv :
  seg h None l1 nx → seg h pv l2 None → NoDup (locs (l1 ++ l2)) → l1 ≠ [] → l2 ≠ [] →
  ∃ h1 h', set_next (lastp l1 None) (first l2 None) h = Some (tt, h1) ∧
    set_prev (first l2 None) (lastp l1 None) h1 = Some (tt, h') ∧
    dlist h' (first l1 None) (l1 ++ l2) ∧ same_outside (locs (l1 ++ l2)) h h'.
Proof.
  intros H1 H2 Hnd N1 N2. pose proof Hnd as (Nd1 & Hd & Nd2)%NoDup_locs_app.
  destruct (set_next_last h None l1 nx (first l2 None) H1 Nd1 N1) as (h1 & E1 & S1 & O1).
  assert (seg h1 pv l2 None) as H2' by (apply (seg_frame h h1 (locs l1)); [done|apply Hd|done]).
  destruct (set_prev_first h1 pv (lastp l1 None) l2 None H2' Nd2 N2) as (h2 & E2 & S2 & O2).
  exists h1, h2. split; [done|]. split; [done|]. split; [split; [|split; [|done]]|].
  - rewrite first_app. by destruct l1.
  - apply seg_app. split; [|done]. apply (seg_frame h1 h2 (locs l2)); [done| |done]. intros y Hy Hy1. by apply (Hd y).
  - intros y [Y1 Y2]%locs_app_not. by rewrite O2, O1.
Qed.

Lemma walk_last h l : dlist h (first l None) l → l ≠ [] →
  with_fuel (λ fuel, last_node fuel (first l None)) h = Some (lastp l None, h).
Proof.
  intros (_ & Hs & Hnd) Hl. destruct l as [|[x d] l]; [done|]. apply (last_node_ok _ _ _ None x d); [done|].
  pose proof (seg_size _ _ _ _ Hs Hnd) as Hz. cbn in Hz. lia.
Qed.

Lemma walk_search h p l test : dlist h p l →
  with_fuel (λ fuel, search fuel test p 0) h = Some (search_list test l 0, h).
Proof.
  intros (-> & Hs & Hnd). eapply search_ok; [done|]. pose proof (seg_size _ _ _ _ Hs Hnd). lia.
Qed.

Lemma dlist_size h p l : dlist h p l → (length l ≤ size h)%nat.
Proof. intros (_ & Hs & Hnd). by eapply seg_size. Qed.

Lemma dlist_fresh h p l x : dlist h p l → h !! x = None → x ∉ locs l.
Proof. intros (_ & Hs & _). by eapply locs_fresh. Qed.

Lemma dlist_frame h h' xs p l :
  same_outside xs h h' → (∀ x, x ∈ xs → x ∉ locs l) → dlist h p l → dlist h' p l.
Proof. intros Ho Hd (? & Hs & ?). split; [done|]. split; [|done]. by eapply seg_frame. Qed.

Lemma NoDup_locs_new (l1 l2 : nodes) x d :
  NoDup (locs (l1 ++ l2)) → x ∉ locs (l1 ++ l2) → NoDup (locs (l1 ++ (x, d) :: l2)).
Proof.
  intros (N1 & Hd & N2)%NoDup_locs_app [X1 X2]%locs_app_not. apply NoDup_locs_app. split; [done|]. split.
  - intros y Hy. cbn. apply not_elem_of_cons. split; [by intros ->|by apply Hd].
  - cbn. by apply list.NoDup_cons.
Qed.

(** *** Adding nodes *)

Lemma append_ok h p l d : dlist h p l →
  ∃ x h', h !! x = None ∧ ms_list_append p d h = Some (first (l ++ [(x, d)]) None, h') ∧
    dlist h' (first (l ++ [(x, d)]) None) (l ++ [(x, d)]) ∧ same_outside (x :: locs l) h h'.
Proof.
  intros Hl. destruct (new_ok d h) as (x & h1 & E1 & Hx & S1 & O1). exists x. unfold ms_list_append.
  pose proof (dlist_fresh _ _ _ _ Hl Hx) as Hxl.
  assert (dlist h1 p l) as (-> & Hs & Hnd) by (apply (dlist_frame h h1 [x]); [done|set_solver|done]).
  rewrite (bind_ok _ _ h _ h1 E1). destruct (decide (l = [])) as [->|Hne].
  - exists h1. split; [done|]. split; [done|]. split; [|done]. split; [done|]. split; [done|]. apply NoDup_singleton.
  - rewrite first_app. destruct (join_ok h1 l [(x, d)] None None Hs S1) as (h2 & h3 & E2 & E3 & D & O3); [|done..|].
    { apply NoDup_locs_new; by rewrite app_nil_r. }
    exists h3. split; [done|]. rewrite (match_first l) by done.
    rewrite (bind_ok _ _ h1 _ h1 (walk_last _ _ (conj eq_refl (conj Hs Hnd)) Hne)).
    rewrite (bind_ok _ _ h1 _ h2 E2), (bind_ok _ _ h2 _ h3 E3). destruct l as [|[y e] l']; [done|].
    split; [done|]. split; [done|]. eapply same_outside_trans.
    + eapply same_outside_mono; [|exact O1]. set_solver.
    + eapply same_outside_mono; [|exact O3]. rewrite fmap_app. set_solver.
Qed.

Lemma prepend_ok h p l d : dlist h p l →
  ∃ x h', h !! x = None ∧ ms_list_prepend p d h = Some (Some x, h') ∧
    dlist h' (Some x) ((x, d) :: l) ∧ same_outside (x :: locs l) h h'.
Proof.
  intros Hl. destruct (new_ok d h) as (x & h1 & E1 & Hx & S1 & O1). exists x. unfold ms_list_prepend.
  pose proof (dlist_fresh _ _ _ _ Hl Hx) as Hxl.
  assert (dlist h1 p l) as (-> & Hs & Hnd) by (apply (dlist_frame h h1 [x]); [done|set_solver|done]).
  rewrite (bind_ok _ _ h _ h1 E1). destruct (decide (l = [])) as [->|Hne].
  - exists h1. split; [done|]. split; [done|]. split; [|done]. split; [done|]. split; [done|]. apply NoDup_singleton.
  - destruct (join_ok h1 [(x, d)] l None None S1 Hs) as (h2 & h3 & E2 & E3 & D & O3); [|done..|].
    { by apply (NoDup_locs_new [] l). }
    exists h3. split; [done|]. rewrite (match_first l) by done. cbn in E2, E3.
    rewrite (bind_ok _ _ h1 tt h3) by (by rewrite (bind_ok _ _ h1 tt h2 E2)).
    split; [done|]. split; [done|]. eapply same_outside_trans.
    + eapply same_outside_mono; [|exact O1]. set_solver.
    + exact O3.
Qed.

(** A new node between two segments: before the first node of [l2], as the code links it. *)
Lemma insert_between_ok h l1 l2 x d :
  seg h None [(x, d)] None → seg h None (l1 ++ l2) None → NoDup (locs (l1 ++ (x, d) :: l2)) → l2 ≠ [] →
  ∃ h1 h2 h3 h', set_prev (Some x) (lastp l1 None) h = Some (tt, h1) ∧
    set_next (Some x) (first l2 None) h1 = Some (tt, h2) ∧
    match lastp l1 None with None => mret tt | Some _ => set_next (lastp l1 None) (Some x) end h2 = Some (tt, h3) ∧
    set_prev (first l2 None) (Some x) h3 = Some (tt, h') ∧
    dlist h' (first (l1 ++ (x, d) :: l2) None) (l1 ++ (x, d) :: l2) ∧
    same_outside (locs (l1 ++ (x, d) :: l2)) h h'.
Proof.
  intros Sx Hs Hnd N2. pose proof Hnd as (Nd1 & Hd & [Hx2 Nd2]%list.NoDup_cons)%NoDup_locs_app.
  apply seg_app in Hs as [S1 S2]. fold (locs l2) in *.
  destruct (set_prev_first h None (lastp l1 None) [(x, d)] None Sx) as (h1 & E1 & T1 & O1); [apply NoDup_singleton|done|].
  destruct (set_next_last h1 (lastp l1 None) [(x, d)] None (first l2 None) T1) as (h2 & E2 & T2 & O2); [apply NoDup_singleton|done|].
  pose proof (same_outside_trans _ _ _ _ O1 O2) as O12.
  assert (∀ y, y ∈ locs [(x, d)] → y ∉ locs l1) as Hx1.
  { intros y ->%list_elem_of_singleton Hy. apply (Hd x Hy). by left. }
  assert (seg h2 None l1 (first l2 None)) as S1' by (by apply (seg_frame h _ _ _ _ _ O12)).
  assert (seg h2 (lastp l1 None) l2 None) as S2' by (apply (seg_frame h _ _ _ _ _ O12); [by intros y ->%list_elem_of_singleton|done]).
  assert (∃ h3, match lastp l1 None with None => mret tt | Some _ => set_next (lastp l1 None) (Some x) end h2 = Some (tt, h3) ∧
    seg h3 None l1 (Some x) ∧ same_outside (locs l1) h2 h3) as (h3 & E3 & T3 & O3).
  { destruct (decide (l1 = [])) as [->|N1]; [by exists h2|].
    destruct (set_next_last h2 None l1 (first l2 None) (Some x) S1' Nd1 N1) as (h3 & E3 & T3).
    exists h3. split; [|done]. by rewrite match_last. }
  assert (seg h3 (lastp l1 None) l2 None) as S2''.
  { apply (seg_frame h2 _ _ _ _ _ O3); [|done]. intros y Hy Hin. apply (Hd y Hy). by right. }
  destruct (set_prev_first h3 (lastp l1 None) (Some x) l2 None S2'' Nd2 N2) as (h4 & E4 & T4 & O4).
  exists h1, h2, h3, h4. split; [done|]. split; [done|]. split; [done|]. split; [done|].
  assert (same_outside (locs (l1 ++ (x, d) :: l2)) h2 h4) as O24.
  { intros y [Y1 [_ Y2]%not_elem_of_cons]%locs_app_not. by rewrite O4, O3. }
  split; [|eapply same_outside_trans; [|exact O24]; eapply same_outside_mono; [|exact O12]; rewrite fmap_app; set_solver].
  split; [done|]. split; [|done]. apply seg_app. split.
  - apply (seg_frame h3 _ _ _ _ _ O4); [|done]. intros y Hy Hy1. apply (Hd y Hy1). by right.
  - split; [|done]. rewrite O4, O3; [by destruct T2| |done]. apply Hx1. by left.
Qed.

(** Where [ms_list_insert_sorted] puts a node. *)
Fixpoint sorted_insert (compare_func : Z → Z → Z) (n : loc * Z) (l : nodes) : nodes :=
  match l with
  | [] => [n]
  | m :: l' => if decide (compare_func n.2 m.2 <= 0) then n :: l else m :: sorted_insert compare_func n l'
  end.

Lemma sorted_insert_perm cmp n l : sorted_insert cmp n l ≡ₚ n :: l.
Proof.
  induction l as [|m l IH]; [done|]. cbn. case_decide; [done|]. rewrite IH. by constructor.
Qed.

Lemma sorted_insert_not_nil cmp n l : sorted_insert cmp n l ≠ [].
Proof. destruct l; [done|]. cbn. by case_decide. Qed.

Lemma sorted_insert_sorted (cmp : Z → Z → Z) n l :
  (∀ a b, 0 < cmp a b → cmp b a <= 0) →
  Sorted (λ a b, cmp a b <= 0) (datas l) → Sorted (λ a b, cmp a b <= 0) (datas (sorted_insert cmp n l)).
Proof.
  intros Ht. induction l as [|m l IH]; intros Hs; [by repeat constructor|]. cbn [sorted_insert].
  pose proof Hs as [Hl Hm]%Sorted_inv. case_decide as Hc; [constructor; [done|by constructor]|]. constructor; [by apply IH|].
  destruct l as [|m' l]; cbn; [constructor; apply Ht; lia|].
  case_decide; constructor; [apply Ht; lia|]. by inversion Hm.
Qed.

Lemma insert_loop_ok cmp h x d l2 : ∀ fuel l1 previt,
  seg h None [(x, d)] None → dlist h (first (l1 ++ l2) None) (l1 ++ l2) → x ∉ locs (l1 ++ l2) →
  l1 ++ l2 ≠ [] → (length l2 ≤ fuel)%nat → (l2 = [] → previt = lastp l1 None) →
  let l' := l1 ++ sorted_insert cmp (x, d) l2 in
  ∃ h', insert_loop fuel cmp d (Some x) (first (l1 ++ l2) None) previt (first l2 None) h = Some (first l' None, h') ∧
    dlist h' (first l' None) l' ∧ same_outside (locs l') h h'.
Proof.
  induction l2 as [|[y e] l2 IH]; intros fuel l1 previt Sx Hl Hx Hne Hf Hp l'; pose proof Hl as (_ & Hs & Hnd).
  - rewrite Hp by done. rewrite app_nil_r in *.
    destruct (join_ok h l1 [(x, d)] None None Hs Sx) as (h1 & h2 & E1 & E2 & D & O); [|done..|].
    { apply NoDup_locs_new; by rewrite app_nil_r. }
    exists h2. destruct fuel; cbn [insert_loop first sorted_insert] in *;
      rewrite (bind_ok _ _ h tt h1 E1), (bind_ok _ _ h1 tt h2 E2); by destruct l1 as [|[? ?] ?].
  - destruct fuel as [|fuel]; [cbn in Hf; lia|]. cbn [insert_loop first].
    pose proof Hs as [_ [Hy _]]%seg_app. rewrite (bind_ok _ _ h _ h (get_ok _ _ _ Hy)).
    cbn [data prev next]. unfold l'. cbn [sorted_insert snd]. case_decide as Hc.
    + destruct (insert_between_ok h l1 ((y, e) :: l2) x d Sx Hs) as (h1 & h2 & h3 & h4 & E1 & E2 & E3 & E4 & D & O); [|done|].
      { by apply NoDup_locs_new. }
      exists h4. rewrite (bind_ok _ _ h tt h1 E1), (bind_ok _ _ h1 tt h2 E2). split; [|done].
      destruct (decide (l1 = [])) as [->|N1].
      * cbn in *. injection E3 as ->.
        rewrite (bind_ok _ _ h3 (Some x) h3) by done. by rewrite (bind_ok _ _ h3 tt h4 E4).
      * rewrite (match_last (A := H unit) l1 (mret tt) _ N1) in E3. rewrite (match_last (A := H lptr) l1) by done. 
        rewrite (bind_ok _ _ h2 (first (l1 ++ (y, e) :: l2) None) h3) by (by rewrite (bind_ok _ _ h2 tt h3 E3)).
        rewrite (bind_ok _ _ h3 tt h4 E4). by destruct l1 as [|[? ?] ?].
    + replace (l1 ++ (y, e) :: sorted_insert cmp (x, d) l2) with ((l1 ++ [(y, e)]) ++ sorted_insert cmp (x, d) l2) by (by rewrite <- app_assoc).
      replace (l1 ++ (y, e) :: l2) with ((l1 ++ [(y, e)]) ++ l2) in * by (by rewrite <- app_assoc).
      apply IH; try done; [cbn in Hf; lia|]. intros ->. by rewrite lastp_snoc.
Qed.

(** C33: [ms_list_insert_sorted] puts a new node before the first node whose data is not
    below, or at the end; the other nodes stay, nothing else in the heap changes, and a
    sorted list stays sorted under any total comparison. *)
Theorem ms_list_insert_sorted_spec h p l d cmp : dlist h p l →
  ∃ x h', h !! x = None ∧
    let l' := sorted_insert cmp (x, d) l in
    ms_list_insert_sorted p d cmp h = Some (first l' None, h') ∧ dlist h' (first l' None) l' ∧
    same_outside (x :: locs l) h h' ∧ l' ≡ₚ (x, d) :: l ∧
    ((∀ a b, 0 < cmp a b → cmp b a <= 0) →
     Sorted (λ a b, cmp a b <= 0) (datas l) → Sorted (λ a b, cmp a b <= 0) (datas l')).
Proof.
  intros Hl. destruct (decide (l = [])) as [->|Hne].
  - destruct (append_ok h p [] d Hl) as (x & h' & Hx & E & D & O). exists x, h'. split; [done|].
    destruct Hl as [-> _]. do 4 (split; [done|]). intros _ _. by repeat constructor.
  - destruct (new_ok d h) as (x & h1 & E1 & Hx & S1 & O1).
    pose proof (dlist_fresh _ _ _ _ Hl Hx) as Hxl.
    assert (dlist h1 p l) as D1 by (apply (dlist_frame h h1 [x]); [done|set_solver|done]).
    assert (p = first l None) as -> by apply Hl.
    destruct (insert_loop_ok cmp h1 x d l (S (size h1)) [] None S1 D1 Hxl Hne) as (h2 & E2 & D2 & O2); [|done|].
    { pose proof (dlist_size _ _ _ D1). lia. }
    exists x, h2. split; [done|]. cbn zeta. split; [|split; [done|split; [|split; [apply sorted_insert_perm|intros ? ?; by apply sorted_insert_sorted]]]].
    + unfold ms_list_insert_sorted. rewrite match_first by done. by rewrite (bind_ok _ _ h _ h1 E1).
    + eapply same_outside_trans; eapply same_outside_mono; [|exact O1| |exact O2]; [set_solver|].
      intros y. cbn. change (x :: l.*1) with (locs ((x, d) :: l)). by rewrite (sorted_insert_perm cmp (x, d) l).
Qed.

(** *** Removing nodes *)

Lemma free_ok h x n : h !! x = Some n → free (Some x) h = Some (tt, delete x h).
Proof. intros E. unfold free. by rewrite E. Qed.

Lemma same_outside_delete x h : same_outside [x] h (delete x h).
Proof. intros y Hy. rewrite lookup_delete_ne; [done|]. intros ->. apply Hy. by left. Qed.

(** Clearing a node's links and freeing it: the other segments stay. *)
Lemma clear_free_ok h pv x d nx (f g : H unit) :
  f = set_next (Some x) None ∧ g = set_prev (Some x) None ∨ f = set_prev (Some x) None ∧ g = set_next (Some x) None →
  seg h pv [(x, d)] nx →
  ∃ h1 h2, f h = Some (tt, h1) ∧ g h1 = Some (tt, h2) ∧ same_outside [x] h h2 ∧ is_Some (h2 !! x).
Proof.
  intros Hfg [Hx _]. cbn [first] in Hx.
  destruct Hfg as [[-> ->]|[-> ->]]; eexists _, _.
  1: split; [by rewrite (set_next_ok _ _ _ _ Hx)|]; split; [erewrite set_prev_ok by apply lookup_insert_eq; done|].
  2: split; [by rewrite (set_prev_ok _ _ _ _ Hx)|]; split; [erewrite set_next_ok by apply lookup_insert_eq; done|].
  all: split; [|rewrite lookup_insert_eq; eauto].
  all: intros y Hy; rewrite !lookup_insert_ne; [done|..]; intros ->; apply Hy; by left.
Qed.

Lemma remove_head_ok h x d l : dlist h (Some x) ((x, d) :: l) →
  ∃ h', ms_list_remove_link (Some x) (Some x) h = Some (first l None, h') ∧ dlist h' (first l None) l ∧
    h' !! x = None ∧ same_outside (x :: locs l) h h'.
Proof.
  intros (_ & Hs & Hnd). destruct Hs as [Hx Hl]. apply list.NoDup_cons in Hnd as [Hxl Hnd]. fold (locs l) in *.
  unfold ms_list_remove_link. rewrite decide_True by done. rewrite (bind_ok _ _ h _ h (get_ok _ _ _ Hx)). cbn [next].
  destruct (clear_free_ok h None x d (first l None) (set_prev (Some x) None) (set_next (Some x) None)) as (h1 & h2 & E1 & E2 & O2 & [n Hn]);
    [by right|by split|].
  assert (seg h2 (Some x) l None) as S2 by (apply (seg_frame h h2 _ _ _ _ O2); [by intros y ->%list_elem_of_singleton|done]).
  assert (∃ h3, match first l None with None => mret tt | Some _ => set_prev (first l None) None end h2 = Some (tt, h3) ∧
    seg h3 None l None ∧ same_outside (locs l) h2 h3) as (h3 & E3 & S3 & O3).
  { destruct (decide (l = [])) as [->|Hne]; [by exists h2|].
    destruct (set_prev_first h2 (Some x) None l None S2 Hnd Hne) as (h3 & E3 & T3). exists h3. by rewrite match_first. }
  assert (h3 !! x = Some n) as Hn3 by (by rewrite O3).
  exists (delete x h3).
  rewrite (bind_ok _ _ h tt h1 E1), (bind_ok _ _ h1 tt h2 E2), (bind_ok _ _ h2 tt h3 E3), (bind_ok _ _ h3 tt _ (free_ok _ _ _ Hn3)).
  split; [done|]. split; [|split; [apply lookup_delete_eq|]].
  - split; [done|]. split; [|done]. apply (seg_frame h3 _ _ _ _ _ (same_outside_delete x h3)); [|done].
    by intros y ->%list_elem_of_singleton.
  - intros y Hy. apply not_elem_of_cons in Hy as [Y1 Y2]. rewrite lookup_delete_ne by done. rewrite O3 by done.
    apply O2. by intros ->%list_elem_of_singleton.
Qed.

Lemma remove_inner_ok h l1 x d l2 :
  l1 ≠ [] → dlist h (first l1 None) (l1 ++ (x, d) :: l2) →
  ∃ h', ms_list_remove_link (first l1 None) (Some x) h = Some (first l1 None, h') ∧ dlist h' (first l1 None) (l1 ++ l2) ∧
    h' !! x = None ∧ same_outside (x :: locs (l1 ++ l2)) h h'.
Proof.
  intros N1 (_ & Hs & Hnd). pose proof Hnd as (Nd1 & Hd & [Hx2 Nd2]%list.NoDup_cons)%NoDup_locs_app. fold (locs l2) in *.
  pose proof Hs as [S1 [Hx S2]]%seg_app. cbn [first] in S1.
  assert (∀ y, y ∈ locs l1 → y ≠ x) as Hx1 by (intros y Hy ->; apply (Hd x Hy); by left).
  assert (Some x ≠ first l1 None) as Hhd.
  { destruct l1 as [|[y e] l1]; [done|]. cbn. intros [= ->]. apply (Hx1 y); [by left|done]. }
  destruct (set_next_last h None l1 (Some x) (first l2 None) S1 Nd1 N1) as (h1 & E1 & T1 & O1).
  assert (h1 !! x = h !! x) as Hx' by (apply O1; intros Hy; by apply (Hx1 x Hy)). rewrite Hx in Hx'.
  assert (seg h1 (Some x) l2 None) as S2'.
  { apply (seg_frame h h1 _ _ _ _ O1); [|done]. intros y Hy Hin. apply (Hd y Hy). by right. }
  assert (∃ h2, match first l2 None with None => mret tt | Some _ => set_prev (first l2 None) (lastp l1 None) end h1 = Some (tt, h2) ∧
    seg h2 (lastp l1 None) l2 None ∧ same_outside (locs l2) h1 h2) as (h2 & E2 & T2 & O2).
  { destruct (decide (l2 = [])) as [->|Hne]; [by exists h1|].
    destruct (set_prev_first h1 (Some x) (lastp l1 None) l2 None S2' Nd2 Hne) as (h2 & E2 & T2). exists h2. by rewrite match_first. }
  assert (seg h2 (lastp l1 None) [(x, d)] (first l2 None)) as Sx by (split; [by rewrite O2|done]).
  destruct (clear_free_ok h2 _ x d _ (set_next (Some x) None) (set_prev (Some x) None) (or_introl (conj eq_refl eq_refl)) Sx) as (h3 & h4 & E3 & E4 & O4 & [n Hn]).
  exists (delete x h4). unfold ms_list_remove_link. rewrite decide_False by done.
  rewrite (bind_ok _ _ h _ h (get_ok _ _ _ Hx)). cbn [next prev]. rewrite (bind_ok _ _ h tt h1 E1), (bind_ok _ _ h1 _ h1 (get_ok _ _ _ Hx')).
  cbn [next prev]. rewrite (bind_ok _ _ h1 tt h2 E2), (bind_ok _ _ h2 tt h3 E3), (bind_ok _ _ h3 tt h4 E4), (bind_ok _ _ h4 tt _ (free_ok _ _ _ Hn)).
  pose proof (same_outside_trans _ _ _ _ O4 (same_outside_delete x h4)) as O5.
  split; [done|]. split; [split; [|split]|split; [apply lookup_delete_eq|]].
  - rewrite first_app. by destruct l1.
  - apply (seg_frame h2 _ _ _ _ _ O5); [intros y ->%list_elem_of_singleton; apply locs_app_not; split; [|done]; intros Hy; by apply (Hx1 x)|].
    apply seg_app. split; [|done]. apply (seg_frame h1 _ _ _ _ _ O2); [|done]. intros y Hy Hin. apply (Hd y Hin). by right.
  - apply NoDup_locs_app. split; [done|]. split; [|done]. intros y Hy Hin. apply (Hd y Hy). by right.
  - intros y [Y1 [Y2 Y3]%locs_app_not]%not_elem_of_cons. rewrite O5 by (by intros ->%list_elem_of_singleton). by rewrite O2, O1.
Qed.

Lemma remove_link_ok h p l1 x d l2 : dlist h p (l1 ++ (x, d) :: l2) →
  ∃ h', ms_list_remove_link p (Some x) h = Some (first (l1 ++ l2) None, h') ∧ dlist h' (first (l1 ++ l2) None) (l1 ++ l2) ∧
    h' !! x = None ∧ same_outside (x :: locs (l1 ++ l2)) h h'.
Proof.
  intros Hl. assert (p = first (l1 ++ (x, d) :: l2) None) as -> by apply Hl.
  destruct l1 as [|[y e] l1]; [by apply (remove_head_ok h x d)|].
  by apply (remove_inner_ok h ((y, e) :: l1) x d l2).
Qed.

(** *** Searching *)

Lemma search_list_find P `{!∀ n : loc * Z, Decision (P n)} test l : (∀ x d i, test x d i = true ↔ P (x, d)) → ∀ i,
  search_list test l i = (λ '(k, (x, d)), (x, d, i + Z.of_nat k)) <$> list_find P l.
Proof.
  intros Ht. induction l as [|[x d] l IH]; intros i; [done|]. cbn [search_list list_find]. destruct (decide (P (x, d))) as [Hp|Hp].
  - rewrite (proj2 (Ht x d i)) by done. cbn. do 2 f_equal. lia.
  - destruct (test x d i) eqn:E; [by apply Ht in E|]. rewrite IH. destruct (list_find P l) as [[k [y e]]|]; [|done].
    cbn. do 2 f_equal. lia.
Qed.

Lemma search_list_nth l : ∀ i index, i <= index →
  search_list (λ _ _ i, i =? index) l i = (λ '(x, d), (x, d, index)) <$> l !! Z.to_nat (index - i).
Proof.
  induction l as [|[x d] l IH]; intros i index Hi; [done|]. cbn [search_list]. destruct (Z.eqb_spec i index) as [->|Hne].
  - by rewrite Z.sub_diag.
  - rewrite IH by lia. by replace (Z.to_nat (index - i)) with (S (Z.to_nat (index - (i + 1)))) by lia.
Qed.

Lemma search_list_before l : ∀ i index, index < i → search_list (λ _ _ i, i =? index) l i = None.
Proof.
  induction l as [|[x d] l IH]; intros i index Hi; [done|]. cbn [search_list].
  destruct (Z.eqb_spec i index); [lia|]. apply IH. lia.
Qed.

Lemma find_ok h p l d : dlist h p l →
  ms_list_find p d h = Some ((λ '(_, (x, _)), x) <$> list_find (λ n, n.2 = d) l, h).
Proof.
  intros Hl. unfold ms_list_find. rewrite (bind_ok _ _ h _ h (walk_search h p l _ Hl)).
  rewrite (search_list_find (λ n, n.2 = d)) by (intros; cbn; apply Z.eqb_eq).
  by destruct (list_find _ l) as [[k [x e]]|].
Qed.

(** A position, or -1. *)
Definition position_or (r : option (nat * (loc * Z))) : Z := match r with Some (k, _) => Z.of_nat k | None => -1 end.

Lemma size_loop_ok h l : ∀ fuel pv n, seg h pv l None → (length l ≤ fuel)%nat →
  size_loop fuel (first l None) n h = Some (n + Z.of_nat (length l), h).
Proof.
  induction l as [|[x d] l IH]; intros fuel pv n Hs Hf; [destruct fuel; cbn; rewrite Z.add_0_r; done|].
  destruct fuel as [|fuel]; [cbn in Hf; lia|]. destruct Hs as [Hx Hl]. cbn [size_loop first].
  rewrite (bind_ok _ _ h _ h (get_ok _ _ _ Hx)). cbn [next]. erewrite IH; [|done|cbn in Hf; lia].
  cbn [length]. do 2 f_equal. lia.
Qed.

(** The reading operations answer as on the list of nodes, and leave the heap as it is:
    the size, the first node with given data or passing a comparison, the n-th data or
    null, the position of a node and of data or -1. *)
Theorem ms_list_queries h p l : dlist h p l →
  ms_list_size p h = Some (Z.of_nat (length l), h) ∧
  (∀ d, ms_list_find p d h = Some ((λ '(_, (x, _)), x) <$> list_find (λ n, n.2 = d) l, h)) ∧
  (∀ cmp u, ms_list_find_custom p cmp u h = Some ((λ '(_, (x, _)), x) <$> list_find (λ n, cmp n.2 u = 0) l, h)) ∧
  (∀ i, ms_list_nth_data p i h = Some (if decide (i < 0) then 0 else default 0 (datas l !! Z.to_nat i), h)) ∧
  (∀ x, ms_list_position p (Some x) h = Some (position_or (list_find (λ n, n.1 = x) l), h)) ∧
  ms_list_position p None h = Some (-1, h) ∧
  (∀ d, ms_list_index p d h = Some (position_or (list_find (λ n, n.2 = d) l), h)).
Proof.
  intros Hl. split; [|split; [intros; by apply find_ok|]].
  { pose proof (dlist_size _ _ _ Hl). destruct Hl as (-> & Hs & _). unfold ms_list_size, with_fuel.
    by rewrite (size_loop_ok h l _ None 0 Hs) by lia. }
  unfold ms_list_find_custom, ms_list_nth_data, ms_list_position, ms_list_index. split; [|split; [|split; [|split]]]; intros.
  all: rewrite (bind_ok _ _ h _ h (walk_search h p l _ Hl)).
  - rewrite (search_list_find (λ n, cmp n.2 u = 0)) by (intros; cbn; apply Z.eqb_eq).
    by destruct (list_find _ l) as [[k [x e]]|].
  - case_decide; [by rewrite search_list_before by lia|]. rewrite search_list_nth by lia. rewrite Z.sub_0_r, list_lookup_fmap.
    by destruct (l !! Z.to_nat i) as [[x d]|].
  - rewrite (search_list_find (λ n, n.1 = x)) by (intros; cbn; rewrite bool_decide_eq_true; split; congruence).
    by destruct (list_find _ l) as [[k [y e]]|].
  - rewrite (search_list_find (λ _, False)) by (intros; by rewrite bool_decide_eq_true).
    replace (list_find (λ _, False) l) with (@None (nat * (loc * Z))); [done|].
    symmetry. apply list_find_None. apply Forall_true. by intros ? [].
  - rewrite (search_list_find (λ n, n.2 = d)) by (intros; cbn; rewrite Z.eqb_eq; split; congruence).
    by destruct (list_find _ l) as [[k [x e]]|].
Qed.

(** [ms_list_remove] takes the first node with the data out of the list and frees it;
    the other nodes stay in order and nothing else changes. Without such a node the list
    and the heap are as before. *)
Theorem ms_list_remove_spec h p l d : dlist h p l →
  match list_find (λ n, n.2 = d) l with
  | None => ms_list_remove p d h = Some (p, h)
  | Some (k, (x, _)) =>
      let l' := take k l ++ drop (S k) l in
      ∃ h', ms_list_remove p d h = Some (first l' None, h') ∧ dlist h' (first l' None) l' ∧
        h' !! x = None ∧ same_outside (x :: locs l') h h'
  end.
Proof.
  intros Hl. unfold ms_list_remove. rewrite (bind_ok _ _ h _ h (find_ok h p l d Hl)).
  destruct (list_find _ l) as [[k [x e]]|] eqn:Hf; [|done]. cbn zeta.
  apply list_find_Some in Hf as (Hk & _ & _). apply remove_link_ok with e. by rewrite (take_drop_middle l k (x, e) Hk).
Qed.

Lemma free_loop_ok l : ∀ fuel h pv x d, seg h pv ((x, d) :: l) None → NoDup (locs ((x, d) :: l)) → (length l < fuel)%nat →
  ∃ h', free_loop fuel (Some x) h = Some (tt, h') ∧ (∀ y, y ∈ locs ((x, d) :: l) → h' !! y = None) ∧
    same_outside (locs ((x, d) :: l)) h h'.
Proof.
  induction l as [|[y e] l IH]; intros fuel h pv x d [Hx Hl] Hnd Hf; (destruct fuel as [|fuel]; [cbn in Hf; lia|]);
    cbn [free_loop]; rewrite (bind_ok _ _ h _ h (get_ok _ _ _ Hx)); cbn [next first].
  - exists (delete x h). split; [by rewrite (free_ok _ _ _ Hx)|]. split; [|apply same_outside_delete].
    intros y ->%list_elem_of_singleton. apply lookup_delete_eq.
  - apply list.NoDup_cons in Hnd as [Hxl Hnd]. rewrite (bind_ok _ _ h tt _ (free_ok _ _ _ Hx)).
    destruct (IH fuel (delete x h) (Some x) y e) as (h' & E & Hfree & O); [|done|cbn in Hf; lia|].
    { apply (seg_frame h _ [x]); [apply same_outside_delete|by intros z ->%list_elem_of_singleton|done]. }
    exists h'. split; [done|]. split.
    + intros z [->|Hz]%elem_of_cons; [|by apply Hfree]. rewrite O by done. apply lookup_delete_eq.
    + intros z [Z1 Z2]%not_elem_of_cons. rewrite O by done. by rewrite lookup_delete_ne.
Qed.

(** C34: [ms_list_free] frees every node of the list, once, and no other. *)
Theorem ms_list_free_spec h p l : dlist h p l →
  ∃ h', ms_list_free p h = Some (None, h') ∧ (∀ x, x ∈ locs l → h' !! x = None) ∧ same_outside (locs l) h h'.
Proof.
  intros Hl. pose proof (dlist_size _ _ _ Hl) as Hz. destruct Hl as (-> & Hs & Hnd). unfold ms_list_free.
  destruct l as [|[x d] l].
  - exists h. split; [done|]. split; [|done]. by intros x ?%elem_of_nil.
  - cbn [first]. destruct (free_loop_ok l (S (size h)) h None x d Hs Hnd) as (h' & E & Hf & O); [cbn in Hz; lia|].
    exists h'. split; [|done]. by rewrite (bind_ok (with_fuel _) _ h tt h' E).
Qed.

(** [ms_list_concat] links two disjoint lists into one when both have nodes, gives back
    the second when the first is null, and dereferences a null pointer when only the second is. *)
Theorem ms_list_concat_spec h p q l1 l2 :
  dlist h p l1 → dlist h q l2 → (∀ x, x ∈ locs l1 → x ∉ locs l2) →
  match l1, l2 with
  | [], _ => ms_list_concat p q h = Some (q, h)
  | _, [] => ms_list_concat p q h = None
  | _, _ => ∃ h', ms_list_concat p q h = Some (p, h') ∧ dlist h' p (l1 ++ l2) ∧ same_outside (locs (l1 ++ l2)) h h'
  end.
Proof.
  intros (-> & S1 & N1) (-> & S2 & N2) Hd. unfold ms_list_concat. destruct l1 as [|[x d] l1]; [done|].
  pose proof (walk_last h ((x, d) :: l1) ltac:(done) ltac:(done)) as E. cbn [first] in E |- *. rewrite (bind_ok _ _ h _ h E).
  destruct l2 as [|[y e] l2].
  - destruct (set_next_last h None ((x, d) :: l1) None None S1 N1) as (h1 & E1 & _); [done|].
    by rewrite (bind_ok _ _ h tt h1 E1).
  - destruct (join_ok h ((x, d) :: l1) ((y, e) :: l2) None None S1 S2) as (h1 & h2 & E1 & E2 & D & O); [|done..|].
    { by apply NoDup_locs_app. }
    exists h2. rewrite (bind_ok _ _ h tt h1 E1). by rewrite (bind_ok _ _ h1 tt h2 E2).
Qed.

(** *** Copying *)

Lemma copy_loop_ok l2 : ∀ fuel h0 h l1 c,
  dlist h (first (l1 ++ l2) None) (l1 ++ l2) → dlist h (first c None) c → (∀ x, x ∈ locs c → h0 !! x = None) →
  (∀ x, x ∈ locs (l1 ++ l2) → is_Some (h0 !! x)) → same_outside (locs c) h0 h → (length l2 ≤ fuel)%nat →
  ∃ c' h', copy_loop fuel (first l2 None) (first c None) h = Some (first c' None, h') ∧ datas c' = datas c ++ datas l2 ∧
    dlist h' (first c' None) c' ∧ (∀ x, x ∈ locs c' → h0 !! x = None) ∧ same_outside (locs c') h0 h'.
Proof.
  induction l2 as [|[x d] l2 IH]; intros fuel h0 h l1 c Hl Hc Hnew Hold Ho Hf.
  { exists c, h. rewrite app_nil_r. by destruct fuel. }
  destruct fuel as [|fuel]; [cbn in Hf; lia|]. cbn [copy_loop first].
  pose proof Hl as (_ & [_ [Hx _]]%seg_app & _). rewrite (bind_ok _ _ h _ h (get_ok _ _ _ Hx)). cbn [data].
  destruct (append_ok h (first c None) c d Hc) as (y & h1 & Hy & E1 & D1 & O1). rewrite (bind_ok _ _ h _ h1 E1).
  assert (∀ z, z ∈ y :: locs c → z ∉ locs (l1 ++ (x, d) :: l2)) as Hz.
  { intros z [->|Hz]%elem_of_cons; [by apply (dlist_fresh _ _ _ _ Hl)|]. intros Hin. destruct (Hold z Hin). by rewrite Hnew in *. }
  pose proof (dlist_frame h h1 _ _ _ O1 Hz Hl) as D1'. pose proof D1' as (_ & [_ [Hx1 _]]%seg_app & _).
  rewrite (bind_ok _ _ h1 _ h1 (get_ok _ _ _ Hx1)). cbn [next].
  replace (l1 ++ (x, d) :: l2) with ((l1 ++ [(x, d)]) ++ l2) in * by (by rewrite <- app_assoc).
  assert (y ∉ locs c) as Hyc by (by apply (dlist_fresh _ _ _ _ Hc)).
  destruct (IH fuel h0 h1 (l1 ++ [(x, d)]) (c ++ [(y, d)])) as (c' & h' & E & Hd & D' & Hn & O'); try done.
  - intros z Hz'. rewrite fmap_app in Hz'. apply elem_of_app in Hz' as [Hz'| ->%list_elem_of_singleton]; [by apply Hnew|].
    rewrite <- Hy. symmetry. by apply Ho.
  - intros z Hz'. rewrite fmap_app in Hz'. rewrite O1 by set_solver. apply Ho. set_solver.
  - cbn in Hf. lia.
  - exists c', h'. split; [done|]. split; [|done]. rewrite Hd, fmap_app. by rewrite <- app_assoc.
Qed.

(** [ms_list_copy] makes a list of fresh nodes with the same data in the same order and
    leaves the heap as it was elsewhere, the list copied included. *)
Theorem ms_list_copy_spec h p l : dlist h p l →
  ∃ l' h', ms_list_copy p h = Some (first l' None, h') ∧ datas l' = datas l ∧ dlist h' (first l' None) l' ∧
    dlist h' p l ∧ (∀ x, x ∈ locs l' → h !! x = None) ∧ same_outside (locs l') h h'.
Proof.
  intros Hl. pose proof Hl as (-> & Hs & Hnd).
  assert (∀ x, x ∈ locs l → is_Some (h !! x)) as Hin by (intros x Hx; destruct (seg_lookup h l None None x Hs Hx); eauto).
  destruct (copy_loop_ok l (S (size h)) h h [] []) as (l' & h' & E & Hd & D & Hn & O); try done.
  - split; [done|]. split; [done|]. apply NoDup_nil_2.
  - by intros x ?%elem_of_nil.
  - pose proof (dlist_size _ _ _ Hl). lia.
  - exists l', h'. do 3 (split; [done|]). split; [|done]. apply (dlist_frame h h' _ _ _ O); [|done].
    intros x Hx Hx'. destruct (Hin x Hx'). by rewrite Hn in *.
Qed.

(** *** Inserting before a node *)

(** Where [ms_list_insert] puts a node: before the node at [before]. *)
Fixpoint insert_at (before : loc) (n : loc * Z) (l : nodes) : nodes :=
  match l with [] => [] | m :: l' => if decide (m.1 = before) then n :: l else m :: insert_at before n l' end.

Lemma insert_at_present b l : b ∈ locs l →
  ∃ l1 d l2, l = l1 ++ (b, d) :: l2 ∧ (∀ n, insert_at b n l = l1 ++ n :: (b, d) :: l2) ∧ b ∉ locs l1.
Proof.
  induction l as [|[x d] l IH]; [by intros ?%elem_of_nil|]. intros Hb. destruct (decide (x = b)) as [->|Hx].
  - exists [], d, l. split; [done|]. split; [|apply not_elem_of_nil]. intros n. cbn. by rewrite decide_True.
  - apply elem_of_cons in Hb as [Hb|Hb]; [cbn in *; congruence|]. destruct (IH Hb) as (l1 & e & l2 & -> & Hat & Hn).
    exists ((x, d) :: l1), e, l2. split; [done|]. split; [|by apply not_elem_of_cons].
    intros n. cbn [insert_at fst]. rewrite decide_False by done. by rewrite Hat.
Qed.

(** The loop over nodes other than [before]. *)
Lemma insert_before_skip h p b d nx l1 : ∀ fuel pv,
  seg h pv l1 nx → b ∉ locs l1 →
  insert_before_loop (length l1 + fuel) p (Some b) d (first l1 nx) h = insert_before_loop fuel p (Some b) d nx h.
Proof.
  induction l1 as [|[x e] l1 IH]; intros fuel pv Hs Hb; [done|]. destruct Hs as [Hx Hs]. apply not_elem_of_cons in Hb as [Hbx Hb].
  cbn [length Nat.add insert_before_loop first]. rewrite decide_False by (by intros [= ->]).
  rewrite (bind_ok _ _ h None h) by done. rewrite (bind_ok _ _ h _ h (get_ok _ _ _ Hx)). cbn [next]. by eapply IH.
Qed.

(** The turn of the loop at [before], between two nodes, and the rest of the loop. *)
Lemma insert_inner_ok h l1 b e l2 d : ∀ fuel,
  dlist h (first l1 None) (l1 ++ (b, e) :: l2) → l1 ≠ [] → (length l2 < fuel)%nat →
  ∃ x h', h !! x = None ∧ let l' := l1 ++ (x, d) :: (b, e) :: l2 in
    insert_before_loop fuel (first l1 None) (Some b) d (Some b) h = Some (first l1 None, h') ∧
    dlist h' (first l1 None) l' ∧ same_outside (x :: locs (l1 ++ (b, e) :: l2)) h h'.
Proof.
  intros fuel Hl N1 Hf. destruct (new_ok d h) as (x & h1 & E1 & Hx & S1 & O1).
  pose proof (dlist_fresh _ _ _ _ Hl Hx) as Hxl. pose proof Hl as (_ & [_ [Hb _]]%seg_app & Hnd).
  assert (dlist h1 (first l1 None) (l1 ++ (b, e) :: l2)) as (_ & Hs1 & _) by (apply (dlist_frame h h1 [x]); [done|set_solver|done]).
  pose proof Hs1 as [_ [Hb1 _]]%seg_app.
  destruct (insert_between_ok h1 l1 ((b, e) :: l2) x d S1 Hs1) as (h2 & h3 & h4 & h5 & E2 & E3 & E4 & E5 & D & O); [by apply NoDup_locs_new|done|].
  rewrite first_app in D. rewrite (match_last (A := H unit) l1 (mret tt) _ N1) in E4. cbn [first] in *.
  destruct (lastp l1 None) as [y|] eqn:Ey; [|by destruct l1 as [|[z c] l1]; [|destruct (lastp_Some l1 (Some z)); [eauto|cbn in *; congruence]]].
  exists x, h5. split; [done|]. cbn zeta. split; [|split; [by destruct l1|]].
  - destruct fuel as [|fuel]; [lia|]. cbn [insert_before_loop]. rewrite decide_True by done.
    rewrite (bind_ok _ _ h None h5); cycle 1.
    { rewrite (bind_ok _ _ h _ h (get_ok _ _ _ Hb)). cbn [prev]. rewrite (bind_ok _ _ h _ h1 E1).
      rewrite (bind_ok _ _ h1 tt h2 E2), (bind_ok _ _ h2 tt h3 E3), (bind_ok _ _ h3 tt h4 E4). by rewrite (bind_ok _ _ h4 tt h5 E5). }
    pose proof D as (_ & [_ [_ [Hb5 Hs5]]]%seg_app & _). rewrite (bind_ok _ _ h5 _ h5 (get_ok _ _ _ Hb5)). cbn [next].
    replace fuel with (length l2 + (fuel - length l2))%nat by lia.
    rewrite (insert_before_skip h5 _ b d None l2 _ (Some b) Hs5); [by destruct (fuel - length l2)%nat|].
    by apply NoDup_locs_app in Hnd as (_ & _ & [Hn _]%list.NoDup_cons).
  - eapply same_outside_trans; eapply same_outside_mono; [|exact O1| |exact O]; [set_solver|].
    intros z [Z1 [Z2 Z3]%locs_app_not]%not_elem_of_cons. apply locs_app_not. split; [done|]. by apply not_elem_of_cons.
Qed.

(** [ms_list_insert] puts a new node before [before]; without a list or [before] it
    appends; when [before] is not a node of the list it changes nothing. *)
Theorem ms_list_insert_spec h p l before d : dlist h p l →
  match before with
  | Some b =>
      if decide (b ∈ locs l) then
        ∃ x h', h !! x = None ∧ let l' := insert_at b (x, d) l in
          ms_list_insert p before d h = Some (first l' None, h') ∧ dlist h' (first l' None) l' ∧ same_outside (x :: locs l) h h'
      else l ≠ [] → ms_list_insert p before d h = Some (p, h)
  | None =>
      ∃ x h', h !! x = None ∧ let l' := l ++ [(x, d)] in
        ms_list_insert p before d h = Some (first l' None, h') ∧ dlist h' (first l' None) l' ∧ same_outside (x :: locs l) h h'
  end.
Proof.
  intros Hl. destruct before as [b|].
  2: { destruct (append_ok h p l d Hl) as (x & h' & ?). exists x, h'. by destruct p. }
  pose proof (dlist_size _ _ _ Hl) as Hz. pose proof Hl as (-> & Hs & Hnd). case_decide as Hb.
  - destruct (insert_at_present b l Hb) as (l1 & e & l2 & -> & Hat & Hb1). pose proof Hs as [S1 [Hx _]]%seg_app.
    unfold ms_list_insert. rewrite match_first by (by destruct l1). unfold with_fuel. rewrite length_app in Hz. cbn in Hz.
    replace (S (size h)) with (length l1 + (S (size h) - length l1))%nat by lia.
    pose proof (insert_before_skip h (first (l1 ++ (b, e) :: l2) None) b d _ l1 (S (size h) - length l1) None S1 Hb1) as Hskip.
    rewrite <- first_app in Hskip. rewrite Hskip. clear Hskip. cbn [first] in *.
    destruct (decide (l1 = [])) as [->|N1].
    + destruct (prepend_ok h _ _ d Hl) as (x & h' & Hxn & E & D). exists x, h'. split; [done|]. rewrite Hat. split; [|done].
      cbn [app first length] in *. replace (S (size h) - 0)%nat with (S (size h)) by lia. cbn [insert_before_loop].
      rewrite decide_True by done. rewrite (bind_ok _ _ h (Some (Some x)) h'); [done|].
      rewrite (bind_ok _ _ h _ h (get_ok _ _ _ Hx)). cbn. by rewrite (bind_ok _ _ h _ h' E).
    + rewrite first_app in *. replace (first l1 (first ((b, e) :: l2) None)) with (first l1 None) in * by (by destruct l1).
      destruct (insert_inner_ok h l1 b e l2 d (S (size h) - length l1) Hl N1) as (x & h' & Hxn & E & D & O); [lia|].
      exists x, h'. split; [done|]. rewrite Hat. replace (first (l1 ++ (x, d) :: (b, e) :: l2) None) with (first l1 None) by (by destruct l1).
      split; [|done]. by destruct l1.
  - intros Hne. unfold ms_list_insert. rewrite match_first by done. unfold with_fuel.
    replace (S (size h)) with (length l + (S (size h) - length l))%nat by lia.
    rewrite (insert_before_skip h _ b d None l _ None Hs Hb). by destruct (S (size h) - length l)%nat.
Qed.

(** *** Visiting *)

(** The calls in order. *)
Fixpoint run_all (func : Z → H unit) (ds : list Z) : H unit :=
  match ds with [] => mret tt | d :: ds => func d;; run_all func ds end.

Lemma for_each_loop_ok func p l2 : ∀ fuel h l1,
  (∀ e h1 h2, dlist h1 p (l1 ++ l2) → func e h1 = Some (tt, h2) → dlist h2 p (l1 ++ l2)) →
  dlist h p (l1 ++ l2) → (length l2 ≤ fuel)%nat →
  for_each_loop fuel func (first l2 None) h = run_all func (datas l2) h.
Proof.
  induction l2 as [|[x d] l2 IH]; intros fuel h l1 Hf Hl Hz; [by destruct fuel|].
  destruct fuel as [|fuel]; [cbn in Hz; lia|]. cbn [for_each_loop first]. pose proof Hl as (_ & [_ [Hx _]]%seg_app & _).
  rewrite (bind_ok _ _ h _ h (get_ok _ _ _ Hx)). cbn [data fmap list_fmap run_all snd]. unfold mbind, H_bind.
  destruct (func d h) as [[[] h1]|] eqn:E; [|done]. pose proof (Hf d h h1 Hl E) as Hl1. 
  pose proof Hl1 as (_ & [_ [Hx1 _]]%seg_app & _). rewrite (get_ok _ _ _ Hx1). cbn [next].
  apply (IH fuel h1 (l1 ++ [(x, d)])); rewrite <- ?app_assoc; [done|done|cbn in Hz; lia].
Qed.

Lemma for_each_loop_ext f g : (∀ d, f d = g d) → ∀ fuel p h, for_each_loop fuel f p h = for_each_loop fuel g p h.
Proof.
  intros He fuel. induction fuel as [|n IH]; intros [q|] h'; try done.
  cbn [for_each_loop]. unfold mbind, H_bind. destruct (get (Some q) h') as [[e h1]|]; [|done]. rewrite He.
  destruct (g (data e) h1) as [[? h2]|]; [|done]. destruct (get (Some q) h2) as [[e2 h3]|]; [|done]. apply IH.
Qed.

(** The two [for_each] functions call back with the data of every node, in order, as long
    as the callback leaves the list as it is. *)
Theorem ms_list_for_each_spec h p l (func : Z → H unit) :
  dlist h p l → (∀ e h1 h2, dlist h1 p l → func e h1 = Some (tt, h2) → dlist h2 p l) →
  ms_list_for_each p func h = run_all func (datas l) h ∧
  (∀ func2 u, (∀ d, func2 d u = func d) → ms_list_for_each2 p func2 u h = run_all func (datas l) h).
Proof.
  intros Hl Hf. pose proof (dlist_size _ _ _ Hl) as Hz. assert (p = first l None) as E by apply Hl.
  assert (∀ func', (∀ d, func' d = func d) → for_each_loop (S (size h)) func' p h = run_all func (datas l) h) as Hall.
  { intros func' He. rewrite E. rewrite <- (for_each_loop_ok func p l (S (size h)) h []); [|done..|lia].
    by apply for_each_loop_ext. }
  split; [by apply Hall|]. intros func2 u He. by apply (Hall (λ d, func2 d u)).
Qed.

(** ** Witnesses *)

(** A list of three nodes with data 1, 5 and 9, at addresses 1, 2 and 3. *)
Definition ex_nodes : nodes := [(1%positive, 1); (2%positive, 5); (3%positive, 9)].
Definition ex_heap : heap :=
  <[1%positive := {| next := Some 2%positive; prev := None; data := 1 |}]>
  (<[2%positive := {| next := Some 3%positive; prev := Some 1%positive; data := 5 |}]>
  (<[3%positive := {| next := None; prev := Some 2%positive; data := 9 |}]> ∅)).
Definition ex_list : lptr := Some 1%positive.

Lemma ex_dlist : dlist ex_heap ex_list ex_nodes.
Proof. split; [done|]. split; [by repeat split|]. by apply (bool_decide_unpack _). Qed.

Example ms_list_insert_sorted_spec_witness :
  ∃ x h', ms_list_insert_sorted ex_list 7 (λ a b, a - b) ex_heap = Some (Some 1%positive, h') ∧
    dlist h' (Some 1%positive) [(1%positive, 1); (2%positive, 5); (x, 7); (3%positive, 9)].
Proof.
  destruct (ms_list_insert_sorted_spec ex_heap ex_list ex_nodes 7 (λ a b, a - b) ex_dlist) as (x & h' & _ & E & D & _).
  exists x, h'. split; [exact E|exact D].
Defined.

Example ms_list_queries_witness : ms_list_index ex_list 9 ex_heap = Some (2, ex_heap).
Proof.
  destruct (ms_list_queries ex_heap ex_list ex_nodes ex_dlist) as (_ & _ & _ & _ & _ & _ & E). exact (E 9).
Defined.

Example ms_list_remove_spec_witness :
  ∃ h', ms_list_remove ex_list 5 ex_heap = Some (Some 1%positive, h') ∧
    dlist h' (Some 1%positive) [(1%positive, 1); (3%positive, 9)] ∧ h' !! 2%positive = None.
Proof.
  destruct (ms_list_remove_spec ex_heap ex_list ex_nodes 5 ex_dlist) as (h' & E & D & F & _).
  exists h'. split; [exact E|]. split; [exact D|exact F].
Defined.

Example ms_list_free_spec_witness : ∃ h', ms_list_free ex_list ex_heap = Some (None, h') ∧ h' !! 3%positive = None.
Proof.
  destruct (ms_list_free_spec ex_heap ex_list ex_nodes ex_dlist) as (h' & E & F & _).
  exists h'. split; [exact E|]. apply F. by apply (bool_decide_unpack _).
Defined.

Example ms_list_concat_spec_witness : ms_list_concat ex_list None ex_heap = None.
Proof.
  apply (ms_list_concat_spec ex_heap ex_list None ex_nodes [] ex_dlist).
  - split; [done|]. split; [done|]. apply NoDup_nil_2.
  - intros x _. apply not_elem_of_nil.
Defined.

Example ms_list_copy_spec_witness :
  ∃ l' h', ms_list_copy ex_list ex_heap = Some (first l' None, h') ∧ datas l' = [1; 5; 9].
Proof.
  destruct (ms_list_copy_spec ex_heap ex_list ex_nodes ex_dlist) as (l' & h' & E & F & _). by exists l', h'.
Defined.

Example ms_list_insert_spec_witness :
  ∃ x h', ms_list_insert ex_list (Some 2%positive) 4 ex_heap = Some (Some 1%positive, h') ∧
    dlist h' (Some 1%positive) [(1%positive, 1); (x, 4); (2%positive, 5); (3%positive, 9)].
Proof.
  destruct (ms_list_insert_spec ex_heap ex_list ex_nodes (Some 2%positive) 4 ex_dlist) as (x & h' & _ & E & D & _).
  exists x, h'. split; [exact E|exact D].
Defined.

Example ms_list_for_each_spec_witness :
  ms_list_for_each ex_list (λ _, mret tt) ex_heap = Some (tt, ex_heap).
Proof.
  destruct (ms_list_for_each_spec ex_heap ex_list ex_nodes (λ _, mret tt) ex_dlist) as [E _]; [by intros e h1 h2 D [= ->]|].
  exact E.
Defined.
