(* ===== verification/CStr.v ===== *)
(** * CStr: characters in arrays, and the library functions that read and write them

    A [char] array is the list of its elements, [None] for one that is indeterminate.
    Every access names its position: outside the array, or at an indeterminate element
    that is read, there is no result. The functions of the C library that [LpConfig.c]
    applies to arrays of its own, [strchr], [strlen], [sscanf] with ["%s"] and [fgets],
    read and write the arrays in this way, up to and with the final 0. *)

From S2P Require Import Prelude.

Abbreviation cstring := (list Z).
Abbreviation buf := (list (option Z)).

(** ** Strings as lists, none of their characters 0 *)

(** Characters up to the first 0. *)
Fixpoint cstr (b : list Z) : cstring :=
  match b with [] => [] | c :: b => if decide (c = 0) then [] else c :: cstr b end.

(** The position of the first [c]. *)
Definition index_of (s : cstring) (c : Z) : option nat := fst <$> list_find (c =.) s.

(** [isspace] in the C locale. *)
Definition isspace (c : Z) : bool := (c =? 32) || (9 <=? c) && (c <=? 13).

Fixpoint skip_spaces (s : cstring) : cstring :=
  match s with [] => [] | c :: s' => if isspace c then skip_spaces s' else s end.
Fixpoint take_token (s : cstring) : cstring :=
  match s with [] => [] | c :: s' => if isspace c then [] else c :: take_token s' end.

(** The first word of a string, when it has one. *)
Definition token (s : cstring) : option cstring :=
  match take_token (skip_spaces s) with [] => None | t => Some t end.

(** At most [k] characters of a file, up to and with a line feed, and what is left. *)
Fixpoint take_line (k : nat) (f : list Z) : list Z * list Z :=
  match k, f with
  | O, _ | _, [] => ([], f)
  | S k, c :: f' => if decide (c = 10) then ([c], f') else let '(l, r) := take_line k f' in (c :: l, r)
  end.

(** A whole file in pieces of at most [cap] characters, each ending at a line feed when
    there is one; [room] characters are left for the first piece. *)
Fixpoint split_lines (cap room : nat) (f : list Z) : list (list Z) :=
  match f with
  | [] => []
  | c :: f =>
      if decide (c = 10 ∨ room = 1%nat) then [c] :: split_lines cap cap f
      else match split_lines cap (room - 1) f with
           | [] => [[c]]
           | l :: ls => (c :: l) :: ls
           end
  end.

(** ** Arrays *)

Definition buf_get (b : buf) (i : Z) : option Z :=
  if decide (0 <= i) then mjoin (b !! Z.to_nat i) else None.

Definition buf_set (b : buf) (i c : Z) : option buf :=
  if decide (0 <= i < Z.of_nat (length b)) then Some (<[Z.to_nat i := Some c]> b) else None.

(** The characters [s] and a final 0, stored from the beginning. *)
Definition put_string (b : buf) (s : cstring) : option buf :=
  if decide (length s < length b)%nat then Some ((Some <$> s ++ [0]) ++ drop (S (length s)) b) else None.

(** The string in the elements [l]: they are read up to the first 0. *)
Fixpoint read_string (l : buf) : option cstring :=
  match l with
  | Some c :: l => if decide (c = 0) then Some [] else s ← read_string l; Some (c :: s)
  | _ => None
  end.
Definition string_at (b : buf) (i : Z) : option cstring :=
  if decide (0 <= i) then read_string (drop (Z.to_nat i) b) else None.

Definition strlen (b : buf) (i : Z) : option Z := s ← string_at b i; Some (Z.of_nat (length s)).

(** [strchr(b + i, c)], for a [c] other than 0: the position in [b]. *)
Definition strchr (b : buf) (i c : Z) : option (option Z) :=
  s ← string_at b i; Some ((λ k, i + Z.of_nat k) <$> index_of s c).

(** [sscanf(b + i, "%s", dst)]: the number of words stored, or [EOF], and [dst] after it. *)
Definition sscanf_s (b : buf) (i : Z) (dst : buf) : option (Z * buf) :=
  s ← string_at b i;
  match token s with
  | Some t => dst ← put_string dst t; Some (1, dst)
  | None => Some (-1, dst)
  end.

(** [fgets(b, size, f)]: null at the end of the file; otherwise [b] after it and the rest
    of the file. *)
Definition fgets (b : buf) (size : Z) (f : list Z) : option (option (buf * list Z)) :=
  match f with
  | [] => Some None
  | _ => let '(l, r) := take_line (Z.to_nat (size - 1)) f in b ← put_string b l; Some (Some (b, r))
  end.

(** ** Lists *)

Lemma cstr_id l : Forall (λ c, c ≠ 0) l → cstr l = l.
Proof. induction l as [|c l IH]; intros H; [done|]. inversion H. cbn. rewrite decide_False by done. by rewrite IH. Qed.

Lemma cstr_split l : Forall (λ c, c ≠ 0) (cstr l) ∧ ∃ r, l ++ [0] = cstr l ++ 0 :: r.
Proof.
  induction l as [|c l (IH & r & E)]; [split; [constructor|by exists []]|]. cbn [cstr app].
  case_decide as Hc; [subst c; split; [constructor|by exists (l ++ [0])]|].
  split; [by constructor|]. exists r. cbn. by f_equal.
Qed.

Lemma cstr_nonzero l : Forall (λ c, c ≠ 0) (cstr l).
Proof. apply cstr_split. Qed.

Lemma index_of_none l c : Forall (λ x, x ≠ c) l → index_of l c = None.
Proof.
  intros Hl. unfold index_of. assert (list_find (c =.) l = None) as ->; [|done].
  apply list_find_None. eapply List.Forall_impl; [|exact Hl]. cbn. congruence.
Qed.

Lemma index_of_found l c r : Forall (λ x, x ≠ c) l → index_of (l ++ c :: r) c = Some (length l).
Proof.
  intros Hl. unfold index_of. rewrite list_find_app_r.
  - cbn [list_find]. case_decide. cbn. f_equal. lia.
  - apply list_find_None. eapply List.Forall_impl; [|exact Hl]. cbn. congruence.
Qed.

Lemma index_of_lookup s c k : index_of s c = Some k → s !! k = Some c.
Proof.
  unfold index_of. destruct (list_find (c =.) s) as [[i x]|] eqn:E; [|done]. cbn. intros [= <-].
  apply list_find_Some in E as (E & <- & _). done.
Qed.

Lemma take_token_id s : Forall (λ c, isspace c = false) s → take_token s = s.
Proof. induction s as [|c s IH]; intros H; [done|]. inversion H as [|? ? Hc Hs]. cbn. rewrite Hc. by rewrite IH. Qed.

Lemma take_token_prefix s : take_token s `prefix_of` s.
Proof.
  induction s as [|c s IH]; [done|]. cbn. destruct (isspace c); [apply prefix_nil|by apply prefix_cons].
Qed.

Lemma skip_spaces_suffix s : skip_spaces s `suffix_of` s.
Proof. induction s as [|c s IH]; [done|]. cbn. destruct (isspace c); [by apply suffix_cons_r|done]. Qed.

(** A word is part of the string it is the first word of, and not empty. *)
Lemma token_Some s t : token s = Some t →
  t ≠ [] ∧ (length t ≤ length s)%nat ∧ (Forall (λ c, c ≠ 0) s → Forall (λ c, c ≠ 0) t).
Proof.
  unfold token. destruct (take_token (skip_spaces s)) as [|a u] eqn:E; [done|]. intros [= <-].
  pose proof (take_token_prefix (skip_spaces s)) as [y Ey]. rewrite E in Ey.
  pose proof (skip_spaces_suffix s) as [x Ex]. rewrite Ey in Ex. subst s.
  split; [done|]. split; [rewrite !length_app; cbn; lia|]. by intros [_ [? _]%Forall_app]%Forall_app.
Qed.

(** ** Reading a file line by line *)

Lemma take_line_length k : ∀ f, (length (take_line k f).1 ≤ k)%nat.
Proof.
  induction k as [|k IH]; intros [|c f]; cbn [take_line]; try (cbn; lia). case_decide; [cbn; lia|].
  specialize (IH f). destruct (take_line k f). cbn in *. lia.
Qed.

Lemma take_line_app k : ∀ f l r, take_line k f = (l, r) → f = l ++ r ∧ (f ≠ [] → k ≠ 0%nat → l ≠ []).
Proof.
  induction k as [|k IH]; intros [|c f] l r; cbn [take_line]; try (intros [= <- <-]; done).
  case_decide; [by intros [= <- <-]|]. destruct (take_line k f) as [l' r'] eqn:E. intros [= <- <-].
  by destruct (IH f l' r' E) as [-> _].
Qed.

(** The pieces of a file are what one call after the other takes. *)
Lemma take_line_pieces cap k : ∀ f l r,
  take_line (S k) f = (l, r) → f ≠ [] → split_lines cap (S k) f = l :: split_lines cap cap r.
Proof.
  induction k as [|k IH]; intros [|c f] l r E Hf; try done; cbn [split_lines].
  - cbn [take_line] in E. rewrite decide_True by (by right). case_decide; by injection E as <- <-.
  - remember (S k) as k' eqn:Ek. cbn [take_line] in E. destruct (decide (c = 10)) as [Hc|Hc].
    + rewrite decide_True by (by left). by injection E as <- <-.
    + rewrite decide_False by (intros [?|?]; [done|lia]). rewrite Nat.sub_succ, Nat.sub_0_r.
      destruct (take_line k' f) as [l' r'] eqn:E'. injection E as <- <-. subst k'.
      destruct f as [|a f]; [by injection E' as <- <-|]. by rewrite (IH _ l' r').
Qed.

Lemma split_lines_line cap l : ∀ k f, Forall (λ c, c ≠ 10) l → (length l < k)%nat →
  split_lines cap k (l ++ 10 :: f) = (l ++ [10]) :: split_lines cap cap f.
Proof.
  induction l as [|c l IH]; intros k f Hl Hk; cbn [app split_lines].
  - by rewrite decide_True by (by left).
  - inversion Hl. cbn [length] in Hk. rewrite decide_False by (intros [?|?]; [done|lia]).
    by rewrite IH by (done || lia).
Qed.

(** ** Strings in arrays *)

(** [b] holds the string [s] from position [i] on. *)
Definition has_str (b : buf) (i : nat) (s : cstring) : Prop :=
  Forall (λ c, c ≠ 0) s ∧ ∃ rest, drop i b = (Some <$> s) ++ Some 0 :: rest.

Lemma read_string_app s rest : Forall (λ c, c ≠ 0) s → read_string ((Some <$> s) ++ Some 0 :: rest) = Some s.
Proof.
  induction s as [|c s IH]; intros H; [done|]. inversion H. cbn. rewrite decide_False by done. by rewrite IH.
Qed.

Lemma has_str_string b i s : has_str b i s → string_at b (Z.of_nat i) = Some s.
Proof.
  intros (Hs & rest & E). unfold string_at. rewrite decide_True by lia. rewrite Nat2Z.id, E. by apply read_string_app.
Qed.

Lemma has_str_length b i s : has_str b i s → (i + length s < length b)%nat.
Proof.
  intros (_ & rest & E). apply (f_equal length) in E. rewrite length_drop, length_app, length_fmap in E. cbn in E. lia.
Qed.

Lemma has_str_drop b i s k : has_str b i s → (k ≤ length s)%nat → has_str b (i + k) (drop k s).
Proof.
  intros (Hs & rest & E) Hk. split; [by apply Forall_drop|]. exists rest. rewrite <- drop_drop, E.
  rewrite drop_app_le by (by rewrite length_fmap). by rewrite fmap_drop.
Qed.

Lemma has_str_get b i s k : has_str b i s → (k ≤ length s)%nat →
  buf_get b (Z.of_nat (i + k)) = Some (default 0 (s !! k)).
Proof.
  intros (_ & rest & E) Hk. unfold buf_get. rewrite decide_True by lia. rewrite Nat2Z.id, <- lookup_drop, E.
  destruct (decide (k = length s)) as [->|].
  - rewrite lookup_app_r, length_fmap, Nat.sub_diag by (by rewrite length_fmap). cbn. by rewrite lookup_ge_None_2.
  - destruct (lookup_lt_is_Some_2 s k) as [c Hc]; [lia|].
    rewrite lookup_app_l by (rewrite length_fmap; lia). by rewrite list_lookup_fmap, Hc.
Qed.

(** A 0 stored in a string ends it there; what comes after is a string of its own. *)
Lemma has_str_set b i s k : has_str b i s → (k ≤ length s)%nat →
  ∃ b', buf_set b (Z.of_nat (i + k)) 0 = Some b' ∧ length b' = length b ∧ has_str b' i (take k s) ∧
    ((k < length s)%nat → has_str b' (i + S k) (drop (S k) s)).
Proof.
  intros H Hk. pose proof (has_str_length _ _ _ H) as Hl. destruct H as (Hs & rest & E).
  unfold buf_set. rewrite decide_True, Nat2Z.id by lia. eexists. split; [done|]. split; [apply length_insert|].
  assert (Hd : drop i (<[(i + k)%nat := Some 0]> b) =
    (Some <$> take k s) ++ Some 0 :: drop 1 ((Some <$> drop k s) ++ Some 0 :: rest)).
  { rewrite drop_insert_ge by lia. rewrite E, Nat.add_comm, Nat.add_sub. rewrite <- (take_drop k s) at 1.
    rewrite fmap_app, <- app_assoc. rewrite <- (Nat.add_0_r k) at 1.
    assert (Hlt : length (Some <$> take k s) = k) by (rewrite length_fmap, length_take; lia).
    rewrite <- Hlt at 1. rewrite insert_app_r. f_equal. by destruct (Some <$> drop k s). }
  split; [split; [by apply Forall_take|by eexists]|].
  intros Hk'. split; [by apply Forall_drop|]. exists rest.
  rewrite <- drop_drop, Hd. rewrite drop_app_ge by (rewrite length_fmap, length_take; lia).
  rewrite length_fmap, length_take. replace (S k - k `min` length s)%nat with 1%nat by lia.
  destruct (lookup_lt_is_Some_2 s k Hk') as [c Hc]. by rewrite (drop_S s c k) by done.
Qed.

Lemma has_str_put b s : (length s < length b)%nat →
  ∃ b', put_string b s = Some b' ∧ length b' = length b ∧ has_str b' 0 (cstr s).
Proof.
  intros Hl. unfold put_string. rewrite decide_True by done. eexists. split; [done|].
  destruct (cstr_split s) as (Hs & r & E). split.
  - rewrite length_app, length_fmap, length_app, length_drop. cbn. lia.
  - split; [done|]. eexists. rewrite drop_0, E, fmap_app, <- app_assoc. done.
Qed.

Lemma has_str_strchr b i s c : has_str b i s →
  strchr b (Z.of_nat i) c = Some ((λ k, Z.of_nat (i + k)) <$> index_of s c).
Proof.
  intros H. unfold strchr. rewrite (has_str_string _ _ _ H). cbn. f_equal. apply option_fmap_ext. intros k. lia.
Qed.

Lemma has_str_strchr_start b s c : has_str b 0 s → strchr b 0 c = Some (Z.of_nat <$> index_of s c).
Proof. exact (has_str_strchr b 0 s c). Qed.

(** The word found is stored when the destination has room for as many characters as
    the source. *)
Lemma has_str_sscanf b i s dst : has_str b i s → (length s < length dst)%nat →
  match token s with
  | Some t => ∃ dst', sscanf_s b (Z.of_nat i) dst = Some (1, dst') ∧ has_str dst' 0 t
  | None => sscanf_s b (Z.of_nat i) dst = Some (-1, dst)
  end.
Proof.
  intros H Hl. unfold sscanf_s. rewrite (has_str_string _ _ _ H). cbn. destruct H as [Hs _].
  destruct (token s) as [t|] eqn:E; [|done]. destruct (token_Some s t E) as (_ & Hlt & Hnz).
  destruct (has_str_put dst t) as (dst' & P & _ & Hh); [lia|]. exists dst'. rewrite P. split; [done|].
  by rewrite cstr_id in Hh by auto.
Qed.

(** A call of [fgets] on an array of [size] elements takes the next piece. *)
Lemma fgets_ok (b : buf) size f : 1 < size → length b = Z.to_nat size →
  let cap := Z.to_nat (size - 1) in
  match split_lines cap cap f with
  | [] => f = [] ∧ fgets b size f = Some None
  | l :: ls => ∃ b' r, fgets b size f = Some (Some (b', r)) ∧ length b' = length b ∧ has_str b' 0 (cstr l) ∧
      ls = split_lines cap cap r ∧ (length r < length f)%nat
  end.
Proof.
  intros Hs Hb cap. destruct f as [|a f]; [done|]. unfold fgets. fold cap.
  destruct (take_line cap (a :: f)) as [l r] eqn:E. destruct cap as [|k] eqn:Ek; [unfold cap in Ek; lia|].
  rewrite (take_line_pieces _ _ _ l r E) by done.
  pose proof (take_line_length (S k) (a :: f)) as Hl. rewrite E in Hl. cbn [fst] in Hl.
  apply take_line_app in E as [E Hne].
  destruct (has_str_put b l) as (b' & P & Hlb & Hh); [unfold cap in Ek; lia|].
  rewrite P. exists b', r. split_and!; try done. rewrite E, length_app.
  assert (l ≠ []) by (by apply Hne). destruct l; [done|cbn; lia].
Qed.
