(* ===== verification/LpConfig.v ===== *)
(** * LpConfig: the .ini configuration of [src/common/LpConfig.c]

    Sections of key/value items, read from a file with [fgets], [strchr] and [sscanf]
    and written back. Built without [HAVE_SQLITE3] and without [_MSC_VER], as no file of
    the repository defines the first: the other branches of [lp_config_new] are left out.
    The three arrays of the parser are arrays of [MAX_LEN] elements, every access to
    which is checked ([CStr]); a string that the code allocates is the list of its
    characters, none of them 0. A pointer to a section or an item is its position in the
    list, which is sound because the lists own them and hold each once; [strdup] and
    [calloc] are taken to succeed. The float accessor and the functions that only free
    memory are left out. *)

From S2P Require Import Prelude CStr.

Record LpItem := { key : cstring; value : cstring; old_value : cstring; item_modified : bool }.
Record LpSection := { name : cstring; items : list LpItem }.
(** [file] is the unread part of the open file, if one is open. *)
Record LpConfig := {
  filename : option cstring; file : option (list Z); sections : list LpSection; modified : Z
}.

(** The files that can be opened for reading, and what they hold. *)
Abbreviation files := (gmap cstring (list Z)).

Definition MAX_LEN : Z := 1024.

Definition set_sections (l : list LpSection) (c : LpConfig) : LpConfig :=
  {| filename := filename c; file := file c; sections := l; modified := modified c |}.
Definition set_file (f : option (list Z)) (c : LpConfig) : LpConfig :=
  {| filename := filename c; file := f; sections := sections c; modified := modified c |}.
Definition set_modified (m : Z) (c : LpConfig) : LpConfig :=
  {| filename := filename c; file := file c; sections := sections c; modified := m |}.

(** [modified++] on an [int]; past the largest it is undefined. *)
Definition incr_modified (c : LpConfig) : option LpConfig :=
  if decide (modified c + 1 < 2 ^ 31) then Some (set_modified (modified c + 1) c) else None.

(** ** Items and sections *)

Definition lp_item_new (key value : cstring) (changed : bool) : LpItem :=
  {| key := key; value := value; old_value := value; item_modified := changed |}.

Definition lp_section_new (name : cstring) : LpSection := {| name := name; items := [] |}.

Definition lp_item_modified (item : LpItem) : bool :=
  negb (bool_decide (value item = old_value item)) || item_modified item.

Definition lp_item_set_value (v : cstring) (item : LpItem) : LpItem :=
  let item := {| key := key item; value := v; old_value := old_value item; item_modified := item_modified item |} in
  {| key := key item; value := value item; old_value := old_value item; item_modified := lp_item_modified item |}.

Definition lp_section_add_item (item : LpItem) (sec : LpSection) : LpSection :=
  {| name := name sec; items := items sec ++ [item] |}.

(** The item at position [j] leaves the list and is destroyed. *)
Definition lp_section_remove_item (j : nat) (sec : LpSection) : LpSection :=
  {| name := name sec; items := delete j (items sec) |}.

Definition lp_section_find_item (sec : LpSection) (k : cstring) : option nat :=
  fst <$> list_find (λ item, key item = k) (items sec).

Definition lp_config_add_section (c : LpConfig) (sec : LpSection) : LpConfig :=
  set_sections (sections c ++ [sec]) c.

Definition lp_config_remove_section (c : LpConfig) (i : nat) : LpConfig :=
  set_sections (delete i (sections c)) c.

Definition lp_config_find_section (c : LpConfig) (n : cstring) : option nat :=
  fst <$> list_find (λ sec, name sec = n) (sections c).

(** A change of the section at position [i], through its pointer. *)
Definition on_section (i : nat) (f : LpSection → LpSection) (c : LpConfig) : LpConfig :=
  set_sections (alter f i (sections c)) c.

(** ** Reading *)

(** [for (p = start; p < pos; p++)], with [n] turns left. *)
Fixpoint first_char_loop (n : nat) (b : buf) (p : Z) : option bool :=
  match n with
  | O => Some true
  | S n => c ← buf_get b p; if decide (c ≠ 32) then Some false else first_char_loop n b (p + 1)
  end.
Definition is_first_char (b : buf) (start pos : Z) : option bool :=
  first_char_loop (Z.to_nat (pos - start)) b start.

(** A local array [char x[MAX_LEN]]. *)
Definition char_array : buf := replicate (Z.to_nat MAX_LEN) None.

(** [for (; pos2 > pos1 && *pos2 == ' '; pos2--) *pos2 = 0;] *)
Fixpoint trim (fuel : nat) (tmp : buf) (pos1 pos2 : Z) : option (buf * Z) :=
  match fuel with
  | O => None
  | S fuel =>
      if decide (pos2 > pos1) then
        c ← buf_get tmp pos2;
        if decide (c = 32) then tmp ← buf_set tmp pos2 0; trim fuel tmp pos1 (pos2 - 1)
        else Some (tmp, pos2)
      else Some (tmp, pos2)
  end.

(** The value after the equal sign, up to the line feed and without the spaces at its
    end: the line and [pos2] after it. *)
Definition parse_value (tmp : buf) (pos1 : Z) : option (buf * Z) :=
  pos2 ← strchr tmp pos1 10;
  '(tmp, pos2) ← match pos2 with
                 | None => n ← strlen tmp pos1; Some (tmp, pos1 + n)
                 | Some pos2 => tmp ← buf_set tmp pos2 0; Some (tmp, pos2 - 1)
                 end;
  trim (S (Z.to_nat (pos2 - pos1))) tmp pos1 pos2.

(** A line whose first character other than a space is the bracket at [pos1]. [cur] is
    the current section, the second component of the state. *)
Definition parse_header (tmp : buf) (pos1 : Z) (st : LpConfig * option nat) :
    option (buf * (LpConfig * option nat)) :=
  let '(lpconfig, cur) := st in
  pos2 ← strchr tmp pos1 93;
  match pos2 with
  | None => Some (tmp, st)
  | Some pos2 =>
      secname ← buf_set char_array 0 0;
      tmp ← buf_set tmp pos2 0;
      '(nbs, secname) ← sscanf_s tmp (pos1 + 1) secname;
      if decide (nbs = 1) then
        n ← strlen secname 0;
        if decide (n > 0) then
          sec ← string_at secname 0;
          Some (tmp, (lp_config_add_section lpconfig (lp_section_new sec), Some (length (sections lpconfig))))
        else Some (tmp, st)
      else Some (tmp, st)
  end.

(** Another line, with the equal sign at [pos1]. *)
Definition parse_item (tmp : buf) (pos1 : Z) (st : LpConfig * option nat) :
    option (buf * (LpConfig * option nat)) :=
  let '(lpconfig, cur) := st in
  key ← buf_set char_array 0 0;
  tmp ← buf_set tmp pos1 0;
  '(n, key) ← sscanf_s tmp 0 key;
  if decide (n > 0) then
    let pos1 := pos1 + 1 in
    '(tmp, pos2) ← parse_value tmp pos1;
    if decide (pos2 - pos1 >= 0) then
      match cur with
      | Some i =>
          k ← string_at key 0; v ← string_at tmp pos1;
          Some (tmp, (on_section i (lp_section_add_item (lp_item_new k v false)) lpconfig, cur))
      | None => Some (tmp, st)
      end
    else Some (tmp, st)
  else Some (tmp, st).

(** The body of the loop of [lp_config_parse]; the array [tmp] stays between its turns. *)
Definition parse_line (tmp : buf) (st : LpConfig * option nat) : option (buf * (LpConfig * option nat)) :=
  bracket ← strchr tmp 0 91;
  header ← match bracket with Some pos1 => is_first_char tmp 0 pos1 | None => Some false end;
  match bracket, header with
  | Some pos1, true => parse_header tmp pos1 st
  | _, _ =>
      equal ← strchr tmp 0 61;
      match equal with Some pos1 => parse_item tmp pos1 st | None => Some (tmp, st) end
  end.

(** The loop; [None] when an access is not allowed or it does not end within the fuel. *)
Fixpoint parse_loop (fuel : nat) (tmp : buf) (f : list Z) (st : LpConfig * option nat) : option LpConfig :=
  match fuel with
  | O => None
  | S fuel =>
      line ← fgets tmp MAX_LEN f;
      match line with
      | None => Some (set_file (Some []) st.1)
      | Some (tmp, f) => '(tmp, st) ← parse_line tmp st; parse_loop fuel tmp f st
      end
  end.

Definition lp_config_parse (lpconfig : LpConfig) : option LpConfig :=
  match file lpconfig with
  | None => Some lpconfig
  | Some f => parse_loop (S (length f)) char_array f (lpconfig, None)
  end.

(** [fopen] for reading; it is [lpconfig] that is parsed, not what was opened. *)
Definition lp_config_read_file (fs : files) (lpconfig : LpConfig) (filename : cstring) : option (LpConfig * Z) :=
  match fs !! filename with
  | Some f => lpconfig ← lp_config_parse lpconfig; Some (lpconfig, 0)
  | None => Some (lpconfig, -1)
  end.

(** Built without [_MSC_VER]: the mode is ["rw"], which opens for reading. The mode of
    the other build, ["a+b"], which creates a file that is not there, is not modelled. *)
Definition lp_config_new (fs : files) (fname : option cstring) : option LpConfig :=
  let lpconfig := {| filename := None; file := None; sections := []; modified := 0 |} in
  match fname with
  | None => Some lpconfig
  | Some n =>
      let lpconfig := {| filename := Some n; file := fs !! n; sections := []; modified := 0 |} in
      match file lpconfig with
      | None => Some lpconfig
      | Some _ => lpconfig ← lp_config_parse lpconfig; Some (set_modified 0 (set_file None lpconfig))
      end
  end.

(** ** Looking up and changing *)

Definition lp_config_get_string (c : LpConfig) (section k : cstring) (default_string : option cstring) : option cstring :=
  match lp_config_find_section c section with
  | Some i =>
      match sections c !! i with
      | Some sec =>
          match lp_section_find_item sec k with
          | Some j => value <$> items sec !! j
          | None => default_string
          end
      | None => default_string
      end
  | None => default_string
  end.

(** [atoi]: white space, a sign, digits; [None] where the value does not fit an [int]. *)
Fixpoint digits_value (s : cstring) (acc : Z) : Z :=
  match s with
  | [] => acc
  | c :: s => if (48 <=? c) && (c <=? 57) then digits_value s (10 * acc + (c - 48)) else acc
  end.
Definition atoi (s : cstring) : option Z :=
  let n := match skip_spaces s with
           | [] => 0
           | c :: s' => if c =? 45 then - digits_value s' 0 else if c =? 43 then digits_value s' 0 else digits_value (c :: s') 0
           end in
  if decide (- 2 ^ 31 <= n < 2 ^ 31) then Some n else None.

Definition lp_config_get_int (c : LpConfig) (section k : cstring) (default_value : Z) : option Z :=
  match lp_config_get_string c section k None with
  | Some str => atoi str
  | None => Some default_value
  end.

Definition lp_config_set_string (c : LpConfig) (section k : cstring) (v : option cstring) : option LpConfig :=
  let c' :=
    match lp_config_find_section c section with
    | Some i =>
        match lp_section_find_item (default (lp_section_new section) (sections c !! i)) k with
        | Some j =>
            match v with
            | Some v => on_section i (λ sec, {| name := name sec; items := alter (lp_item_set_value v) j (items sec) |}) c
            | None => on_section i (lp_section_remove_item j) c
            end
        | None =>
            match v with
            | Some v => on_section i (lp_section_add_item (lp_item_new k v true)) c
            | None => c
            end
        end
    | None =>
        match v with
        | Some v =>
            let i := length (sections c) in
            let c := lp_config_add_section c (lp_section_new section) in
            on_section i (lp_section_add_item (lp_item_new k v true)) c
        | None => c
        end
    end in
  incr_modified c'.

(** [snprintf(tmp, 30, "%i", value)]: an [int] has at most ten digits. *)
Fixpoint print_digits (fuel : nat) (n : Z) : cstring :=
  match fuel with
  | O => []
  | S fuel => (if decide (n < 10) then [] else print_digits fuel (n / 10)) ++ [48 + n mod 10]
  end.
Definition print_int (n : Z) : cstring :=
  if decide (n < 0) then 45 :: print_digits 10 (- n) else print_digits 10 n.

Definition lp_config_set_int (c : LpConfig) (section k : cstring) (v : Z) : option LpConfig :=
  c ← lp_config_set_string c section k (Some (take 29 (print_int v)));
  incr_modified c.

Definition lp_config_has_section (c : LpConfig) (section : cstring) : Z :=
  match lp_config_find_section c section with Some _ => 1 | None => 0 end.

Definition lp_config_clean_section (c : LpConfig) (section : cstring) : option LpConfig :=
  incr_modified
    (match lp_config_find_section c section with
     | Some i => lp_config_remove_section c i
     | None => c
     end).

Definition lp_config_needs_commit (c : LpConfig) : bool := bool_decide (modified c > 0).

(** ** Writing *)

Definition lp_item_write (item : LpItem) : list Z := key item ++ [61] ++ value item ++ [10].

Definition lp_section_write (sec : LpSection) : list Z :=
  [91] ++ name sec ++ [93; 10] ++ concat (lp_item_write <$> items sec) ++ [10].

(** [can_write] says which files can be opened for writing. *)
Definition lp_config_sync (can_write : cstring → bool) (fs : files) (c : LpConfig) : files * LpConfig * Z :=
  match filename c with
  | None => (fs, c, -1)
  | Some n =>
      if can_write n then (<[n := concat (lp_section_write <$> sections c)]> fs, set_modified 0 c, 0)
      else (fs, c, -1)
  end.

(** ** What a file says

    The same on strings as lists, without the arrays: what a line does to the
    configuration, and a file line by line. *)

Definition only_spaces (tmp : cstring) (pos : nat) : bool := forallb (λ c, c =? 32) (take pos tmp).

(** The spaces from position [pos2] downwards, but not the first character. *)
Fixpoint trim_value (fuel : nat) (v : cstring) (pos2 : Z) : cstring * Z :=
  match fuel with
  | O => (v, pos2)
  | S fuel =>
      if decide (0 < pos2 ∧ v !! Z.to_nat pos2 = Some 32) then trim_value fuel (take (Z.to_nat pos2) v) (pos2 - 1)
      else (v, pos2)
  end.

(** The value after the equal sign, when there is one. *)
Definition value_of (v : cstring) : option cstring :=
  let '(v, pos2) := match index_of v 10 with
                    | None => (v, Z.of_nat (length v))
                    | Some p => (take p v, Z.of_nat p - 1)
                    end in
  let '(v, pos2) := trim_value (length v) v pos2 in
  if decide (pos2 >= 0) then Some v else None.

Definition header_of (tmp : cstring) : option nat :=
  match index_of tmp 91 with
  | Some pos1 => if only_spaces tmp pos1 then Some pos1 else None
  | None => None
  end.

Definition line_effect (tmp : cstring) (st : LpConfig * option nat) : LpConfig * option nat :=
  let '(lpconfig, cur) := st in
  match header_of tmp with
  | Some pos1 =>
      match index_of (drop pos1 tmp) 93 with
      | Some pos2 =>
          match token (take (pos2 - 1) (drop (pos1 + 1) tmp)) with
          | Some secname =>
              (lp_config_add_section lpconfig (lp_section_new secname), Some (length (sections lpconfig)))
          | None => st
          end
      | None => st
      end
  | None =>
      match index_of tmp 61 with
      | Some pos1 =>
          match token (take pos1 tmp) with
          | Some k =>
              match value_of (drop (pos1 + 1) tmp), cur with
              | Some v, Some i => (on_section i (lp_section_add_item (lp_item_new k v false)) lpconfig, cur)
              | _, _ => st
              end
          | None => st
          end
      | None => st
      end
  end.

(** The lines of a file, longer ones in pieces of [MAX_LEN - 1] characters. *)
Definition file_lines (f : list Z) : list (list Z) :=
  let n := Z.to_nat (MAX_LEN - 1) in split_lines n n f.

Definition file_effect (f : list Z) (st : LpConfig * option nat) : LpConfig * option nat :=
  fold_left (λ st l, line_effect (cstr l) st) (file_lines f) st.

(** ** Lists with a key per element, as maps *)

Section keyed.
Context {A B : Type} (f : A → cstring) (g : A → B).

Definition assoc (l : list A) : gmap cstring B := list_to_map ((λ x, (f x, g x)) <$> l).

Lemma assoc_keys (l : list A) : ((λ x, (f x, g x)) <$> l).*1 = f <$> l.
Proof. by rewrite <- list_fmap_compose. Qed.

Lemma assoc_middle l1 x l2 : NoDup (f <$> l1 ++ x :: l2) →
  assoc (l1 ++ x :: l2) = <[f x := g x]> (assoc (l1 ++ l2)) ∧ assoc (l1 ++ l2) !! f x = None.
Proof.
  intros Hnd. split.
  - change (<[f x := g x]> (assoc (l1 ++ l2))) with (assoc (x :: l1 ++ l2)). apply list_to_map_proper.
    + by rewrite assoc_keys.
    + by rewrite <- Permutation_middle.
  - apply not_elem_of_list_to_map_1. rewrite assoc_keys. rewrite <- Permutation_middle in Hnd.
    by apply list.NoDup_cons in Hnd as [? _].
Qed.

Lemma assoc_snoc l x : f x ∉ f <$> l → assoc (l ++ [x]) = <[f x := g x]> (assoc l).
Proof.
  intros Hx. unfold assoc. rewrite fmap_app. cbn. rewrite list_to_map_snoc; [done|]. by rewrite assoc_keys.
Qed.

(** The first element with key [k], if any. *)
Lemma find_key l k :
  match list_find (λ x, f x = k) l with
  | Some (i, x) => ∃ l1 l2, l = l1 ++ x :: l2 ∧ length l1 = i ∧ f x = k ∧ k ∉ f <$> l1
  | None => k ∉ f <$> l
  end.
Proof.
  destruct (list_find _ l) as [[i x]|] eqn:E.
  - apply list_find_Some in E as (Hi & Hk & Hb). exists (take i l), (drop (S i) l).
    rewrite take_drop_middle by done. split; [done|]. split; [rewrite length_take; apply lookup_lt_Some in Hi; lia|].
    split; [done|]. intros (y & -> & Hy)%list_elem_of_fmap. apply list_elem_of_lookup in Hy as [j Hj].
    apply lookup_take_Some in Hj as [Hj Hlt]. by apply (Hb j y).
  - apply list_find_None in E. intros (x & -> & Hx)%list_elem_of_fmap.
    by apply (proj1 (list.Forall_forall _ _) E x).
Qed.

Lemma assoc_absent l k : k ∉ f <$> l → assoc l !! k = None.
Proof. intros Hk. apply not_elem_of_list_to_map_1. by rewrite assoc_keys. Qed.

Lemma assoc_first l1 x l2 : f x ∉ f <$> l1 → assoc (l1 ++ x :: l2) !! f x = Some (g x).
Proof.
  intros Hx. unfold assoc. rewrite fmap_app, list_to_map_app, lookup_union_r by (by apply assoc_absent).
  cbn. apply lookup_insert_eq.
Qed.

Lemma assoc_find l k : assoc l !! k = (λ '(_, x), g x) <$> list_find (λ x, f x = k) l.
Proof.
  pose proof (find_key l k) as Hf. destruct (list_find _ l) as [[i x]|]; [|by apply assoc_absent].
  destruct Hf as (l1 & l2 & -> & _ & <- & Hn). by apply assoc_first.
Qed.
End keyed.

Lemma alter_middle {A} (h : A → A) l1 x l2 : alter h (length l1) (l1 ++ x :: l2) = l1 ++ h x :: l2.
Proof. by rewrite alter_app_r_alt, Nat.sub_diag by done. Qed.

(** ** The configuration as a map *)

(** What a configuration promises: a map of maps. *)
Definition abs_section (sec : LpSection) : gmap cstring cstring := assoc key value (items sec).
Definition abs_config (c : LpConfig) : gmap cstring (gmap cstring cstring) := assoc name abs_section (sections c).

(** No section name and no key of a section occurs twice. *)
Definition unique_section (sec : LpSection) : Prop := NoDup (key <$> items sec).
Definition unique_keys (c : LpConfig) : Prop :=
  NoDup (name <$> sections c) ∧ Forall unique_section (sections c).

#[export] Instance unique_keys_dec c : Decision (unique_keys c).
Proof. unfold unique_keys, unique_section. apply _. Defined.

Lemma get_string_abs c s k d :
  lp_config_get_string c s k d = match abs_config c !! s ≫= (.!! k) with Some v => Some v | None => d end.
Proof.
  unfold lp_config_get_string, lp_config_find_section, lp_section_find_item, abs_config. rewrite assoc_find.
  pose proof (find_key name (sections c) s) as Hs. destruct (list_find _ (sections c)) as [[i sec]|]; [|done].
  destruct Hs as (l1 & l2 & -> & <- & _). cbn [fmap option_fmap option_map fst mbind option_bind].
  rewrite list_lookup_middle by done. unfold abs_section. rewrite assoc_find.
  pose proof (find_key key (items sec) k) as Hk. destruct (list_find _ (items sec)) as [[j it]|]; [|done].
  destruct Hk as (m1 & m2 & -> & <- & _). cbn. by rewrite list_lookup_middle.
Qed.

(** A change of the section found: the sections around it stay. *)
Lemma on_section_abs c l1 sec l2 h :
  sections c = l1 ++ sec :: l2 → unique_keys c → name (h sec) = name sec → unique_section (h sec) →
  unique_keys (on_section (length l1) h c) ∧
  abs_config (on_section (length l1) h c) = <[name sec := abs_section (h sec)]> (abs_config c).
Proof.
  intros E [Hn Hu] Hname Hsec. unfold unique_keys, abs_config, on_section. cbn [set_sections sections].
  rewrite E in *. rewrite alter_middle.
  assert (name <$> l1 ++ h sec :: l2 = name <$> l1 ++ sec :: l2) as En by (rewrite !fmap_app, !fmap_cons; by rewrite Hname).
  split; [split|].
  - by rewrite En.
  - apply List.Forall_app in Hu as [H1 H2]. inversion H2. apply List.Forall_app. split; [done|]. by constructor.
  - rewrite (proj1 (assoc_middle name abs_section l1 (h sec) l2 ltac:(by rewrite En))).
    rewrite (proj1 (assoc_middle name abs_section l1 sec l2 Hn)), Hname. by rewrite insert_insert_eq.
Qed.

Lemma section_set_value sec m1 it m2 v : items sec = m1 ++ it :: m2 → unique_section sec →
  let sec' := {| name := name sec; items := alter (lp_item_set_value v) (length m1) (items sec) |} in
  unique_section sec' ∧ abs_section sec' = <[key it := v]> (abs_section sec).
Proof.
  unfold unique_section, abs_section. intros E Hu. cbn [items]. rewrite E in *. rewrite alter_middle.
  assert (key <$> m1 ++ lp_item_set_value v it :: m2 = key <$> m1 ++ it :: m2) as En by (by rewrite !fmap_app).
  split; [by rewrite En|].
  rewrite (proj1 (assoc_middle key value m1 (lp_item_set_value v it) m2 ltac:(by rewrite En))).
  rewrite (proj1 (assoc_middle key value m1 it m2 Hu)). cbn. by rewrite insert_insert_eq.
Qed.

Lemma section_remove sec m1 it m2 : items sec = m1 ++ it :: m2 → unique_section sec →
  let sec' := lp_section_remove_item (length m1) sec in
  unique_section sec' ∧ abs_section sec' = delete (key it) (abs_section sec).
Proof.
  unfold unique_section, abs_section. intros E Hu. cbn [items lp_section_remove_item]. rewrite E in *. rewrite delete_middle.
  destruct (assoc_middle key value m1 it m2 Hu) as [-> Hn]. split; [|by rewrite delete_insert_id].
  rewrite <- Permutation_middle, fmap_cons in Hu. by apply list.NoDup_cons in Hu as [_ ?].
Qed.

Lemma section_add sec it : key it ∉ key <$> items sec → unique_section sec →
  let sec' := lp_section_add_item it sec in
  unique_section sec' ∧ abs_section sec' = <[key it := value it]> (abs_section sec).
Proof.
  unfold unique_section, abs_section. intros Hn Hu. cbn [items lp_section_add_item]. split; [|by apply assoc_snoc].
  rewrite fmap_app. apply list.NoDup_app. split; [done|]. split; [|apply NoDup_singleton].
  intros x Hx ->%list_elem_of_singleton. done.
Qed.

Lemma add_section_abs c sec : name sec ∉ name <$> sections c → unique_section sec → unique_keys c →
  unique_keys (lp_config_add_section c sec) ∧
  abs_config (lp_config_add_section c sec) = <[name sec := abs_section sec]> (abs_config c).
Proof.
  intros Hn Hs [Hnd Hu]. split; [split|]; cbn [lp_config_add_section set_sections sections].
  - rewrite fmap_app. apply list.NoDup_app. split; [done|]. split; [|apply NoDup_singleton].
    intros x Hx ->%list_elem_of_singleton. done.
  - apply List.Forall_app. split; [done|]. by repeat constructor.
  - by apply assoc_snoc.
Qed.

(** The counter moves; what is stored does not. *)
Lemma incr_modified_ok c : modified c + 1 < 2 ^ 31 → incr_modified c = Some (set_modified (modified c + 1) c).
Proof. intros H. unfold incr_modified. by rewrite decide_True. Qed.

(** The abstract assignment: a value, or removal. *)
Definition set_abs (m : gmap cstring (gmap cstring cstring)) (s k : cstring) (v : option cstring) :=
  match v with
  | Some v => <[s := <[k := v]> (default ∅ (m !! s))]> m
  | None => alter (delete k) s m
  end.

(** [c'] is [c] with the assignment made and nothing else changed. *)
Definition stored (c : LpConfig) (s k : cstring) (v : option cstring) (c' : LpConfig) : Prop :=
  unique_keys c' ∧ abs_config c' = set_abs (abs_config c) s k v ∧
  filename c' = filename c ∧ file c' = file c ∧ modified c' = modified c.

Lemma found_section c l1 sec l2 : sections c = l1 ++ sec :: l2 → unique_keys c →
  unique_section sec ∧ abs_config c !! name sec = Some (abs_section sec) ∧ sections c !! length l1 = Some sec.
Proof.
  intros E [Hn Hu]. unfold abs_config. rewrite E in *. rewrite (proj1 (assoc_middle name abs_section l1 sec l2 Hn)).
  split; [|split; [apply lookup_insert_eq|by rewrite list_lookup_middle]].
  apply List.Forall_app in Hu as [_ Hu]. by inversion Hu.
Qed.

Lemma stored_on_section c l1 sec l2 h k v :
  sections c = l1 ++ sec :: l2 → unique_keys c → name (h sec) = name sec → unique_section (h sec) →
  abs_section (h sec) = match v with Some v => <[k := v]> (abs_section sec) | None => delete k (abs_section sec) end →
  stored c (name sec) k v (on_section (length l1) h c).
Proof.
  intros E Hu Hname Hsec A. destruct (found_section c l1 sec l2 E Hu) as (_ & Hl & _).
  destruct (on_section_abs c l1 sec l2 h E Hu Hname Hsec) as [U' A']. split; [done|]. split; [|done].
  rewrite A', A. unfold set_abs. destruct v; [by rewrite Hl|]. apply map_eq. intros x. destruct (decide (x = name sec)) as [->|].
  - by rewrite lookup_insert_eq, lookup_alter_eq, Hl.
  - by rewrite lookup_insert_ne, lookup_alter_ne by done.
Qed.

Lemma stored_same c s k : unique_keys c → abs_config c !! s ≫= (.!! k) = None → stored c s k None c.
Proof.
  intros Hu Hn. split; [done|]. split; [|done]. unfold set_abs. apply map_eq. intros x.
  destruct (decide (x = s)) as [->|]; [|by rewrite lookup_alter_ne]. rewrite lookup_alter_eq.
  destruct (abs_config c !! s) as [m|]; [|done]. cbn in *. by rewrite delete_id.
Qed.

Lemma stored_new_section c s k v : unique_keys c → s ∉ name <$> sections c →
  stored c s k (Some v) (on_section (length (sections c)) (lp_section_add_item (lp_item_new k v true))
                           (lp_config_add_section c (lp_section_new s))).
Proof.
  intros Hu Hs. destruct (add_section_abs c (lp_section_new s) Hs ltac:(apply NoDup_nil_2) Hu) as [U A].
  destruct (section_add (lp_section_new s) (lp_item_new k v true)) as [U1 A1]; [by intros ?%elem_of_nil|apply NoDup_nil_2|].
  destruct (on_section_abs (lp_config_add_section c (lp_section_new s)) (sections c) (lp_section_new s) []
              (lp_section_add_item (lp_item_new k v true)) eq_refl U eq_refl U1) as [U' A'].
  split; [exact U'|]. split; [|done]. rewrite A', A, A1. unfold set_abs. cbn [name lp_section_new].
  rewrite insert_insert_eq. unfold abs_config. by rewrite (assoc_absent name abs_section (sections c) s Hs).
Qed.

Lemma stored_incr c s k v c' : modified c + 1 < 2 ^ 31 → stored c s k v c' →
  ∃ c'', incr_modified c' = Some c'' ∧ unique_keys c'' ∧ abs_config c'' = set_abs (abs_config c) s k v ∧
    filename c'' = filename c ∧ file c'' = file c ∧ modified c'' = modified c + 1.
Proof.
  intros Hm (U & A & E1 & E2 & E3). exists (set_modified (modified c' + 1) c'). split; [apply incr_modified_ok; by rewrite E3|].
  split; [exact U|]. split; [exact A|]. cbn. by rewrite E3.
Qed.

Lemma set_string_ok c s k v : unique_keys c → modified c + 1 < 2 ^ 31 →
  ∃ c', lp_config_set_string c s k v = Some c' ∧ unique_keys c' ∧ abs_config c' = set_abs (abs_config c) s k v ∧
    filename c' = filename c ∧ file c' = file c ∧ modified c' = modified c + 1.
Proof.
  intros Hu Hm. apply stored_incr; [done|]. unfold lp_config_find_section, lp_section_find_item.
  pose proof (find_key name (sections c) s) as Hs.
  destruct (list_find _ (sections c)) as [[i sec]|]; cbn [fmap option_fmap option_map fst] in *.
  - destruct Hs as (l1 & l2 & E & <- & <- & _). destruct (found_section c l1 sec l2 E Hu) as (Hsec & Habs & ->).
    cbn [default from_option id]. pose proof (find_key key (items sec) k) as Hk.
    destruct (list_find _ (items sec)) as [[j it]|]; cbn [fmap option_fmap option_map fst] in *.
    + destruct Hk as (m1 & m2 & Em & <- & <- & _). destruct v as [v|].
      * destruct (section_set_value sec m1 it m2 v Em Hsec). by apply (stored_on_section c l1 sec l2).
      * destruct (section_remove sec m1 it m2 Em Hsec). by apply (stored_on_section c l1 sec l2).
    + destruct v as [v|].
      * destruct (section_add sec (lp_item_new k v true) Hk Hsec). by apply (stored_on_section c l1 sec l2).
      * apply stored_same; [done|]. rewrite Habs. cbn. by apply assoc_absent.
  - destruct v as [v|]; [by apply stored_new_section|]. apply stored_same; [done|].
    unfold abs_config. by rewrite (assoc_absent name abs_section (sections c) s Hs).
Qed.

(** C23: [lp_config_set_string] is assignment, or removal for a null value, in the map the
    configuration stands for, whatever it held; no key or section is doubled, and the change is counted.
    [lp_config_get_string] looks up in that map. *)
Theorem lp_config_set_string_refines c s k v : unique_keys c → modified c + 1 < 2 ^ 31 →
  ∃ c', lp_config_set_string c s k v = Some c' ∧ unique_keys c' ∧ abs_config c' = set_abs (abs_config c) s k v ∧
    filename c' = filename c ∧ file c' = file c ∧ lp_config_needs_commit c' = bool_decide (modified c >= 0) ∧
    ∀ s' k' d, lp_config_get_string c' s' k' d =
      if decide (s' = s ∧ k' = k) then match v with Some v => Some v | None => d end
      else lp_config_get_string c s' k' d.
Proof.
  intros Hu Hm. destruct (set_string_ok c s k v Hu Hm) as (c' & E & U & A & En & Ef & Em). exists c'.
  do 5 (split; [done|]). split.
  { unfold lp_config_needs_commit. rewrite Em. apply bool_decide_ext. lia. }
  intros s' k' d. rewrite !get_string_abs, A. unfold set_abs. case_decide as Hd.
  - destruct Hd as [-> ->]. destruct v as [v|]; [by rewrite lookup_insert_eq; cbn; rewrite lookup_insert_eq|].
    rewrite lookup_alter_eq. destruct (abs_config c !! s); cbn; [by rewrite lookup_delete_eq|done].
  - destruct (decide (s' = s)) as [->|Hs'].
    + assert (k' ≠ k) as Hk by tauto. destruct v as [v|]; [rewrite lookup_insert_eq|rewrite lookup_alter_eq];
        destruct (abs_config c !! s); cbn; rewrite ?lookup_insert_ne, ?lookup_delete_ne by done; done.
    + destruct v as [v|]; [rewrite lookup_insert_ne by done|rewrite lookup_alter_ne by done]; done.
Qed.

(** [lp_config_clean_section] removes the section with the name and no other, and
    [lp_config_has_section] tells which sections there are. *)
Theorem lp_config_clean_section_refines c s : unique_keys c → modified c + 1 < 2 ^ 31 →
  ∃ c', lp_config_clean_section c s = Some c' ∧ unique_keys c' ∧ abs_config c' = delete s (abs_config c) ∧
    (∀ s', lp_config_has_section c' s' = if decide (s' = s) then 0 else lp_config_has_section c s') ∧
    (∀ c0 s', lp_config_has_section c0 s' = if decide (is_Some (abs_config c0 !! s')) then 1 else 0).
Proof.
  intros Hu Hm.
  assert (∀ c0 s', lp_config_has_section c0 s' = if decide (is_Some (abs_config c0 !! s')) then 1 else 0) as Hh.
  { intros c0 s'. unfold lp_config_has_section, lp_config_find_section, abs_config. rewrite assoc_find.
    destruct (list_find _ (sections c0)) as [[i sec]|]; cbn; [by rewrite decide_True by eauto|].
    rewrite decide_False by (by intros [? ?]). done. }
  assert (∃ c', lp_config_clean_section c s = Some c' ∧ unique_keys c' ∧ abs_config c' = delete s (abs_config c)) as (c' & E & U & A).
  { unfold lp_config_clean_section, lp_config_find_section. pose proof (find_key name (sections c) s) as Hs.
    destruct (list_find _ (sections c)) as [[i sec]|]; cbn [fmap option_fmap option_map fst].
    - destruct Hs as (l1 & l2 & El & <- & <- & _). eexists. split; [by rewrite incr_modified_ok|]. destruct Hu as [Hn Hu].
      unfold unique_keys, abs_config, lp_config_remove_section. cbn [sections set_modified set_sections]. rewrite El in *.
      rewrite delete_middle. destruct (assoc_middle name abs_section l1 sec l2 Hn) as [-> Hd].
      split; [split|by rewrite delete_insert_id].
      + rewrite <- Permutation_middle, fmap_cons in Hn. by apply list.NoDup_cons in Hn as [_ ?].
      + apply List.Forall_app in Hu as [H1 H2]. inversion H2. by apply List.Forall_app.
    - eexists. split; [by rewrite incr_modified_ok|]. split; [exact Hu|].
      change (abs_config c = delete s (abs_config c)). by rewrite delete_id by (by apply assoc_absent). }
  exists c'. do 3 (split; [done|]). split; [|done]. intros s'. rewrite !Hh, A. destruct (decide (s' = s)) as [->|Hs].
  - rewrite lookup_delete_eq. by case_decide as H; [destruct H|].
  - by rewrite lookup_delete_ne.
Qed.

(** ** Integers as text *)

Definition is_digit (c : Z) : Prop := 48 <= c <= 57.

Lemma digits_value_snoc s d : ∀ acc, Forall is_digit s → is_digit d →
  digits_value (s ++ [d]) acc = 10 * digits_value s acc + (d - 48).
Proof.
  induction s as [|c s IH]; intros acc Hs Hd; unfold is_digit in *.
  - cbn. by replace ((48 <=? d) && (d <=? 57)) with true by lia.
  - inversion Hs. cbn [app digits_value]. replace ((48 <=? c) && (c <=? 57)) with true by lia. by apply IH.
Qed.

Lemma print_digits_ok fuel : ∀ n, (0 < fuel)%nat → 0 <= n < 10 ^ Z.of_nat fuel →
  Forall is_digit (print_digits fuel n) ∧ digits_value (print_digits fuel n) 0 = n ∧
  print_digits fuel n ≠ [] ∧ (length (print_digits fuel n) ≤ fuel)%nat.
Proof.
  induction fuel as [|fuel IH]; intros n Hf Hn; [lia|]. cbn [print_digits].
  pose proof (Z.mod_pos_bound n 10 ltac:(lia)) as Hm. pose proof (Z.div_mod n 10 ltac:(lia)) as Hdm.
  assert (is_digit (48 + n mod 10)) as Hdig by (unfold is_digit; lia).
  rewrite length_app. cbn [length]. case_decide as Hlt.
  - split; [constructor; [done|constructor]|]. cbn [app length]. rewrite Z.mod_small in * by lia. cbn [digits_value].
    replace ((48 <=? 48 + n) && (48 + n <=? 57)) with true by lia. split; [lia|]. split; [done|lia].
  - destruct fuel as [|fuel]; [cbn in Hn; lia|].
    destruct (IH (n / 10)) as (Hd & Hv & Hne & Hl); [lia| |].
    { replace (Z.of_nat (S (S fuel))) with (Z.of_nat (S fuel) + 1) in Hn by lia.
      rewrite Z.pow_add_r in Hn by lia. split; [apply Z.div_pos; lia|apply Z.div_lt_upper_bound; lia]. }
    split; [apply List.Forall_app; split; [done|constructor; [done|constructor]]|].
    rewrite digits_value_snoc by done. rewrite Hv. split; [lia|]. split; [|lia].
    by intros [_ ?]%app_eq_nil.
Qed.

Lemma isspace_digit c : is_digit c → isspace c = false.
Proof. unfold is_digit, isspace. lia. Qed.

Lemma atoi_print v : - 2 ^ 31 <= v < 2 ^ 31 → atoi (take 29 (print_int v)) = Some v.
Proof.
  intros Hv. unfold print_int. case_decide as Hneg.
  - destruct (print_digits_ok 10 (- v)) as (Hd & E & _ & Hl); [lia|lia|].
    rewrite (take_ge _ 29) by (cbn [length]; lia). unfold atoi. cbn [skip_spaces isspace]. 
    change (isspace 45) with false. cbn iota. change (45 =? 45) with true. cbn iota. rewrite E.
    rewrite decide_True by lia. f_equal. lia.
  - destruct (print_digits_ok 10 v) as (Hd & E & Hne & Hl); [lia|lia|]. rewrite (take_ge _ 29) by lia.
    destruct (print_digits 10 v) as [|c s]; [done|]. assert (is_digit c) as Hc by (by inversion Hd).
    unfold atoi. cbn [skip_spaces]. rewrite isspace_digit by done. unfold is_digit in Hc.
    replace (c =? 45) with false by lia. replace (c =? 43) with false by lia. rewrite E. by rewrite decide_True.
Qed.

(** What [lp_config_set_int] stores is what [lp_config_get_int] reads, for every [int];
    other keys keep their values. The change is counted twice. *)
Theorem lp_config_int_roundtrip c s k v d : unique_keys c → modified c + 2 < 2 ^ 31 → - 2 ^ 31 <= v < 2 ^ 31 →
  ∃ c', lp_config_set_int c s k v = Some c' ∧ lp_config_get_int c' s k d = Some v ∧ unique_keys c' ∧
    modified c' = modified c + 2 ∧
    ∀ s' k', (s', k') ≠ (s, k) → lp_config_get_int c' s' k' d = lp_config_get_int c s' k' d.
Proof.
  intros Hu Hm Hv. destruct (set_string_ok c s k (Some (take 29 (print_int v))) Hu ltac:(lia)) as (c' & E & U & A & _ & _ & Em).
  exists (set_modified (modified c' + 1) c'). unfold lp_config_set_int. rewrite E. cbn [mbind option_bind].
  split; [apply incr_modified_ok; lia|]. split; [|split; [exact U|split; [cbn; lia|]]].
  - unfold lp_config_get_int. rewrite get_string_abs. change (abs_config (set_modified _ c')) with (abs_config c').
    rewrite A. cbn [set_abs]. rewrite lookup_insert_eq. cbn [mbind option_bind]. rewrite lookup_insert_eq. by apply atoi_print.
  - intros s' k' Hne. unfold lp_config_get_int. rewrite !get_string_abs. change (abs_config (set_modified _ c')) with (abs_config c').
    rewrite A. cbn [set_abs]. destruct (decide (s' = s)) as [->|Hs]; [|by rewrite lookup_insert_ne].
    rewrite lookup_insert_eq. cbn [mbind option_bind]. rewrite lookup_insert_ne by congruence. by destruct (abs_config c !! s).
Qed.

(** ** Writing and reading back *)

(** Names, keys and values the format can carry. *)
Definition wf_text (s : cstring) : Prop := Forall (λ c, c ≠ 0 ∧ c ≠ 10) s.
Definition wf_token (stop : Z) (s : cstring) : Prop :=
  s ≠ [] ∧ Forall (λ c, isspace c = false ∧ c ≠ stop ∧ c ≠ 0) s.
Definition wf_value (v : cstring) : Prop :=
  wf_text v ∧ v ≠ [] ∧ ((length v ≤ 1)%nat ∨ list.last v ≠ Some 32).
Definition wf_item (it : LpItem) : Prop :=
  wf_token 61 (key it) ∧ head (key it) ≠ Some 91 ∧ wf_value (value it) ∧
  Z.of_nat (length (key it) + length (value it)) + 2 < MAX_LEN.
Definition wf_section (sec : LpSection) : Prop :=
  wf_token 93 (name sec) ∧ Z.of_nat (length (name sec)) + 3 < MAX_LEN ∧ Forall wf_item (items sec).

#[export] Instance wf_section_dec sec : Decision (wf_section sec).
Proof. unfold wf_section, wf_item, wf_value, wf_text, wf_token. apply _. Defined.

Lemma token_wf stop s : wf_token stop s → token s = Some s.
Proof.
  intros [Hne Hs]. unfold token. assert (Forall (λ c, isspace c = false) s) as H.
  { eapply List.Forall_impl; [|exact Hs]. by intros c [? _]. }
  destruct s as [|c s]; [done|]. inversion H as [|? ? Hc _]. cbn [skip_spaces]. rewrite Hc. by rewrite take_token_id.
Qed.

Lemma wf_token_text stop s : wf_token stop s → wf_text s.
Proof.
  intros [_ Hs]. eapply List.Forall_impl; [|exact Hs]. cbn. intros c (Hc & _ & H0). split; [done|].
  intros ->. done.
Qed.

Lemma wf_text_line s : wf_text s → Forall (λ c, c ≠ 10) s.
Proof. intros H. eapply List.Forall_impl; [|exact H]. cbn. tauto. Qed.

Lemma cstr_line s : wf_text s → cstr (s ++ [10]) = s ++ [10].
Proof.
  intros H. apply cstr_id. apply List.Forall_app. split; [|by repeat constructor].
  eapply List.Forall_impl; [|exact H]. cbn. tauto.
Qed.

(** A value that ends in a character other than a space, or is one character, is kept. *)
Lemma value_of_ok v : wf_value v → value_of (v ++ [10]) = Some v.
Proof.
  intros (Ht & Hne & Hl). unfold value_of. rewrite index_of_found by (by apply wf_text_line).
  rewrite take_app_length. destruct (exists_last Hne) as [v' [c ->]]. rewrite last_snoc, length_app in Hl. rewrite length_app.
  cbn [length] in *. rewrite Nat.add_1_r. cbn [trim_value].
  rewrite decide_False; [rewrite decide_True by lia; done|]. intros [H1 H2].
  replace (Z.to_nat (Z.of_nat (S (length v')) - 1)) with (length v') in H2 by lia.
  rewrite list_lookup_middle in H2 by done. injection H2 as ->. destruct Hl; [lia|done].
Qed.

Lemma effect_section_line sec c cur : wf_token 93 (name sec) →
  line_effect ([91] ++ name sec ++ [93; 10]) (c, cur) =
  (lp_config_add_section c (lp_section_new (name sec)), Some (length (sections c))).
Proof.
  intros Hn. unfold line_effect, header_of.
  assert (index_of ([91] ++ name sec ++ [93; 10]) 91 = Some 0%nat) as -> by (apply (index_of_found [] 91); constructor).
  change (only_spaces _ 0) with true. cbn iota. rewrite drop_0.
  assert (index_of ([91] ++ name sec ++ [93; 10]) 93 = Some (S (length (name sec)))) as ->.
  { apply (index_of_found (91 :: name sec)). constructor; [done|]. destruct Hn as [_ H]. eapply List.Forall_impl; [|exact H]. cbn. tauto. }
  cbn [app drop Nat.add]. rewrite Nat.sub_succ, Nat.sub_0_r. rewrite drop_0, take_app_length. by rewrite (token_wf 93).
Qed.

Lemma header_of_key a s : isspace a = false → a ≠ 91 → header_of (a :: s) = None.
Proof.
  intros Ha Hb. unfold header_of, index_of. cbn [list_find]. rewrite decide_False by done.
  destruct (list_find _ s) as [[p y]|]; [|done]. cbn. replace (a =? 32) with false; [done|]. unfold isspace in Ha. lia.
Qed.

Lemma effect_item_line it c i : wf_item it →
  line_effect (key it ++ [61] ++ value it ++ [10]) (c, Some i) =
  (on_section i (lp_section_add_item (lp_item_new (key it) (value it) false)) c, Some i).
Proof.
  intros ([Hne Hk] & Hb & Hv & _). unfold line_effect.
  assert (header_of (key it ++ [61] ++ value it ++ [10]) = None) as ->.
  { destruct (key it) as [|a k]; [done|]. inversion Hk as [|? ? [Ha _] _]. apply header_of_key; [done|].
    intros ->. by apply Hb. }
  change (key it ++ [61] ++ value it ++ [10]) with (key it ++ 61 :: value it ++ [10]).
  rewrite index_of_found by (eapply List.Forall_impl; [|exact Hk]; cbn; tauto).
  rewrite take_app_length. rewrite (token_wf 61) by done. rewrite Nat.add_1_r.
  rewrite drop_app_ge by lia. replace (S (length (key it)) - length (key it))%nat with 1%nat by lia. cbn [drop].
  by rewrite drop_0, value_of_ok.
Qed.

(** *** The whole file *)

(** An item as it is after reading: unchanged since. *)
Definition fresh_item (it : LpItem) : LpItem := lp_item_new (key it) (value it) false.
Definition fresh_section (sec : LpSection) : LpSection := {| name := name sec; items := fresh_item <$> items sec |}.

(** A line short enough is one step. *)
Lemma file_effect_line l f st : wf_text l → Z.of_nat (length l) + 1 < MAX_LEN →
  file_effect (l ++ 10 :: f) st = file_effect f (line_effect (l ++ [10]) st).
Proof.
  intros Hl Hlen. unfold file_effect, file_lines.
  rewrite split_lines_line by (by apply wf_text_line || lia). cbn [fold_left]. by rewrite cstr_line.
Qed.

(** The sections read so far, the last one current. *)
Definition with_sections (c : LpConfig) (l : list LpSection) : LpConfig * option nat :=
  (set_sections l c, match l with [] => None | _ => Some (pred (length l)) end).

Lemma with_sections_last c l sec : with_sections c (l ++ [sec]) = (set_sections (l ++ [sec]) c, Some (length l)).
Proof. unfold with_sections. rewrite length_app, Nat.add_1_r. by destruct l. Qed.

Lemma on_last_section c l sec h :
  on_section (length l) h (set_sections (l ++ [sec]) c) = set_sections (l ++ [h sec]) c.
Proof. unfold on_section. cbn [sections set_sections]. by rewrite alter_middle. Qed.

Lemma effect_items its : ∀ f c l sec, Forall wf_item its →
  file_effect (concat (lp_item_write <$> its) ++ f) (with_sections c (l ++ [sec])) =
  file_effect f (with_sections c (l ++ [{| name := name sec; items := items sec ++ (fresh_item <$> its) |}])).
Proof.
  induction its as [|it its IH]; intros f c l sec Hwf.
  - cbn [fmap list_fmap concat app]. rewrite app_nil_r. by destruct sec.
  - inversion Hwf as [|? ? Hit Hits]. cbn [fmap list_fmap concat]. pose proof Hit as (Hk & _ & (Hv & _) & Hlen).
    assert ((lp_item_write it ++ concat (lp_item_write <$> its)) ++ f =
            (key it ++ [61] ++ value it) ++ 10 :: concat (lp_item_write <$> its) ++ f) as ->.
    { unfold lp_item_write. by rewrite <- !app_assoc. }
    rewrite file_effect_line.
    + rewrite with_sections_last, <- !app_assoc, effect_item_line, on_last_section by done.
      rewrite <- with_sections_last. rewrite IH by done. cbn [lp_section_add_item name items]. by rewrite <- app_assoc.
    + apply List.Forall_app. split; [by apply (wf_token_text 61)|]. apply List.Forall_app. split; [by repeat constructor|done].
    + rewrite !length_app. cbn [length]. lia.
Qed.

Lemma effect_section sec f c l : wf_section sec →
  file_effect (lp_section_write sec ++ f) (with_sections c l) =
  file_effect f (with_sections c (l ++ [fresh_section sec])).
Proof.
  intros (Hn & Hlen & Hits). unfold lp_section_write.
  assert (([91] ++ name sec ++ [93; 10] ++ concat (lp_item_write <$> items sec) ++ [10]) ++ f =
          ([91] ++ name sec ++ [93]) ++ 10 :: concat (lp_item_write <$> items sec) ++ [] ++ 10 :: f) as ->
    by (by rewrite <- !app_assoc).
  rewrite file_effect_line.
  - rewrite <- !app_assoc. unfold with_sections at 1. change ([93] ++ [10]) with [93; 10].
    rewrite effect_section_line by done. cbn [sections set_sections].
    change (lp_config_add_section (set_sections l c) ?x) with (set_sections (l ++ [x]) c).
    rewrite <- with_sections_last, effect_items by done.
    rewrite file_effect_line; [|by constructor|done]. f_equal.
  - apply List.Forall_app. split; [by repeat constructor|]. apply List.Forall_app.
    split; [by apply (wf_token_text 93)|by repeat constructor].
  - rewrite !length_app. cbn [length]. lia.
Qed.

Lemma effect_sections secs : ∀ c l, Forall wf_section secs →
  file_effect (concat (lp_section_write <$> secs)) (with_sections c l) =
  with_sections c (l ++ (fresh_section <$> secs)).
Proof.
  induction secs as [|sec secs IH]; intros c l Hwf; [by rewrite app_nil_r|].
  inversion Hwf as [|? ? Hsec Hsecs]. cbn [fmap list_fmap concat]. rewrite effect_section by done.
  rewrite IH by done. by rewrite <- app_assoc.
Qed.

(** *** The arrays *)

Lemma first_char_ok b s n : ∀ k, has_str b 0 s → (k + n ≤ length s)%nat →
  first_char_loop n b (Z.of_nat k) = Some (forallb (λ c, c =? 32) (take n (drop k s))).
Proof.
  induction n as [|n IH]; intros k H Hk; [done|]. cbn [first_char_loop].
  destruct (lookup_lt_is_Some_2 s k) as [c Hc]; [lia|].
  pose proof (has_str_get b 0 s k H ltac:(lia)) as E. rewrite Nat.add_0_l, Hc in E. rewrite E. cbn. rewrite (drop_S s c k) by done. cbn [take forallb].
  case_decide as Ec; [by replace (c =? 32) with false by lia|].
  replace (c =? 32) with true by lia. replace (Z.of_nat k + 1) with (Z.of_nat (S k)) by lia. by apply IH; [|lia].
Qed.

Lemma is_first_char_ok b s pos : has_str b 0 s → (pos ≤ length s)%nat →
  is_first_char b 0 (Z.of_nat pos) = Some (only_spaces s pos).
Proof.
  intros H Hp. unfold is_first_char. replace (Z.to_nat (Z.of_nat pos - 0)) with pos by lia.
  apply (first_char_ok b s pos 0 H). lia.
Qed.

Lemma trim_ok fuel : ∀ fl b i v j, has_str b i v → -1 <= j <= Z.of_nat (length v) →
  (Z.to_nat j < fuel)%nat → j <= Z.of_nat fl →
  let '(v', j') := trim_value fl v j in
  ∃ b', trim fuel b (Z.of_nat i) (Z.of_nat i + j) = Some (b', Z.of_nat i + j') ∧
    length b' = length b ∧ has_str b' i v'.
Proof.
  induction fuel as [|fuel IH]; intros fl b i v j H Hj Hf Hfl; [lia|]. cbn [trim].
  destruct (decide (0 < j)) as [Hpos|Hpos].
  2:{ destruct fl; cbn [trim_value]; [|rewrite decide_False by tauto];
        (exists b; split; [by rewrite decide_False by lia|done]). }
  destruct fl as [|fl]; [lia|]. cbn [trim_value]. rewrite (decide_True (P := Z.of_nat i + j > Z.of_nat i)) by lia.
  replace (Z.of_nat i + j) with (Z.of_nat (i + Z.to_nat j)) by lia.
  rewrite (has_str_get b i v (Z.to_nat j) H) by lia. cbn [mbind option_bind].
  destruct (decide (v !! Z.to_nat j = Some 32)) as [E|E].
  - rewrite (decide_True (P := 0 < j ∧ _)) by done. rewrite E. cbn [default from_option id].
    rewrite decide_True by done.
    destruct (has_str_set b i v (Z.to_nat j) H) as (b1 & S1 & L1 & H1 & _); [lia|]. rewrite S1. cbn [mbind option_bind].
    assert (Hlt : length (take (Z.to_nat j) v) = Z.to_nat j) by (rewrite length_take; lia).
    pose proof (IH fl b1 i (take (Z.to_nat j) v) (j - 1) H1) as G. rewrite Hlt in G.
    replace (Z.of_nat (i + Z.to_nat j) - 1) with (Z.of_nat i + (j - 1)) by lia.
    destruct (trim_value fl _ (j - 1)) as [v' j']. rewrite <- L1. apply G; lia.
  - rewrite (decide_False (P := 0 < j ∧ _)) by tauto. exists b.
    rewrite decide_False by (destruct (v !! Z.to_nat j) eqn:E'; cbn; congruence).
    split; [do 2 f_equal; lia|done].
Qed.

Lemma parse_value_ok b i v : has_str b i v →
  ∃ b' j v', parse_value b (Z.of_nat i) = Some (b', Z.of_nat i + j) ∧ length b' = length b ∧ has_str b' i v' ∧
    value_of v = if decide (j >= 0) then Some v' else None.
Proof.
  intros H. unfold parse_value, value_of. rewrite (has_str_strchr b i v 10 H). cbn [mbind option_bind].
  destruct (index_of v 10) as [p|] eqn:Ep; cbn [fmap option_fmap option_map].
  - apply index_of_lookup in Ep. pose proof (lookup_lt_Some _ _ _ Ep) as Hp.
    destruct (has_str_set b i v p H) as (b1 & -> & L1 & H1 & _); [lia|]. cbn [mbind option_bind].
    assert (Hlt : length (take p v) = p) by (rewrite length_take; lia).
    pose proof (trim_ok (S (Z.to_nat (Z.of_nat p - 1))) p b1 i (take p v) (Z.of_nat p - 1) H1) as G.
    rewrite Hlt in *. destruct (trim_value p (take p v) (Z.of_nat p - 1)) as [v' j].
    destruct G as (b' & R & L & H'); [lia..|]. exists b', j, v'. rewrite <- L1. split; [|done].
    rewrite <- R. do 2 f_equal; lia.
  - unfold strlen. rewrite (has_str_string _ _ _ H). cbn [mbind option_bind].
    pose proof (trim_ok (S (Z.to_nat (Z.of_nat (length v)))) (length v) b i v (Z.of_nat (length v)) H) as G.
    destruct (trim_value (length v) v _) as [v' j]. destruct G as (b' & R & L & H'); [lia..|].
    exists b', j, v'. split; [|done]. rewrite <- R. do 2 f_equal; lia.
Qed.

Lemma char_array_ok : length char_array = Z.to_nat MAX_LEN ∧
  ∃ b, buf_set char_array 0 0 = Some b ∧ length b = Z.to_nat MAX_LEN.
Proof.
  assert (H : length char_array = Z.to_nat MAX_LEN) by apply length_replicate. split; [done|].
  unfold buf_set. rewrite decide_True by (rewrite H; done). eexists. split; [done|]. by rewrite length_insert, H.
Qed.

Lemma parse_header_ok b s pos1 st : has_str b 0 s → length b = Z.to_nat MAX_LEN →
  header_of s = Some pos1 →
  ∃ b', parse_header b (Z.of_nat pos1) st = Some (b', line_effect s st) ∧ length b' = Z.to_nat MAX_LEN.
Proof.
  intros H Hb Hh. unfold parse_header, line_effect. rewrite Hh. destruct st as [c cur].
  assert (E1 : s !! pos1 = Some 91).
  { unfold header_of in Hh. destruct (index_of s 91) as [p|] eqn:E; [|done]. destruct (only_spaces s p); [|done].
    injection Hh as ->. by apply index_of_lookup in E. }
  pose proof (lookup_lt_Some _ _ _ E1) as Hp. pose proof (has_str_length _ _ _ H) as Hl.
  rewrite (has_str_strchr b pos1 (drop pos1 s) 93 (has_str_drop b 0 s pos1 H ltac:(lia))). cbn [mbind option_bind].
  destruct (index_of (drop pos1 s) 93) as [q|] eqn:Eq; cbn [fmap option_fmap option_map]; [|by exists b].
  apply index_of_lookup in Eq. rewrite lookup_drop in Eq. pose proof (lookup_lt_Some _ _ _ Eq) as Hq.
  destruct q as [|q]; [rewrite Nat.add_0_r in Eq; congruence|].
  destruct char_array_ok as (_ & secname & -> & Hsn). cbn [mbind option_bind].
  destruct (has_str_set b 0 s (pos1 + S q) H) as (b1 & S1 & L1 & H1 & _); [lia|].
  rewrite Nat.add_0_l in S1. rewrite S1. cbn [mbind option_bind]. rewrite Hb in L1.
  assert (H2 : has_str b1 (pos1 + 1) (take (S q - 1) (drop (pos1 + 1) s))).
  { rewrite take_drop_commute. replace (pos1 + 1 + (S q - 1))%nat with (pos1 + S q)%nat by lia.
    apply (has_str_drop b1 0); [done|rewrite length_take; lia]. }
  pose proof (has_str_sscanf b1 _ _ secname H2) as Hs. rewrite length_take, length_drop in Hs.
  replace (Z.of_nat pos1 + 1) with (Z.of_nat (pos1 + 1)) by lia.
  destruct (token _) as [t|] eqn:Et.
  - destruct Hs as (d & -> & Hd); [lia|]. cbn. unfold strlen. rewrite (has_str_string d 0 t Hd : string_at d 0 = _). cbn.
    apply token_Some in Et as (Hne & _). rewrite !decide_True by (done || (destruct t; [done|cbn; lia])). by exists b1.
  - rewrite Hs by lia. cbn. by exists b1.
Qed.

Lemma parse_item_ok b s pos1 st : has_str b 0 s → length b = Z.to_nat MAX_LEN →
  header_of s = None → index_of s 61 = Some pos1 →
  ∃ b', parse_item b (Z.of_nat pos1) st = Some (b', line_effect s st) ∧ length b' = Z.to_nat MAX_LEN.
Proof.
  intros H Hb Hh E1. unfold parse_item, line_effect. rewrite Hh, E1. destruct st as [c cur].
  apply index_of_lookup in E1. pose proof (lookup_lt_Some _ _ _ E1) as Hp. pose proof (has_str_length _ _ _ H) as Hl.
  destruct char_array_ok as (_ & k0 & -> & Hk0). cbn [mbind option_bind].
  destruct (has_str_set b 0 s pos1 H) as (b1 & S1 & L1 & H1 & H2); [lia|].
  rewrite Nat.add_0_l in S1. rewrite S1. cbn [mbind option_bind]. rewrite Hb in L1.
  specialize (H2 Hp). rewrite Nat.add_0_l, <- Nat.add_1_r in H2.
  pose proof (has_str_sscanf b1 0 _ k0 H1) as Hs. rewrite length_take in Hs. change (Z.of_nat 0) with 0 in Hs.
  destruct (token (take pos1 s)) as [t|].
  2:{ rewrite Hs by lia. by exists b1. }
  destruct Hs as (d & -> & Hd); [lia|]. cbn [mbind option_bind]. rewrite decide_True by done.
  replace (Z.of_nat pos1 + 1) with (Z.of_nat (pos1 + 1)) by lia.
  destruct (parse_value_ok b1 _ _ H2) as (b2 & j & v & -> & L2 & H3 & ->). cbn [mbind option_bind].
  rewrite L1 in L2. rewrite (decide_ext (Z.of_nat (pos1 + 1) + j - Z.of_nat (pos1 + 1) >= 0) (j >= 0)) by lia.
  exists b2. split; [|done]. case_decide; [|done]. destruct cur as [i|]; [|done].
  rewrite (has_str_string d 0 t Hd : string_at d 0 = _), (has_str_string _ _ _ H3). done.
Qed.

(** A line in the array does what it says; the array stays an array of [MAX_LEN]. *)
Lemma parse_line_ok b s st : has_str b 0 s → length b = Z.to_nat MAX_LEN →
  ∃ b', parse_line b st = Some (b', line_effect s st) ∧ length b' = Z.to_nat MAX_LEN.
Proof.
  intros H Hb. unfold parse_line. rewrite (has_str_strchr_start b s 91 H). cbn [mbind option_bind].
  destruct (header_of s) as [pos1|] eqn:Eh.
  - destruct (parse_header_ok b s pos1 st H Hb Eh) as (b' & R & L). exists b'. split; [|done].
    unfold header_of in Eh. destruct (index_of s 91) as [p|] eqn:E; [|done]. cbn [fmap option_fmap option_map].
    apply index_of_lookup, lookup_lt_Some in E. rewrite (is_first_char_ok b s p H) by lia.
    destruct (only_spaces s p); [|done]. injection Eh as ->. exact R.
  - assert (∃ b', (equal ← strchr b 0 61;
        match equal with Some pos1 => parse_item b pos1 st | None => Some (b, st) end) = Some (b', line_effect s st) ∧
        length b' = Z.to_nat MAX_LEN) as (b' & R & L).
    { rewrite (has_str_strchr_start b s 61 H). cbn [mbind option_bind].
      destruct (index_of s 61) as [p|] eqn:E; cbn [fmap option_fmap option_map].
      - by apply parse_item_ok.
      - exists b. split; [|done]. unfold line_effect. rewrite Eh, E. by destruct st. }
    exists b'. split; [|done]. unfold header_of in Eh.
    destruct (index_of s 91) as [p|] eqn:E; cbn [fmap option_fmap option_map]; [|exact R].
    apply index_of_lookup, lookup_lt_Some in E. rewrite (is_first_char_ok b s p H) by lia.
    destruct (only_spaces s p); [done|exact R].
Qed.

(** Every call of [fgets] takes something, so the fuel of [lp_config_parse] is enough. *)
Lemma parse_loop_ok fuel : ∀ tmp f st, (length f < fuel)%nat → length tmp = Z.to_nat MAX_LEN →
  parse_loop fuel tmp f st = Some (set_file (Some []) (file_effect f st).1).
Proof.
  induction fuel as [|fuel IH]; intros tmp f st Hf Ht; [lia|]. cbn [parse_loop].
  pose proof (fgets_ok tmp MAX_LEN f) as G. cbv zeta in G. unfold file_effect, file_lines. cbv zeta.
  destruct (split_lines _ _ f) as [|l ls].
  - destruct G as (-> & ->); done.
  - destruct G as (b & r & -> & Lb & Hb & -> & Hr); [done|done|]. cbn [mbind option_bind fold_left].
    destruct (parse_line_ok b (cstr l) st Hb) as (b' & -> & L'); [by rewrite Lb|]. cbn [mbind option_bind].
    by rewrite IH by (done || lia).
Qed.

Lemma lp_config_parse_ok c :
  lp_config_parse c = Some match file c with
                           | None => c
                           | Some f => set_file (Some []) (file_effect f (c, None)).1
                           end.
Proof.
  unfold lp_config_parse. destruct (file c) as [f|]; [|done]. apply parse_loop_ok; [lia|apply char_array_ok].
Qed.

Lemma line_effect_fields s st :
  modified (line_effect s st).1 = modified st.1 ∧ filename (line_effect s st).1 = filename st.1.
Proof.
  destruct st as [c cur]. unfold line_effect. destruct (header_of s).
  - destruct (index_of _ 93); [|done]. by destruct (token _).
  - destruct (index_of _ 61); [|done]. destruct (token _); [|done]. by destruct (value_of _), cur.
Qed.

Lemma file_effect_fields f st :
  modified (file_effect f st).1 = modified st.1 ∧ filename (file_effect f st).1 = filename st.1.
Proof.
  unfold file_effect. generalize (file_lines f). intros ls. revert st. induction ls as [|l ls IH]; intros st; [done|].
  cbn [fold_left]. destruct (IH (line_effect (cstr l) st)) as [-> ->]. apply line_effect_fields.
Qed.

(** The configuration before a file is read. *)
Definition unread (fname : option cstring) (f : option (list Z)) : LpConfig :=
  {| filename := fname; file := f; sections := []; modified := 0 |}.

(** A new configuration: its name, and what the file says when it can be opened. *)
Definition new_config (fs : files) (fname : option cstring) : LpConfig :=
  {| filename := fname; file := None; modified := 0;
     sections := match fname ≫= (fs !!.) with
                 | None => []
                 | Some f => sections (file_effect f (unread fname (Some f), None)).1
                 end |}.

Lemma lp_config_new_ok fs fname : lp_config_new fs fname = Some (new_config fs fname).
Proof.
  unfold lp_config_new, new_config. destruct fname as [n|]; [|done]. cbn [file mbind option_bind].
  destruct (fs !! n) as [f|]; [|done]. rewrite lp_config_parse_ok. cbn [file mbind option_bind].
  fold (unread (Some n) (Some f)). destruct (file_effect_fields f (unread (Some n) (Some f), None)) as [_ E].
  destruct (file_effect f _) as [c cur]. cbn in *. unfold set_modified, set_file. cbn. by rewrite E.
Qed.

(** C19: a configuration whose file can be opened for writing and whose sections the format
    can carry ([wf_section]) is read back by [lp_config_new] from what [lp_config_sync]
    writes: the same sections, keys and values in the same order, none marked as changed;
    other files are untouched. The format carries names and keys that are not empty and
    have no white space, no 0 and no closing bracket (names) or equal sign (keys), keys not
    beginning with an opening bracket, and values that are not empty, have no line feed
    and no 0, and do not end in a space unless they are one character, all on lines
    shorter than [MAX_LEN]. An empty value is lost. *)
Theorem lp_config_sync_new_roundtrip can_write fs c n :
  filename c = Some n → can_write n = true → Forall wf_section (sections c) →
  ∃ fs', lp_config_sync can_write fs c = (fs', set_modified 0 c, 0) ∧
    lp_config_new fs' (Some n) =
      Some {| filename := Some n; file := None; sections := fresh_section <$> sections c; modified := 0 |} ∧
    (∀ n', n' ≠ n → fs' !! n' = fs !! n').
Proof.
  intros En Hw Hwf. exists (<[n := concat (lp_section_write <$> sections c)]> fs). unfold lp_config_sync. rewrite En, Hw.
  split; [done|]. split; [|intros n' Hne; by rewrite lookup_insert_ne].
  rewrite lp_config_new_ok. unfold new_config. cbn [mbind option_bind]. rewrite lookup_insert_eq.
  change (unread ?x ?y, None) with (with_sections (unread x y) []). by rewrite effect_sections.
Qed.

(** C35: reading is defined on every file and ends. No access of [lp_config_parse] is
    outside the arrays [tmp], [secname] and [key] of [MAX_LEN] characters or at an
    element not yet written, for lines of every length; and the configuration read is the
    one the file says, line by line, a line too long for the array being read in
    pieces. So [lp_config_new] always returns one. *)
Theorem lp_config_parse_total fs fname c :
  lp_config_parse c = Some match file c with
                           | None => c
                           | Some f => set_file (Some []) (file_effect f (c, None)).1
                           end ∧
  lp_config_new fs fname = Some (new_config fs fname).
Proof. split; [apply lp_config_parse_ok|apply lp_config_new_ok]. Qed.

(** ** The life of a configuration *)

(** The operations of the interface, on a configuration made by [lp_config_new]. *)
Inductive reachable : LpConfig → Prop :=
  | reach_new fs fname c : lp_config_new fs fname = Some c → reachable c
  | reach_set_string c s k v c' : reachable c → lp_config_set_string c s k v = Some c' → reachable c'
  | reach_set_int c s k v c' : reachable c → lp_config_set_int c s k v = Some c' → reachable c'
  | reach_clean c s c' : reachable c → lp_config_clean_section c s = Some c' → reachable c'
  | reach_sync c w fs fs' c' r : reachable c → lp_config_sync w fs c = (fs', c', r) → reachable c'
  | reach_read c fs n c' r : reachable c → lp_config_read_file fs c n = Some (c', r) → reachable c'.

Lemma incr_modified_inv c c' : incr_modified c = Some c' → c' = set_modified (modified c + 1) c ∧ modified c + 1 < 2 ^ 31.
Proof. unfold incr_modified. case_decide; [|done]. by intros [= <-]. Qed.

Lemma set_string_fields c s k v c' : lp_config_set_string c s k v = Some c' →
  file c' = file c ∧ modified c' = modified c + 1 ∧ modified c' < 2 ^ 31.
Proof.
  unfold lp_config_set_string. intros [-> Hm]%incr_modified_inv. cbn in *.
  destruct (lp_config_find_section c s); [|by destruct v]. 
  destruct (lp_section_find_item _ k), v; done.
Qed.

(** C25: a configuration has no file open between calls and its counter is an [int] that is
    not negative; so [lp_config_read_file] reads nothing into it, whatever the file holds,
    and says that it did when the file can be opened. *)
Theorem lp_config_read_file_reads_nothing c fs n : reachable c →
  file c = None ∧ 0 <= modified c < 2 ^ 31 ∧
  lp_config_read_file fs c n = Some (c, if decide (is_Some (fs !! n)) then 0 else -1).
Proof.
  intros Hr. assert (∀ c0, file c0 = None → ∀ fs0 n0, lp_config_read_file fs0 c0 n0 = Some (c0, if decide (is_Some (fs0 !! n0)) then 0 else -1)) as Hread.
  { intros c0 H0 fs0 n0. unfold lp_config_read_file, lp_config_parse. rewrite H0. destruct (fs0 !! n0).
    - by rewrite decide_True by eauto.
    - by rewrite decide_False by (by intros [? ?]). }
  assert (file c = None ∧ 0 <= modified c < 2 ^ 31) as [Hf Hm]; [|split; [done|]; split; [done|]; by apply Hread].
  induction Hr as [fs0 fname c E|c s k v c' _ [Hf Hm] E|c s k v c' _ [Hf Hm] E|c s c' _ [Hf Hm] E|c w fs0 fs' c' r _ [Hf Hm] E|c fs0 n0 c' r _ [Hf Hm] E].
  - rewrite lp_config_new_ok in E. by injection E as <-.
  - apply set_string_fields in E as (-> & -> & ?). split; [done|lia].
  - unfold lp_config_set_int in E. destruct (lp_config_set_string c s k _) as [c1|] eqn:E1; [|done]. cbn [mbind option_bind] in E.
    apply set_string_fields in E1 as (F1 & M1 & ?). apply incr_modified_inv in E as [-> ?]. cbn. rewrite F1. split; [done|lia].
  - apply incr_modified_inv in E as [-> ?]. cbn. destruct (lp_config_find_section c s); cbn in *; split; (done || lia).
  - unfold lp_config_sync in E. destruct (filename c); [destruct (w _)|]; injection E as <- <- <-; cbn; (split; [done|lia]).
  - rewrite Hread in E by done. by injection E as <- <-.
Qed.

(** ** Witnesses *)

(** The file [config] with the section [net] and its key [port], of value [80]. *)
Definition ex_name : cstring := [99; 111; 110; 102; 105; 103].
Definition ex_net : cstring := [110; 101; 116].
Definition ex_port : cstring := [112; 111; 114; 116].
Definition ex_config : LpConfig :=
  {| filename := Some ex_name; file := None; modified := 0;
     sections := [{| name := ex_net; items := [lp_item_new ex_port [56; 48] true] |}] |}.

Example lp_config_set_string_refines_witness :
  ∃ c', lp_config_set_string ex_config ex_net ex_port (Some [57]) = Some c' ∧
    lp_config_get_string c' ex_net ex_port None = Some [57] ∧ lp_config_get_string c' ex_net ex_net None = None.
Proof.
  destruct (lp_config_set_string_refines ex_config ex_net ex_port (Some [57])) as (c' & E & _ & _ & _ & _ & _ & G);
    [by apply (bool_decide_unpack _)|done|].
  exists c'. split; [exact E|]. split; [exact (G ex_net ex_port None)|exact (G ex_net ex_net None)].
Defined.

Example lp_config_clean_section_refines_witness :
  ∃ c', lp_config_clean_section ex_config ex_net = Some c' ∧ abs_config c' = delete ex_net (abs_config ex_config) ∧
    lp_config_has_section c' ex_net = 0.
Proof.
  destruct (lp_config_clean_section_refines ex_config ex_net) as (c' & E & _ & A & G & _);
    [by apply (bool_decide_unpack _)|done|].
  exists c'. split; [exact E|]. split; [exact A|exact (G ex_net)].
Defined.

Example lp_config_int_roundtrip_witness :
  ∃ c', lp_config_set_int ex_config ex_net ex_port (-2147483648) = Some c' ∧
    lp_config_get_int c' ex_net ex_port 0 = Some (-2147483648).
Proof.
  destruct (lp_config_int_roundtrip ex_config ex_net ex_port (-2147483648) 0) as (c' & E & G & _);
    [by apply (bool_decide_unpack _)|done|done|].
  exists c'. split; [exact E|exact G].
Defined.

Example lp_config_sync_new_roundtrip_witness :
  ∃ fs', lp_config_sync (λ _, true) ∅ ex_config = (fs', ex_config, 0) ∧
    lp_config_new fs' (Some ex_name) =
      Some {| filename := Some ex_name; file := None; modified := 0;
              sections := [{| name := ex_net; items := [lp_item_new ex_port [56; 48] false] |}] |}.
Proof.
  destruct (lp_config_sync_new_roundtrip (λ _, true) ∅ ex_config ex_name) as (fs' & E & G & _);
    [done|done|by apply (bool_decide_unpack _)|].
  exists fs'. split; [exact E|exact G].
Defined.

(** A written value that is too long for a line of the parser: what is left of it for the
    next piece is read as a line of its own, here as a section. *)
Example long_value_read_as_section :
  let value := replicate 1021 120 ++ [91; 98; 93] in
  let sec := {| name := ex_net; items := [lp_item_new [107] value true] |} in
  match lp_config_new {[ ex_name := lp_section_write sec ]} (Some ex_name) with
  | Some c => name <$> sections c = [ex_net; [98]]
  | None => False
  end.
Proof. vm_compute. reflexivity. Qed.

Example lp_config_read_file_reads_nothing_witness :
  ∃ c, lp_config_new ∅ None = Some c ∧
    lp_config_read_file {[ ex_name := concat (lp_section_write <$> sections ex_config) ]} c ex_name = Some (c, 0).
Proof.
  exists {| filename := None; file := None; sections := []; modified := 0 |}. split; [reflexivity|].
  destruct (lp_config_read_file_reads_nothing {| filename := None; file := None; sections := []; modified := 0 |}
              {[ ex_name := concat (lp_section_write <$> sections ex_config) ]} ex_name) as (_ & _ & E); [by apply (reach_new ∅ None)|].
  exact E.
Defined.
