(* ===== verification/Curve.v ===== *)
(** * Curve: what [sm2.c] asks of the MIRACL library

    The contract of the MIRACL sources under [src/sm2/mr*.c], whose arithmetic is modelled
    from [BigNum] on: a [big] is an integer, and a point of the active curve is the point at infinity or
    a pair of affine coordinates, added by the chord and tangent. The contract is written
    as executable functions of the curve parameters. That the points form a group with a
    base point of prime order is the class [EllipticGroup], a fact of mathematics about the
    parameters; it is proved here for a small curve. *)

From Stdlib Require Export Znumtheory.
From S2P Require Import Prelude.

(** [struct FPECC], with the hexadecimal strings read. *)
Record FPECC := { p : Z; a : Z; b : Z; n : Z; x : Z; y : Z }.

Abbreviation big := Z.
(** An [epoint] in affine form; [None] is the point at infinity. *)
Abbreviation epoint := (option (Z * Z)).

(** ** Big integers *)

(** [xgcd(x, m, x, x, x)]: the inverse modulo [m], by the extended Euclidean algorithm. *)
Fixpoint egcd (fuel : nat) (r0 r1 t0 t1 : Z) : Z :=
  match fuel with
  | O => t0
  | S fuel => if decide (r1 = 0) then t0 else egcd fuel r1 (r0 mod r1) t1 (t0 - r0 / r1 * t1)
  end.
Definition inv_mod (v m : big) : big := egcd (S (S (Z.to_nat (Z.log2 (m * m))))) m (v mod m) 0 1 mod m.

(** ** Points *)

Section points.
Context (cfg : FPECC).

(** Membership of the curve, the coordinates reduced. *)
Definition curve_rhs (u : Z) : Z := (u * u * u + a cfg * u + b cfg) mod p cfg.
Definition on_curve (P : epoint) : Prop :=
  match P with
  | None => True
  | Some (u, v) => 0 <= u < p cfg ∧ 0 <= v < p cfg ∧ v * v mod p cfg = curve_rhs u
  end.
#[export] Instance on_curve_dec P : Decision (on_curve P).
Proof. destruct P as [[u v]|]; apply _. Defined.

(** [ecurve_add] *)
Definition chord (l u1 v1 u2 : Z) : epoint :=
  let u3 := (l * l - u1 - u2) mod p cfg in Some (u3, (l * (u1 - u3) - v1) mod p cfg).
Definition ecurve_add (P Q : epoint) : epoint :=
  match P, Q with
  | None, _ => Q
  | _, None => P
  | Some (u1, v1), Some (u2, v2) =>
      if decide (u1 = u2) then
        if decide ((v1 + v2) mod p cfg = 0) then None
        else chord ((3 * u1 * u1 + a cfg) * inv_mod (2 * v1) (p cfg) mod p cfg) u1 v1 u2
      else chord ((v2 - v1) * inv_mod (u2 - u1) (p cfg) mod p cfg) u1 v1 u2
  end.

(** [ecurve_mult] for a multiplier that is not negative, and [ecurve_mult2] *)
Fixpoint pos_mult (k : positive) (P : epoint) : epoint :=
  match k with
  | xH => P
  | xO k => let Q := pos_mult k P in ecurve_add Q Q
  | xI k => let Q := pos_mult k P in ecurve_add (ecurve_add Q Q) P
  end.
Definition ecurve_mult (k : big) (P : epoint) : epoint :=
  match k with Zpos k => pos_mult k P | _ => None end.
Definition ecurve_mult2 (e : big) (P : epoint) (ea : big) (Q : epoint) : epoint :=
  ecurve_add (ecurve_mult e P) (ecurve_mult ea Q).

(** [epoint_set]: the coordinates are reduced, and the point refused if it is not on the
    curve; [epoint_get]: the coordinates, zero at infinity. *)
Definition epoint_set (u v : big) : option epoint :=
  let P := Some (u mod p cfg, v mod p cfg) in if decide (on_curve P) then Some P else None.
Definition epoint_get (P : epoint) : big * big := match P with Some uv => uv | None => (0, 0) end.

Definition base : epoint := Some (x cfg, y cfg).

(** The points form a group, and the base point has prime order. *)
Class EllipticGroup : Prop := {
  eg_p : 3 < p cfg;
  eg_n : prime (n cfg);
  eg_base : on_curve base;
  eg_order : ecurve_mult (n cfg) base = None;
  eg_closed P Q : on_curve P → on_curve Q → on_curve (ecurve_add P Q);
  eg_comm P Q : on_curve P → on_curve Q → ecurve_add P Q = ecurve_add Q P;
  eg_assoc P Q R : on_curve P → on_curve Q → on_curve R →
    ecurve_add P (ecurve_add Q R) = ecurve_add (ecurve_add P Q) R;
}.
End points.
Arguments eg_p {cfg _}. Arguments eg_n {cfg _}. Arguments eg_base {cfg _}. Arguments eg_order {cfg _}.
Arguments eg_closed {cfg _}. Arguments eg_comm {cfg _}. Arguments eg_assoc {cfg _}.

(** ** Lemmas on integers *)

(** The invariant of Euclid's algorithm: the remainders are multiples of [v] modulo [m]. *)
Lemma egcd_spec v m fuel : ∀ r0 r1 t0 t1,
  0 <= r1 < r0 → r0 * r1 < 2 ^ Z.of_nat fuel → r0 mod m = t0 * v mod m → r1 mod m = t1 * v mod m →
  Z.gcd r0 r1 mod m = egcd (S fuel) r0 r1 t0 t1 * v mod m.
Proof.
  induction fuel as [|fuel IH]; intros r0 r1 t0 t1 Hr Hf H0 H1; cbn [egcd]; case_decide as Hz.
  - subst r1. rewrite Z.gcd_0_r, Z.abs_eq by lia. done.
  - cbn in Hf. nia.
  - subst r1. rewrite Z.gcd_0_r, Z.abs_eq by lia. done.
  - pose proof (Z.mod_pos_bound r0 r1 ltac:(lia)) as Hm. pose proof (Z.div_mod r0 r1 ltac:(lia)) as Hd.
    assert (0 < r0 / r1) as Hq by (apply Z.div_str_pos; lia).
    rewrite (Z.gcd_comm r0 r1), <- (Z.gcd_mod r0 r1) by lia. rewrite Z.gcd_comm. apply IH; [lia| |done|].
    + rewrite Nat2Z.inj_succ, Z.pow_succ_r in Hf by lia. nia.
    + replace (r0 mod r1) with (r0 - r0 / r1 * r1) by lia.
      replace ((t0 - r0 / r1 * t1) * v) with (t0 * v - r0 / r1 * (t1 * v)) by ring.
      rewrite Zminus_mod, (Zminus_mod (t0 * v)), H0. rewrite (Zmult_mod (r0 / r1) r1), (Zmult_mod (r0 / r1) (t1 * v)), H1. done.
Qed.

Lemma inv_mod_ok v m : 1 < m → Z.gcd v m = 1 → (v * inv_mod v m) mod m = 1.
Proof.
  intros Hm Hg. unfold inv_mod. pose proof (Z.mod_pos_bound v m ltac:(lia)) as Hb.
  rewrite Z.mul_mod_idemp_r by lia. rewrite Z.mul_comm.
  rewrite <- (egcd_spec v m (S (Z.to_nat (Z.log2 (m * m))))).
  - rewrite Z.gcd_comm, Z.gcd_mod by lia. rewrite Z.gcd_comm, Hg. apply Z.mod_small. lia.
  - lia.
  - pose proof (Z.log2_spec (m * m) ltac:(nia)) as [_ H]. pose proof (Z.log2_nonneg (m * m)).
    rewrite Nat2Z.inj_succ, Z2Nat.id by lia. nia.
  - rewrite Z.mul_0_l, Z.mod_same, Z.mod_0_l by lia. done.
  - rewrite Z.mul_1_l. apply Z.mod_mod. lia.
Qed.

(** ** Lemmas on points *)

Section group.
Context {cfg : FPECC} `{!EllipticGroup cfg}.
Abbreviation G := (base cfg).
Abbreviation mult := (ecurve_mult cfg).
Abbreviation add := (ecurve_add cfg).
Abbreviation oncv := (on_curve cfg).

Lemma n_pos : 1 < n cfg.
Proof. pose proof (prime_ge_2 _ eg_n). lia. Qed.

Lemma add_None_r P : add P None = P.
Proof. by destruct P as [[u v]|]. Qed.

(** Repeated addition. *)
Fixpoint times (k : nat) (P : epoint) : epoint := match k with O => None | S k => add P (times k P) end.

Lemma times_closed k P : oncv P → oncv (times k P).
Proof. intros HP. induction k as [|k IH]; [done|]. by apply eg_closed. Qed.

Lemma times_add j k P : oncv P → times (j + k) P = add (times j P) (times k P).
Proof.
  intros HP. induction j as [|j IH]; [done|]. cbn [times Nat.add]. rewrite IH.
  apply eg_assoc; [done|by apply times_closed..].
Qed.

Lemma times_mul j k P : oncv P → times (j * k) P = times j (times k P).
Proof. intros HP. induction j as [|j IH]; [done|]. cbn [times Nat.mul]. by rewrite times_add, IH. Qed.

Lemma times_None k : times k None = None.
Proof. induction k as [|k IH]; [done|]. cbn [times]. by rewrite IH. Qed.

Lemma pos_mult_times k P : oncv P → pos_mult cfg k P = times (Pos.to_nat k) P.
Proof.
  intros HP. induction k as [k IH|k IH|]; cbn [pos_mult].
  - rewrite IH, <- times_add by done. rewrite Pos2Nat.inj_xI. rewrite eg_comm; [|by apply times_closed|done].
    by replace (2 * Pos.to_nat k)%nat with (Pos.to_nat k + Pos.to_nat k)%nat by lia.
  - rewrite IH, <- times_add by done. rewrite Pos2Nat.inj_xO. f_equal. lia.
  - change (P = add P None). by rewrite add_None_r.
Qed.

Lemma mult_times k P : 0 <= k → oncv P → mult k P = times (Z.to_nat k) P.
Proof. intros Hk HP. destruct k as [|k|k]; [done|by apply pos_mult_times|lia]. Qed.

Lemma mult_closed k P : oncv P → oncv (mult k P).
Proof.
  intros HP. destruct (decide (0 <= k)); [rewrite mult_times by done; by apply times_closed|].
  destruct k; [lia|lia|done].
Qed.

Lemma mult_add j k P : 0 <= j → 0 <= k → oncv P → mult (j + k) P = add (mult j P) (mult k P).
Proof. intros. rewrite !mult_times by (done || lia). rewrite Z2Nat.inj_add by done. by apply times_add. Qed.

Lemma mult_mul j k P : 0 <= j → 0 <= k → oncv P → mult (j * k) P = mult j (mult k P).
Proof.
  intros. rewrite !mult_times by (done || lia || by apply mult_closed). rewrite Z2Nat.inj_mul by done. by apply times_mul.
Qed.

Lemma mult_base_mod k : 0 <= k → mult (k mod n cfg) G = mult k G.
Proof.
  intros Hk. pose proof n_pos. pose proof eg_base as Hb. pose proof (Z.mod_pos_bound k (n cfg) ltac:(lia)).
  pose proof (Z.div_pos k (n cfg) Hk ltac:(lia)).
  rewrite (Z.div_mod k (n cfg)) at 2 by lia. rewrite mult_add, (Z.mul_comm (n cfg)), mult_mul by (done || lia).
  rewrite eg_order. rewrite (mult_times (k / n cfg) None), times_None by done. done.
Qed.

Lemma rel_prime_n k : 0 < k < n cfg → Z.gcd k (n cfg) = 1.
Proof. intros Hk. apply Zgcd_1_rel_prime. apply rel_prime_le_prime; [apply eg_n|lia]. Qed.

(** Multiples of the base point by less than its order are not at infinity. *)
Lemma mult_base_finite k : 0 < k < n cfg → is_Some (mult k G).
Proof.
  intros Hk. pose proof n_pos. destruct (mult k G) as [P|] eqn:E; [eauto|]. exfalso.
  pose proof (inv_mod_ok k (n cfg) ltac:(lia) (rel_prime_n k Hk)) as Hi.
  assert (0 <= inv_mod k (n cfg)) as Hp by (apply Z.mod_pos_bound; lia).
  assert (mult (k * inv_mod k (n cfg)) G = G) as HG by (rewrite <- mult_base_mod by lia; by rewrite Hi).
  rewrite Z.mul_comm, mult_mul, E, mult_times, times_None in HG by (done || lia || apply eg_base). done.
Qed.

Lemma epoint_set_get P : oncv P → is_Some P → epoint_set cfg (epoint_get P).1 (epoint_get P).2 = Some P.
Proof.
  intros HP [[u v] ->]. unfold epoint_set. cbn [epoint_get fst snd]. destruct HP as (Hu & Hv & E).
  rewrite !Z.mod_small by done. by rewrite decide_True.
Qed.
End group.

(** ** A small curve: y^2 = x^3 + x + 6 over the integers modulo 7, of order 11 *)

Definition small_curve : FPECC := {| p := 7; a := 1; b := 6; n := 11; x := 1; y := 1 |}.

Definition small_range : list Z := Z.of_nat <$> seq 0 7.
Definition small_points : list epoint :=
  None :: filter (on_curve small_curve) (u ← small_range; v ← small_range; [Some (u, v)]).

Lemma small_range_all u : 0 <= u < 7 → u ∈ small_range.
Proof.
  intros Hu. apply list_elem_of_fmap. exists (Z.to_nat u). split; [lia|]. apply elem_of_seq. lia.
Qed.

Lemma small_points_all P : on_curve small_curve P → P ∈ small_points.
Proof.
  intros HP. destruct P as [[u v]|]; [|by left]. right. apply list_elem_of_filter. split; [done|].
  destruct HP as (Hu & Hv & _). apply list_elem_of_bind. exists u. split; [|by apply small_range_all].
  apply list_elem_of_bind. exists v. split; [by left|by apply small_range_all].
Qed.

Lemma small_points_ind (Q : epoint → Prop) : Forall Q small_points → ∀ P, on_curve small_curve P → Q P.
Proof. intros H P HP. by apply (proj1 (list.Forall_forall _ _) H), small_points_all. Qed.

#[export] Instance small_curve_group : EllipticGroup small_curve.
Proof.
  split.
  - done.
  - apply prime_intro; [done|]. intros k Hk. apply Zgcd_1_rel_prime.
    assert (Forall (λ k, 1 <= Z.of_nat k → Z.gcd (Z.of_nat k) 11 = 1) (seq 0 11)) as H by (by apply (bool_decide_unpack _)).
    rewrite <- (Z2Nat.id k) by lia. apply (proj1 (list.Forall_forall _ _) H); [apply elem_of_seq; cbn in *; lia|lia].
  - apply (bool_decide_unpack _). vm_compute. exact I.
  - done.
  - intros P Q HP HQ. revert Q HQ. apply small_points_ind. revert P HP. apply small_points_ind.
    apply (bool_decide_unpack _). vm_compute. exact I.
  - intros P Q HP HQ. revert Q HQ. apply small_points_ind. revert P HP. apply small_points_ind.
    apply (bool_decide_unpack _). vm_compute. exact I.
  - intros P Q R HP HQ HR. revert R HR. apply small_points_ind. revert Q HQ. apply small_points_ind.
    revert P HP. apply small_points_ind. apply (bool_decide_unpack _). vm_compute. exact I.
Qed.
