(* ===== verification/Sm2.v ===== *)
(** * Sm2: keys, signature and encryption of [src/sm2/sm2.c]

    The functions over the memory of [Mem] and the curve of [Curve]. A [big] is an
    integer, so [mirvar], [mirkill] and the like leave no trace; local arrays are values;
    [malloc] is taken to succeed; a length is an [int] that is not negative. The numbers
    [bigrand] draws are an argument, a list. [sm2_encrypt_run] gives what the function
    returns, or the state of its loop when the numbers are used up: it is then still
    running, which is not undefined behaviour. [sm2_sign] and [sm2_encrypt] are for lists
    that are long enough for them to return. Built with [SM2_DEBUG] 0 and [SM2_PAD_ZERO]. *)

From S2P Require Import Prelude Mem Target Sm3 Curve.

Definition Ecc256 : FPECC := {|
  p := 0xFFFFFFFEFFFFFFFFFFFFFFFFFFFFFFFFFFFFFFFF00000000FFFFFFFFFFFFFFFF;
  a := 0xFFFFFFFEFFFFFFFFFFFFFFFFFFFFFFFFFFFFFFFF00000000FFFFFFFFFFFFFFFC;
  b := 0x28E9FA9E9D9F5E344D5A9E4BCF6509A7F39789F515AB8F92DDBCBD414D940E93;
  n := 0xFFFFFFFEFFFFFFFFFFFFFFFFFFFFFFFF7203DF6B21C6052B53BBF40939D54123;
  x := 0x32C4AE2C1F1981195F9904466A39C9948FE30BBFF2660BE1715A4589334C74C7;
  y := 0xBC3736A2F4F6779C59BDCEE36B692153D0A9877CC62A474002DF32E52139F0A0;
|}.

Definition sm2_par_dig : list Z := [
  0xFF;0xFF;0xFF;0xFE;0xFF;0xFF;0xFF;0xFF;0xFF;0xFF;0xFF;0xFF;0xFF;0xFF;0xFF;0xFF;
  0xFF;0xFF;0xFF;0xFF;0x00;0x00;0x00;0x00;0xFF;0xFF;0xFF;0xFF;0xFF;0xFF;0xFF;0xFC;
  0x28;0xE9;0xFA;0x9E;0x9D;0x9F;0x5E;0x34;0x4D;0x5A;0x9E;0x4B;0xCF;0x65;0x09;0xA7;
  0xF3;0x97;0x89;0xF5;0x15;0xAB;0x8F;0x92;0xDD;0xBC;0xBD;0x41;0x4D;0x94;0x0E;0x93;
  0x32;0xC4;0xAE;0x2C;0x1F;0x19;0x81;0x19;0x5F;0x99;0x04;0x46;0x6A;0x39;0xC9;0x94;
  0x8F;0xE3;0x0B;0xBF;0xF2;0x66;0x0B;0xE1;0x71;0x5A;0x45;0x89;0x33;0x4C;0x74;0xC7;
  0xBC;0x37;0x36;0xA2;0xF4;0xF6;0x77;0x9C;0x59;0xBD;0xCE;0xE3;0x6B;0x69;0x21;0x53;
  0xD0;0xA9;0x87;0x7C;0xC6;0x2A;0x47;0x40;0x02;0xDF;0x32;0xE5;0x21;0x39;0xF0;0xA0].

(** ** Numbers in memory *)

(** [bytes_to_big(len, ptr, x)]; a number of more than 21 words puts MIRACL in its error
    state, which is left out ([BigBytes] has the function itself). *)
Definition bytes_to_big (len : Z) (ptr : ptr) : C big :=
  if decide (len <= 0) then mret 0
  else bs ← load ptr (Z.to_nat len);
       if decide (be_num bs < 2 ^ 672) then mret (be_num bs) else undefined.

(** [big_to_bytes(32, x, ptr, TRUE)]: nothing is written for zero; a number of more than 32
    bytes puts MIRACL in its error state, which is left out. *)
Definition big_to_bytes (v : big) (ptr : ptr) : C Z :=
  if decide (v = 0) then mret 0
  else if decide (v < 2 ^ 256) then store ptr (num_bytes 32 v);; mret 32 else undefined.

(** The same into a local array, which may hold a value already. *)
Definition local_big (v : big) (old : option (list Z)) : option (list Z) :=
  if decide (v = 0) then old else if decide (v < 2 ^ 256) then Some (num_bytes 32 v) else None.

Section Sm2.
Context {tgt : Target} (stack : SM3_CTX) (cfg : FPECC).

(** ** Hashing the user and the message *)

Definition sm3_z (userid : ptr) (userid_len : Z) (xa : ptr) (xa_len : Z) (ya : ptr) (ya_len : Z) (z : ptr) : C Z :=
  if decide (32 < xa_len ∨ 32 < ya_len) then mret (-1)
  else
    buf ← alloc (Z.to_nat (2 + userid_len + 128 + 32 + 32));
    let userid_bitlen := Z.shiftl userid_len 3 in
    store buf [Z.land (Z.shiftr userid_bitlen 8) 255];;
    store (padd buf 1) [Z.land userid_bitlen 255];;
    memcpy (padd buf 2) userid (Z.to_nat userid_len);;
    store (padd buf (2 + userid_len)) sm2_par_dig;;
    memset (padd buf (2 + userid_len + 128)) 0 64;;
    memcpy (padd buf (2 + userid_len + 128 + 32 - xa_len)) xa 32;;
    memcpy (padd buf (2 + userid_len + 128 + 32 + 32 - ya_len)) ya 32;;
    sm3 stack buf (Z.to_nat (2 + userid_len + 128 + 32 + 32)) z;;
    dealloc buf;;
    mret 0.

(** The first half of the function is the text of [sm3_z]. *)
Definition sm3_e (userid : ptr) (userid_len : Z) (xa : ptr) (xa_len : Z) (ya : ptr) (ya_len : Z)
    (msg : ptr) (msg_len : Z) (e : ptr) : C Z :=
  r ← sm3_z userid userid_len xa xa_len ya ya_len e;
  if decide (r = -1) then mret (-1)
  else
    buf ← alloc (Z.to_nat (msg_len + 32));
    memcpy buf e 32;;
    memcpy (padd buf 32) msg (Z.to_nat msg_len);;
    sm3 stack buf (Z.to_nat (32 + msg_len)) e;;
    dealloc buf;;
    mret 0.

(** ** Keys and signatures *)

(** [bigrand(n, k)] from one number drawn. *)
Definition bigrand (draw : Z) : big := draw mod n cfg.

Definition sm2_keygen (wx wxlen wy wylen privkey privkeylen : ptr) (draw : Z) : C unit :=
  let key1 := bigrand draw in
  let g := ecurve_mult cfg key1 (base cfg) in
  let '(u, v) := epoint_get g in
  l ← big_to_bytes u wx; store_int wxlen l;;
  l ← big_to_bytes v wy; store_int wylen l;;
  l ← big_to_bytes key1 privkey; store_int privkeylen l.

(** One turn at the label [sm2_sign_again], for [k] not zero: the new [g], and the signature
    unless it has to be made again. *)
Definition sign_step (e key1 k : big) (g : epoint) : epoint * option (big * big) :=
  let g := ecurve_mult cfg k g in
  let r := (e + (epoint_get g).1) mod n cfg in
  (g, if decide (r = 0) then None
      else if decide (r + k = n cfg) then None
      else
        let bi := inv_mod (key1 + 1) (n cfg) in
        let av := (r * key1) mod n cfg in
        let av := if decide (k >= av) then k - av else n cfg - av + k in
        let s := (av * bi) mod n cfg in
        if decide (s = 0) then None else Some (r, s)).

Fixpoint sign_loop (e key1 : big) (g : epoint) (draws : list Z) : option (big * big) :=
  match draws with
  | [] => None
  | d :: draws =>
      let k := bigrand d in
      if decide (k = 0) then sign_loop e key1 g draws
      else
        match sign_step e key1 k g with
        | (_, Some rs) => Some rs
        | (g, None) => sign_loop e key1 g draws
        end
  end.

Definition sm2_sign (hash : ptr) (hashlen : Z) (privkey : ptr) (privkeylen : Z) (cr rlen cs slen : ptr)
    (draws : list Z) : C unit :=
  key1 ← bytes_to_big privkeylen privkey;
  e ← bytes_to_big hashlen hash;
  match sign_loop e key1 (base cfg) draws with
  | None => undefined
  | Some (r, s) =>
      l ← big_to_bytes r cr; store_int rlen l;;
      l ← big_to_bytes s cs; store_int slen l
  end.

(** The tests of [sm2_verify] after the point is set. *)
Definition verify_rs (e r s : big) (w : epoint) : Z :=
  if decide (r >= n cfg ∨ r = 0) then 0
  else if decide (s >= n cfg ∨ s = 0) then 0
  else
    let av := (s + r) mod n cfg in
    if decide (av = 0) then 0
    else
      let g := ecurve_mult2 cfg s (base cfg) av w in
      let v := ((epoint_get g).1 + e) mod n cfg in
      if decide (v = r) then 1 else 0.

Definition sm2_verify (hash : ptr) (hashlen : Z) (cr : ptr) (rlen : Z) (cs : ptr) (slen : Z)
    (wx : ptr) (wxlen : Z) (wy : ptr) (wylen : Z) : C Z :=
  u ← bytes_to_big wxlen wx;
  v ← bytes_to_big wylen wy;
  match epoint_set cfg u v with
  | None => mret 0
  | Some w =>
      e ← bytes_to_big hashlen hash;
      r ← bytes_to_big rlen cr;
      s ← bytes_to_big slen cs;
      mret (verify_rs e r s w)
  end.

(** ** Key derivation *)

(** The hash of the local buffer [buf], at [md]. *)
Definition sm3_buf (buf : list Z) (md : ptr) : C unit := store md (sm3_digest stack buf).

(** [for (i = 0; i < m; i++)], from the counter [ct] on. *)
Fixpoint kdf_loop (m : nat) (z : list Z) (ct : Z) (q : ptr) : C unit :=
  match m with
  | O => mret tt
  | S m => sm3_buf (z ++ be_bytes ct) q;; kdf_loop m z (wrap 32 (ct + 1)) (padd q 32)
  end.

(** [kdf_key(z, zlen, klen, kbuf)], and the first part of [kdf]. *)
Definition kdf_fill (z : list Z) (klen : Z) (kbuf : ptr) : C unit :=
  let m := Z.to_nat (klen / 32) in
  let r := Z.to_nat (klen mod 32) in
  kdf_loop m z 1 kbuf;;
  let digest := if decide (r = 0%nat) then [] else sm3_digest stack (z ++ be_bytes (wrap 32 (1 + Z.of_nat m))) in
  store (padd kbuf (32 * Z.of_nat m)) (take r digest).

Definition kdf_key (z : list Z) (klen : Z) (kbuf : ptr) : C Z := kdf_fill z klen kbuf;; mret 1.

Definition kdf (zl zr : list Z) (klen : Z) (kbuf : ptr) : C Z :=
  kdf_fill (zl ++ zr) klen kbuf;;
  bs ← load kbuf (Z.to_nat klen);
  mret (if existsb (λ c, negb (c =? 0)) bs then 1 else 0).

(** ** Encryption *)

(** The rest of the function once the key stream is in [outmsg + 64]. *)
Definition encrypt_finish (msg : ptr) (msglen : Z) (outmsg : ptr) (zl zr : list Z) : C Z :=
  xor_loop (Z.to_nat msglen) (padd outmsg 64) (padd outmsg 64) msg;;
  bs ← load msg (Z.to_nat msglen);
  sm3_buf (zl ++ bs ++ zr) (padd outmsg (64 + msglen));;
  mret (msglen + 64 + 32).

(** The variables that change from one turn to the next: the points [g] and [w], and the
    arrays [zl] and [zr] once they are written. *)
Abbreviation encrypt_vars := (epoint * epoint * option (list Z) * option (list Z))%type.

(** One turn at the label [sm2_encrypt_again], for [k] not zero: the value returned, or the
    variables with which it goes back to the label. *)
Definition encrypt_turn (msg : ptr) (msglen : Z) (outmsg : ptr) (k : big) (vars : encrypt_vars) :
    C (encrypt_vars + Z) :=
  let '(g, w, zl, zr) := vars in
  let g := ecurve_mult cfg k g in
  let '(c1, c2) := epoint_get g in
  big_to_bytes c1 outmsg;;
  big_to_bytes c2 (padd outmsg 32);;
  match w with
  | None => mret (inr (-1))
  | Some _ =>
      let w := ecurve_mult cfg k w in
      let '(x2, y2) := epoint_get w in
      match local_big x2 zl, local_big y2 zr with
      | Some zl, Some zr =>
          r ← kdf zl zr msglen (padd outmsg 64);
          if decide (r = 0) then mret (inl (g, w, Some zl, Some zr))
          else ret ← encrypt_finish msg msglen outmsg zl zr; mret (inr ret)
      | _, _ => undefined
      end
  end.

(** The loop, as far as the numbers drawn go: when they are used up and it is at the label
    again, it gives the variables it has then. This is not an error: it is still running. *)
Fixpoint encrypt_loop (msg : ptr) (msglen : Z) (outmsg : ptr) (draws : list Z) (vars : encrypt_vars) :
    C (encrypt_vars + Z) :=
  match draws with
  | [] => mret (inl vars)
  | d :: draws =>
      let k := bigrand d in
      if decide (k = 0) then encrypt_loop msg msglen outmsg draws vars
      else
        r ← encrypt_turn msg msglen outmsg k vars;
        match r with
        | inl vars => encrypt_loop msg msglen outmsg draws vars
        | inr ret => mret (inr ret)
        end
  end.

(** The result of setting [w] is not looked at; a point just initialised is at infinity. *)
Definition sm2_encrypt_run (msg : ptr) (msglen : Z) (wx : ptr) (wxlen : Z) (wy : ptr) (wylen : Z) (outmsg : ptr)
    (draws : list Z) : C (encrypt_vars + Z) :=
  u ← bytes_to_big wxlen wx;
  v ← bytes_to_big wylen wy;
  let w := default None (epoint_set cfg u v) in
  encrypt_loop msg msglen outmsg draws (base cfg, w, None, None).

(** The function when it returns on the numbers drawn. *)
Definition sm2_encrypt (msg : ptr) (msglen : Z) (wx : ptr) (wxlen : Z) (wy : ptr) (wylen : Z) (outmsg : ptr)
    (draws : list Z) : C Z :=
  r ← sm2_encrypt_run msg msglen wx wxlen wy wylen outmsg draws;
  match r with inr ret => mret ret | inl _ => undefined end.

Definition sm2_decrypt (msg : ptr) (msglen : Z) (privkey : ptr) (privkeylen : Z) (outmsg : ptr) : C Z :=
  if decide (msglen < 96) then mret 0
  else
    let msglen := msglen - 96 in
    key1 ← bytes_to_big privkeylen privkey;
    u ← bytes_to_big 32 msg;
    v ← bytes_to_big 32 (padd msg 32);
    match epoint_set cfg u v with
    | None => mret (-1)
    | Some g =>
        let g := ecurve_mult cfg key1 g in
        let '(x2, y2) := epoint_get g in
        match local_big x2 None, local_big y2 None with
        | Some zl, Some zr =>
            r ← kdf zl zr msglen outmsg;
            if decide (r = 0) then mret (-1)
            else
              xor_loop (Z.to_nat msglen) outmsg outmsg (padd msg 64);;
              bs ← load outmsg (Z.to_nat msglen);
              let c3 := sm3_digest stack (zl ++ bs ++ zr) in
              c3' ← load (padd msg (64 + msglen)) 32;
              mret (if decide (c3 = c3') then msglen else -1)
        | _, _ => undefined
        end
    end.
End Sm2.

(** ** Signatures verify *)

(** The number that serves, and the multiple [j] of the base point that [g] has come to by
    then: each number that does not serve multiplies it. *)
Fixpoint sign_draw (cfg : FPECC) (e d j : Z) (draws : list Z) : option (Z * Z) :=
  match draws with
  | [] => None
  | dr :: draws =>
      let k := bigrand cfg dr in
      if decide (k = 0) then sign_draw cfg e d j draws
      else match (sign_step cfg e d k (ecurve_mult cfg j (base cfg))).2 with
           | Some _ => Some (j, k)
           | None => sign_draw cfg e d (k * j) draws
           end
  end.

Section sign.
Context {cfg : FPECC} `{!EllipticGroup cfg}.
Abbreviation G := (base cfg).
Abbreviation nn := (n cfg).

(** The standard's equation for a signature: [s (1 + d) = k - r d] modulo [n]. *)
Lemma sign_step_spec e d k g r s g' : 0 <= d → d + 1 < nn → 0 < k < nn → 
  sign_step cfg e d k g = (g', Some (r, s)) →
  g' = ecurve_mult cfg k g ∧ r = (e + (epoint_get g').1) mod nn ∧ r + k ≠ nn ∧
  0 < r < nn ∧ 0 < s < nn ∧ ∃ q, s * (1 + d) = k - r * d + nn * q.
Proof.
  intros Hd Hd1 Hk. unfold sign_step. pose proof n_pos (cfg := cfg) as Hn.
  set (P := ecurve_mult cfg k g). set (r0 := (e + (epoint_get P).1) mod nn).
  assert (0 <= r0 < nn) as Hr by (apply Z.mod_pos_bound; lia).
  case_decide as Hr0; [done|]. case_decide as Hrk; [done|].
  set (bi := inv_mod (d + 1) nn). set (av := (r0 * d) mod nn).
  set (a2 := if decide (k >= av) then k - av else nn - av + k). case_decide as Hs; [done|]. intros [= <- <- <-].
  assert (0 <= (a2 * bi) mod nn < nn) as Hsb by (apply Z.mod_pos_bound; lia).
  split; [done|]. split; [done|]. split; [done|]. split; [lia|]. split; [lia|].
  pose proof (inv_mod_ok (d + 1) nn ltac:(lia) (rel_prime_n (cfg := cfg) (d + 1) ltac:(lia))) as Hi. fold bi in Hi.
  pose proof (Z.div_mod ((d + 1) * bi) nn ltac:(lia)) as E0. rewrite Hi in E0.
  pose proof (Z.div_mod (r0 * d) nn ltac:(lia)) as E1. fold av in E1.
  pose proof (Z.div_mod (a2 * bi) nn ltac:(lia)) as E2.
  assert (∃ q, a2 = k - r0 * d + nn * q) as [q E3].
  { unfold a2. clearbody av. generalize dependent (r0 * d / nn). intros w Ew.
    case_decide; [exists w|exists (w + 1)]; rewrite Ew; ring. }
  set (s := (a2 * bi) mod nn) in *. set (u := (d + 1) * bi / nn) in *. set (v := a2 * bi / nn) in *.
  exists (q + a2 * u - v * (1 + d)).
  replace s with (a2 * bi - nn * v) by lia.
  transitivity (a2 * ((d + 1) * bi) - nn * v * (1 + d)); [ring|]. rewrite E0. transitivity (a2 + nn * (a2 * u) - nn * v * (1 + d)); [ring|]. rewrite E3 at 1. ring.
Qed.

Lemma mod_add_cancel c u v N : 0 < N → (c + u) mod N = (c + v) mod N ↔ u mod N = v mod N.
Proof.
  intros HN. split; intros E.
  - replace u with ((c + u) - c) by lia. rewrite Zminus_mod, E, <- Zminus_mod. f_equal. lia.
  - by rewrite Z.add_mod, E, <- Z.add_mod by lia.
Qed.

(** What [sm2_verify] finds for such a signature: the point it computes is [kG], whatever
    point [g] the signature was made with. *)
Lemma sign_step_verify e d k g r s g' : 0 <= d → d + 1 < nn → 0 < k < nn →
  sign_step cfg e d k g = (g', Some (r, s)) →
  verify_rs cfg e r s (ecurve_mult cfg d G) =
    if decide (((epoint_get (ecurve_mult cfg k G)).1 + e) mod nn = r) then 1 else 0.
Proof.
  intros Hd Hd1 Hk Hstep. pose proof n_pos (cfg := cfg) as Hn.
  destruct (sign_step_spec e d k g r s g' Hd Hd1 Hk Hstep) as (-> & _ & Hrk & Hr & Hs & q & Es).
  unfold verify_rs. rewrite !(decide_False (P := _ ∨ _)) by lia.
  pose proof (Z.mod_pos_bound (s + r) nn ltac:(lia)) as Ht. pose proof (Z.div_mod (s + r) nn ltac:(lia)) as Et.
  set (t := (s + r) mod nn) in *. set (u := (s + r) / nn) in *.
  assert (t ≠ 0) as Ht0.
  { intros Hz. assert (k + r = nn * (u * (1 + d) - q)) as E.
    { transitivity ((s + r) * (1 + d) - nn * q); [lia|]. rewrite Et, Hz. ring. }
    assert (0 < u * (1 + d) - q < 2) by nia. assert (u * (1 + d) - q = 1) as E' by lia. rewrite E' in E. lia. }
  rewrite (decide_False (P := t = 0)) by done. unfold ecurve_mult2.
  rewrite <- mult_mul, <- mult_add by (lia || nia || apply eg_base).
  rewrite <- mult_base_mod by nia. replace ((s + t * d) mod nn) with k; [done|].
  symmetry. rewrite <- (Z.mod_small k nn) by lia.
  replace (s + t * d) with (k + (q - u * d) * nn); [by rewrite Z.mod_add by lia|].
  replace t with (s + r - nn * u) by lia. lia.
Qed.

Lemma sign_step_verifies e d k r s g' : 0 <= d → d + 1 < nn → 0 < k < nn →
  sign_step cfg e d k G = (g', Some (r, s)) → verify_rs cfg e r s (ecurve_mult cfg d G) = 1.
Proof.
  intros Hd Hd1 Hk Hstep. rewrite (sign_step_verify e d k G r s g') by done.
  destruct (sign_step_spec e d k G r s g' Hd Hd1 Hk Hstep) as (-> & Er & _).
  rewrite decide_True; [done|]. by rewrite Z.add_comm, Er.
Qed.

Lemma sign_loop_draw e d draws : ∀ j0 j k, 0 <= j0 → sign_draw cfg e d j0 draws = Some (j, k) →
  0 < k < nn ∧ 0 <= j ∧ ∃ r s g', sign_step cfg e d k (ecurve_mult cfg j G) = (g', Some (r, s)) ∧
    sign_loop cfg e d (ecurve_mult cfg j0 G) draws = Some (r, s).
Proof.
  pose proof n_pos (cfg := cfg) as Hn.
  induction draws as [|dr draws IH]; intros j0 j k Hj; [done|]. cbn [sign_draw sign_loop].
  set (k0 := bigrand cfg dr). assert (0 <= k0 < nn) as Bk by (apply Z.mod_pos_bound; lia).
  case_decide as Hk; [by apply IH|].
  destruct (sign_step cfg e d k0 (ecurve_mult cfg j0 G)) as [g' [[r s]|]] eqn:Es; cbn [snd].
  - intros [= <- <-]. split; [lia|]. split; [done|]. by exists r, s, g'.
  - intros E. assert (g' = ecurve_mult cfg (k0 * j0) G) as ->; [|apply IH; [nia|done]].
    rewrite mult_mul by (lia || apply eg_base). unfold sign_step in Es. by injection Es as <- _.
Qed.
End sign.

(** ** Numbers in memory *)

Lemma bytes_to_big_ok len q m bs : mread m q (Z.to_nat len) = Some bs → is_bytes bs → 0 < len <= 84 →
  bytes_to_big len q m = Some (be_num bs, m).
Proof.
  intros Hr Hb Hl. unfold bytes_to_big. rewrite decide_False by lia. rewrite (bind_Some _ _ m bs m (load_Some _ _ _ _ Hr)).
  apply mread_length in Hr. pose proof (be_num_bound bs Hb) as Hbd. rewrite decide_True; [done|].
  assert (256 ^ Z.of_nat (length bs) <= 256 ^ 84) by (apply Z.pow_le_mono_r; lia).
  change (2 ^ 672) with (256 ^ 84). lia.
Qed.

Lemma big_to_bytes_ok v q m : 0 < v < 2 ^ 256 → mvalid m q 32 →
  ∃ m', mwrite m q (num_bytes 32 v) = Some m' ∧ big_to_bytes v q m = Some (32, m').
Proof.
  intros Hv Hq. rewrite <- (num_bytes_length 32 v) in Hq. destruct (mvalid_store _ _ _ Hq) as (m' & Hw & Hst).
  exists m'. split; [done|]. unfold big_to_bytes. rewrite decide_False, decide_True by lia.
  by rewrite (bind_Some _ _ m tt m' Hst).
Qed.

(** A coordinate as the functions write it. *)
Abbreviation bytes32 := (num_bytes 32).

Lemma bytes_to_big_32 q m v : mread m q 32 = Some (bytes32 v) → 0 <= v < 2 ^ 256 → bytes_to_big 32 q m = Some (v, m).
Proof.
  intros Hr Hv. rewrite (bytes_to_big_ok 32 q m (bytes32 v)) by (done || lia || apply num_bytes_is_bytes).
  by rewrite be_num_bytes.
Qed.

(** The outputs of the signature, written one after the other. *)
Lemma put_signature_ok cr rlen cs slen r s m :
  0 < r < 2 ^ 256 → 0 < s < 2 ^ 256 → mvalid m cr 32 → mvalid m rlen 4 → mvalid m cs 32 → mvalid m slen 4 →
  pairwise [(cr, 32%nat); (rlen, 4%nat); (cs, 32%nat); (slen, 4%nat)] →
  ∃ m', (l ← big_to_bytes r cr; store_int rlen l;; l ← big_to_bytes s cs; store_int slen l) m = Some (tt, m') ∧
    mread m' cr 32 = Some (bytes32 r) ∧ mread m' cs 32 = Some (bytes32 s) ∧
    mread m' rlen 4 = Some (le_bytes 4 32) ∧ mread m' slen 4 = Some (le_bytes 4 32) ∧
    mframe [(cr, 32%nat); (rlen, 4%nat); (cs, 32%nat); (slen, 4%nat)] m m'.
Proof.
  intros Hr Hs V1 V2 V3 V4 HP. cbn [pairwise fst snd] in HP. destruct HP as (HP1 & HP2 & HP3 & _). split_Forall.
  destruct (big_to_bytes_ok r cr m Hr V1) as (m1 & W1 & E1).
  destruct (store_int_ok rlen 32 m1) as (m2 & W2 & E2); [by read_back|].
  destruct (big_to_bytes_ok s cs m2 Hs) as (m3 & W3 & E3); [by read_back|].
  destruct (store_int_ok slen 32 m3) as (m4 & W4 & E4); [by read_back|].
  exists m4. split.
  { rewrite (bind_Some _ _ m 32 m1 E1), (bind_Some _ _ m1 tt m2 E2), (bind_Some _ _ m2 32 m3 E3). exact E4. }
  pose proof (num_bytes_length 32 r) as L1. pose proof (num_bytes_length 32 s) as L3. pose proof (le_bytes_length 4 32) as L2.
  split; [read_back|]. split; [read_back|]. split; [read_back|]. split; [read_back|].
  frame_back.
Qed.

Lemma epoint_coords cfg P : on_curve cfg P → p cfg <= 2 ^ 256 → 0 <= (epoint_get P).1 < 2 ^ 256 ∧ 0 <= (epoint_get P).2 < 2 ^ 256.
Proof. destruct P as [[u v]|]; cbn; [intros (? & ? & _); lia|lia]. Qed.

(** What [sm2_sign] needs of memory. *)
Definition sign_memory (m : mem) (hash privkey cr rlen cs slen : ptr) (e d : Z) : Prop :=
  mread m hash 32 = Some (bytes32 e) ∧ mread m privkey 32 = Some (bytes32 d) ∧
  mvalid m cr 32 ∧ mvalid m rlen 4 ∧ mvalid m cs 32 ∧ mvalid m slen 4 ∧
  pairwise [(cr, 32%nat); (rlen, 4%nat); (cs, 32%nat); (slen, 4%nat)].
#[export] Instance sign_memory_dec m hash privkey cr rlen cs slen e d :
  Decision (sign_memory m hash privkey cr rlen cs slen e d).
Proof. unfold sign_memory. apply _. Defined.

Lemma sm2_sign_ok cfg hash privkey cr rlen cs slen m e d draws r s :
  sign_memory m hash privkey cr rlen cs slen e d → 0 <= e < 2 ^ 256 → 0 <= d < 2 ^ 256 →
  sign_loop cfg e d (base cfg) draws = Some (r, s) → 0 < r < 2 ^ 256 → 0 < s < 2 ^ 256 →
  ∃ m', sm2_sign cfg hash 32 privkey 32 cr rlen cs slen draws m = Some (tt, m') ∧
    mread m' cr 32 = Some (bytes32 r) ∧ mread m' cs 32 = Some (bytes32 s) ∧
    mread m' rlen 4 = Some (le_bytes 4 32) ∧ mread m' slen 4 = Some (le_bytes 4 32) ∧
    mframe [(cr, 32%nat); (rlen, 4%nat); (cs, 32%nat); (slen, 4%nat)] m m'.
Proof.
  intros (Hh & Hp & V1 & V2 & V3 & V4 & HP) He Hd Hl Hr Hs.
  destruct (put_signature_ok cr rlen cs slen r s m Hr Hs V1 V2 V3 V4 HP) as (m' & E & R).
  exists m'. split; [|exact R]. unfold sm2_sign.
  rewrite (bind_Some _ _ m d m (bytes_to_big_32 _ _ _ Hp Hd)), (bind_Some _ _ m e m (bytes_to_big_32 _ _ _ Hh He)).
  by rewrite Hl.
Qed.

Lemma sm2_verify_ok cfg hash cr cs wx wy m e r s P :
  mread m hash 32 = Some (bytes32 e) → mread m cr 32 = Some (bytes32 r) → mread m cs 32 = Some (bytes32 s) →
  mread m wx 32 = Some (bytes32 (epoint_get P).1) → mread m wy 32 = Some (bytes32 (epoint_get P).2) →
  on_curve cfg P → is_Some P → p cfg <= 2 ^ 256 → 0 <= e < 2 ^ 256 → 0 <= r < 2 ^ 256 → 0 <= s < 2 ^ 256 →
  sm2_verify cfg hash 32 cr 32 cs 32 wx 32 wy 32 m = Some (verify_rs cfg e r s P, m).
Proof.
  intros Hh Hr Hs Hx Hy HP HS Hp Be Br Bs. destruct (epoint_coords cfg P HP Hp) as [Bx By]. unfold sm2_verify.
  rewrite (bind_Some _ _ m _ m (bytes_to_big_32 _ _ _ Hx Bx)), (bind_Some _ _ m _ m (bytes_to_big_32 _ _ _ Hy By)).
  rewrite epoint_set_get by done.
  rewrite (bind_Some _ _ m _ m (bytes_to_big_32 _ _ _ Hh Be)), (bind_Some _ _ m _ m (bytes_to_big_32 _ _ _ Hr Br)).
  by rewrite (bind_Some _ _ m _ m (bytes_to_big_32 _ _ _ Hs Bs)).
Qed.

(** C3: [sm2_verify] accepts what [sm2_sign] writes for the key pair [(d, dG)], when the first
    number drawn serves: the signature is the one of the standard, [r = e + x(kG)] and
    [s (1 + d) = k - r d] modulo the order, and nothing else in memory changes. *)
Theorem sm2_sign_verify cfg `{!EllipticGroup cfg} hash privkey cr rlen cs slen wx wy m e d draw draws g r s :
  let k := bigrand cfg draw in
  let W := ecurve_mult cfg d (base cfg) in
  let outs := [(cr, 32%nat); (rlen, 4%nat); (cs, 32%nat); (slen, 4%nat)] in
  p cfg <= 2 ^ 256 → n cfg <= 2 ^ 256 → 0 <= e < 2 ^ 256 → 0 < d → d + 1 < n cfg →
  sign_memory m hash privkey cr rlen cs slen e d →
  mread m wx 32 = Some (bytes32 (epoint_get W).1) → mread m wy 32 = Some (bytes32 (epoint_get W).2) →
  Forall (λ q, apart outs q 32) [hash; wx; wy] →
  k ≠ 0 → sign_step cfg e d k (base cfg) = (g, Some (r, s)) →
  ∃ m', sm2_sign cfg hash 32 privkey 32 cr rlen cs slen (draw :: draws) m = Some (tt, m') ∧
    mread m' cr 32 = Some (bytes32 r) ∧ mread m' cs 32 = Some (bytes32 s) ∧ mframe outs m m' ∧
    sm2_verify cfg hash 32 cr 32 cs 32 wx 32 wy 32 m' = Some (1, m') ∧
    r = (e + (epoint_get (ecurve_mult cfg k (base cfg))).1) mod n cfg ∧
    (s * (1 + d)) mod n cfg = (k - r * d) mod n cfg.
Proof.
  intros k W outs Hp Hn He Hd Hd1 Hm Hx Hy Hap Hk Hstep. pose proof n_pos (cfg := cfg) as Hn1.
  assert (0 < k < n cfg) as Bk by (pose proof (Z.mod_pos_bound draw (n cfg) ltac:(lia)); unfold k, bigrand in *; lia).
  destruct (sign_step_spec e d k (base cfg) r s g) as (Eg & Er & _ & Br & Bs & q & Es); [lia..|done|].
  destruct (sm2_sign_ok cfg hash privkey cr rlen cs slen m e d (draw :: draws) r s Hm) as (m' & E & R1 & R2 & _ & _ & F); [lia|lia| |lia|lia|].
  { cbn [sign_loop]. fold k. rewrite decide_False by done. by rewrite Hstep. }
  apply List.Forall_cons_iff in Hap as [A1 [A2 [A3 _]%List.Forall_cons_iff]%List.Forall_cons_iff].
  exists m'. do 4 (split; [done|]). split; [|split; [by rewrite <- Eg|]].
  - pose proof eg_base (cfg := cfg) as Hb. rewrite (sm2_verify_ok cfg hash cr cs wx wy m' e r s W).
    + f_equal. f_equal. apply (sign_step_verifies e d k r s g); [lia..|done].
    + exact (apart_read _ _ _ _ _ _ F A1 (proj1 Hm)).
    + done.
    + done.
    + exact (apart_read _ _ _ _ _ _ F A2 Hx).
    + exact (apart_read _ _ _ _ _ _ F A3 Hy).
    + by apply mult_closed.
    + apply mult_base_finite. lia.
    + done.
    + done.
    + lia.
    + lia.
  - rewrite Es. rewrite (Z.mul_comm (n cfg) q), Z.mod_add by lia. done.
Qed.

(** C38: the whole of [sm2_sign] when some numbers drawn do not serve. The point [g] is then not
    the base point but its multiple by the product [j] of those numbers, and the signature for
    the number [k] that serves is [r = e + x(kjG)] and [s (1 + d) = k - r d] modulo the order.
    [sm2_verify] computes [kG] from it and so accepts it exactly when [kG] and [kjG] have the same
    first coordinate modulo the order. *)
Theorem sm2_sign_retry_verify cfg `{!EllipticGroup cfg} hash privkey cr rlen cs slen wx wy m e d draws j k :
  let xof i := (epoint_get (ecurve_mult cfg i (base cfg))).1 in
  let W := ecurve_mult cfg d (base cfg) in
  let outs := [(cr, 32%nat); (rlen, 4%nat); (cs, 32%nat); (slen, 4%nat)] in
  p cfg <= 2 ^ 256 → n cfg <= 2 ^ 256 → 0 <= e < 2 ^ 256 → 0 < d → d + 1 < n cfg →
  sign_memory m hash privkey cr rlen cs slen e d →
  mread m wx 32 = Some (bytes32 (epoint_get W).1) → mread m wy 32 = Some (bytes32 (epoint_get W).2) →
  Forall (λ q, apart outs q 32) [hash; wx; wy] →
  sign_draw cfg e d 1 draws = Some (j, k) →
  ∃ s m', sm2_sign cfg hash 32 privkey 32 cr rlen cs slen draws m = Some (tt, m') ∧
    mread m' cr 32 = Some (bytes32 ((e + xof (k * j)) mod n cfg)) ∧ mread m' cs 32 = Some (bytes32 s) ∧
    mframe outs m m' ∧ 0 < s < n cfg ∧
    (s * (1 + d)) mod n cfg = (k - (e + xof (k * j)) mod n cfg * d) mod n cfg ∧
    sm2_verify cfg hash 32 cr 32 cs 32 wx 32 wy 32 m' =
      Some (if decide (xof k mod n cfg = xof (k * j) mod n cfg) then 1 else 0, m').
Proof.
  intros xof W outs Hp Hn He Hd Hd1 Hm Hx Hy Hap Hdraw. pose proof n_pos (cfg := cfg) as Hn1.
  destruct (sign_loop_draw e d draws 1 j k ltac:(lia) Hdraw) as (Bk & Bj & r & s & g & Hstep & Hloop).
  destruct (sign_step_spec e d k _ r s g ltac:(lia) Hd1 Bk Hstep) as (-> & Er & _ & Br & Bs & q & Es).
  rewrite <- mult_mul in Er by (lia || apply eg_base). fold (xof (k * j)) in Er.
  destruct (sm2_sign_ok cfg hash privkey cr rlen cs slen m e d draws r s Hm) as (m' & E & R1 & R2 & _ & _ & F);
    [lia|lia|done|lia|lia|].
  apply List.Forall_cons_iff in Hap as [A1 [A2 [A3 _]%List.Forall_cons_iff]%List.Forall_cons_iff].
  exists s, m'. rewrite <- Er. do 5 (split; [done|]). split.
  - by rewrite Es, (Z.mul_comm (n cfg) q), Z.mod_add by lia.
  - pose proof eg_base (cfg := cfg) as Hb. rewrite (sm2_verify_ok cfg hash cr cs wx wy m' e r s W).
    + do 2 f_equal. etransitivity; [exact (sign_step_verify e d k _ r s _ ltac:(lia) Hd1 Bk Hstep)|]. fold (xof k).
      apply decide_ext. rewrite Er, Z.add_comm. apply mod_add_cancel. lia.
    + exact (apart_read _ _ _ _ _ _ F A1 (proj1 Hm)).
    + done.
    + done.
    + exact (apart_read _ _ _ _ _ _ F A2 Hx).
    + exact (apart_read _ _ _ _ _ _ F A3 Hy).
    + by apply mult_closed.
    + apply mult_base_finite. lia.
    + done.
    + done.
    + lia.
    + lia.
Qed.

(** ** Key derivation *)

(** The key stream of the standard: the hashes of [z] with a counter, as long as asked for. *)
Definition kdf_blocks (z : list Z) (ct m : nat) : list Z :=
  mjoin ((λ i, Sm3Spec.hash (z ++ be_bytes (Z.of_nat i))) <$> seq ct m).
Definition kdf_stream (z : list Z) (klen : nat) : list Z := take klen (kdf_blocks z 1 (S (klen / 32))).

Lemma hash_length m : length (Sm3Spec.hash m) = 32%nat.
Proof. done. Qed.

Lemma kdf_blocks_length z ct m : length (kdf_blocks z ct m) = (32 * m)%nat.
Proof.
  unfold kdf_blocks. revert ct. induction m as [|m IH]; intros ct; [done|]. cbn [seq fmap list_fmap mjoin list_join].
  rewrite length_app, IH, hash_length. lia.
Qed.

Lemma kdf_blocks_snoc z ct m : kdf_blocks z ct (S m) = kdf_blocks z ct m ++ Sm3Spec.hash (z ++ be_bytes (Z.of_nat (ct + m))).
Proof.
  unfold kdf_blocks. rewrite seq_S, fmap_app, join_app. f_equal.
Qed.

Lemma kdf_stream_split z klen : kdf_stream z klen =
  kdf_blocks z 1 (klen / 32) ++ take (klen mod 32) (Sm3Spec.hash (z ++ be_bytes (Z.of_nat (1 + klen / 32)))).
Proof.
  unfold kdf_stream. rewrite kdf_blocks_snoc. rewrite take_app. rewrite kdf_blocks_length.
  pose proof (Nat.div_mod_eq klen 32). rewrite (take_ge (kdf_blocks _ _ _)) by (rewrite kdf_blocks_length; lia).
  f_equal. f_equal. lia.
Qed.

Lemma kdf_stream_length z klen : length (kdf_stream z klen) = klen.
Proof.
  rewrite kdf_stream_split, length_app, kdf_blocks_length, length_take, hash_length.
  pose proof (Nat.div_mod_eq klen 32). pose proof (Nat.mod_upper_bound klen 32). lia.
Qed.

Lemma hash_bytes m : is_bytes (Sm3Spec.hash m).
Proof.
  unfold Sm3Spec.hash, Sm3Spec.digest. repeat (apply List.Forall_app; split); apply be_bytes_are_bytes.
Qed.

Lemma kdf_stream_bytes z klen : is_bytes (kdf_stream z klen).
Proof.
  unfold kdf_stream. apply Forall_take. induction (S (klen / 32)) as [|k IH]; [constructor|].
  rewrite kdf_blocks_snoc. apply List.Forall_app. split; [exact IH|apply hash_bytes].
Qed.

Section kdf.
Context {tgt : Target} (H32 : ulong_bits = 32) (stack : SM3_CTX) (Hstack : length (data stack) = 16%nat).

Lemma sm3_buf_ok buf md m : is_bytes buf → Z.of_nat (length buf) < 2 ^ 32 → mvalid m md 32 →
  ∃ m', mwrite m md (Sm3Spec.hash buf) = Some m' ∧ sm3_buf stack buf md m = Some (tt, m').
Proof.
  intros Hb Hl Hv. unfold sm3_buf. rewrite sm3_digest_hash by done. rewrite <- (hash_length buf) in Hv. by apply mvalid_store.
Qed.

Lemma kdf_loop_ok z m : ∀ ct q mm, is_bytes z → Z.of_nat (length z) < 2 ^ 16 → Z.of_nat (ct + m) < 2 ^ 32 →
  mvalid mm q (32 * m) →
  ∃ mm', mwrite mm q (kdf_blocks z ct m) = Some mm' ∧ kdf_loop stack m z (Z.of_nat ct) q mm = Some (tt, mm').
Proof.
  induction m as [|m IH]; intros ct q mm Hz Hl Hct Hv.
  - destruct (mvalid_mwrite mm q [] Hv) as [mm' W]. exists mm'. split; [done|]. cbn. by rewrite (mwrite_nil _ _ _ W).
  - replace (32 * S m)%nat with (32 + 32 * m)%nat in Hv by lia.
    destruct (sm3_buf_ok (z ++ be_bytes (Z.of_nat ct)) q mm) as (m1 & W1 & E1).
    { apply List.Forall_app. split; [done|]. apply be_bytes_are_bytes. }
    { rewrite length_app. change (length (be_bytes _)) with 4%nat. lia. }
    { eapply mvalid_take; [exact Hv|lia]. }
    destruct (IH (S ct) (padd q 32) m1 Hz Hl) as (m2 & W2 & E2); [lia| |].
    { apply (mvalid_mwrite_iff _ _ _ _ _ _ W1). apply (mvalid_sub mm q (32 + 32 * m) 32 (32 * m)); [done|lia]. }
    exists m2. cbn [kdf_loop]. rewrite (bind_Some _ _ mm tt m1 E1). split.
    + change (kdf_blocks z ct (S m)) with (Sm3Spec.hash (z ++ be_bytes (Z.of_nat ct)) ++ kdf_blocks z (S ct) m).
      rewrite mwrite_app, W1. cbn [mbind option_bind]. by rewrite hash_length.
    + rewrite <- E2. f_equal. rewrite wrap_small by (unfold is_word; lia). lia.
Qed.

Lemma kdf_fill_ok z klen q mm : is_bytes z → Z.of_nat (length z) < 2 ^ 16 → Z.of_nat klen < 2 ^ 31 → mvalid mm q klen →
  ∃ mm', mwrite mm q (kdf_stream z klen) = Some mm' ∧ kdf_fill stack z (Z.of_nat klen) q mm = Some (tt, mm').
Proof.
  intros Hz Hl Hk Hv. unfold kdf_fill.
  replace (Z.of_nat klen / 32) with (Z.of_nat (klen / 32)) by (by rewrite Nat2Z.inj_div).
  replace (Z.of_nat klen mod 32) with (Z.of_nat (klen mod 32)) by (by rewrite Nat2Z.inj_mod). rewrite !Nat2Z.id.
  pose proof (Nat.div_mod_eq klen 32) as Hd. pose proof (Nat.mod_upper_bound klen 32 ltac:(lia)) as Hr.
  rewrite kdf_stream_split. set (k := (klen / 32)%nat) in *. set (r := (klen mod 32)%nat) in *. clearbody k r.
  destruct (kdf_loop_ok z k 1 q mm) as (m1 & W1 & E1); [done|done|lia|by eapply mvalid_take; [exact Hv|lia]|].
  assert ((if decide (r = 0%nat) then [] else sm3_digest stack (z ++ be_bytes (wrap 32 (1 + Z.of_nat k)))) =
          if decide (r = 0%nat) then [] else Sm3Spec.hash (z ++ be_bytes (Z.of_nat (1 + k)))) as ->.
  { case_decide; [done|]. rewrite wrap_small by (unfold is_word; lia). rewrite sm3_digest_hash; [|done|done| |].
    - by rewrite Nat2Z.inj_add.
    - apply List.Forall_app. split; [done|apply be_bytes_are_bytes].
    - rewrite length_app. change (length (be_bytes _)) with 4%nat. lia. }
  set (last := take r (if decide (r = 0%nat) then [] else Sm3Spec.hash (z ++ be_bytes (Z.of_nat (1 + k))))).
  assert (take r (Sm3Spec.hash (z ++ be_bytes (Z.of_nat (1 + k)))) = last) as ->.
  { unfold last. case_decide as E; [by rewrite E|done]. }
  assert (length last = r) as Hlast.
  { unfold last. rewrite length_take. case_decide; cbn [length]; rewrite ?hash_length; lia. }
  assert (mvalid m1 (padd q (Z.of_nat (32 * k))) (length last)) as Hv1.
  { apply (mvalid_mwrite_iff _ _ _ _ _ _ W1). rewrite Hlast. apply (mvalid_sub mm q klen); [done|lia]. }
  destruct (mvalid_store _ _ _ Hv1) as (m2 & W2 & E2). exists m2. split.
  - rewrite mwrite_app, W1. cbn [mbind option_bind]. by rewrite kdf_blocks_length.
  - change 1 with (Z.of_nat 1) at 1. rewrite (bind_Some _ _ mm tt m1 E1).
    replace (32 * Z.of_nat k) with (Z.of_nat (32 * k)) by lia. exact E2.
Qed.

Lemma kdf_ok zl zr klen q mm : is_bytes (zl ++ zr) → Z.of_nat (length (zl ++ zr)) < 2 ^ 16 → Z.of_nat klen < 2 ^ 31 → mvalid mm q klen →
  ∃ mm', mwrite mm q (kdf_stream (zl ++ zr) klen) = Some mm' ∧
    kdf stack zl zr (Z.of_nat klen) q mm = Some (if existsb (λ c, negb (c =? 0)) (kdf_stream (zl ++ zr) klen) then 1 else 0, mm').
Proof.
  intros Hz Hl Hk Hv. destruct (kdf_fill_ok (zl ++ zr) klen q mm Hz Hl Hk Hv) as (mm' & W & E). exists mm'. split; [done|].
  unfold kdf. rewrite (bind_Some _ _ mm tt mm' E). rewrite Nat2Z.id.
  rewrite (bind_Some _ _ mm' (kdf_stream (zl ++ zr) klen) mm'); [done|]. apply load_Some.
  rewrite <- (kdf_stream_length (zl ++ zr) klen) at 1. by apply (mread_mwrite mm).
Qed.
End kdf.

(** ** Encryption and decryption *)

(** The ciphertext of the standard for the multiplier [j] and the public key [W]. *)
Definition shared (cfg : FPECC) (j : Z) (W : epoint) : list Z * list Z :=
  let '(x2, y2) := epoint_get (ecurve_mult cfg j W) in (bytes32 x2, bytes32 y2).
Definition stream (cfg : FPECC) (j : Z) (W : epoint) (L : nat) : list Z :=
  kdf_stream ((shared cfg j W).1 ++ (shared cfg j W).2) L.
Definition sm2_ciphertext (cfg : FPECC) (j : Z) (W : epoint) (ms : list Z) : list Z :=
  let '(c1, c2) := epoint_get (ecurve_mult cfg j (base cfg)) in
  let '(zl, zr) := shared cfg j W in
  bytes32 c1 ++ bytes32 c2 ++ xor_list (stream cfg j W (length ms)) ms ++ Sm3Spec.hash (zl ++ ms ++ zr).

Definition usable (ks : list Z) : bool := existsb (λ c, negb (c =? 0)) ks.

(** The multiplier the encryption ends with: each number drawn multiplies it, until the key
    stream is not all zero. *)
Fixpoint encrypt_draw (cfg : FPECC) (W : epoint) (L : nat) (j : Z) (draws : list Z) : option Z :=
  match draws with
  | [] => None
  | d :: draws =>
      let k := bigrand cfg d in
      if decide (k = 0) then encrypt_draw cfg W L j draws
      else if usable (stream cfg (k * j) W L) then Some (k * j) else encrypt_draw cfg W L (k * j) draws
  end.

(** No coordinate met is zero; MIRACL writes nothing for a zero. *)
Definition nonzero (P : epoint) : Prop := (epoint_get P).1 ≠ 0 ∧ (epoint_get P).2 ≠ 0.
Fixpoint no_zero (cfg : FPECC) (W : epoint) (j : Z) (draws : list Z) : Prop :=
  match draws with
  | [] => True
  | d :: draws =>
      let k := bigrand cfg d in
      if decide (k = 0) then no_zero cfg W j draws
      else nonzero (ecurve_mult cfg (k * j) (base cfg)) ∧ nonzero (ecurve_mult cfg (k * j) W) ∧ no_zero cfg W (k * j) draws
  end.
#[export] Instance nonzero_dec P : Decision (nonzero P).
Proof. unfold nonzero. apply _. Defined.
#[export] Instance no_zero_dec cfg W draws : ∀ j, Decision (no_zero cfg W j draws).
Proof. induction draws as [|d draws IH]; intros j; cbn; [apply _|]. case_decide; apply _. Defined.

Lemma nonzero_coords cfg P : on_curve cfg P → p cfg <= 2 ^ 256 → nonzero P →
  0 < (epoint_get P).1 < 2 ^ 256 ∧ 0 < (epoint_get P).2 < 2 ^ 256.
Proof. intros HP Hp [N1 N2]. destruct (epoint_coords cfg P HP Hp). lia. Qed.

Lemma local_big_ok v old : 0 < v < 2 ^ 256 → local_big v old = Some (bytes32 v).
Proof. intros Hv. unfold local_big. by rewrite decide_False, decide_True by lia. Qed.

Section encrypt.
Context {tgt : Target} (H32 : ulong_bits = 32) (stack : SM3_CTX) (Hstack : length (data stack) = 16%nat).
Context {cfg : FPECC} `{!EllipticGroup cfg} (Hp : p cfg <= 2 ^ 256).

(** A multiple of the base point by a number that is not a multiple of the order. *)
Lemma mult_finite j : 0 < j → j mod n cfg ≠ 0 → is_Some (ecurve_mult cfg j (base cfg)).
Proof.
  clear dependent stack.
  intros Hj Hm. pose proof n_pos (cfg := cfg). rewrite <- mult_base_mod by lia. apply mult_base_finite.
  pose proof (Z.mod_pos_bound j (n cfg) ltac:(lia)). lia.
Qed.

Lemma mul_not_multiple j k : j mod n cfg ≠ 0 → k mod n cfg ≠ 0 → (k * j) mod n cfg ≠ 0.
Proof.
  clear dependent stack.
  intros Hj Hk Hz. pose proof n_pos (cfg := cfg). apply Z.mod_divide in Hz; [|lia].
  apply (prime_mult _ (eg_n (cfg := cfg))) in Hz as [Hz|Hz]; [apply Hk|apply Hj]; apply Z.mod_divide; (lia || done).
Qed.

Lemma encrypt_finish_ok msg ms out zl zr c ks m :
  let L := length ms in
  mread m msg L = Some ms → is_bytes ms → Z.of_nat L + 96 < 2 ^ 31 → mvalid m out (96 + L) →
  pdisj out (96 + L) msg L → length zl = 32%nat → length zr = 32%nat → is_bytes zl → is_bytes zr →
  length c = 64%nat → length ks = L → mread m out 64 = Some c → mread m (padd out 64) L = Some ks →
  ∃ m', encrypt_finish stack msg (Z.of_nat L) out zl zr m = Some (Z.of_nat L + 96, m') ∧
    mread m' out (96 + L) = Some (c ++ xor_list ks ms ++ Sm3Spec.hash (zl ++ ms ++ zr)) ∧
    mframe [(out, 96 + L)%nat] m m'.
Proof.
  intros L Hm Hb HL Hv Hd Lzl Lzr Bzl Bzr Lc Lk Ho Hk. unfold encrypt_finish. rewrite Nat2Z.id.
  assert (mvalid m (padd out 64) L) as V1 by (apply (mvalid_sub m out (96 + L) 64 L); [done|lia]).
  assert (pdisj (padd out 64) L msg L) as D1 by (apply (pdisj_sub out (96 + L) msg L 64 L); [done|lia]).
  destruct (xor_loop_ok L (padd out 64) (padd out 64) msg m ks ms) as (m1 & W1 & E1); [done|done|done|by left|by right|].
  assert (length (xor_list ks ms) = L) as Lx by (rewrite xor_list_length; done).
  assert (mread m1 msg L = Some ms) as Hm1 by (rewrite (mread_mwrite_disj _ _ _ _ _ _ W1); [done|by rewrite Lx]).
  assert (mvalid m1 (padd out (Z.of_nat (64 + L))) 32) as V2.
  { apply (mvalid_mwrite_iff _ _ _ _ _ _ W1). apply (mvalid_sub m out (96 + L)); [done|lia]. }
  destruct (sm3_buf_ok H32 stack Hstack (zl ++ ms ++ zr) (padd out (Z.of_nat (64 + L))) m1) as (m2 & W2 & E2).
  { repeat (apply List.Forall_app; split); done. }
  { rewrite !length_app, Lzl, Lzr. fold L. lia. }
  { exact V2. }
  exists m2. split; [|split].
  - rewrite (bind_Some _ _ m tt m1 E1), (bind_Some _ _ m1 ms m1 (load_Some _ _ _ _ Hm1)).
    replace (64 + Z.of_nat L) with (Z.of_nat (64 + L)) by lia. rewrite (bind_Some _ _ m1 tt m2 E2). 
    change (Some (Z.of_nat L + 64 + 32, m2) = Some (Z.of_nat L + 96, m2)). do 2 f_equal. lia.
  - replace (96 + L)%nat with (64 + (L + 32))%nat by lia. apply mread_join; [|apply mread_join].
    + rewrite (mread_mwrite_disj _ _ _ _ _ _ W2) by (apply pdisj_sym, pdisj_next; lia).
      rewrite (mread_mwrite_disj _ _ _ _ _ _ W1); [done|]. apply pdisj_sym, (pdisj_next out 64 64). lia.
    + rewrite (mread_mwrite_disj _ _ _ _ _ _ W2).
      * rewrite <- Lx at 1. by apply (mread_mwrite m).
      * rewrite hash_length. apply pdisj_sym. replace (Z.of_nat (64 + L)) with (64 + Z.of_nat L) by lia.
        rewrite <- padd_add. apply pdisj_next. lia.
    + rewrite padd_add. replace (Z.of_nat 64 + Z.of_nat L) with (Z.of_nat (64 + L)) by lia.
      pose proof (mread_mwrite _ _ _ _ W2) as R. by rewrite hash_length in R.
  - transitivity m1; [eapply mframe_mono; [by apply mwrite_mframe|]|eapply mframe_mono; [by apply mwrite_mframe|]].
    + rewrite Lx. apply (covers_sub _ out (96 + L) 64); [by left|lia].
    + rewrite hash_length. apply (covers_sub _ out (96 + L) (64 + L)); [by left|lia].
Qed.

Lemma shared_bytes j W : length (shared cfg j W).1 = 32%nat ∧ length (shared cfg j W).2 = 32%nat ∧
  is_bytes (shared cfg j W).1 ∧ is_bytes (shared cfg j W).2.
Proof.
  unfold shared. destruct (epoint_get _) as [x2 y2]. cbn [fst snd]. rewrite !num_bytes_length.
  split; [done|]. split; [done|]. split; apply num_bytes_is_bytes.
Qed.

(** The two coordinates of C1. *)
Lemma put_point_ok P out m : on_curve cfg P → nonzero P → mvalid m out 64 →
  ∃ m1 m2, big_to_bytes (epoint_get P).1 out m = Some (32, m1) ∧
    big_to_bytes (epoint_get P).2 (padd out 32) m1 = Some (32, m2) ∧
    mwrite m out (bytes32 (epoint_get P).1 ++ bytes32 (epoint_get P).2) = Some m2.
Proof.
  clear dependent stack. intros HP HN Hv. destruct (nonzero_coords cfg P HP Hp HN) as [B1 B2].
  destruct (big_to_bytes_ok (epoint_get P).1 out m B1) as (m1 & W1 & E1); [by eapply mvalid_take; [exact Hv|lia]|].
  destruct (big_to_bytes_ok (epoint_get P).2 (padd out 32) m1 B2) as (m2 & W2 & E2).
  { apply (mvalid_mwrite_iff _ _ _ _ _ _ W1). apply (mvalid_sub m out 64 32); [done|lia]. }
  exists m1, m2. split; [done|]. split; [done|]. rewrite mwrite_app, W1. cbn [mbind option_bind].
  by rewrite num_bytes_length.
Qed.
(** *** The loop of the encryption, for the public key of [d] *)

Context (d : Z) (Hd : 0 < d < n cfg).
Abbreviation W := (ecurve_mult cfg d (base cfg)).

Lemma public_key_on_curve : on_curve cfg W.
Proof. apply mult_closed, eg_base. Qed.

Lemma mult_public j : 0 < j → ecurve_mult cfg j W = ecurve_mult cfg d (ecurve_mult cfg j (base cfg)).
Proof.
  clear dependent stack. intros Hj. rewrite <- !mult_mul by (lia || apply eg_base). by rewrite Z.mul_comm. Qed.

Lemma mult_public_finite j : 0 < j → j mod n cfg ≠ 0 → is_Some (ecurve_mult cfg j W).
Proof.
  clear dependent stack.
  intros Hj Hm. rewrite <- mult_mul by (lia || apply eg_base). apply mult_finite; [lia|]. apply mul_not_multiple; [|done].
  rewrite Z.mod_small; lia.
Qed.

Lemma mult_step k j P : 0 < k → 0 < j → on_curve cfg P → ecurve_mult cfg k (ecurve_mult cfg j P) = ecurve_mult cfg (k * j) P.
Proof.
  clear dependent stack. intros. by rewrite mult_mul by (done || lia). Qed.

(** One turn that draws a usable key stream, and one that does not. *)
Lemma encrypt_turn_ok msg ms out j m :
  let L := length ms in
  0 < j → j mod n cfg ≠ 0 → nonzero (ecurve_mult cfg j (base cfg)) → nonzero (ecurve_mult cfg j W) →
  mread m msg L = Some ms → is_bytes ms → Z.of_nat L + 96 < 2 ^ 31 → mvalid m out (96 + L) → pdisj out (96 + L) msg L →
  ∃ m1 m2 m3, big_to_bytes (epoint_get (ecurve_mult cfg j (base cfg))).1 out m = Some (32, m1) ∧
    big_to_bytes (epoint_get (ecurve_mult cfg j (base cfg))).2 (padd out 32) m1 = Some (32, m2) ∧
    kdf stack (shared cfg j W).1 (shared cfg j W).2 (Z.of_nat L) (padd out 64) m2 =
      Some (if usable (stream cfg j W L) then 1 else 0, m3) ∧
    mframe [(out, 96 + L)%nat] m m3 ∧ mread m3 msg L = Some ms ∧
    ∃ m', encrypt_finish stack msg (Z.of_nat L) out (shared cfg j W).1 (shared cfg j W).2 m3 = Some (Z.of_nat L + 96, m') ∧
      mread m' out (96 + L) = Some (sm2_ciphertext cfg j W ms) ∧ mframe [(out, 96 + L)%nat] m m'.
Proof.
  intros L Hj Hjn N1 N2 Hm Hb HL Hv Hdj. destruct (shared_bytes j W) as (L1 & L2 & B1 & B2).
  destruct (put_point_ok (ecurve_mult cfg j (base cfg)) out m) as (m1 & m2 & E1 & E2 & W12);
    [apply mult_closed, eg_base|done|by eapply mvalid_take; [exact Hv|lia]|].
  set (c := bytes32 _ ++ bytes32 _) in W12. assert (length c = 64%nat) as Lc by (unfold c; by rewrite length_app, !num_bytes_length).
  destruct (kdf_ok H32 stack Hstack (shared cfg j W).1 (shared cfg j W).2 L (padd out 64) m2) as (m3 & W3 & E3).
  { by apply List.Forall_app. }
  { rewrite length_app, L1, L2. done. }
  { lia. }
  { apply (mvalid_mwrite_iff _ _ _ _ _ _ W12). apply (mvalid_sub m out (96 + L) 64); [done|lia]. }
  fold (stream cfg j W L) in W3, E3. assert (length (stream cfg j W L) = L) as Lk by apply kdf_stream_length.
  exists m1, m2, m3. do 3 (split; [done|]).
  assert (mframe [(out, 96 + L)%nat] m m3) as F.
  { transitivity m2; [eapply mframe_mono; [by apply mwrite_mframe|]|eapply mframe_mono; [by apply mwrite_mframe|]].
    - rewrite Lc. apply covers_take with (96 + L)%nat; [by left|lia].
    - rewrite Lk. apply (covers_sub _ out (96 + L) 64); [by left|lia]. }
  split; [done|].
  assert (mread m3 msg L = Some ms) as Hm3 by (apply (apart_read m m3 _ _ _ _ F); [by apply apart_1|done]).
  split; [done|].
  destruct (encrypt_finish_ok msg ms out (shared cfg j W).1 (shared cfg j W).2 c (stream cfg j W L) m3) as (m' & E & R & F').
  1-2: done. 1: done.
  { by apply F. }
  1-5: done. 1-2: done.
  { rewrite (mread_mwrite_disj _ _ _ _ _ _ W3) by (apply pdisj_sym, (pdisj_next out 64 64); lia).
    rewrite <- Lc. by apply (mread_mwrite m). }
  { pose proof (mread_mwrite _ _ _ _ W3) as R3. by rewrite Lk in R3. }
  exists m'. split; [done|]. split; [|by etransitivity].
  fold L in R. rewrite R. unfold sm2_ciphertext, c. destruct (epoint_get (ecurve_mult cfg j (base cfg))) as [c1 c2].
  destruct (shared cfg j W) as [zl zr]. cbn [fst snd]. by rewrite <- app_assoc.
Qed.

Lemma encrypt_loop_ok msg ms out draws : ∀ j zl0 zr0 m,
  let L := length ms in
  0 < j → j mod n cfg ≠ 0 → no_zero cfg W j draws →
  mread m msg L = Some ms → is_bytes ms → Z.of_nat L + 96 < 2 ^ 31 → mvalid m out (96 + L) → pdisj out (96 + L) msg L →
  let run := encrypt_loop stack cfg msg (Z.of_nat L) out draws (ecurve_mult cfg j (base cfg), ecurve_mult cfg j W, zl0, zr0) m in
  match encrypt_draw cfg W L j draws with
  | Some j' => 0 < j' ∧ j' mod n cfg ≠ 0 ∧ nonzero (ecurve_mult cfg j' W) ∧ usable (stream cfg j' W L) = true ∧
      ∃ m', run = Some (inr (Z.of_nat L + 96), m') ∧ mread m' out (96 + L) = Some (sm2_ciphertext cfg j' W ms) ∧
        mframe [(out, 96 + L)%nat] m m'
  | None => ∃ vars m', run = Some (inl vars, m')
  end.
Proof.
  induction draws as [|dr draws IH]; intros j zl0 zr0 m L Hj Hjn Hnz Hm Hb HL Hv Hdj; [by eexists _, _|].
  cbn [encrypt_loop encrypt_draw no_zero] in *. set (k := bigrand cfg dr) in *. pose proof n_pos (cfg := cfg) as Hn1.
  assert (0 <= k < n cfg) as Bk by (apply Z.mod_pos_bound; lia).
  case_decide as Hk; [by apply IH|]. destruct Hnz as (N1 & N2 & Hnz).
  assert (0 < k * j) as Hkj by nia. assert ((k * j) mod n cfg ≠ 0) as Hkjn by (apply mul_not_multiple; [done|rewrite Z.mod_small; lia]).
  unfold encrypt_turn. rewrite !(mult_step k j) by (done || lia || apply eg_base || apply public_key_on_curve).
  destruct (encrypt_turn_ok msg ms out (k * j) m Hkj Hkjn N1 N2 Hm Hb HL Hv Hdj) as (m1 & m2 & m3 & E1 & E2 & E3 & F & Hm3 & m' & E & R & F').
  destruct (mult_public_finite j Hj Hjn) as [wj ->]. 
  destruct (nonzero_coords cfg (ecurve_mult cfg (k * j) W)) as [Bx By]; [apply mult_closed, public_key_on_curve|done|done|].
  rewrite (surjective_pairing (epoint_get (ecurve_mult cfg (k * j) (base cfg)))).
  rewrite (surjective_pairing (epoint_get (ecurve_mult cfg (k * j) W))).
  rewrite (local_big_ok _ zl0) by done. rewrite (local_big_ok _ zr0) by done.
  assert (shared cfg (k * j) W = (bytes32 (epoint_get (ecurve_mult cfg (k * j) W)).1, bytes32 (epoint_get (ecurve_mult cfg (k * j) W)).2)) as Hsh.
  { unfold shared. by destruct (epoint_get (ecurve_mult cfg (k * j) W)). }
  rewrite Hsh in E3, E. cbn [fst snd] in E3, E.
  fold L in E, E3, R, F, F', Hm3 |- *. destruct (usable (stream cfg (k * j) W L)) eqn:Hu.
  - do 4 (split; [done|]). exists m'. split; [|done]. rewrite (bind_Some _ _ m (inr (Z.of_nat L + 96)) m'); [done|].
    rewrite (bind_Some _ _ m 32 m1 E1), (bind_Some _ _ m1 32 m2 E2), (bind_Some _ _ m2 _ m3 E3).
    rewrite decide_False by done. by rewrite (bind_Some _ _ m3 _ m' E).
  - rewrite (bind_Some _ _ m (inl (ecurve_mult cfg (k * j) (base cfg), ecurve_mult cfg (k * j) W,
      Some (bytes32 (epoint_get (ecurve_mult cfg (k * j) W)).1), Some (bytes32 (epoint_get (ecurve_mult cfg (k * j) W)).2))) m3).
    2:{ rewrite (bind_Some _ _ m 32 m1 E1), (bind_Some _ _ m1 32 m2 E2), (bind_Some _ _ m2 _ m3 E3).
        by rewrite decide_True by done. }
    specialize (IH (k * j) (Some (bytes32 (epoint_get (ecurve_mult cfg (k * j) W)).1)) (Some (bytes32 (epoint_get (ecurve_mult cfg (k * j) W)).2)) m3).
    cbn zeta in IH. specialize (IH Hkj Hkjn Hnz Hm3 Hb HL ltac:(by apply F) Hdj).
    fold L in IH. destruct (encrypt_draw cfg W L (k * j) draws) as [j'|]; [|done].
    destruct IH as (? & ? & ? & ? & m4 & ? & ? & ?). do 4 (split; [done|]). exists m4. split; [done|]. split; [done|]. transitivity m3; [exact F|done].
Qed.

(** With the public key in memory the loop starts from the base point and the key. *)
Lemma sm2_encrypt_run_start msg msglen wx wy out draws m :
  mread m wx 32 = Some (bytes32 (epoint_get W).1) → mread m wy 32 = Some (bytes32 (epoint_get W).2) →
  sm2_encrypt_run stack cfg msg msglen wx 32 wy 32 out draws m =
    encrypt_loop stack cfg msg msglen out draws (ecurve_mult cfg 1 (base cfg), ecurve_mult cfg 1 W, None, None) m.
Proof.
  clear dependent H32 Hstack. intros Hx Hy. assert (on_curve cfg W) as HW by apply public_key_on_curve.
  destruct (epoint_coords cfg W HW Hp) as [Bx By]. unfold sm2_encrypt_run.
  rewrite (bind_Some _ _ m _ m (bytes_to_big_32 _ _ _ Hx Bx)), (bind_Some _ _ m _ m (bytes_to_big_32 _ _ _ Hy By)).
  by rewrite epoint_set_get by (done || by apply mult_base_finite).
Qed.

Lemma sm2_encrypt_ok msg wx wy out draws j ms m :
  let L := length ms in
  is_bytes ms → Z.of_nat L + 96 < 2 ^ 31 → mread m msg L = Some ms →
  mread m wx 32 = Some (bytes32 (epoint_get W).1) → mread m wy 32 = Some (bytes32 (epoint_get W).2) →
  mvalid m out (96 + L) → pdisj out (96 + L) msg L → no_zero cfg W 1 draws → encrypt_draw cfg W L 1 draws = Some j →
  0 < j ∧ j mod n cfg ≠ 0 ∧ nonzero (ecurve_mult cfg j W) ∧ usable (stream cfg j W L) = true ∧
  ∃ m1, sm2_encrypt stack cfg msg (Z.of_nat L) wx 32 wy 32 out draws m = Some (Z.of_nat L + 96, m1) ∧
    mread m1 out (96 + L) = Some (sm2_ciphertext cfg j W ms) ∧ mframe [(out, 96 + L)%nat] m m1.
Proof.
  intros L Hb HL Hm Hx Hy Vo Hdj Hnz Hj. pose proof n_pos (cfg := cfg).
  pose proof (encrypt_loop_ok msg ms out draws 1 None None m) as Hloop. cbn zeta in Hloop. fold L in Hloop.
  rewrite Hj in Hloop. destruct Hloop as (J1 & J2 & J3 & J4 & m1 & E & R & F); [lia|rewrite Z.mod_small; lia|done..|].
  do 4 (split; [done|]). exists m1. split; [|done]. unfold sm2_encrypt.
  rewrite (bind_Some _ _ m (inr (Z.of_nat L + 96)) m1); [done|].
  by rewrite (sm2_encrypt_run_start msg (Z.of_nat L) wx wy out draws m Hx Hy).
Qed.

(** *** Decryption of a ciphertext of the standard *)

Lemma sm2_ciphertext_parts c j ms m :
  let L := length ms in
  mread m c (96 + L) = Some (sm2_ciphertext cfg j W ms) →
  mread m c 32 = Some (bytes32 (epoint_get (ecurve_mult cfg j (base cfg))).1) ∧
  mread m (padd c 32) 32 = Some (bytes32 (epoint_get (ecurve_mult cfg j (base cfg))).2) ∧
  mread m (padd c 64) L = Some (xor_list (stream cfg j W L) ms) ∧
  mread m (padd c (Z.of_nat (64 + L))) 32 = Some (Sm3Spec.hash ((shared cfg j W).1 ++ ms ++ (shared cfg j W).2)).
Proof.
  intros L Hc. unfold sm2_ciphertext in Hc. destruct (epoint_get (ecurve_mult cfg j (base cfg))) as [c1 c2].
  destruct (shared cfg j W) as [zl zr]. fold L in Hc. cbn [fst snd].
  assert (length (xor_list (stream cfg j W L) ms) = L) as Lx by (rewrite xor_list_length; apply kdf_stream_length).
  replace (96 + L)%nat with (32 + (32 + (L + 32)))%nat in Hc by lia.
  apply mread_split in Hc as (b1 & r1 & E1 & H1 & R1 & Hc). apply app_inj_1 in E1 as [<- <-]; [|by rewrite num_bytes_length].
  apply mread_split in Hc as (b2 & r2 & E2 & H2 & R2 & Hc). apply app_inj_1 in E2 as [<- <-]; [|by rewrite num_bytes_length].
  apply mread_split in Hc as (b3 & r3 & E3 & H3 & R3 & R4). apply app_inj_1 in E3 as [<- <-]; [|by rewrite Lx, H3].
  rewrite !padd_add in R3, R4. split; [done|]. split; [done|]. split; [done|].
  rewrite <- R4, padd_add. do 2 f_equal. lia.
Qed.

Lemma sm2_decrypt_ok c privkey out j ms m :
  let L := length ms in
  0 < j → j mod n cfg ≠ 0 → nonzero (ecurve_mult cfg j W) → usable (stream cfg j W L) = true → d < 2 ^ 256 →
  is_bytes ms → Z.of_nat L + 96 < 2 ^ 31 → mread m c (96 + L) = Some (sm2_ciphertext cfg j W ms) →
  mread m privkey 32 = Some (bytes32 d) → mvalid m out L → pdisj out L c (96 + L) →
  ∃ m', sm2_decrypt stack cfg c (Z.of_nat L + 96) privkey 32 out m = Some (Z.of_nat L, m') ∧
    mread m' out L = Some ms ∧ mframe [(out, L)] m m'.
Proof.
  intros L Hj Hjn HN Hu Hd2 Hb HL Hc Hk Hv Hdj.
  destruct (sm2_ciphertext_parts c j ms m Hc) as (R1 & R2 & R3 & R4). fold L in R3, R4.
  set (P := ecurve_mult cfg j (base cfg)) in *. assert (on_curve cfg P) as HP by apply mult_closed, eg_base.
  destruct (epoint_coords cfg P HP Hp) as [B1 B2].
  unfold sm2_decrypt. rewrite decide_False by lia. replace (Z.of_nat L + 96 - 96) with (Z.of_nat L) by lia.
  rewrite (bind_Some _ _ m d m (bytes_to_big_32 _ _ _ Hk ltac:(lia))).
  rewrite (bind_Some _ _ m _ m (bytes_to_big_32 _ _ _ R1 B1)), (bind_Some _ _ m _ m (bytes_to_big_32 _ _ _ R2 B2)).
  rewrite epoint_set_get by (done || by apply mult_finite). cbn [mbind]. unfold P. rewrite <- mult_public by done.
  destruct (nonzero_coords cfg (ecurve_mult cfg j W)) as [Bx By]; [apply mult_closed, public_key_on_curve|done|done|].
  rewrite (surjective_pairing (epoint_get (ecurve_mult cfg j W))).
  rewrite (local_big_ok _ None) by done. rewrite (local_big_ok _ None) by done.
  assert (shared cfg j W = (bytes32 (epoint_get (ecurve_mult cfg j W)).1, bytes32 (epoint_get (ecurve_mult cfg j W)).2)) as Hsh.
  { unfold shared. by destruct (epoint_get (ecurve_mult cfg j W)). }
  destruct (shared_bytes j W) as (L1 & L2 & Bz1 & Bz2). unfold stream in *. rewrite Hsh in *. cbn [fst snd] in *.
  set (zl := bytes32 (epoint_get (ecurve_mult cfg j W)).1) in *. set (zr := bytes32 (epoint_get (ecurve_mult cfg j W)).2) in *.
  destruct (kdf_ok H32 stack Hstack zl zr L out m) as (m1 & W1 & E1); [by apply List.Forall_app|by rewrite length_app, L1, L2|lia|done|].
  set (ks := kdf_stream (zl ++ zr) L) in *. assert (length ks = L) as Lk by apply kdf_stream_length.
  rewrite (bind_Some _ _ m _ m1 E1). unfold usable in Hu. rewrite Hu, decide_False by done. rewrite Nat2Z.id.
  assert (pdisj out L (padd c 64) L) as D64 by (apply pdisj_sym, (pdisj_sub c (96 + L) out L 64 L); [by apply pdisj_sym|lia]).
  assert (pdisj out L (padd c (Z.of_nat (64 + L))) 32) as D96 by (apply pdisj_sym, (pdisj_sub c (96 + L) out L (64 + L) 32); [by apply pdisj_sym|lia]).
  destruct (xor_loop_ok L out out (padd c 64) m1 ks (xor_list ks ms)) as (m2 & W2 & E2).
  { pose proof (mread_mwrite _ _ _ _ W1) as R. by rewrite Lk in R. }
  { rewrite (mread_mwrite_disj _ _ _ _ _ _ W1); [done|by rewrite Lk]. }
  { by apply (mvalid_mwrite_iff _ _ _ _ _ _ W1). }
  { by left. }
  { by right. }
  assert (xor_list ks (xor_list ks ms) = ms) as Hx.
  { rewrite (xor_list_comm ks ms). rewrite xor_list_comm. apply xor_list_involutive. by rewrite Lk. }
  rewrite Hx in W2. rewrite (bind_Some _ _ m1 tt m2 E2).
  assert (mread m2 out L = Some ms) as R by apply (mread_mwrite _ _ _ _ W2).
  rewrite (bind_Some _ _ m2 ms m2 (load_Some _ _ _ _ R)).
  rewrite sm3_digest_hash; [|done|done|apply List.Forall_app; split; [exact Bz1|apply List.Forall_app; by split]|rewrite !length_app, L1, L2; fold L; lia].
  replace (64 + Z.of_nat L) with (Z.of_nat (64 + L)) by lia.
  rewrite (bind_Some _ _ m2 (Sm3Spec.hash (zl ++ ms ++ zr)) m2).
  2: { apply load_Some. rewrite (mread_mwrite_disj _ _ _ _ _ _ W2) by done. rewrite (mread_mwrite_disj _ _ _ _ _ _ W1); [done|by rewrite Lk]. }
  rewrite decide_True by done. exists m2. split; [done|]. split; [done|].
  transitivity m1; [eapply mframe_mono; [by apply mwrite_mframe|]|eapply mframe_mono; [by apply mwrite_mframe|]].
  - rewrite Lk. apply covers_take with L; [by left|lia].
  - apply covers_take with L; [by left|done].
Qed.
End encrypt.

(** C5: [sm2_decrypt] gives back what [sm2_encrypt] was given, for every message that is not
    empty and every numbers drawn, several turns of the loop included, as long as no coordinate
    met is zero: the ciphertext is the one of the standard, 96 bytes longer than the message,
    and neither function touches anything but its output. *)
Theorem sm2_encrypt_roundtrip {tgt : Target} stack cfg `{!EllipticGroup cfg} msg wx wy out privkey plain m d ms draws j :
  let L := length ms in
  let W := ecurve_mult cfg d (base cfg) in
  ulong_bits = 32 → length (data stack) = 16%nat → p cfg <= 2 ^ 256 → 0 < d < n cfg → d < 2 ^ 256 →
  is_bytes ms → Z.of_nat L + 96 < 2 ^ 31 → mread m msg L = Some ms →
  mread m wx 32 = Some (bytes32 (epoint_get W).1) → mread m wy 32 = Some (bytes32 (epoint_get W).2) →
  mread m privkey 32 = Some (bytes32 d) → mvalid m out (96 + L) → mvalid m plain L →
  pdisj out (96 + L) msg L → pdisj out (96 + L) privkey 32 → pdisj plain L out (96 + L) →
  no_zero cfg W 1 draws → encrypt_draw cfg W L 1 draws = Some j →
  ∃ m1 m2, sm2_encrypt stack cfg msg (Z.of_nat L) wx 32 wy 32 out draws m = Some (Z.of_nat L + 96, m1) ∧
    mread m1 out (96 + L) = Some (sm2_ciphertext cfg j W ms) ∧ mframe [(out, 96 + L)%nat] m m1 ∧
    sm2_decrypt stack cfg out (Z.of_nat L + 96) privkey 32 plain m1 = Some (Z.of_nat L, m2) ∧
    mread m2 plain L = Some ms ∧ mframe [(plain, L)] m1 m2.
Proof.
  intros L W H32 Hs Hp Hd Hd2 Hb HL Hm Hx Hy Hk Vo Vp D1 D2 D3 Hnz Hj.
  destruct (sm2_encrypt_ok H32 stack Hs Hp d Hd msg wx wy out draws j ms m) as (J1 & J2 & J3 & J4 & m1 & E & R & F); [done..|].
  destruct (sm2_decrypt_ok H32 stack Hs Hp d Hd out privkey plain j ms m1) as (m2 & E2 & R2 & F2); [done|done|done|done|done|done|done|exact R| | |done|].
  { apply (apart_read m m1 _ _ _ _ F); [by apply apart_1|done]. }
  { by apply F. }
  by exists m1, m2.
Qed.

(** *** The empty message *)

Lemma kdf_empty {tgt : Target} stack zl zr q m : mvalid m q 0 → kdf stack zl zr 0 q m = Some (0, m).
Proof.
  intros Hv. destruct (mvalid_store m (padd q 0) []) as (m' & W & E); [by rewrite padd_0|].
  apply mwrite_nil in W as ->. unfold kdf, kdf_fill. rewrite (bind_Some _ _ m tt m).
  - rewrite (bind_Some _ _ m [] m); [done|]. by apply load_Some, mread_nil.
  - rewrite (bind_Some _ _ m tt m) by done. exact E.
Qed.

(** Any number of turns ends at the label again. *)
Lemma encrypt_loop_empty {tgt : Target} stack cfg `{!EllipticGroup cfg} (Hp : p cfg <= 2 ^ 256) d (Hd : 0 < d < n cfg)
    msg out draws : let W := ecurve_mult cfg d (base cfg) in ∀ j zl0 zr0 m,
  0 < j → j mod n cfg ≠ 0 → no_zero cfg W j draws → mvalid m out 64 →
  ∃ j' zl zr m', encrypt_loop stack cfg msg 0 out draws (ecurve_mult cfg j (base cfg), ecurve_mult cfg j W, zl0, zr0) m =
      Some (inl (ecurve_mult cfg j' (base cfg), ecurve_mult cfg j' W, zl, zr), m') ∧ 0 < j' ∧ mframe [(out, 64%nat)] m m'.
Proof.
  intros W. induction draws as [|dr draws IH]; intros j zl0 zr0 m Hj Hjn Hnz Hv; [by exists j, zl0, zr0, m|].
  cbn [encrypt_loop no_zero] in *. set (k := bigrand cfg dr) in *. pose proof n_pos (cfg := cfg) as Hn1.
  assert (0 <= k < n cfg) as Bk by (apply Z.mod_pos_bound; lia).
  case_decide as Hk; [by apply IH|]. destruct Hnz as (N1 & N2 & Hnz).
  assert (0 < k * j) as Hkj by nia.
  assert ((k * j) mod n cfg ≠ 0) as Hkjn by (apply mul_not_multiple; [done|rewrite Z.mod_small; lia]).
  assert (on_curve cfg W) as HW by apply public_key_on_curve.
  destruct (put_point_ok Hp (ecurve_mult cfg (k * j) (base cfg)) out m) as (m1 & m2 & E1 & E2 & W12);
    [apply mult_closed, eg_base|done|done|].
  destruct (nonzero_coords cfg (ecurve_mult cfg (k * j) W)) as [Bx By]; [by apply mult_closed|done|done|].
  set (zl := bytes32 (epoint_get (ecurve_mult cfg (k * j) W)).1). set (zr := bytes32 (epoint_get (ecurve_mult cfg (k * j) W)).2).
  assert (encrypt_turn stack cfg msg 0 out k (ecurve_mult cfg j (base cfg), ecurve_mult cfg j W, zl0, zr0) m =
    Some (inl (ecurve_mult cfg (k * j) (base cfg), ecurve_mult cfg (k * j) W, Some zl, Some zr), m2)) as Eturn.
  { unfold encrypt_turn. rewrite !(mult_step k j) by (done || lia || apply eg_base).
    rewrite (surjective_pairing (epoint_get (ecurve_mult cfg (k * j) (base cfg)))).
    rewrite (surjective_pairing (epoint_get (ecurve_mult cfg (k * j) W))).
    rewrite (bind_Some _ _ m 32 m1 E1), (bind_Some _ _ m1 32 m2 E2).
    destruct (mult_public_finite d Hd j Hj Hjn) as [wj Ew]. fold W in Ew. rewrite Ew, !local_big_ok by done.
    rewrite (bind_Some _ _ m2 0 m2); [done|]. apply kdf_empty.
    apply (mvalid_mwrite_iff _ _ _ _ _ _ W12). by apply (mvalid_sub m out 64 64 0); [|lia]. }
  rewrite (bind_Some _ _ m _ m2 Eturn). destruct (IH (k * j) (Some zl) (Some zr) m2) as (j' & zl' & zr' & m' & E & Hj' & F);
    [done|done|done|by apply (mvalid_mwrite_iff _ _ _ _ _ _ W12)|].
  exists j', zl', zr', m'. split; [exact E|]. split; [done|]. transitivity m2; [|done].
  eapply mframe_mono; [by apply mwrite_mframe|]. rewrite length_app, !num_bytes_length. by apply covers_take with 64%nat; [left|].
Qed.

(** C40: [sm2_encrypt] of an empty message for a valid public key is still running, at the label
    [sm2_encrypt_again], when any list of numbers has been drawn: there is no access that is
    undefined, no return and nothing written but the first 64 bytes of the output. The empty
    key stream counts as all zero and the function starts again. No coordinate met is
    zero (MIRACL writes nothing for a zero); with an invalid public key it returns -1. *)
Theorem sm2_encrypt_empty_loops {tgt : Target} stack cfg `{!EllipticGroup cfg} msg wx wy out m d draws :
  let W := ecurve_mult cfg d (base cfg) in
  p cfg <= 2 ^ 256 → 0 < d < n cfg → mvalid m out 64 →
  mread m wx 32 = Some (bytes32 (epoint_get W).1) → mread m wy 32 = Some (bytes32 (epoint_get W).2) →
  no_zero cfg W 1 draws →
  ∃ j zl zr m', sm2_encrypt_run stack cfg msg 0 wx 32 wy 32 out draws m =
      Some (inl (ecurve_mult cfg j (base cfg), ecurve_mult cfg j W, zl, zr), m') ∧
    0 < j ∧ mframe [(out, 64%nat)] m m'.
Proof.
  intros W Hp Hd Vo Hx Hy Hnz. pose proof n_pos (cfg := cfg).
  rewrite (sm2_encrypt_run_start stack Hp d Hd msg 0 wx wy out draws m Hx Hy).
  apply (encrypt_loop_empty stack cfg Hp d Hd); [lia|rewrite Z.mod_small; lia|done|done].
Qed.

(** ** The hash of the user *)

(** The parameters [sm3_z] hashes are the coefficients and the base point of the curve. *)
Lemma sm2_par_dig_curve :
  sm2_par_dig = bytes32 (a Ecc256) ++ bytes32 (b Ecc256) ++ bytes32 (x Ecc256) ++ bytes32 (y Ecc256).
Proof. reflexivity. Qed.

(** The value [Z] of the standard: length of the name in bits, name, curve, public key. *)
Definition user_hash (user xa ya : list Z) : list Z :=
  let bits := 8 * Z.of_nat (length user) in
  Sm3Spec.hash ([bits / 256; bits mod 256] ++ user ++ bytes32 (a Ecc256) ++ bytes32 (b Ecc256) ++
                bytes32 (x Ecc256) ++ bytes32 (y Ecc256) ++ xa ++ ya).

Lemma bitlen_bytes u : 0 <= u < 8192 →
  [Z.land (Z.shiftr (Z.shiftl u 3) 8) 255; Z.land (Z.shiftl u 3) 255] = [8 * u / 256; 8 * u mod 256].
Proof.
  intros Hu. rewrite Z.shiftl_mul_pow2, Z.shiftr_div_pow2 by lia. change 255 with (Z.ones 8). rewrite !Z.land_ones by lia.
  change (2 ^ 3) with 8. change (2 ^ 8) with 256. rewrite (Z.mul_comm u 8).
  rewrite (Z.mod_small (8 * u / 256)); [done|]. split; [apply Z.div_pos; lia|apply Z.div_lt_upper_bound; lia].
Qed.

Section user.
Context {tgt : Target} (H32 : ulong_bits = 32) (stack : SM3_CTX) (Hstack : length (data stack) = 16%nat).

(** The buffer of [sm3_z] is filled in, from the first byte to the last. *)
Lemma sm3_z_ok userid xa ya z m user xs ys :
  let u := length user in
  mread m userid u = Some user → mread m xa 32 = Some xs → mread m ya 32 = Some ys →
  is_bytes user → is_bytes xs → is_bytes ys → Z.of_nat u < 8192 → mvalid m z 32 →
  ∃ m', sm3_z stack userid (Z.of_nat u) xa 32 ya 32 z m = Some (0, m') ∧
    mread m' z 32 = Some (user_hash user xs ys) ∧ mframe [(z, 32%nat)] m m'.
Proof.
  intros u Hu Hx Hy Bu Bx By Hlen Hz. unfold sm3_z. rewrite decide_False by lia.
  set (N := (194 + u)%nat). replace (Z.to_nat (2 + Z.of_nat u + 128 + 32 + 32)) with N by lia.
  destruct (alloc_fresh m N) as (bl & Hb & Ea). set (m0 := <[bl := replicate N (None : cell)]> m) in *.
  rewrite (bind_Some _ _ m (Ptr bl 0) m0 Ea).
  assert (mvalid m0 (Ptr bl 0) N) as V0 by (rewrite <- (length_replicate N (None : cell)); apply mvalid_alloc).
  assert (∀ i k, 0 <= i → i + Z.of_nat k <= Z.of_nat N → mvalid m0 (padd (Ptr bl 0) i) k) as Vi.
  { intros i k Hi Hk. rewrite <- (Z2Nat.id i) by lia. apply (mvalid_sub m0 (Ptr bl 0) N); [done|lia]. }
  assert (mframe [] m m0) as F0 by by apply mframe_alloc.
  assert (∀ q k bs, mread m q k = Some bs → mread m0 q k = Some bs ∧ pdisj (Ptr bl 0) N q k) as Hold.
  { intros q k bs Hr. split; [by apply (apart_read m m0 _ _ _ _ F0); [apply Forall_nil_2|]|].
    apply (fresh_pdisj m); [done|]. by eapply mread_mvalid. }
  destruct (Hold _ _ _ Hu) as [Ru Du]. destruct (Hold _ _ _ Hx) as [Rx Dx]. destruct (Hold _ _ _ Hy) as [Ry Dy].
  pose proof (mread_length _ _ _ _ Hx) as Lx. pose proof (mread_length _ _ _ _ Hy) as Ly. fold u in Du, Ru.
  set (hi := Z.land (Z.shiftr (Z.shiftl (Z.of_nat u) 3) 8) 255). set (lo := Z.land (Z.shiftl (Z.of_nat u) 3) 255).
  destruct (mvalid_store m0 (Ptr bl 0) [hi]) as (m1 & W1 & E1); [apply (Vi 0); cbn; lia|].
  destruct (mvalid_store m1 (padd (Ptr bl 0) 1) [lo]) as (m2 & W2 & E2); [read_back; apply Vi; cbn; lia|].
  destruct (mvalid_store m2 (padd (Ptr bl 0) 2) user) as (m3 & W3 & E3); [read_back; apply Vi; lia|].
  destruct (mvalid_store m3 (padd (Ptr bl 0) (2 + Z.of_nat u)) sm2_par_dig) as (m4 & W4 & E4); [read_back; apply Vi; cbn; lia|].
  destruct (mvalid_store m4 (padd (Ptr bl 0) (2 + Z.of_nat u + 128)) (replicate 64 (wrap 8 0))) as (m5 & W5 & E5); [read_back; apply Vi; cbn; lia|].
  destruct (mvalid_store m5 (padd (Ptr bl 0) (2 + Z.of_nat u + 128 + 32 - 32)) xs) as (m6 & W6 & E6); [read_back; apply Vi; lia|].
  destruct (mvalid_store m6 (padd (Ptr bl 0) (2 + Z.of_nat u + 128 + 32 + 32 - 32)) ys) as (m7 & W7 & E7); [read_back; apply Vi; lia|].
  assert (length sm2_par_dig = 128%nat) as Lp by done. assert (length (replicate 64 (wrap 8 0)) = 64%nat) as L5 by done.
  assert (length [hi] = 1%nat) as L1 by done. assert (length [lo] = 1%nat) as L2 by done.
  assert (mread m2 userid u = Some user) as Ru2 by (read_back; exact Ru).
  assert (mread m5 xa 32 = Some xs) as Rx5 by (read_back; exact Rx).
  assert (mread m6 ya 32 = Some ys) as Ry6 by (read_back; exact Ry).
  set (whole := [hi] ++ [lo] ++ user ++ sm2_par_dig ++ xs ++ ys).
  assert (mread m7 (Ptr bl 0) N = Some whole) as Rb.
  { replace N with (1 + (1 + (u + (128 + (32 + 32)))))%nat by lia. unfold whole.
    repeat (apply mread_join; [|rewrite ?padd_add]).
    all: rewrite <- ?Nat2Z.inj_add.
    - read_back.
    - read_back.
    - replace (Z.of_nat (1 + 1)) with 2 by lia. read_back.
    - replace (Z.of_nat (1 + 1 + u)) with (2 + Z.of_nat u) by lia. read_back.
    - replace (Z.of_nat (1 + 1 + u + 128)) with (2 + Z.of_nat u + 128 + 32 - 32) by lia. read_back.
    - replace (Z.of_nat (1 + 1 + u + 128 + 32)) with (2 + Z.of_nat u + 128 + 32 + 32 - 32) by lia. read_back. }
  assert (is_bytes whole) as Bw.
  { unfold whole. repeat (apply List.Forall_app; split); try done.
    - constructor; [apply land_255_is_byte|constructor].
    - constructor; [apply land_255_is_byte|constructor].
    - rewrite sm2_par_dig_curve, !List.Forall_app. split_and!; apply num_bytes_is_bytes. }
  pose proof (mread_length _ _ _ _ Rb) as Lw.
  assert (Sm3Spec.hash whole = user_hash user xs ys) as Hwhole.
  { unfold whole, user_hash. fold u. rewrite sm2_par_dig_curve, <- !app_assoc. cbn [app].
    pose proof (bitlen_bytes (Z.of_nat u) ltac:(lia)) as Hbits. fold hi lo in Hbits. injection Hbits as -> ->. done. }
  assert (mvalid m0 z 32 ∧ pdisj (Ptr bl 0) N z 32) as [Vz Dz] by (split; [by apply F0|by apply (fresh_pdisj m)]).
  destruct (mvalid_store m7 z (Sm3Spec.hash whole)) as (m8 & W8 & E8); [read_back; exact Vz|].
  assert (mvalid m8 (Ptr bl 0) N) as (cells & Hbl & _) by (apply (mvalid_mwrite_iff _ _ _ _ _ _ W8); by eapply mread_mvalid).
  exists (delete bl m8). split; [|split].
  - rewrite (bind_Some _ _ m0 tt m1 E1), (bind_Some _ _ m1 tt m2 E2). rewrite Nat2Z.id.
    assert (memcpy (padd (Ptr bl 0) 2) userid u m2 = Some (tt, m3)) as M3 by (apply (memcpy_Some _ _ _ _ user); [solve_pdisj|done|done]).
    rewrite (bind_Some _ _ m2 tt m3 M3), (bind_Some _ _ m3 tt m4 E4). rewrite (bind_Some _ _ m4 tt m5) by exact E5.
    assert (memcpy (padd (Ptr bl 0) (2 + Z.of_nat u + 128 + 32 - 32)) xa 32 m5 = Some (tt, m6)) as M6 by (apply (memcpy_Some _ _ _ _ xs); [solve_pdisj|done|done]).
    assert (memcpy (padd (Ptr bl 0) (2 + Z.of_nat u + 128 + 32 + 32 - 32)) ya 32 m6 = Some (tt, m7)) as M7 by (apply (memcpy_Some _ _ _ _ ys); [solve_pdisj|done|done]).
    rewrite (bind_Some _ _ m5 tt m6 M6), (bind_Some _ _ m6 tt m7 M7).
    rewrite (bind_Some _ _ m7 tt m8).
    + rewrite (bind_Some _ _ m8 tt (delete bl m8)); [done|]. unfold dealloc. by rewrite Hbl.
    + unfold sm3. rewrite decide_False by lia. rewrite (bind_Some _ _ m7 whole m7 (load_Some _ _ _ _ Rb)).
      rewrite sm3_digest_hash; [exact E8|done|done|done|rewrite Lw; lia].
  - rewrite mread_delete by (destruct z; [done|]; by eapply mvalid_fresh_ne). rewrite <- Hwhole.
    pose proof (mread_mwrite _ _ _ _ W8) as R. by rewrite hash_length in R.
  - apply mframe_delete; [done|]. apply (mframe_local _ bl 0 N m m0 m8 Hb).
    + eapply mframe_mono; [exact F0|apply covers_nil].
    + pose proof (hash_length whole) as Lh. frame_back.
Qed.

Lemma Hold_alloc m bl N q k bs : m !! bl = None → mread m q k = Some bs →
  mread (<[bl := replicate N (None : cell)]> m) q k = Some bs ∧ pdisj (Ptr bl 0) N q k.
Proof.
  intros Hb Hr. pose proof (mframe_alloc [] m bl (replicate N (None : cell)) Hb) as F0.
  split; [by apply (apart_read _ _ _ _ _ _ F0); [apply Forall_nil_2|]|].
  apply (fresh_pdisj m); [done|]. by eapply mread_mvalid.
Qed.

(** The second half of [sm3_e]: the hash of the digest at [e] and the message, back at [e]. *)
Lemma sm3_e_rest_ok e m msg ms h :
  let k := length ms in
  mread m e 32 = Some h → mread m msg k = Some ms → is_bytes h → is_bytes ms → Z.of_nat k + 32 < 2 ^ 32 →
  ∃ m', (buf ← alloc (Z.to_nat (Z.of_nat k + 32));
         memcpy buf e 32;; memcpy (padd buf 32) msg (Z.to_nat (Z.of_nat k));;
         sm3 stack buf (Z.to_nat (32 + Z.of_nat k)) e;; dealloc buf;; mret 0) m = Some (0, m') ∧
    mread m' e 32 = Some (Sm3Spec.hash (h ++ ms)) ∧ mframe [(e, 32%nat)] m m'.
Proof.
  intros k He Hm Bh Bm Hk. set (N := (32 + k)%nat).
  replace (Z.to_nat (Z.of_nat k + 32)) with N by lia. replace (Z.to_nat (32 + Z.of_nat k)) with N by lia. rewrite Nat2Z.id.
  destruct (alloc_fresh m N) as (bl & Hb & Ea). set (m0 := <[bl := replicate N (None : cell)]> m) in *.
  rewrite (bind_Some _ _ m (Ptr bl 0) m0 Ea).
  assert (mvalid m0 (Ptr bl 0) N) as V0 by (rewrite <- (length_replicate N (None : cell)); apply mvalid_alloc).
  destruct (Hold_alloc m bl N _ _ _ Hb He) as [Re De]. destruct (Hold_alloc m bl N _ _ _ Hb Hm) as [Rm Dm]. fold m0 in Re, Rm.
  pose proof (mread_length _ _ _ _ He) as Lh. fold k in Dm, Rm.
  destruct (mvalid_store m0 (Ptr bl 0) h) as (m1 & W1 & E1); [rewrite Lh; by eapply mvalid_take; [exact V0|lia]|].
  destruct (mvalid_store m1 (padd (Ptr bl 0) 32) ms) as (m2 & W2 & E2); [read_back; apply (mvalid_sub m0 (Ptr bl 0) N 32); [done|lia]|].
  assert (mread m1 msg k = Some ms) as Rm1 by (read_back; exact Rm).
  assert (mread m2 (Ptr bl 0) N = Some (h ++ ms)) as Rb by (apply mread_join; read_back).
  assert (mvalid m2 e 32) as Ve by (read_back; by eapply mread_mvalid).
  destruct (mvalid_store m2 e (Sm3Spec.hash (h ++ ms))) as (m3 & W3 & E3); [exact Ve|].
  assert (mvalid m3 (Ptr bl 0) N) as (cells & Hbl & _) by (apply (mvalid_mwrite_iff _ _ _ _ _ _ W3); by eapply mread_mvalid).
  pose proof (hash_length (h ++ ms)) as Lw. exists (delete bl m3). split; [|split].
  - rewrite (bind_Some _ _ m0 tt m1) by (apply (memcpy_Some _ _ _ _ h); [clear - De; solve_pdisj|done|done]).
    rewrite (bind_Some _ _ m1 tt m2) by (apply (memcpy_Some _ _ _ _ ms); [solve_pdisj|done|done]).
    rewrite (bind_Some _ _ m2 tt m3).
    + rewrite (bind_Some _ _ m3 tt (delete bl m3)); [done|]. unfold dealloc. by rewrite Hbl.
    + unfold sm3. rewrite decide_False by lia. rewrite (bind_Some _ _ m2 _ m2 (load_Some _ _ _ _ Rb)).
      rewrite sm3_digest_hash; [exact E3|done|done|by apply List.Forall_app|rewrite length_app, Lh; fold k; lia].
  - rewrite mread_delete by (destruct e; [done|]; by eapply mvalid_fresh_ne, mread_mvalid).
    pose proof (mread_mwrite _ _ _ _ W3) as R. by rewrite Lw in R.
  - apply mframe_delete; [done|]. apply (mframe_local _ bl 0 N m m0 m3 Hb); [by apply mframe_alloc|frame_back].
Qed.
End user.


(** *** Stepping through code that ends undefined *)

Lemma bind_None {A B} (c : C A) (k : A → C B) m :
  (∀ a0 m', c m = Some (a0, m') → k a0 m' = None) → (v ← c; k v) m = None.
Proof. intros Hk. unfold mbind, C_bind. destruct (c m) as [[a0 m']|] eqn:E; [by apply Hk|done]. Qed.

(** The object [bl] is alive and has [N] bytes; storing does not change that. *)
Definition object (bl : positive) (N : nat) (m : mem) : Prop := ∃ cells, m !! bl = Some cells ∧ length cells = N.

Lemma object_store bl N q bs m t m' : object bl N m → store q bs m = Some (t, m') → object bl N m'.
Proof.
  intros (cells & Hc & Hl). unfold store, mwrite. destruct q as [|b' o]; [done|].
  destruct (m !! b') as [cells'|] eqn:Hb'; cbn [mbind option_bind]; [|done]. case_decide as Hr; [|done]. intros [= _ <-].
  destruct (decide (b' = bl)) as [->|Hne].
  - rewrite Hb' in Hc. injection Hc as ->. eexists. rewrite lookup_insert_eq. split; [done|].
    unfold in_range in Hr. rewrite splice_length; [done|]. rewrite length_fmap. lia.
  - exists cells. by rewrite lookup_insert_ne.
Qed.

Lemma object_memcpy bl N q src k m t m' : object bl N m → memcpy q src k m = Some (t, m') → object bl N m'.
Proof.
  intros Ho (bs & _ & W)%memcpy_inv. apply (object_store bl N q bs m tt m' Ho). by apply store_Some.
Qed.

Lemma memcpy_overrun bl N o src k m : object bl N m → Z.of_nat N < o + Z.of_nat k → memcpy (Ptr bl o) src k m = None.
Proof.
  intros (cells & Hc & Hl) Ho. destruct (memcpy _ _ _ _) as [[t m']|] eqn:E; [exfalso|done]. apply memcpy_inv in E as (bs & Hr & W).
  apply mread_length in Hr. apply mwrite_mvalid in W as (cells' & Hc' & Hin). unfold in_range in Hin.
  rewrite Hc in Hc'. injection Hc' as <-. lia.
Qed.

(** A second coordinate said to have fewer than 32 bytes makes [sm3_z], and so [sm3_e],
    write past the end of its buffer: it copies 32 bytes all the same. *)
Theorem sm3_z_short_overflow {tgt : Target} stack userid uid_len xa xa_len ya ya_len z m :
  0 <= uid_len → xa_len <= 32 → ya_len < 32 →
  sm3_z stack userid uid_len xa xa_len ya ya_len z m = None ∧
  ∀ msg msg_len, sm3_e stack userid uid_len xa xa_len ya ya_len msg msg_len z m = None.
Proof.
  intros Hu Hx Hy. assert (sm3_z stack userid uid_len xa xa_len ya ya_len z m = None) as H.
  { unfold sm3_z. rewrite decide_False by lia.
    destruct (alloc_fresh m (Z.to_nat (2 + uid_len + 128 + 32 + 32))) as (bl & Hb & E).
    rewrite (bind_Some _ _ m _ _ E). clear E.
    assert (object bl (Z.to_nat (2 + uid_len + 128 + 32 + 32)) (<[bl := replicate (Z.to_nat (2 + uid_len + 128 + 32 + 32)) None]> m)) as Ho.
    { eexists. rewrite lookup_insert_eq. split; [done|]. apply length_replicate. }
    revert Ho. generalize (<[bl := replicate (Z.to_nat (2 + uid_len + 128 + 32 + 32)) None]> m). intros m0 Ho.
    do 2 (apply bind_None; intros ? ? Ho'%(object_store _ _ _ _ _ _ _ Ho); clear Ho; rename Ho' into Ho).
    apply bind_None; intros ? ? Ho'%(object_memcpy _ _ _ _ _ _ _ _ Ho); clear Ho; rename Ho' into Ho.
    do 2 (apply bind_None; intros ? ? Ho'%(object_store _ _ _ _ _ _ _ Ho); clear Ho; rename Ho' into Ho).
    apply bind_None; intros ? ? Ho'%(object_memcpy _ _ _ _ _ _ _ _ Ho); clear Ho; rename Ho' into Ho.
    apply bind_None; intros ? ? E. cbn [padd] in E. rewrite (memcpy_overrun bl _ _ _ _ _ Ho) in E; [done|lia]. }
  split; [done|]. intros msg msg_len. unfold sm3_e. apply bind_None. intros r m' E. congruence.
Qed.

(** ** Concrete instances *)

(** Objects of a memory, one per list. *)
Definition sm2_mem (objects : list (list cell)) : mem :=
  list_to_map (imap (λ i cells, (Pos.of_succ_nat i, cells)) objects).
Definition number (v : Z) : list cell := Some <$> bytes32 v.
Definition room (k : nat) : list cell := replicate k None.

(** The private key 2 of the small curve, and its public key. *)
Definition small_public : epoint := ecurve_mult small_curve 2 (base small_curve).
Definition small_wx := number (epoint_get small_public).1.
Definition small_wy := number (epoint_get small_public).2.

Definition sign_mem : mem := sm2_mem [number 1; number 2; room 32; room 4; room 32; room 4; small_wx; small_wy].

Lemma sm2_sign_verify_witness :
  ∃ m', sm2_sign small_curve (Ptr 1 0) 32 (Ptr 2 0) 32 (Ptr 3 0) (Ptr 4 0) (Ptr 5 0) (Ptr 6 0) [4] sign_mem = Some (tt, m') ∧
    mread m' (Ptr 3 0) 32 = Some (bytes32 5) ∧
    sm2_verify small_curve (Ptr 1 0) 32 (Ptr 3 0) 32 (Ptr 5 0) 32 (Ptr 7 0) 32 (Ptr 8 0) 32 m' = Some (1, m').
Proof.
  destruct (sm2_sign_verify small_curve (Ptr 1 0) (Ptr 2 0) (Ptr 3 0) (Ptr 4 0) (Ptr 5 0) (Ptr 6 0) (Ptr 7 0) (Ptr 8 0)
    sign_mem 1 2 4 [] (Some (4, 5)) 5 9) as (m' & E & R & _ & _ & V & _);
    [done|done|done|done|done|decide_by_compute..|].
  exists m'. split; [exact E|]. split; [exact R|exact V].
Defined.

(** The first number drawn, 3, does not serve; with the second, 1, the signature is refused. *)
Lemma sm2_sign_retry_verify_witness :
  (sign_step small_curve 1 2 3 (base small_curve)).2 = None ∧
  ∃ m', sm2_sign small_curve (Ptr 1 0) 32 (Ptr 2 0) 32 (Ptr 3 0) (Ptr 4 0) (Ptr 5 0) (Ptr 6 0) [3; 1] sign_mem = Some (tt, m') ∧
    sm2_verify small_curve (Ptr 1 0) 32 (Ptr 3 0) 32 (Ptr 5 0) 32 (Ptr 7 0) 32 (Ptr 8 0) 32 m' = Some (0, m').
Proof.
  split; [done|].
  destruct (sm2_sign_retry_verify small_curve (Ptr 1 0) (Ptr 2 0) (Ptr 3 0) (Ptr 4 0) (Ptr 5 0) (Ptr 6 0) (Ptr 7 0) (Ptr 8 0)
    sign_mem 1 2 [3; 1] 3 1) as (s & m' & E & _ & _ & _ & _ & _ & V);
    [done|done|done|done|done|decide_by_compute..|].
  exists m'. split; [exact E|exact V].
Defined.

(** The message "abc" encrypted with the numbers 0 and 4: the first is thrown away. *)
Definition encrypt_mem : mem := sm2_mem [Some <$> abc; small_wx; small_wy; room 99; number 2; room 3].

Lemma sm2_encrypt_roundtrip_witness :
  ∃ m1 m2, @sm2_encrypt LLP64_x86 example_stack small_curve (Ptr 1 0) 3 (Ptr 2 0) 32 (Ptr 3 0) 32 (Ptr 4 0) [0; 4] encrypt_mem
      = Some (99, m1) ∧
    @sm2_decrypt LLP64_x86 example_stack small_curve (Ptr 4 0) 99 (Ptr 5 0) 32 (Ptr 6 0) m1 = Some (3, m2) ∧
    mread m2 (Ptr 6 0) 3 = Some abc.
Proof.
  destruct (@sm2_encrypt_roundtrip LLP64_x86 example_stack small_curve _ (Ptr 1 0) (Ptr 2 0) (Ptr 3 0) (Ptr 4 0) (Ptr 5 0)
    (Ptr 6 0) encrypt_mem 2 abc [0; 4] 4) as (m1 & m2 & E & _ & _ & D & R & _);
    [done|done|done|done|done|decide_by_compute..|].
  exists m1, m2. split; [exact E|]. split; [exact D|exact R].
Defined.

(** A memory with room for the two coordinates only. *)
Definition empty_mem : mem := sm2_mem [[]; small_wx; small_wy; room 64].

Lemma sm2_encrypt_empty_loops_witness :
  ∃ vars m', @sm2_encrypt_run LP64_x86 example_stack small_curve (Ptr 1 0) 0 (Ptr 2 0) 32 (Ptr 3 0) 32 (Ptr 4 0) [4; 3; 5] empty_mem
      = Some (inl vars, m') ∧ mframe [(Ptr 4 0, 64%nat)] empty_mem m'.
Proof.
  destruct (@sm2_encrypt_empty_loops LP64_x86 example_stack small_curve _ (Ptr 1 0) (Ptr 2 0) (Ptr 3 0) (Ptr 4 0) empty_mem 2
    [4; 3; 5]) as (j & zl & zr & m' & E & _ & F); [done|done|decide_by_compute..|].
  eexists _, m'. split; [exact E|exact F].
Defined.

(** The example of the standard for a name, a key and a message. *)
Definition alice : list Z := [0x31; 0x32; 0x33; 0x34; 0x35; 0x36; 0x37; 0x38; 0x31; 0x32; 0x33; 0x34; 0x35; 0x36; 0x37; 0x38].
Definition alice_x : Z := 0x09F9DF311E5421A150DD7D161E4BC5C672179FAD1833FC076BB08FF356F35020.
Definition alice_y : Z := 0xCCEA490CE26775A52DC6EA718CC1AA600AED05FBF35E084A6632F6072DA9AD13.
Definition alice_msg : list Z := [0x6d; 0x65; 0x73; 0x73; 0x61; 0x67; 0x65; 0x20; 0x64; 0x69; 0x67; 0x65; 0x73; 0x74].
Definition alice_mem : mem := sm2_mem [Some <$> alice; number alice_x; number alice_y; Some <$> alice_msg; room 32].

Example alice_hash :
  Sm3Spec.hash (user_hash alice (bytes32 alice_x) (bytes32 alice_y) ++ alice_msg) =
  bytes32 0xF0B43E94BA45ACCAACE692ED534382EB17E6AB5A19CE7B31F4486FDFC0D28640.
Proof. vm_compute. reflexivity. Qed.


Lemma sm3_z_short_overflow_witness :
  @sm3_z LLP64_x86 example_stack (Ptr 1 0) 16 (Ptr 2 0) 32 (Ptr 3 0) 31 (Ptr 5 0) alice_mem = None.
Proof. apply (@sm3_z_short_overflow LLP64_x86 example_stack (Ptr 1 0) 16 (Ptr 2 0) 32 (Ptr 3 0) 31 (Ptr 5 0) alice_mem); lia. Defined.
