(* ===== verification/Sm2Key.v ===== *)
(** * Sm2Key: the key agreement of [src/sm2/sm2.c]

    The initiator calls [sm2_keyagreement_a1_3], the receiver [sm2_keyagreement_b1_9], the
    initiator [sm2_keyagreement_a4_10] and the receiver [sm2_keyagreement_b10]; the random
    numbers stay with their owner, encrypted by [enrand] under the key [enkey]. The arrays
    [za] and [zb], and those the AES works on, are objects of the memory; the others are
    values, as in [Sm2]. [aes_stack] is what the local structure of the AES happens to hold. *)

From S2P Require Import Prelude Mem Own Target ModeSpec Sm3 Aes MirAes Curve Sm2.

Definition enkey : list Z := [
  0xB1;0x6B;0xA0;0xDA;0x27;0xC5;0x24;0x9A;0xF6;0x1D;0x6E;0x6E;0x12;0xD1;0x59;0xA5;
  0xB6;0x74;0x64;0x34;0xEB;0xD6;0x1B;0x62;0xEA;0xEB;0xC3;0xCC;0x31;0x5E;0x42;0x1D].

(** A local array that was never written ends the program when it is read. *)
Definition defined {A} (o : option A) : C A := λ m, (λ x, (x, m)) <$> o.

Section Sm2Key.
Context {tgt : Target} (stack : SM3_CTX) (aes_stack : aes) (cfg : FPECC).

(** ** The random numbers at rest *)

(** [for (i = 0; i < rlen; i += 16)], for the [turns] that are left. *)
Fixpoint rand_loop (step : aes → list Z → Z * aes * list Z) (turns : nat) (a : aes) (r : ptr) : C unit :=
  match turns with
  | O => mret tt
  | S turns => b ← load r 16; let '(_, a, c) := step a b in store r c;; rand_loop step turns a (padd r 16)
  end.
Definition turns (rlen : Z) : nat := Z.to_nat ((rlen + 15) / 16).

Definition rand_aes : bool * aes := aes_init aes_stack MR_ECB 16 (take 16 enkey) (Some (take 16 enkey)).

Definition enrand (r : ptr) (rlen : Z) : C Z :=
  if rand_aes.1 then rand_loop aes_encrypt (turns rlen) rand_aes.2 r;; mret 0 else mret 0.
Definition derand (r : ptr) (rlen : Z) : C Z :=
  if rand_aes.1 then rand_loop aes_decrypt (turns rlen) rand_aes.2 r;; mret 0 else mret 0.

(** ** Steps the functions share *)

(** [do bigrand(n, k); while (k->len == 0)] *)
Fixpoint draw_key (draws : list Z) : option big :=
  match draws with
  | [] => None
  | d :: draws => if decide (bigrand cfg d = 0) then draw_key draws else Some (bigrand cfg d)
  end.

(** [memcpy(buf, kbuf + 16, 16); buf[0] |= 0x80; bytes_to_big(16, buf)] *)
Definition half (kbuf : list Z) : big :=
  let buf := take 16 (drop 16 kbuf) in be_num (<[0%nat := Z.lor (buf !!! 0%nat) 0x80]> buf).

(** [mad(h, k, d, n, n)] *)
Definition mad (h k d : big) : big := (h * k + d) mod n cfg.

(** [ecurve_mult(h, g, g); ecurve_add(w, g); ecurve_mult(t, g, g)] *)
Definition key_point (t h : big) (g w : epoint) : epoint := ecurve_mult cfg t (ecurve_add cfg (ecurve_mult cfg h g) w).

(** The bytes that the values for the confirmation hash. *)
Definition confirm_inner (x za zb x1 y1 x2 y2 : list Z) : list Z := x ++ za ++ zb ++ x1 ++ y1 ++ x2 ++ y2.
Definition confirm_outer (tag : Z) (y h : list Z) : list Z := tag :: y ++ h.

(** ** The initiator: a temporary key *)

Definition sm2_keyagreement_a1_3 (kx1 kx1len ky1 ky1len ra ralen : ptr) (draws : list Z) : C unit :=
  k ← defined (draw_key draws);
  let '(x1, y1) := epoint_get (ecurve_mult cfg k (base cfg)) in
  l ← big_to_bytes x1 kx1; store_int kx1len l;;
  l ← big_to_bytes y1 ky1; store_int ky1len l;;
  l ← big_to_bytes k ra; store_int ralen l;;
  enrand ra l;; mret tt.

(** ** The receiver: a temporary key, the agreed key and the value that confirms it *)

(** [if (v != NULL) { memcpy(v, buf, 32); *vlen = 32; enrand(v, *vlen); }] *)
Definition keep_secret (v vlen : ptr) (buf : list Z) : C unit :=
  if decide (v = Null) then mret tt else store v buf;; store_int vlen 32;; enrand v 32;; mret tt.

(** What the function writes once the point is known. *)
Definition b1_outputs (za zb : ptr) (g : epoint) (kx1buf ky1buf kx2buf ky2buf : list Z) (kblen : Z)
    (kbbuf xv xvlen yv yvlen sb : ptr) : C Z :=
  let '(x, y) := epoint_get g in
  xvbuf ← defined (local_big x None);
  yvbuf ← defined (local_big y None);
  zabuf ← load za 32;
  zbbuf ← load zb 32;
  kdf_key stack (xvbuf ++ yvbuf ++ zabuf ++ zbbuf) kblen kbbuf;;
  (if decide (sb = Null) then mret tt
   else sm3_buf stack (confirm_inner xvbuf zabuf zbbuf kx1buf ky1buf kx2buf ky2buf) sb;;
        h ← load sb 32;
        sm3_buf stack (confirm_outer 2 yvbuf h) sb);;
  keep_secret xv xvlen xvbuf;;
  keep_secret yv yvlen yvbuf;;
  mret 1.

Definition sm2_keyagreement_b1_9 (kx1 : ptr) (kx1len : Z) (ky1 : ptr) (ky1len : Z)
    (pax : ptr) (paxlen : Z) (pay : ptr) (paylen : Z) (private_b : ptr) (private_b_len : Z)
    (pbx : ptr) (pbxlen : Z) (pby : ptr) (pbylen : Z) (ida : ptr) (idalen : Z) (idb : ptr) (idblen : Z)
    (kblen : Z) (kbbuf kx2 kx2len ky2 ky2len xv xvlen yv yvlen sb : ptr) (draws : list Z) : C Z :=
  local 32 (λ za, local 32 (λ zb,
    sm3_z stack ida idalen pax paxlen pay paylen za;;
    sm3_z stack idb idblen pbx pbxlen pby pbylen zb;;
    k ← defined (draw_key draws);
    let '(x2, y2) := epoint_get (ecurve_mult cfg k (base cfg)) in
    kx2buf ← defined (local_big x2 None);
    ky2buf ← defined (local_big y2 None);
    store kx2 kx2buf;; store ky2 ky2buf;; store_int kx2len 32;; store_int ky2len 32;;
    db ← bytes_to_big private_b_len private_b;
    let tb := mad (half kx2buf) k db in
    x1 ← bytes_to_big kx1len kx1;
    y1 ← bytes_to_big ky1len ky1;
    match epoint_set cfg x1 y1 with
    | None => mret 0
    | Some g =>
        kx1buf ← defined (local_big x1 None);
        ky1buf ← defined (local_big y1 None);
        x ← bytes_to_big paxlen pax;
        y ← bytes_to_big paylen pay;
        defined (local_big x (Some []));;
        defined (local_big y (Some []));;
        match epoint_set cfg x y with
        | None => mret 0
        | Some w =>
            let g := key_point tb (half kx1buf) g w in
            if decide (g = None) then mret 0
            else b1_outputs za zb g kx1buf ky1buf kx2buf ky2buf kblen kbbuf xv xvlen yv yvlen sb
        end
    end)).

(** ** The initiator: the agreed key and the values that confirm it *)

(** [memcpy(buf, r, rlen); derand(buf, rlen); bytes_to_big(rlen, buf)] *)
Definition recall_secret (buf r : ptr) (rlen : Z) : C big :=
  memcpy buf r (Z.to_nat rlen);; derand buf rlen;; bytes_to_big rlen buf.

Definition a4_outputs (za zb : ptr) (g : epoint) (kx1buf ky1buf kx2buf ky2buf : list Z) (kalen : Z) (kabuf s1 sa : ptr) : C Z :=
  let '(x, y) := epoint_get g in
  xubuf ← defined (local_big x None);
  yubuf ← defined (local_big y None);
  zabuf ← load za 32;
  zbbuf ← load zb 32;
  kdf_key stack (xubuf ++ yubuf ++ zabuf ++ zbbuf) kalen kabuf;;
  let hash := sm3_digest stack (confirm_inner xubuf zabuf zbbuf kx1buf ky1buf kx2buf ky2buf) in
  (if decide (s1 = Null) then mret tt else sm3_buf stack (confirm_outer 2 yubuf hash) s1);;
  (if decide (sa = Null) then mret tt else sm3_buf stack (confirm_outer 3 yubuf hash) sa);;
  mret 1.

Definition sm2_keyagreement_a4_10 (kx1 : ptr) (kx1len : Z) (ky1 : ptr) (ky1len : Z)
    (pax : ptr) (paxlen : Z) (pay : ptr) (paylen : Z) (private_a : ptr) (private_a_len : Z)
    (pbx : ptr) (pbxlen : Z) (pby : ptr) (pbylen : Z) (ida : ptr) (idalen : Z) (idb : ptr) (idblen : Z)
    (kx2 : ptr) (kx2len : Z) (ky2 : ptr) (ky2len : Z) (ra : ptr) (ralen : Z)
    (kalen : Z) (kabuf s1 sa : ptr) : C Z :=
  local 256 (λ buf, local 32 (λ za, local 32 (λ zb,
    sm3_z stack ida idalen pax paxlen pay paylen za;;
    sm3_z stack idb idblen pbx pbxlen pby pbylen zb;;
    x1 ← bytes_to_big kx1len kx1;
    y1 ← bytes_to_big ky1len ky1;
    match epoint_set cfg x1 y1 with
    | None => mret 0
    | Some _ =>
        kx1buf ← defined (local_big x1 None);
        ky1buf ← defined (local_big y1 None);
        da ← bytes_to_big private_a_len private_a;
        k ← recall_secret buf ra ralen;
        let ta := mad (half kx1buf) k da in
        x2 ← bytes_to_big kx2len kx2;
        y2 ← bytes_to_big ky2len ky2;
        match epoint_set cfg x2 y2 with
        | None => mret 0
        | Some g =>
            kx2buf ← defined (local_big x2 None);
            ky2buf ← defined (local_big y2 None);
            x ← bytes_to_big pbxlen pbx;
            y ← bytes_to_big pbylen pby;
            match epoint_set cfg x y with
            | None => mret 0
            | Some w =>
                let g := key_point ta (half kx2buf) g w in
                if decide (g = None) then mret 0
                else a4_outputs za zb g kx1buf ky1buf kx2buf ky2buf kalen kabuf s1 sa
            end
        end
    end))).

(** ** The receiver: the value that confirms the initiator's *)

Definition assemble_inner (buf za zb : ptr) (x3 x1 y1 x2 y2 : big) : C Z :=
  big_to_bytes x3 buf;;
  memcpy (padd buf 32) za 32;;
  memcpy (padd buf 64) zb 32;;
  big_to_bytes x1 (padd buf 96);;
  big_to_bytes y1 (padd buf 128);;
  big_to_bytes x2 (padd buf 160);;
  big_to_bytes y2 (padd buf 192).

Definition assemble_outer (buf : ptr) (y3 : big) (s2 : ptr) : C unit :=
  store buf [3];;
  big_to_bytes y3 (padd buf 1);;
  memcpy (padd buf 33) s2 32.

Definition sm2_keyagreement_b10 (pax : ptr) (paxlen : Z) (pay : ptr) (paylen : Z)
    (pbx : ptr) (pbxlen : Z) (pby : ptr) (pbylen : Z) (kx1 : ptr) (kx1len : Z) (ky1 : ptr) (ky1len : Z)
    (kx2 : ptr) (kx2len : Z) (ky2 : ptr) (ky2len : Z) (xv : ptr) (xvlen : Z) (yv : ptr) (yvlen : Z)
    (ida : ptr) (idalen : Z) (idb : ptr) (idblen : Z) (s2 : ptr) : C unit :=
  local 256 (λ buf, local 32 (λ za, local 32 (λ zb,
    sm3_z stack ida idalen pax paxlen pay paylen za;;
    sm3_z stack idb idblen pbx pbxlen pby pbylen zb;;
    x1 ← bytes_to_big kx1len kx1;
    y1 ← bytes_to_big ky1len ky1;
    x2 ← bytes_to_big kx2len kx2;
    y2 ← bytes_to_big ky2len ky2;
    x3 ← recall_secret buf xv xvlen;
    y3 ← recall_secret buf yv yvlen;
    assemble_inner buf za zb x3 x1 y1 x2 y2;;
    sm3 stack buf 224 s2;;
    assemble_outer buf y3 s2;;
    sm3 stack buf 65 s2;;
    mret tt))).
End Sm2Key.

(** ** Steps *)

Lemma wp_defined {A} (o : option A) x m (Q : A → mem → Prop) : o = Some x → Q x m → wp (defined o) m Q.
Proof. intros -> H. by exists x, m. Qed.

(** *** Secrets at rest *)

Section rest.
Context {tgt : Target} (aes_stack : aes) (Haes : aes_arrays aes_stack).

Lemma rand_key : is_key 4 (take 16 enkey).
Proof. decide_by_compute. Qed.

(** Each half of a secret is a block. *)
Definition sealed (bs : list Z) : list Z := blockwise (aes_ecb_encrypt (rand_aes aes_stack).2) 16 bs.

Lemma rand_aes_ok : (rand_aes aes_stack).1 = true ∧ mode (rand_aes aes_stack).2 = MR_ECB ∧
  BlockCipher (aes_ecb_encrypt (rand_aes aes_stack).2) (aes_ecb_decrypt (rand_aes aes_stack).2).
Proof.
  destruct (aes_init_crypt 4 (take 16 enkey) aes_stack MR_ECB (Some (take 16 enkey)) rand_key Haes) as (a & E & Hm & _).
  pose proof (aes_init_cipher 4 (take 16 enkey) aes_stack MR_ECB (Some (take 16 enkey)) a rand_key Haes E) as HC.
  unfold rand_aes. change 16 with (4 * Z.of_nat 4). rewrite E. done.
Qed.

Lemma rand_loop_ok step E n a : (∀ b, length b = 16%nat → ∃ w, step a b = (w, a, E b)) → (∀ b, length b = 16%nat → length (E b) = 16%nat) →
  ∀ r m bs, mread m r (16 * n) = Some bs →
  ∃ m', rand_loop step n a r m = Some (tt, m') ∧ mread m' r (16 * n) = Some (blockwise E 16 bs) ∧ mframe [(r, 16 * n)%nat] m m'.
Proof.
  intros Hstep HE. induction n as [|n IH]; intros r m bs Hr.
  - exists m. pose proof (mread_length _ _ _ _ Hr) as Hl. apply length_zero_iff_nil in Hl as ->. done.
  - pose proof (mread_length _ _ _ _ Hr) as Hl. pose proof (mread_mvalid _ _ _ _ Hr) as Hv.
    replace (16 * S n)%nat with (16 + 16 * n)%nat in * by lia.
    apply mread_split in Hr as (b & k & -> & Hlb & Hb & Hk). destruct (Hstep b Hlb) as [w Ew].
    assert (mvalid m r (length (E b))) as V by (rewrite HE by done; eapply mvalid_take; [exact Hv|lia]).
    destruct (mvalid_store _ _ _ V) as (m1 & W1 & E1).
    assert (mread m1 (padd r 16) (16 * n) = Some k) as Hk1.
    { rewrite (mread_mwrite_disj _ _ _ _ _ _ W1); [done|]. rewrite HE by done. apply (pdisj_next r 16 16). lia. }
    destruct (IH _ _ _ Hk1) as (m2 & E2 & R2 & F2). exists m2. split; [|split].
    + cbn [rand_loop]. rewrite (bind_Some _ _ m b m (load_Some _ _ _ _ Hb)).
      rewrite Ew. by rewrite (bind_Some _ _ m tt m1 E1).
    + rewrite blockwise_cons by (done || lia). apply mread_join; [|done]. rewrite (mframe_read _ _ _ F2).
      * rewrite <- (HE b Hlb). by apply (mread_mwrite m).
      * apply (mvalid_mwrite_iff _ _ _ _ _ _ W1). eapply mvalid_take; [exact Hv|lia].
      * apply apart_1, pdisj_sym, (pdisj_next r 16 16). lia.
    + transitivity m1; [eapply mframe_mono; [by apply mwrite_mframe|]|eapply mframe_mono; [exact F2|]].
      * rewrite HE by done. eapply covers_take; [by left|lia].
      * apply (covers_sub _ r (16 + 16 * n) 16 (16 * n)); [by left|lia].
Qed.

Lemma enrand_ok r m bs : mread m r 32 = Some bs →
  ∃ m', enrand aes_stack r 32 m = Some (0, m') ∧ mread m' r 32 = Some (sealed bs) ∧ mframe [(r, 32%nat)] m m'.
Proof.
  intros Hr. destruct rand_aes_ok as (H1 & Hm & HC).
  destruct (rand_loop_ok aes_encrypt (aes_ecb_encrypt (rand_aes aes_stack).2) 2 (rand_aes aes_stack).2) with (r := r) (m := m) (bs := bs)
    as (m' & E & R & F); [|intros; apply (block_length (E := aes_ecb_encrypt (rand_aes aes_stack).2))|done|].
  - intros b Hb. exists 0. unfold aes_encrypt. rewrite decide_True by done. unfold in_place. rewrite take_ge, drop_ge, app_nil_r by lia. done.
  - exists m'. split; [|done]. unfold enrand. rewrite H1. change (turns 32) with 2%nat. by rewrite (bind_Some _ _ m tt m' E).
Qed.

Lemma derand_ok r m bs : mread m r 32 = Some (sealed bs) → length bs = 32%nat → is_bytes bs →
  ∃ m', derand aes_stack r 32 m = Some (0, m') ∧ mread m' r 32 = Some bs ∧ mframe [(r, 32%nat)] m m'.
Proof.
  intros Hr Hl Hb. destruct rand_aes_ok as (H1 & Hm & HC).
  assert (∀ b, length (aes_ecb_decrypt (rand_aes aes_stack).2 b) = 16%nat) as HD by (intros; apply crypt_block_shape).
  destruct (rand_loop_ok aes_decrypt (aes_ecb_decrypt (rand_aes aes_stack).2) 2 (rand_aes aes_stack).2) with (r := r) (m := m) (bs := sealed bs)
    as (m' & E & R & F); [|done|done|].
  - intros b Hlb. exists 0. unfold aes_decrypt. rewrite decide_True by done. unfold in_place. rewrite take_ge, drop_ge, app_nil_r by lia. done.
  - exists m'. split; [|split; [|done]].
    + unfold derand. rewrite H1. change (turns 32) with 2%nat. by rewrite (bind_Some _ _ m tt m' E).
    + unfold sealed in R. rewrite (blockwise_inverse (aes_ecb_encrypt (rand_aes aes_stack).2) _ 16 2) in R; [done|lia| |done|lia].
      intros b Hlb Hbb. split; [apply (block_length (E := aes_ecb_encrypt (rand_aes aes_stack).2))|].
      by apply (block_inverse (E := aes_ecb_encrypt (rand_aes aes_stack).2)).
Qed.

Lemma sealed_length bs : length bs = 32%nat → length (sealed bs) = 32%nat.
Proof.
  intros Hl. destruct rand_aes_ok as (_ & _ & HC). unfold sealed. rewrite (blockwise_length _ 16 2); [done|lia| |lia].
  intros. apply (block_length (E := aes_ecb_encrypt (rand_aes aes_stack).2)).
Qed.
End rest.

(** *** Half of a coordinate *)

Lemma be_num_mod k v : be_num (num_bytes k v) = v mod 256 ^ Z.of_nat k.
Proof.
  revert v. induction k as [|k IH]; intros v; [by rewrite Z.mod_1_r|]. cbn [num_bytes].
  rewrite be_num_app, IH, Nat2Z.inj_succ, Z.pow_succ_r, Z.rem_mul_r by lia. lia.
Qed.

Lemma be_num_cons c l : be_num (c :: l) = c * 256 ^ Z.of_nat (length l) + be_num l.
Proof.
  induction l as [|x l IH] using rev_ind; [cbn; lia|]. rewrite app_comm_cons, !be_num_app, IH, length_app, Nat2Z.inj_add, Z.pow_add_r by lia.
  cbn [length]. lia.
Qed.

Lemma top_bit c : is_byte c → Z.lor c 0x80 = 128 + c mod 128.
Proof. revert c. apply byte_forall. decide_by_compute. Qed.

Lemma half_weight v : half (bytes32 v) = 2 ^ 127 + v mod 2 ^ 127.
Proof.
  unfold half. change 32%nat with (16 + 16)%nat. rewrite num_bytes_app, drop_app_length' by by rewrite num_bytes_length.
  rewrite take_ge by (by rewrite num_bytes_length). change 16%nat with (1 + 15)%nat. rewrite num_bytes_app.
  change (num_bytes 1 (v / 256 ^ Z.of_nat 15)) with [(v / 256 ^ Z.of_nat 15) mod 256]. set (c := (v / 256 ^ Z.of_nat 15) mod 256).
  change (be_num (Z.lor c 0x80 :: num_bytes 15 v) = 2 ^ 127 + v mod 2 ^ 127).
  rewrite be_num_cons, num_bytes_length, be_num_mod, top_bit by (apply Z.mod_pos_bound; lia).
  change (2 ^ 127) with (256 ^ Z.of_nat 15 * 128). rewrite (Z.rem_mul_r v) by lia.
  assert (c mod 128 = v / 256 ^ Z.of_nat 15 mod 128) as -> by (unfold c; rewrite <- Znumtheory.Zmod_div_mod; [done|lia|lia|by exists 2]). lia.
Qed.

#[local] Opaque num_bytes Sm3Spec.hash.

(** ** What the standard computes *)

Section spec.
Context (cfg : FPECC).
Definition coords (P : epoint) : list Z * list Z := (bytes32 (epoint_get P).1, bytes32 (epoint_get P).2).

(** A coordinate reduced to half its size, as the standard does with [w = 127]. *)
Definition weight (v : Z) : Z := 2 ^ 127 + v mod 2 ^ 127.

(** The exponent of a party: its private key [d], and its random number [k] weighed by its temporary key. *)
Definition exponent (k d : Z) : Z := (weight (epoint_get (ecurve_mult cfg k (base cfg))).1 * k + d) mod n cfg.

(** The point both reach. *)
Definition meeting (ka da kb db : Z) : epoint := ecurve_mult cfg (exponent ka da * exponent kb db) (base cfg).

Definition agreed_key (U : epoint) (za zb : list Z) (klen : nat) : list Z :=
  kdf_stream ((coords U).1 ++ (coords U).2 ++ za ++ zb) klen.
Definition inner_hash (U RA RB : epoint) (za zb : list Z) : list Z :=
  Sm3Spec.hash (confirm_inner (coords U).1 za zb (coords RA).1 (coords RA).2 (coords RB).1 (coords RB).2).
Definition confirmation (tag : Z) (U RA RB : epoint) (za zb : list Z) : list Z :=
  Sm3Spec.hash (confirm_outer tag (coords U).2 (inner_hash U RA RB za zb)).
End spec.

Section agreement.
Context {tgt : Target} (H32 : ulong_bits = 32) (stack : SM3_CTX) (Hstack : length (data stack) = 16%nat).
Context (aes_stack : aes) (Haes : aes_arrays aes_stack).
Context {cfg : FPECC} `{!EllipticGroup cfg} (Hp : p cfg <= 2 ^ 256) (Hn : n cfg <= 2 ^ 256).

Lemma coords_bytes P : length (coords P).1 = 32%nat ∧ length (coords P).2 = 32%nat ∧ is_bytes (coords P).1 ∧ is_bytes (coords P).2.
Proof. unfold coords. cbn [fst snd]. rewrite !num_bytes_length. do 2 (split; [done|]). split; apply num_bytes_is_bytes. Qed.

Lemma draw_key_bound draws k : draw_key cfg draws = Some k → 0 < k < n cfg.
Proof.
  pose proof n_pos (cfg := cfg) as Hn1. induction draws as [|d draws IH]; [done|]. cbn [draw_key]. case_decide as Hd; [done|].
  intros [= <-]. unfold bigrand in *. pose proof (Z.mod_pos_bound d (n cfg) ltac:(lia)). lia.
Qed.

Section steps.
Context (m0 : mem) (F : regions) (W : list entry) (R : list (ptr * list Z)) (m : mem) (Hst : st m0 F W R m).

Lemma wp_big q v Q : (q, bytes32 v) ∈ R → 0 <= v < 2 ^ 256 → Q v m → wp (bytes_to_big 32 q) m Q.
Proof.
  intros Hin Hv HQ. eapply wp_step; [apply bytes_to_big_32; [|done]|done].
  rewrite <- (num_bytes_length 32 v) at 1. by apply (st_input m0 F W R m).
Qed.

Lemma wp_put i q x v (Q : Z → mem → Prop) : W !! i = Some (Entry q 32 x) → 0 < v < 2 ^ 256 →
  (∀ m', st m0 F (<[i := known q 32 (bytes32 v)]> W) R m' → Q 32 m') → wp (big_to_bytes v q) m Q.
Proof.
  intros Hi Hv HQ. eapply (wp_call m0 F); [done|done| |done]. intros V. destruct (big_to_bytes_ok v q m Hv V) as (m' & Hw & E).
  exists m'. pose proof (num_bytes_length 32 v) as Hl. split; [done|]. split; [rewrite <- Hl at 1; by apply (mread_mwrite m)|].
  rewrite <- Hl. by apply mwrite_mframe.
Qed.

Lemma wp_store_int i q x v (Q : unit → mem → Prop) : W !! i = Some (Entry q 4 x) →
  (∀ m', st m0 F (<[i := known q 4 (le_bytes 4 v)]> W) R m' → Q tt m') → wp (store_int q v) m Q.
Proof. intros Hi HQ. by apply (wp_store m0 F W R m i q 4 x (le_bytes 4 v)); [|done|apply le_bytes_length|]. Qed.

Lemma wp_sm3_buf i q x buf (Q : unit → mem → Prop) : W !! i = Some (Entry q 32 x) → is_bytes buf → Z.of_nat (length buf) < 2 ^ 32 →
  (∀ m', st m0 F (<[i := known q 32 (Sm3Spec.hash buf)]> W) R m' → Q tt m') → wp (sm3_buf stack buf q) m Q.
Proof.
  intros Hi Hb Hl HQ. eapply (wp_call m0 F); [done|done| |done]. intros V.
  destruct (sm3_buf_ok H32 stack Hstack buf q m Hb Hl V) as (m' & Hw & E). exists m'. split; [done|].
  pose proof (mread_mwrite _ _ _ _ Hw) as Hr. pose proof (mwrite_mframe _ _ _ _ Hw) as Hf. by rewrite hash_length in *.
Qed.

Lemma wp_kdf i q x z klen (Q : Z → mem → Prop) : W !! i = Some (Entry q klen x) → is_bytes z → Z.of_nat (length z) < 2 ^ 16 →
  Z.of_nat klen < 2 ^ 31 → (∀ m', st m0 F (<[i := known q klen (kdf_stream z klen)]> W) R m' → Q 1 m') →
  wp (kdf_key stack z (Z.of_nat klen) q) m Q.
Proof.
  intros Hi Hz Hl Hk HQ. eapply (wp_call m0 F); [done|done| |done]. intros V.
  destruct (kdf_fill_ok H32 stack Hstack z klen q m Hz Hl Hk V) as (m' & Hw & E). exists m'.
  pose proof (mread_mwrite _ _ _ _ Hw) as Hr. pose proof (mwrite_mframe _ _ _ _ Hw) as Hf. rewrite kdf_stream_length in *.
  split; [|done]. unfold kdf_key. by rewrite (bind_Some _ _ m tt m' E).
Qed.

Lemma wp_user i z x userid xa ya user P (Q : Z → mem → Prop) : W !! i = Some (Entry z 32 x) →
  (userid, user) ∈ R → (xa, (coords P).1) ∈ R → (ya, (coords P).2) ∈ R → is_bytes user → Z.of_nat (length user) < 8192 →
  (∀ m', st m0 F (<[i := known z 32 (user_hash user (coords P).1 (coords P).2)]> W) R m' → Q 0 m') →
  wp (sm3_z stack userid (Z.of_nat (length user)) xa 32 ya 32 z) m Q.
Proof.
  intros Hi Hu Hx Hy Hb Hl HQ. destruct (coords_bytes P) as (L1 & L2 & B1 & B2). eapply (wp_call m0 F); [done|done| |done]. intros V.
  apply (sm3_z_ok H32 stack Hstack); [by apply (st_input m0 F W R m)| | |done..]; [rewrite <- L1 at 1|rewrite <- L2 at 1];
    by apply (st_input m0 F W R m).
Qed.

Lemma wp_enrand i q bs (Q : Z → mem → Prop) : W !! i = Some (known q 32 bs) →
  (∀ m', st m0 F (<[i := known q 32 (sealed aes_stack bs)]> W) R m' → Q 0 m') → wp (enrand aes_stack q 32) m Q.
Proof.
  intros Hi HQ. eapply (wp_call m0 F); [done|done| |done]. intros V. apply (enrand_ok aes_stack Haes).
  exact (st_entry m0 F W R m i _ Hst Hi).
Qed.
End steps.

(** ** Keys *)

Definition pub (k : Z) : epoint := ecurve_mult cfg k (base cfg).

Lemma pub_on_curve k : on_curve cfg (pub k).
Proof. apply mult_closed, eg_base. Qed.

Lemma pub_set k : nonzero (pub k) → epoint_set cfg (epoint_get (pub k)).1 (epoint_get (pub k)).2 = Some (pub k).
Proof.
  intros [Hx _]. apply epoint_set_get; [apply pub_on_curve|]. destruct (pub k); [eauto|done].
Qed.

Lemma pub_coords k : 0 <= (epoint_get (pub k)).1 < 2 ^ 256 ∧ 0 <= (epoint_get (pub k)).2 < 2 ^ 256.
Proof. apply (epoint_coords cfg); [apply pub_on_curve|done]. Qed.

(** *** The initiator's temporary key *)

Definition a1_written (kx1 kx1len ky1 ky1len ra ralen : ptr) (k : Z) : list entry :=
  [known kx1 32 (coords (pub k)).1; known kx1len 4 (le_bytes 4 32); known ky1 32 (coords (pub k)).2;
   known ky1len 4 (le_bytes 4 32); known ra 32 (sealed aes_stack (bytes32 k)); known ralen 4 (le_bytes 4 32)].

Lemma a1_3_ok kx1 kx1len ky1 ky1len ra ralen draws k m0 F R m :
  draw_key cfg draws = Some k → nonzero (pub k) →
  st m0 F [space kx1 32; space kx1len 4; space ky1 32; space ky1len 4; space ra 32; space ralen 4] R m →
  wp (sm2_keyagreement_a1_3 aes_stack cfg kx1 kx1len ky1 ky1len ra ralen draws) m
    (λ _ m', st m0 F (a1_written kx1 kx1len ky1 ky1len ra ralen k) R m').
Proof.
  intros Hk Hnz Hst. pose proof (draw_key_bound _ _ Hk) as Bk. destruct (nonzero_coords cfg (pub k) (pub_on_curve k) Hp Hnz) as [Bx By].
  unfold sm2_keyagreement_a1_3. apply wp_bind, (wp_defined _ k); [done|]. fold (pub k). rewrite (surjective_pairing (epoint_get (pub k))).
  apply wp_bind. apply (wp_put m0 F _ R m Hst 0 kx1 None _ _ eq_refl Bx). intros m1 H1. cbn [insert list_insert] in H1.
  apply wp_bind. apply (wp_store_int m0 F _ R m1 H1 1 kx1len None _ _ eq_refl). intros m2 H2. cbn [insert list_insert] in H2.
  apply wp_bind. apply (wp_put m0 F _ R m2 H2 2 ky1 None _ _ eq_refl By). intros m3 H3. cbn [insert list_insert] in H3.
  apply wp_bind. apply (wp_store_int m0 F _ R m3 H3 3 ky1len None _ _ eq_refl). intros m4 H4. cbn [insert list_insert] in H4.
  apply wp_bind. apply (wp_put m0 F _ R m4 H4 4 ra None _ _ eq_refl); [lia|]. intros m5 H5. cbn [insert list_insert] in H5.
  apply wp_bind. apply (wp_store_int m0 F _ R m5 H5 5 ralen None _ _ eq_refl). intros m6 H6. cbn [insert list_insert] in H6.
  apply wp_bind. apply (wp_enrand m0 F _ R m6 H6 4 ra _ _ eq_refl). intros m7 H7. cbn [insert list_insert] in H7.
  by apply wp_ret.
Qed.

(** *** The point both reach *)

Lemma half_pos buf : is_bytes buf → 0 <= half buf.
Proof.
  intros Hb. unfold half. apply be_num_bound. assert (is_bytes (take 16 (drop 16 buf))) as H by by apply Forall_take, Forall_drop.
  apply Forall_insert; [done|]. apply is_word_lor; [done|by apply bytes_lookup_total|done].
Qed.

Lemma exponent_half k d : mad cfg (half (coords (pub k)).1) k d = exponent cfg k d.
Proof. unfold mad, coords. cbn [fst]. by rewrite half_weight. Qed.

Lemma exponent_pos k d : 0 <= exponent cfg k d.
Proof. apply Z.mod_pos_bound. pose proof n_pos (cfg := cfg). lia. Qed.

Lemma key_point_meeting k d k' d' : 0 < k' → 0 < d' →
  key_point cfg (exponent cfg k d) (half (coords (pub k')).1) (pub k') (pub d') = meeting cfg k d k' d'.
Proof.
  intros Hk Hd. destruct (coords_bytes (pub k')) as (_ & _ & Hb & _). pose proof (half_pos _ Hb) as Hh. pose proof (exponent_pos k d) as He.
  pose proof (exponent_pos k' d') as He'. set (h := half (coords (pub k')).1) in *.
  assert (exponent cfg k' d' = (h * k' + d') mod n cfg) as E by (by rewrite <- exponent_half). unfold key_point, meeting. clearbody h. unfold pub.
  rewrite <- mult_mul, <- mult_add by (lia || nia || apply eg_base).
  rewrite <- (mult_base_mod (h * k' + d')) by nia. rewrite <- E. by rewrite mult_mul by (lia || apply eg_base).
Qed.

Lemma meeting_sym k d k' d' : meeting cfg k d k' d' = meeting cfg k' d' k d.
Proof. unfold meeting. by rewrite Z.mul_comm. Qed.

Lemma nonzero_finite P : nonzero P → P ≠ None.
Proof. intros [H _] ->. done. Qed.

(** The inputs both sides read: temporary and long-term public keys, names. *)
Record parties := { qax : ptr; qay : ptr; qbx : ptr; qby : ptr; qida : ptr; qidb : ptr }.

Section sides.
Context (da db : Z) (Hda : 0 < da < n cfg) (Hdb : 0 < db < n cfg) (ida idb : list Z).
Context (Hida : is_bytes ida) (Hidb : is_bytes idb) (Lida : Z.of_nat (length ida) < 8192) (Lidb : Z.of_nat (length idb) < 8192).
Context (q : parties) (klen : nat) (Hklen : Z.of_nat klen < 2 ^ 31).

Definition za_hash : list Z := user_hash ida (coords (pub da)).1 (coords (pub da)).2.
Definition zb_hash : list Z := user_hash idb (coords (pub db)).1 (coords (pub db)).2.

Definition public_inputs : list (ptr * list Z) :=
  [(qax q, (coords (pub da)).1); (qay q, (coords (pub da)).2); (qbx q, (coords (pub db)).1); (qby q, (coords (pub db)).2);
   (qida q, ida); (qidb q, idb)].

Lemma in_inputs (R : list (ptr * list Z)) x : public_inputs ⊆ R → x ∈ public_inputs → x ∈ R.
Proof. intros Hs Hx. by apply Hs. Qed.

Ltac input := apply in_inputs; [assumption|unfold public_inputs; member].

Lemma hash_input_bytes P x1 x2 : is_bytes x1 → is_bytes x2 → length x1 = 32%nat → length x2 = 32%nat →
  is_bytes ((coords P).1 ++ (coords P).2 ++ x1 ++ x2) ∧ Z.of_nat (length ((coords P).1 ++ (coords P).2 ++ x1 ++ x2)) < 2 ^ 16.
Proof.
  intros B1 B2 L1 L2. destruct (coords_bytes P) as (Lx & Ly & Bx & By). rewrite !List.Forall_app, !length_app. split; [done|]. lia.
Qed.

Lemma user_hash_shape u xa ya : is_bytes (user_hash u xa ya) ∧ length (user_hash u xa ya) = 32%nat.
Proof. split; [apply hash_bytes|apply hash_length]. Qed.

Lemma inner_bytes U A B x1 x2 : is_bytes x1 → is_bytes x2 → length x1 = 32%nat → length x2 = 32%nat →
  let b := confirm_inner (coords U).1 x1 x2 (coords A).1 (coords A).2 (coords B).1 (coords B).2 in
  is_bytes b ∧ Z.of_nat (length b) < 2 ^ 32 ∧ length b = 224%nat.
Proof.
  intros B1 B2 L1 L2 b. destruct (coords_bytes U) as (Lx & Ly & Bx & By), (coords_bytes A) as (LA & LA' & BA & BA'), (coords_bytes B) as (LB & LB' & BB & BB').
  unfold b, confirm_inner. rewrite !List.Forall_app, !length_app. split; [done|]. lia.
Qed.

Lemma outer_bytes tag U h : is_byte tag → is_bytes h → length h = 32%nat →
  is_bytes (confirm_outer tag (coords U).2 h) ∧ Z.of_nat (length (confirm_outer tag (coords U).2 h)) < 2 ^ 32.
Proof.
  intros Ht Hh Lh. destruct (coords_bytes U) as (Lx & Ly & Bx & By). unfold confirm_outer. split.
  - constructor; [done|]. by apply List.Forall_app.
  - cbn [length]. rewrite length_app. lia.
Qed.

(** *** The receiver *)

Definition b1_space (kbbuf kx2 kx2len ky2 ky2len xv xvlen yv yvlen sb : ptr) : list entry :=
  [space kbbuf klen; space kx2 32; space kx2len 4; space ky2 32; space ky2len 4; space xv 32; space xvlen 4;
   space yv 32; space yvlen 4; space sb 32].
Definition b1_written (kbbuf kx2 kx2len ky2 ky2len xv xvlen yv yvlen sb : ptr) (ka kb : Z) : list entry :=
  let U := meeting cfg ka da kb db in
  [known kbbuf klen (agreed_key U za_hash zb_hash klen);
   known kx2 32 (coords (pub kb)).1; known kx2len 4 (le_bytes 4 32); known ky2 32 (coords (pub kb)).2; known ky2len 4 (le_bytes 4 32);
   known xv 32 (sealed aes_stack (coords U).1); known xvlen 4 (le_bytes 4 32);
   known yv 32 (sealed aes_stack (coords U).2); known yvlen 4 (le_bytes 4 32);
   known sb 32 (confirmation 2 U (pub ka) (pub kb) za_hash zb_hash)].

Lemma wp_keep_secret m0 F W R m (Hst : st m0 F W R m) i j v vlen x y buf (Q : unit → mem → Prop) :
  W !! i = Some (Entry v 32 x) → W !! j = Some (Entry vlen 4 y) → i ≠ j → length buf = 32%nat →
  (∀ m', st m0 F (<[i := known v 32 (sealed aes_stack buf)]> (<[j := known vlen 4 (le_bytes 4 32)]> W)) R m' → Q tt m') →
  wp (keep_secret aes_stack v vlen buf) m Q.
Proof.
  intros Hi Hj Hne Hl HQ. unfold keep_secret.
  assert (v ≠ Null) as Hv by (pose proof (entry_ok_valid _ _ (st_entry m0 F W R m i _ Hst Hi)) as V; by intros ->).
  rewrite decide_False by done. apply wp_bind. apply (wp_store m0 F W R m i v 32 x buf _ Hst Hi Hl). intros m1 H1.
  pose proof (lookup_lt_Some _ _ _ Hi) as Li. apply wp_bind.
  apply (wp_store_int m0 F _ R m1 H1 j vlen y); [rewrite list_lookup_insert_ne; done|]. intros m2 H2.
  apply wp_bind. apply (wp_enrand m0 F _ R m2 H2 i v buf).
  { rewrite list_lookup_insert_ne by done. by apply list_lookup_insert_eq. }
  intros m3 H3. apply wp_ret, HQ. rewrite (list_insert_insert_ne _ j i) in H3 by done. by rewrite list_insert_insert_eq in H3.
Qed.

Lemma za_shape : is_bytes za_hash ∧ length za_hash = 32%nat.
Proof. apply user_hash_shape. Qed.
Lemma zb_shape : is_bytes zb_hash ∧ length zb_hash = 32%nat.
Proof. apply user_hash_shape. Qed.


Lemma local_big_some v old : 0 <= v < 2 ^ 256 → ∃ bs, local_big v (Some old) = Some bs.
Proof. intros Hv. unfold local_big. case_decide; [eauto|]. rewrite decide_True by lia. eauto. Qed.

Lemma pub_set_key d : 0 < d < n cfg → epoint_set cfg (epoint_get (pub d)).1 (epoint_get (pub d)).2 = Some (pub d).
Proof. intros Hd. apply epoint_set_get; [apply pub_on_curve|by apply mult_base_finite]. Qed.

(** The receiver, once the point is known. *)
Lemma b1_outputs_ok za zb kbbuf kx2 kx2len ky2 ky2len xv xvlen yv yvlen sb ka kb m0 F R m8 :
  let U := meeting cfg ka da kb db in
  nonzero U →
  st m0 F (known zb 32 zb_hash :: known za 32 za_hash ::
    [space kbbuf klen; known kx2 32 (coords (pub kb)).1; known kx2len 4 (le_bytes 4 32); known ky2 32 (coords (pub kb)).2;
     known ky2len 4 (le_bytes 4 32); space xv 32; space xvlen 4; space yv 32; space yvlen 4; space sb 32]) R m8 →
  wp (b1_outputs stack aes_stack za zb U (coords (pub ka)).1 (coords (pub ka)).2 (coords (pub kb)).1 (coords (pub kb)).2
       (Z.of_nat klen) kbbuf xv xvlen yv yvlen sb) m8
    (λ r m', r = 1 ∧ st m0 F (known zb 32 zb_hash :: known za 32 za_hash ::
      b1_written kbbuf kx2 kx2len ky2 ky2len xv xvlen yv yvlen sb ka kb) R m').
Proof.
  intros U NU H8. assert (on_curve cfg U) as HU by apply mult_closed, eg_base.
  destruct (nonzero_coords cfg U HU Hp NU) as [Bux Buy], (coords_bytes U) as (LUx & LUy & BUx & BUy), za_shape as [BZA LZA], zb_shape as [BZB LZB].
  unfold b1_outputs.
  rewrite (surjective_pairing (epoint_get U)).
  apply wp_bind, (wp_defined _ (coords U).1); [by apply local_big_ok|].
  apply wp_bind, (wp_defined _ (coords U).2); [by apply local_big_ok|].
  apply wp_bind. apply (wp_load m0 F _ R m8 1 za 32 za_hash _ H8 eq_refl).
  apply wp_bind. apply (wp_load m0 F _ R m8 0 zb 32 zb_hash _ H8 eq_refl).
  destruct (hash_input_bytes U za_hash zb_hash) as [Bk Lk]; [done..|].
  apply wp_bind. apply (wp_kdf m0 F _ R m8 H8 2 kbbuf None _ klen _ eq_refl Bk Lk Hklen). wrote m9 H9 H8.
  fold (agreed_key U za_hash zb_hash klen) in H9.
  destruct (inner_bytes U (pub ka) (pub kb) za_hash zb_hash) as (Bi & Li & _); [done..|].
  assert (sb ≠ Null) as Hsb by (pose proof (entry_ok_valid _ _ (st_entry m0 F _ R m9 11 _ H9 eq_refl)) as V; by intros ->).
  rewrite (decide_False (P := sb = Null)) by done.
  apply wp_bind, wp_bind. apply (wp_sm3_buf m0 F _ R m9 H9 11 sb None _ _ eq_refl Bi Li). wrote m10 H10 H9.
  fold (inner_hash U (pub ka) (pub kb) za_hash zb_hash) in H10.
  apply wp_bind. apply (wp_load m0 F _ R m10 11 sb 32 _ _ H10 eq_refl).
  destruct (outer_bytes 2 U (inner_hash U (pub ka) (pub kb) za_hash zb_hash)) as [Bo Lo]; [done|apply hash_bytes|apply hash_length|].
  apply (wp_sm3_buf m0 F _ R m10 H10 11 sb _ _ _ eq_refl Bo Lo). wrote m11 H11 H10.
  fold (confirmation 2 U (pub ka) (pub kb) za_hash zb_hash) in H11.
  apply wp_bind. apply (wp_keep_secret m0 F _ R m11 H11 7 8 xv xvlen None None _ _ eq_refl eq_refl); [done|done|]. wrote m12 H12 H11.
  apply wp_bind. apply (wp_keep_secret m0 F _ R m12 H12 9 10 yv yvlen None None _ _ eq_refl eq_refl); [done|done|]. wrote m13 H13 H12.
  by apply wp_ret.
Qed.

(** The receiver, given the initiator's temporary public key. *)
Lemma b1_9_ok kx1 ky1 private_b kbbuf kx2 kx2len ky2 ky2len xv xvlen yv yvlen sb draws ka kb m0 F R m :
  let U := meeting cfg ka da kb db in
  0 < ka < n cfg → draw_key cfg draws = Some kb → nonzero (pub ka) → nonzero (pub kb) → nonzero U →
  st m0 F (b1_space kbbuf kx2 kx2len ky2 ky2len xv xvlen yv yvlen sb) R m →
  public_inputs ⊆ R → (kx1, (coords (pub ka)).1) ∈ R → (ky1, (coords (pub ka)).2) ∈ R → (private_b, bytes32 db) ∈ R →
  wp (sm2_keyagreement_b1_9 stack aes_stack cfg kx1 32 ky1 32 (qax q) 32 (qay q) 32 private_b 32 (qbx q) 32 (qby q) 32
       (qida q) (Z.of_nat (length ida)) (qidb q) (Z.of_nat (length idb)) (Z.of_nat klen)
       kbbuf kx2 kx2len ky2 ky2len xv xvlen yv yvlen sb draws) m
    (λ r m', r = 1 ∧ st m0 F (b1_written kbbuf kx2 kx2len ky2 ky2len xv xvlen yv yvlen sb ka kb) R m').
Proof.
  intros U Bka Hkb Na Nb NU Hst HR I1 I2 I3. pose proof (draw_key_bound _ _ Hkb) as Bkb.
  destruct (nonzero_coords cfg (pub kb) (pub_on_curve kb) Hp Nb) as [Bx2 By2], (nonzero_coords cfg (pub ka) (pub_on_curve ka) Hp Na) as [Bx1 By1],
    (pub_coords da) as [Bax Bay], (coords_bytes (pub kb)) as (Lx2 & Ly2 & _ & _).
  unfold sm2_keyagreement_b1_9.
  eapply (wp_local m0 F 32 _ _ (b1_written kbbuf kx2 kx2len ky2 ky2len xv xvlen yv yvlen sb ka kb)); [exact Hst|done|]. clear Hst.
  intros za m1 H1. eapply (wp_local m0 F 32 _ _ (known za 32 za_hash :: b1_written kbbuf kx2 kx2len ky2 ky2len xv xvlen yv yvlen sb ka kb)); [exact H1|done|].
  clear H1. intros zb m2 H2. unfold b1_space in H2.
  apply wp_bind. apply (wp_user m0 F _ R m2 H2 1 za None (qida q) (qax q) (qay q) ida (pub da) _ eq_refl); [input|input|input|done|done|].
  wrote m3 H3 H2. fold za_hash in H3.
  apply wp_bind. apply (wp_user m0 F _ R m3 H3 0 zb None (qidb q) (qbx q) (qby q) idb (pub db) _ eq_refl); [input|input|input|done|done|].
  wrote m4 H4 H3. fold zb_hash in H4.
  apply wp_bind, (wp_defined _ kb); [done|]. fold (pub kb). rewrite (surjective_pairing (epoint_get (pub kb))).
  apply wp_bind, (wp_defined _ (coords (pub kb)).1); [by apply local_big_ok|].
  apply wp_bind, (wp_defined _ (coords (pub kb)).2); [by apply local_big_ok|].
  apply wp_bind. apply (wp_store m0 F _ R m4 3 kx2 32 None _ _ H4 eq_refl Lx2). wrote m5 H5 H4.
  apply wp_bind. apply (wp_store m0 F _ R m5 5 ky2 32 None _ _ H5 eq_refl Ly2). wrote m6 H6 H5.
  apply wp_bind. apply (wp_store_int m0 F _ R m6 H6 4 kx2len None _ _ eq_refl). wrote m7 H7 H6.
  apply wp_bind. apply (wp_store_int m0 F _ R m7 H7 6 ky2len None _ _ eq_refl). wrote m8 H8 H7.
  apply wp_bind. apply (wp_big m0 F _ R m8 H8 private_b db); [done|lia|].
  rewrite exponent_half.
  apply wp_bind. apply (wp_big m0 F _ R m8 H8 kx1 (epoint_get (pub ka)).1); [done|lia|].
  apply wp_bind. apply (wp_big m0 F _ R m8 H8 ky1 (epoint_get (pub ka)).2); [done|lia|].
  rewrite (pub_set ka Na).
  apply wp_bind, (wp_defined _ (coords (pub ka)).1); [by apply local_big_ok|].
  apply wp_bind, (wp_defined _ (coords (pub ka)).2); [by apply local_big_ok|].
  apply wp_bind. apply (wp_big m0 F _ R m8 H8 (qax q) (epoint_get (pub da)).1); [input|lia|].
  apply wp_bind. apply (wp_big m0 F _ R m8 H8 (qay q) (epoint_get (pub da)).2); [input|lia|].
  destruct (local_big_some (epoint_get (pub da)).1 []) as [? Ex]; [lia|]. destruct (local_big_some (epoint_get (pub da)).2 []) as [? Ey]; [lia|].
  apply wp_bind, (wp_defined _ _ _ _ Ex). apply wp_bind, (wp_defined _ _ _ _ Ey). clear Ex Ey.
  rewrite (pub_set_key da Hda).
  rewrite (key_point_meeting kb db ka da), (meeting_sym kb db ka da) by lia. fold U. rewrite decide_False by (by apply nonzero_finite).
  apply (wp_mono _ _ (λ r m', r = 1 ∧ st m0 F (known zb 32 zb_hash :: known za 32 za_hash ::
    b1_written kbbuf kx2 kx2len ky2 ky2len xv xvlen yv yvlen sb ka kb) R m')).
  { exact (b1_outputs_ok za zb kbbuf kx2 kx2len ky2 ky2len xv xvlen yv yvlen sb ka kb m0 F R m8 NU H8). }
  intros r m13 [-> H13].
  split; [exists 32%nat, (Some zb_hash), []; exact H13|]. intros m14 H14.
  split; [exists 32%nat, (Some za_hash), []; exact H14|]. intros m15 H15. split; [done|exact H15].
Qed.

(** *** The initiator *)

Lemma wp_recall m0 F W R m (Hst : st m0 F W R m) i buf x r v (Q : Z → mem → Prop) :
  W !! i = Some (Entry buf 256 x) → (r, sealed aes_stack (bytes32 v)) ∈ R → 0 <= v < 2 ^ 256 →
  (∀ m', st m0 F (<[i := space buf 256]> W) R m' → Q v m') → wp (recall_secret aes_stack buf r 32) m Q.
Proof.
  intros Hi Hr Hv HQ. unfold recall_secret. pose proof (num_bytes_length 32 v) as Lv.
  pose proof (sealed_length aes_stack Haes _ Lv) as Ls. set (bs := sealed aes_stack (bytes32 v)) in *.
  pose proof (st_input m0 F W R m _ _ Hst Hr) as Hread. rewrite Ls in Hread. pose proof (lookup_lt_Some _ _ _ Hi) as Li.
  assert (covers [(buf, 256%nat)] [(buf, 32%nat)]) as Hc by (eapply covers_take; [by left|lia]).
  apply wp_bind. apply (wp_touch m0 F _ W R m i buf 256 x tt (λ m, mread m buf 32 = Some bs) _ Hst Hi).
  { intros V. destruct (mvalid_store m buf bs) as (m1 & W1 & E1); [rewrite Ls; by eapply mvalid_take; [exact V|lia]|].
    exists m1. split; [|split].
    - apply (memcpy_Some _ _ _ _ bs); [|done|done]. pose proof (st_input_apart m0 F W R m i buf 256 x r bs Hst Hi Hr) as Hd. rewrite Ls in Hd. eapply pdisj_take; [exact Hd|lia].
    - rewrite <- Ls. by apply (mread_mwrite m).
    - eapply mframe_mono; [by apply mwrite_mframe|]. by rewrite Ls. }
  intros m1 R1 H1. apply wp_bind.
  apply (wp_touch m0 F _ _ R m1 i buf 256 None 0 (λ m, mread m buf 32 = Some (bytes32 v)) _ H1); [by apply list_lookup_insert_eq| |].
  { intros _. destruct (derand_ok aes_stack Haes buf m1 (bytes32 v) R1 Lv) as (m2 & E2 & R2 & F2); [apply num_bytes_is_bytes|].
    exists m2. split; [done|]. split; [done|]. by eapply mframe_mono. }
  intros m2 R2 H2. eapply wp_step; [by apply bytes_to_big_32|]. apply HQ. by rewrite list_insert_insert_eq in H2.
Qed.

Definition a4_written (kabuf s1 sa : ptr) (ka kb : Z) : list entry :=
  let U := meeting cfg ka da kb db in
  [known kabuf klen (agreed_key U za_hash zb_hash klen); known s1 32 (confirmation 2 U (pub ka) (pub kb) za_hash zb_hash);
   known sa 32 (confirmation 3 U (pub ka) (pub kb) za_hash zb_hash)].

Lemma a4_outputs_ok za zb buf kabuf s1 sa ka kb m0 F R m :
  let U := meeting cfg ka da kb db in
  nonzero U →
  st m0 F (known zb 32 zb_hash :: known za 32 za_hash :: space buf 256 :: [space kabuf klen; space s1 32; space sa 32]) R m →
  wp (a4_outputs stack za zb U (coords (pub ka)).1 (coords (pub ka)).2 (coords (pub kb)).1 (coords (pub kb)).2
       (Z.of_nat klen) kabuf s1 sa) m
    (λ r m', r = 1 ∧ st m0 F (known zb 32 zb_hash :: known za 32 za_hash :: space buf 256 :: a4_written kabuf s1 sa ka kb) R m').
Proof.
  intros U NU H0. assert (on_curve cfg U) as HU by apply mult_closed, eg_base.
  destruct (nonzero_coords cfg U HU Hp NU) as [Bux Buy], (coords_bytes U) as (LUx & LUy & BUx & BUy), za_shape as [BZA LZA], zb_shape as [BZB LZB].
  unfold a4_outputs. rewrite (surjective_pairing (epoint_get U)).
  apply wp_bind, (wp_defined _ (coords U).1); [by apply local_big_ok|].
  apply wp_bind, (wp_defined _ (coords U).2); [by apply local_big_ok|].
  apply wp_bind. apply (wp_load m0 F _ R m 1 za 32 za_hash _ H0 eq_refl).
  apply wp_bind. apply (wp_load m0 F _ R m 0 zb 32 zb_hash _ H0 eq_refl).
  destruct (hash_input_bytes U za_hash zb_hash) as [Bk Lk]; [done..|].
  apply wp_bind. apply (wp_kdf m0 F _ R m H0 3 kabuf None _ klen _ eq_refl Bk Lk Hklen). wrote m1 H1 H0.
  fold (agreed_key U za_hash zb_hash klen) in H1.
  destruct (inner_bytes U (pub ka) (pub kb) za_hash zb_hash) as (Bi & Li & _); [done..|].
  cbv zeta. rewrite sm3_digest_hash by done. fold (inner_hash U (pub ka) (pub kb) za_hash zb_hash).
  assert (is_bytes (inner_hash U (pub ka) (pub kb) za_hash zb_hash) ∧ length (inner_hash U (pub ka) (pub kb) za_hash zb_hash) = 32%nat) as [Bh Lh]
    by (split; [apply hash_bytes|apply hash_length]).
  assert (s1 ≠ Null) as Hs1 by (pose proof (entry_ok_valid _ _ (st_entry m0 F _ R m1 4 _ H1 eq_refl)) as V; by intros ->).
  assert (sa ≠ Null) as Hsa by (pose proof (entry_ok_valid _ _ (st_entry m0 F _ R m1 5 _ H1 eq_refl)) as V; by intros ->).
  rewrite (decide_False (P := s1 = Null)), (decide_False (P := sa = Null)) by done.
  destruct (outer_bytes 2 U _ ltac:(done) Bh Lh) as [B2 L2], (outer_bytes 3 U _ ltac:(done) Bh Lh) as [B3 L3].
  apply wp_bind. apply (wp_sm3_buf m0 F _ R m1 H1 4 s1 None _ _ eq_refl B2 L2). wrote m2 H2 H1.
  apply wp_bind. apply (wp_sm3_buf m0 F _ R m2 H2 5 sa None _ _ eq_refl B3 L3). wrote m3 H3 H2.
  by apply wp_ret.
Qed.

Lemma a4_10_ok kx1 ky1 private_a kx2 ky2 ra kabuf s1 sa ka kb m0 F R m :
  let U := meeting cfg ka da kb db in
  0 < ka < n cfg → 0 < kb < n cfg → nonzero (pub ka) → nonzero (pub kb) → nonzero U →
  st m0 F [space kabuf klen; space s1 32; space sa 32] R m →
  public_inputs ⊆ R → (kx1, (coords (pub ka)).1) ∈ R → (ky1, (coords (pub ka)).2) ∈ R → (private_a, bytes32 da) ∈ R →
  (kx2, (coords (pub kb)).1) ∈ R → (ky2, (coords (pub kb)).2) ∈ R → (ra, sealed aes_stack (bytes32 ka)) ∈ R →
  wp (sm2_keyagreement_a4_10 stack aes_stack cfg kx1 32 ky1 32 (qax q) 32 (qay q) 32 private_a 32 (qbx q) 32 (qby q) 32
       (qida q) (Z.of_nat (length ida)) (qidb q) (Z.of_nat (length idb)) kx2 32 ky2 32 ra 32 (Z.of_nat klen) kabuf s1 sa) m
    (λ r m', r = 1 ∧ st m0 F (a4_written kabuf s1 sa ka kb) R m').
Proof.
  intros U Bka Bkb Na Nb NU Hst HR I1 I2 I3 I4 I5 I6.
  destruct (nonzero_coords cfg (pub kb) (pub_on_curve kb) Hp Nb) as [Bx2 By2], (nonzero_coords cfg (pub ka) (pub_on_curve ka) Hp Na) as [Bx1 By1],
    (pub_coords db) as [Bbx Bby].
  unfold sm2_keyagreement_a4_10.
  eapply (wp_local m0 F 256 _ _ (a4_written kabuf s1 sa ka kb)); [exact Hst|done|]. clear Hst. intros buf m1 H1.
  eapply (wp_local m0 F 32 _ _ (space buf 256 :: a4_written kabuf s1 sa ka kb)); [exact H1|done|]. clear H1. intros za m2 H2.
  eapply (wp_local m0 F 32 _ _ (known za 32 za_hash :: space buf 256 :: a4_written kabuf s1 sa ka kb)); [exact H2|done|]. clear H2.
  intros zb m3 H3.
  apply wp_bind. apply (wp_user m0 F _ R m3 H3 1 za None (qida q) (qax q) (qay q) ida (pub da) _ eq_refl); [input|input|input|done|done|].
  wrote m4 H4 H3. fold za_hash in H4.
  apply wp_bind. apply (wp_user m0 F _ R m4 H4 0 zb None (qidb q) (qbx q) (qby q) idb (pub db) _ eq_refl); [input|input|input|done|done|].
  wrote m5 H5 H4. fold zb_hash in H5.
  apply wp_bind. apply (wp_big m0 F _ R m5 H5 kx1 (epoint_get (pub ka)).1); [done|lia|].
  apply wp_bind. apply (wp_big m0 F _ R m5 H5 ky1 (epoint_get (pub ka)).2); [done|lia|].
  rewrite (pub_set ka Na).
  apply wp_bind, (wp_defined _ (coords (pub ka)).1); [by apply local_big_ok|].
  apply wp_bind, (wp_defined _ (coords (pub ka)).2); [by apply local_big_ok|].
  apply wp_bind. apply (wp_big m0 F _ R m5 H5 private_a da); [done|lia|].
  apply wp_bind. apply (wp_recall m0 F _ R m5 H5 2 buf None ra ka _ eq_refl I6); [lia|]. wrote m6 H6 H5.
  rewrite exponent_half.
  apply wp_bind. apply (wp_big m0 F _ R m6 H6 kx2 (epoint_get (pub kb)).1); [done|lia|].
  apply wp_bind. apply (wp_big m0 F _ R m6 H6 ky2 (epoint_get (pub kb)).2); [done|lia|].
  rewrite (pub_set kb Nb).
  apply wp_bind, (wp_defined _ (coords (pub kb)).1); [by apply local_big_ok|].
  apply wp_bind, (wp_defined _ (coords (pub kb)).2); [by apply local_big_ok|].
  apply wp_bind. apply (wp_big m0 F _ R m6 H6 (qbx q) (epoint_get (pub db)).1); [input|lia|].
  apply wp_bind. apply (wp_big m0 F _ R m6 H6 (qby q) (epoint_get (pub db)).2); [input|lia|].
  rewrite (pub_set_key db Hdb), (key_point_meeting ka da kb db) by lia. fold U. rewrite decide_False by (by apply nonzero_finite).
  apply (wp_mono _ _ (λ r m', r = 1 ∧ st m0 F (known zb 32 zb_hash :: known za 32 za_hash :: space buf 256 :: a4_written kabuf s1 sa ka kb) R m')).
  { exact (a4_outputs_ok za zb buf kabuf s1 sa ka kb m0 F R m6 NU H6). }
  intros r m7 [-> H7]. split; [exists 32%nat, (Some zb_hash), []; exact H7|]. intros m8 H8.
  split; [exists 32%nat, (Some za_hash), []; exact H8|]. intros m9 H9. split; [exists 256%nat, None, []; exact H9|]. done.
Qed.

(** *** The receiver's last step *)

(** The next bytes of a buffer that is filled from its start. *)
Lemma put_next m0 buf whole p o N m : mwrite m0 buf whole = Some m → Z.of_nat (length whole) = o → mvalid m0 buf N →
  (length whole + length p ≤ N)%nat →
  ∃ m', store (padd buf o) p m = Some (tt, m') ∧ mwrite m0 buf (whole ++ p) = Some m'.
Proof.
  intros Hw Ho Hv Hle. destruct (mvalid_store m (padd buf o) p) as (m' & W' & E).
  { apply (mvalid_mwrite_iff _ _ _ _ _ _ Hw). rewrite <- Ho. apply (mvalid_sub m0 buf N); [done|lia]. }
  exists m'. split; [done|]. rewrite mwrite_app, Hw. cbn [mbind option_bind]. by rewrite Ho.
Qed.

Lemma put_number m0 buf whole v o N m : mwrite m0 buf whole = Some m → Z.of_nat (length whole) = o → mvalid m0 buf N →
  (length whole + 32 ≤ N)%nat → 0 < v < 2 ^ 256 →
  ∃ m', big_to_bytes v (padd buf o) m = Some (32, m') ∧ mwrite m0 buf (whole ++ bytes32 v) = Some m'.
Proof.
  intros Hw Ho Hv Hle Bv. destruct (put_next m0 buf whole (bytes32 v) o N m Hw Ho Hv) as (m' & E & W'); [by rewrite num_bytes_length|].
  exists m'. split; [|done]. unfold big_to_bytes. rewrite decide_False, decide_True by lia. by rewrite (bind_Some _ _ m tt m' E).
Qed.

Lemma put_copy m0 buf whole src bs o N m : mwrite m0 buf whole = Some m → Z.of_nat (length whole) = o → mvalid m0 buf N →
  (length whole + length bs ≤ N)%nat → mread m0 src (length bs) = Some bs → pdisj buf N src (length bs) →
  ∃ m', memcpy (padd buf o) src (length bs) m = Some (tt, m') ∧ mwrite m0 buf (whole ++ bs) = Some m'.
Proof.
  intros Hw Ho Hv Hle Hr Hd. destruct (put_next m0 buf whole bs o N m Hw Ho Hv Hle) as (m' & E & W'). exists m'. split; [|done].
  unfold store in E. destruct (mwrite m (padd buf o) bs) as [m1|] eqn:W1; [|done]. injection E as ->.
  apply (memcpy_Some _ _ _ _ bs); [rewrite <- Ho; apply (pdisj_sub _ N); [exact Hd|exact Hle]| |done].
  rewrite (mread_mwrite_disj _ _ _ _ _ _ Hw); [done|]. eapply pdisj_take; [exact Hd|lia].
Qed.

Lemma assemble_inner_ok m buf za zb zab zbb x3 x1 y1 x2 y2 : mvalid m buf 256 →
  mread m za 32 = Some zab → mread m zb 32 = Some zbb → pdisj buf 256 za 32 → pdisj buf 256 zb 32 →
  0 < x3 < 2 ^ 256 → 0 < x1 < 2 ^ 256 → 0 < y1 < 2 ^ 256 → 0 < x2 < 2 ^ 256 → 0 < y2 < 2 ^ 256 →
  let whole := confirm_inner (bytes32 x3) zab zbb (bytes32 x1) (bytes32 y1) (bytes32 x2) (bytes32 y2) in
  ∃ m', assemble_inner buf za zb x3 x1 y1 x2 y2 m = Some (32, m') ∧ mread m' buf 224 = Some whole ∧ mframe [(buf, 256%nat)] m m'.
Proof.
  intros V Ra Rb Da Db B3 B1 B1' B2 B2'. pose proof (num_bytes_length 32) as LN.
  pose proof (mread_length _ _ _ _ Ra) as La. pose proof (mread_length _ _ _ _ Rb) as Lb.
  destruct (mvalid_mwrite m buf []) as [m0 W0]; [by eapply mvalid_take; [exact V|cbn; lia]|]. pose proof (mwrite_nil _ _ _ W0) as ->.
  destruct (put_number m buf [] x3 0 256 m W0) as (m1 & E1 & W1); [done|done|cbn; lia|done|]. rewrite padd_0 in E1.
  destruct (put_copy m buf _ za zab 32 256 m1 W1) as (m2 & E2 & W2); [cbn [app]; by rewrite LN|done|cbn [app]; rewrite LN; lia|by rewrite La|by rewrite La|].
  destruct (put_copy m buf _ zb zbb 64 256 m2 W2) as (m3 & E3 & W3); [rewrite !length_app, LN; cbn [length]; lia|done|rewrite !length_app, LN; cbn [length]; lia|by rewrite Lb|by rewrite Lb|].
  destruct (put_number m buf _ x1 96 256 m3 W3) as (m4 & E4 & W4); [rewrite !length_app, LN; cbn [length]; lia|done|rewrite !length_app, LN; cbn [length]; lia|done|].
  destruct (put_number m buf _ y1 128 256 m4 W4) as (m5 & E5 & W5); [rewrite !length_app, !LN; cbn [length]; lia|done|rewrite !length_app, !LN; cbn [length]; lia|done|].
  destruct (put_number m buf _ x2 160 256 m5 W5) as (m6 & E6 & W6); [rewrite !length_app, !LN; cbn [length]; lia|done|rewrite !length_app, !LN; cbn [length]; lia|done|].
  destruct (put_number m buf _ y2 192 256 m6 W6) as (m7 & E7 & W7); [rewrite !length_app, !LN; cbn [length]; lia|done|rewrite !length_app, !LN; cbn [length]; lia|done|].
  exists m7. rewrite La in E2. rewrite Lb in E3. split; [|].
  - unfold assemble_inner. rewrite (bind_Some _ _ m 32 m1 E1), (bind_Some _ _ m1 tt m2 E2), (bind_Some _ _ m2 tt m3 E3),
      (bind_Some _ _ m3 32 m4 E4), (bind_Some _ _ m4 32 m5 E5), (bind_Some _ _ m5 32 m6 E6). exact E7.
  - cbn [app] in W7. rewrite <- !app_assoc in W7. pose proof (mread_mwrite _ _ _ _ W7) as R7. pose proof (mwrite_mframe _ _ _ _ W7) as F7.
    assert (length (bytes32 x3 ++ zab ++ zbb ++ bytes32 x1 ++ bytes32 y1 ++ bytes32 x2 ++ bytes32 y2) = 224%nat) as LW
      by (rewrite !length_app, !LN; lia).
    rewrite LW in *. split; [exact R7|]. eapply mframe_mono; [exact F7|]. eapply covers_take; [by left|lia].
Qed.

Lemma assemble_outer_ok m buf y3 s2 h : mvalid m buf 256 → mread m s2 32 = Some h → pdisj buf 256 s2 32 → 0 < y3 < 2 ^ 256 →
  ∃ m', assemble_outer buf y3 s2 m = Some (tt, m') ∧ mread m' buf 65 = Some (confirm_outer 3 (bytes32 y3) h) ∧ mframe [(buf, 256%nat)] m m'.
Proof.
  intros V Rh Dh B3. pose proof (num_bytes_length 32) as LN. pose proof (mread_length _ _ _ _ Rh) as Lh.
  destruct (mvalid_store m buf [3]) as (m1 & W1 & E1); [by eapply mvalid_take; [exact V|cbn; lia]|].
  destruct (put_number m buf [3] y3 1 256 m1 W1) as (m2 & E2 & W2); [done|done|cbn; lia|done|].
  destruct (put_copy m buf _ s2 h 33 256 m2 W2) as (m3 & E3 & W3); [cbn [app length]; rewrite LN; lia|done|cbn [app length]; rewrite LN; lia|by rewrite Lh|by rewrite Lh|].
  rewrite Lh in E3. exists m3. split; [|].
  - unfold assemble_outer. by rewrite (bind_Some _ _ m tt m1 E1), (bind_Some _ _ m1 32 m2 E2).
  - cbn [app] in W3. pose proof (mread_mwrite _ _ _ _ W3) as R3. pose proof (mwrite_mframe _ _ _ _ W3) as F3.
    assert (length (3 :: bytes32 y3 ++ h) = 65%nat) as LW by (cbn [length]; rewrite length_app, LN; lia).
    rewrite LW in *. split; [exact R3|]. eapply mframe_mono; [exact F3|]. eapply covers_take; [by left|lia].
Qed.

Lemma wp_sm3 m0 F W R m (Hst : st m0 F W R m) i q0 x d bs (Q : unit → mem → Prop) : W !! i = Some (Entry q0 32 x) →
  mread m d (length bs) = Some bs → is_bytes bs → Z.of_nat (length bs) < 2 ^ 32 →
  (∀ m', st m0 F (<[i := known q0 32 (Sm3Spec.hash bs)]> W) R m' → Q tt m') → wp (sm3 stack d (length bs) q0) m Q.
Proof.
  intros Hi Hr Hb Hl HQ. eapply (wp_call m0 F); [done|done| |done]. intros V. unfold sm3.
  destruct (sm3_buf_ok H32 stack Hstack bs q0 m Hb Hl V) as (m' & Hw & E). exists m'.
  pose proof (mread_mwrite _ _ _ _ Hw) as R'. pose proof (mwrite_mframe _ _ _ _ Hw) as F'. rewrite hash_length in *.
  split; [|done]. rewrite (bind_Some _ _ m bs m); [exact E|]. case_decide as H0; [|by apply load_Some].
  by apply length_zero_iff_nil in H0 as ->.
Qed.

Lemma b10_ok kx1 ky1 kx2 ky2 xv yv s2 ka kb m0 F R m :
  let U := meeting cfg ka da kb db in
  nonzero (pub ka) → nonzero (pub kb) → nonzero U →
  st m0 F [space s2 32] R m →
  public_inputs ⊆ R → (kx1, (coords (pub ka)).1) ∈ R → (ky1, (coords (pub ka)).2) ∈ R →
  (kx2, (coords (pub kb)).1) ∈ R → (ky2, (coords (pub kb)).2) ∈ R →
  (xv, sealed aes_stack (coords U).1) ∈ R → (yv, sealed aes_stack (coords U).2) ∈ R →
  wp (sm2_keyagreement_b10 stack aes_stack (qax q) 32 (qay q) 32 (qbx q) 32 (qby q) 32 kx1 32 ky1 32 kx2 32 ky2 32
       xv 32 yv 32 (qida q) (Z.of_nat (length ida)) (qidb q) (Z.of_nat (length idb)) s2) m
    (λ _ m', st m0 F [known s2 32 (confirmation 3 U (pub ka) (pub kb) za_hash zb_hash)] R m').
Proof.
  intros U Na Nb NU Hst HR I1 I2 I3 I4 I5 I6. assert (on_curve cfg U) as HU by apply mult_closed, eg_base.
  destruct (nonzero_coords cfg (pub kb) (pub_on_curve kb) Hp Nb) as [Bx2 By2], (nonzero_coords cfg (pub ka) (pub_on_curve ka) Hp Na) as [Bx1 By1],
    (nonzero_coords cfg U HU Hp NU) as [Bux Buy], za_shape as [BZA LZA], zb_shape as [BZB LZB].
  unfold sm2_keyagreement_b10.
  eapply (wp_local m0 F 256 _ _ [known s2 32 (confirmation 3 U (pub ka) (pub kb) za_hash zb_hash)]); [exact Hst|done|]. clear Hst. intros buf m1 H1.
  eapply (wp_local m0 F 32 _ _ (space buf 256 :: [known s2 32 (confirmation 3 U (pub ka) (pub kb) za_hash zb_hash)])); [exact H1|done|]. clear H1. intros za m2 H2.
  eapply (wp_local m0 F 32 _ _ (known za 32 za_hash :: space buf 256 :: [known s2 32 (confirmation 3 U (pub ka) (pub kb) za_hash zb_hash)])); [exact H2|done|]. clear H2.
  intros zb m3 H3.
  apply wp_bind. apply (wp_user m0 F _ R m3 H3 1 za None (qida q) (qax q) (qay q) ida (pub da) _ eq_refl); [input|input|input|done|done|].
  wrote m4 H4 H3. fold za_hash in H4.
  apply wp_bind. apply (wp_user m0 F _ R m4 H4 0 zb None (qidb q) (qbx q) (qby q) idb (pub db) _ eq_refl); [input|input|input|done|done|].
  wrote m5 H5 H4. fold zb_hash in H5.
  apply wp_bind. apply (wp_big m0 F _ R m5 H5 kx1 (epoint_get (pub ka)).1); [done|lia|].
  apply wp_bind. apply (wp_big m0 F _ R m5 H5 ky1 (epoint_get (pub ka)).2); [done|lia|].
  apply wp_bind. apply (wp_big m0 F _ R m5 H5 kx2 (epoint_get (pub kb)).1); [done|lia|].
  apply wp_bind. apply (wp_big m0 F _ R m5 H5 ky2 (epoint_get (pub kb)).2); [done|lia|].
  apply wp_bind. apply (wp_recall m0 F _ R m5 H5 2 buf None xv (epoint_get U).1 _ eq_refl I5); [lia|]. wrote m6 H6 H5.
  apply wp_bind. apply (wp_recall m0 F _ R m6 H6 2 buf None yv (epoint_get U).2 _ eq_refl I6); [lia|]. wrote m7 H7 H6.
  destruct (inner_bytes U (pub ka) (pub kb) za_hash zb_hash) as (Bi & Li & Ni); [done..|].
  apply wp_bind. apply (wp_touch m0 F _ _ R m7 2 buf 256 None 32 (λ m, mread m buf 224 = Some (confirm_inner (coords U).1 za_hash zb_hash
    (coords (pub ka)).1 (coords (pub ka)).2 (coords (pub kb)).1 (coords (pub kb)).2)) _ H7 eq_refl).
  { intros V. apply (assemble_inner_ok m7 buf za zb za_hash zb_hash); [done| | | | |done..].
    - exact (st_entry m0 F _ R m7 1 _ H7 eq_refl).
    - exact (st_entry m0 F _ R m7 0 _ H7 eq_refl).
    - exact (st_disjoint m0 F _ R m7 2 1 _ _ H7 eq_refl eq_refl ltac:(done)).
    - exact (st_disjoint m0 F _ R m7 2 0 _ _ H7 eq_refl eq_refl ltac:(done)). }
  clear H7. intros m8 R8 H8. cbn [insert list_insert] in H8. rewrite <- Ni in R8 |- *.
  apply wp_bind. apply (wp_sm3 m0 F _ R m8 H8 3 s2 None buf _ _ eq_refl R8 Bi Li). wrote m9 H9 H8. clear R8.
  fold (inner_hash U (pub ka) (pub kb) za_hash zb_hash) in H9. set (h := inner_hash U (pub ka) (pub kb) za_hash zb_hash) in *.
  destruct (outer_bytes 3 U h) as [Bo Lo]; [done|apply hash_bytes|apply hash_length|].
  apply wp_bind. apply (wp_touch m0 F _ _ R m9 2 buf 256 None tt (λ m, mread m buf 65 = Some (confirm_outer 3 (coords U).2 h)) _ H9 eq_refl).
  { intros V. apply (assemble_outer_ok m9 buf _ s2 h); [done| | |done].
    - exact (st_entry m0 F _ R m9 3 _ H9 eq_refl).
    - exact (st_disjoint m0 F _ R m9 2 3 _ _ H9 eq_refl eq_refl ltac:(done)). }
  clear H9. intros m10 R10 H10. cbn [insert list_insert] in H10.
  assert (length (confirm_outer 3 (coords U).2 h) = 65%nat) as No.
  { destruct (coords_bytes U) as (_ & Ly & _). unfold confirm_outer. cbn [length]. rewrite length_app, Ly. unfold h, inner_hash. by rewrite hash_length. }
  rewrite <- No in R10 |- *.
  apply wp_bind. apply (wp_sm3 m0 F _ R m10 H10 3 s2 _ buf _ _ eq_refl R10 Bo Lo). wrote m11 H11 H10.
  apply wp_ret. split; [exists 32%nat, (Some zb_hash), []; exact H11|]. intros m12 H12.
  split; [exists 32%nat, (Some za_hash), []; exact H12|]. intros m13 H13. split; [exists 256%nat, None, []; exact H13|]. done.
Qed.

(** *** A point that is not on the curve *)

(** The receiver has sent its temporary key by then, and nothing else. *)
Lemma b1_9_refused kx1 ky1 private_b kbbuf kx2 kx2len ky2 ky2len xv xvlen yv yvlen sb draws kb x1 y1 m0 F R m :
  draw_key cfg draws = Some kb → nonzero (pub kb) → 0 <= x1 < 2 ^ 256 → 0 <= y1 < 2 ^ 256 → epoint_set cfg x1 y1 = None →
  st m0 F [space kx2 32; space kx2len 4; space ky2 32; space ky2len 4] R m →
  public_inputs ⊆ R → (kx1, bytes32 x1) ∈ R → (ky1, bytes32 y1) ∈ R → (private_b, bytes32 db) ∈ R →
  wp (sm2_keyagreement_b1_9 stack aes_stack cfg kx1 32 ky1 32 (qax q) 32 (qay q) 32 private_b 32 (qbx q) 32 (qby q) 32
       (qida q) (Z.of_nat (length ida)) (qidb q) (Z.of_nat (length idb)) (Z.of_nat klen)
       kbbuf kx2 kx2len ky2 ky2len xv xvlen yv yvlen sb draws) m
    (λ r m', r = 0 ∧ st m0 F [known kx2 32 (coords (pub kb)).1; known kx2len 4 (le_bytes 4 32);
      known ky2 32 (coords (pub kb)).2; known ky2len 4 (le_bytes 4 32)] R m').
Proof.
  intros Hkb Nb Hx1 Hy1 Hoff Hst HR I1 I2 I3.
  destruct (nonzero_coords cfg (pub kb) (pub_on_curve kb) Hp Nb) as [Bx2 By2], (coords_bytes (pub kb)) as (Lx2 & Ly2 & _ & _).
  set (out := [known kx2 32 (coords (pub kb)).1; known kx2len 4 (le_bytes 4 32); known ky2 32 (coords (pub kb)).2; known ky2len 4 (le_bytes 4 32)]).
  unfold sm2_keyagreement_b1_9.
  eapply (wp_local m0 F 32 _ _ out); [exact Hst|done|]. clear Hst.
  intros za m1 H1. eapply (wp_local m0 F 32 _ _ (known za 32 za_hash :: out)); [exact H1|done|]. clear H1. intros zb m2 H2.
  apply wp_bind. apply (wp_user m0 F _ R m2 H2 1 za None (qida q) (qax q) (qay q) ida (pub da) _ eq_refl); [input|input|input|done|done|].
  wrote m3 H3 H2. fold za_hash in H3.
  apply wp_bind. apply (wp_user m0 F _ R m3 H3 0 zb None (qidb q) (qbx q) (qby q) idb (pub db) _ eq_refl); [input|input|input|done|done|].
  wrote m4 H4 H3. fold zb_hash in H4.
  apply wp_bind, (wp_defined _ kb); [done|]. fold (pub kb). rewrite (surjective_pairing (epoint_get (pub kb))).
  apply wp_bind, (wp_defined _ (coords (pub kb)).1); [by apply local_big_ok|].
  apply wp_bind, (wp_defined _ (coords (pub kb)).2); [by apply local_big_ok|].
  apply wp_bind. apply (wp_store m0 F _ R m4 2 kx2 32 None _ _ H4 eq_refl Lx2). wrote m5 H5 H4.
  apply wp_bind. apply (wp_store m0 F _ R m5 4 ky2 32 None _ _ H5 eq_refl Ly2). wrote m6 H6 H5.
  apply wp_bind. apply (wp_store_int m0 F _ R m6 H6 3 kx2len None _ _ eq_refl). wrote m7 H7 H6.
  apply wp_bind. apply (wp_store_int m0 F _ R m7 H7 5 ky2len None _ _ eq_refl). wrote m8 H8 H7.
  apply wp_bind. apply (wp_big m0 F _ R m8 H8 private_b db); [done|lia|].
  apply wp_bind. apply (wp_big m0 F _ R m8 H8 kx1 x1); [done|lia|].
  apply wp_bind. apply (wp_big m0 F _ R m8 H8 ky1 y1); [done|lia|].
  rewrite Hoff. apply wp_ret.
  split; [exists 32%nat, (Some zb_hash), []; exact H8|]. intros m9 H9.
  split; [exists 32%nat, (Some za_hash), []; exact H9|]. intros m10 H10. split; [done|exact H10].
Qed.

(** The initiator writes nothing. *)
Lemma a4_10_refused kx1 ky1 private_a kx2 ky2 ra kabuf s1 sa ka x2 y2 m0 F R m :
  0 < ka < n cfg → nonzero (pub ka) → 0 <= x2 < 2 ^ 256 → 0 <= y2 < 2 ^ 256 → epoint_set cfg x2 y2 = None →
  st m0 F [] R m →
  public_inputs ⊆ R → (kx1, (coords (pub ka)).1) ∈ R → (ky1, (coords (pub ka)).2) ∈ R → (private_a, bytes32 da) ∈ R →
  (kx2, bytes32 x2) ∈ R → (ky2, bytes32 y2) ∈ R → (ra, sealed aes_stack (bytes32 ka)) ∈ R →
  wp (sm2_keyagreement_a4_10 stack aes_stack cfg kx1 32 ky1 32 (qax q) 32 (qay q) 32 private_a 32 (qbx q) 32 (qby q) 32
       (qida q) (Z.of_nat (length ida)) (qidb q) (Z.of_nat (length idb)) kx2 32 ky2 32 ra 32 (Z.of_nat klen) kabuf s1 sa) m
    (λ r m', r = 0 ∧ st m0 F [] R m').
Proof.
  intros Bka Na Hx2 Hy2 Hoff Hst HR I1 I2 I3 I4 I5 I6.
  destruct (nonzero_coords cfg (pub ka) (pub_on_curve ka) Hp Na) as [Bx1 By1].
  unfold sm2_keyagreement_a4_10.
  eapply (wp_local m0 F 256 _ _ []); [exact Hst|done|]. clear Hst. intros buf m1 H1.
  eapply (wp_local m0 F 32 _ _ [space buf 256]); [exact H1|done|]. clear H1. intros za m2 H2.
  eapply (wp_local m0 F 32 _ _ [known za 32 za_hash; space buf 256]); [exact H2|done|]. clear H2. intros zb m3 H3.
  apply wp_bind. apply (wp_user m0 F _ R m3 H3 1 za None (qida q) (qax q) (qay q) ida (pub da) _ eq_refl); [input|input|input|done|done|].
  wrote m4 H4 H3. fold za_hash in H4.
  apply wp_bind. apply (wp_user m0 F _ R m4 H4 0 zb None (qidb q) (qbx q) (qby q) idb (pub db) _ eq_refl); [input|input|input|done|done|].
  wrote m5 H5 H4. fold zb_hash in H5.
  apply wp_bind. apply (wp_big m0 F _ R m5 H5 kx1 (epoint_get (pub ka)).1); [done|lia|].
  apply wp_bind. apply (wp_big m0 F _ R m5 H5 ky1 (epoint_get (pub ka)).2); [done|lia|].
  rewrite (pub_set ka Na).
  apply wp_bind, (wp_defined _ (coords (pub ka)).1); [by apply local_big_ok|].
  apply wp_bind, (wp_defined _ (coords (pub ka)).2); [by apply local_big_ok|].
  apply wp_bind. apply (wp_big m0 F _ R m5 H5 private_a da); [done|lia|].
  apply wp_bind. apply (wp_recall m0 F _ R m5 H5 2 buf None ra ka _ eq_refl I6); [lia|]. wrote m6 H6 H5.
  apply wp_bind. apply (wp_big m0 F _ R m6 H6 kx2 x2); [done|lia|].
  apply wp_bind. apply (wp_big m0 F _ R m6 H6 ky2 y2); [done|lia|].
  rewrite Hoff. apply wp_ret.
  split; [exists 32%nat, (Some zb_hash), []; exact H6|]. intros m8 H8.
  split; [exists 32%nat, (Some za_hash), []; exact H8|]. intros m9 H9. split; [exists 256%nat, None, []; exact H9|]. done.
Qed.

(** ** The whole agreement *)

(** What the two sides write, in the order they do. *)
Record wires := {
  kx1 : ptr; kx1len : ptr; ky1 : ptr; ky1len : ptr; ra : ptr; ralen : ptr;
  kbbuf : ptr; kx2 : ptr; kx2len : ptr; ky2 : ptr; ky2len : ptr; xv : ptr; xvlen : ptr; yv : ptr; yvlen : ptr; sb : ptr;
  kabuf : ptr; s1 : ptr; sa : ptr; s2 : ptr }.

Definition a1_wires (w : wires) : regions := [(kx1 w, 32%nat); (kx1len w, 4%nat); (ky1 w, 32%nat); (ky1len w, 4%nat); (ra w, 32%nat); (ralen w, 4%nat)].
Definition b1_wires (w : wires) : regions :=
  [(kbbuf w, klen); (kx2 w, 32%nat); (kx2len w, 4%nat); (ky2 w, 32%nat); (ky2len w, 4%nat); (xv w, 32%nat); (xvlen w, 4%nat);
   (yv w, 32%nat); (yvlen w, 4%nat); (sb w, 32%nat)].
Definition a4_wires (w : wires) : regions := [(kabuf w, klen); (s1 w, 32%nat); (sa w, 32%nat)].
Definition b10_wires (w : wires) : regions := [(s2 w, 32%nat)].
Definition all_wires (w : wires) : regions := a1_wires w ++ b1_wires w ++ a4_wires w ++ b10_wires w.

(** The agreement as the two sides run it: the values written by one are read by the other. *)
Definition agreement_run (w : wires) (private_a private_b : ptr) (drawsA drawsB : list Z) : C (Z * Z) :=
  sm2_keyagreement_a1_3 aes_stack cfg (kx1 w) (kx1len w) (ky1 w) (ky1len w) (ra w) (ralen w) drawsA;;
  rb ← sm2_keyagreement_b1_9 stack aes_stack cfg (kx1 w) 32 (ky1 w) 32 (qax q) 32 (qay q) 32 private_b 32 (qbx q) 32 (qby q) 32
    (qida q) (Z.of_nat (length ida)) (qidb q) (Z.of_nat (length idb)) (Z.of_nat klen)
    (kbbuf w) (kx2 w) (kx2len w) (ky2 w) (ky2len w) (xv w) (xvlen w) (yv w) (yvlen w) (sb w) drawsB;
  ra ← sm2_keyagreement_a4_10 stack aes_stack cfg (kx1 w) 32 (ky1 w) 32 (qax q) 32 (qay q) 32 private_a 32 (qbx q) 32 (qby q) 32
    (qida q) (Z.of_nat (length ida)) (qidb q) (Z.of_nat (length idb)) (kx2 w) 32 (ky2 w) 32 (ra w) 32 (Z.of_nat klen) (kabuf w) (s1 w) (sa w);
  sm2_keyagreement_b10 stack aes_stack (qax q) 32 (qay q) 32 (qbx q) 32 (qby q) 32 (kx1 w) 32 (ky1 w) 32 (kx2 w) 32 (ky2 w) 32
    (xv w) 32 (yv w) 32 (qida q) (Z.of_nat (length ida)) (qidb q) (Z.of_nat (length idb)) (s2 w);;
  mret (rb, ra).


(** What has been written after each function. *)
Definition wr_a1 (w : wires) (ka : Z) : list entry := a1_written (kx1 w) (kx1len w) (ky1 w) (ky1len w) (ra w) (ralen w) ka.
Definition wr_b1 (w : wires) (ka kb : Z) : list entry :=
  b1_written (kbbuf w) (kx2 w) (kx2len w) (ky2 w) (ky2len w) (xv w) (xvlen w) (yv w) (yvlen w) (sb w) ka kb.
Definition wr_a4 (w : wires) (ka kb : Z) : list entry := a4_written (kabuf w) (s1 w) (sa w) ka kb.
Definition wr_b10 (w : wires) (ka kb : Z) : list entry :=
  [known (s2 w) 32 (confirmation 3 (meeting cfg ka da kb db) (pub ka) (pub kb) za_hash zb_hash)].

(** A value the earlier functions wrote is an input of the later ones. *)
Ltac written := unfold inputs_of, wr_a1, wr_b1, wr_a4, a1_written, b1_written, a4_written;
  cbn [app omap list_omap econt eptr]; member.

Lemma agreement_run_ok w private_a private_b drawsA drawsB ka kb m0 F R m :
  draw_key cfg drawsA = Some ka → draw_key cfg drawsB = Some kb →
  nonzero (pub ka) → nonzero (pub kb) → nonzero (meeting cfg ka da kb db) →
  st m0 F (spaces (all_wires w)) R m →
  public_inputs ⊆ R → (private_a, bytes32 da) ∈ R → (private_b, bytes32 db) ∈ R →
  wp (agreement_run w private_a private_b drawsA drawsB) m
    (λ r m', r = (1, 1) ∧ st m0 F (wr_a1 w ka ++ wr_b1 w ka kb ++ wr_a4 w ka kb ++ wr_b10 w ka kb) R m').
Proof.
  intros Ka Kb Na Nb NU Hst HR Ia Ib. pose proof (draw_key_bound _ _ Ka) as Ba. pose proof (draw_key_bound _ _ Kb) as Bb.
  assert (∀ R', public_inputs ⊆ R ++ R') as HR' by (intros R' x Hx; apply elem_of_app; left; by apply HR).
  unfold agreement_run. apply wp_bind.
  apply (wp_focus _ m0 F [] (spaces (a1_wires w)) (wr_a1 w ka) (spaces (b1_wires w ++ a4_wires w ++ b10_wires w)) R m (λ _, True) _ Hst eq_refl).
  { intros H. eapply wp_mono; [exact (a1_3_ok _ _ _ _ _ _ _ _ _ _ _ _ Ka Na H)|]. done. }
  intros r m1 _ H1. clear r Hst. cbn beta. apply wp_bind.
  apply (wp_focus _ m0 F (wr_a1 w ka) (spaces (b1_wires w)) (wr_b1 w ka kb) (spaces (a4_wires w ++ b10_wires w)) R m1 (λ r, r = 1) _ H1 eq_refl).
  { intros H. apply (b1_9_ok _ _ _ _ _ _ _ _ _ _ _ _ _ _ _ _ _ _ _ _ Ba Kb Na Nb NU H); [apply HR'|..];
      apply elem_of_app; [right; written|right; written|by left]. }
  intros r m2 -> H2. clear H1. cbn beta. apply wp_bind. rewrite app_assoc in H2.
  apply (wp_focus _ m0 F (wr_a1 w ka ++ wr_b1 w ka kb) (spaces (a4_wires w)) (wr_a4 w ka kb) (spaces (b10_wires w)) R m2 (λ r, r = 1) _ H2 eq_refl).
  { intros H. apply (a4_10_ok _ _ _ _ _ _ _ _ _ _ _ _ _ _ _ Ba Bb Na Nb NU H); [apply HR'|..];
      apply elem_of_app; [right; written|right; written|by left|right; written|right; written|right; written]. }
  intros r m3 -> H3. clear H2. cbn beta. apply wp_bind. rewrite <- (app_nil_r (_ ++ spaces (b10_wires w))) in H3. rewrite <- !app_assoc in H3.
  rewrite (app_assoc (wr_b1 _ _ _)), (app_assoc (wr_a1 _ _)) in H3.
  apply (wp_focus _ m0 F (wr_a1 w ka ++ wr_b1 w ka kb ++ wr_a4 w ka kb) (spaces (b10_wires w)) (wr_b10 w ka kb) [] R m3 (λ _, True) _ H3 eq_refl).
  { intros H. eapply wp_mono; [apply (b10_ok _ _ _ _ _ _ _ _ _ _ _ _ _ Na Nb NU H); [apply HR'|..]; apply elem_of_app; right; written|]. done. }
  intros r m4 _ H4. apply wp_ret. split; [done|]. by rewrite app_nil_r, <- !app_assoc in H4.
Qed.
End sides. End agreement.

(** C7: two parties that run the key agreement reach the same key, which is the one of the
    standard, and each accepts the other's confirmation: the value [s1] the initiator
    computes is the [sb] the receiver sent, the [s2] the receiver computes is the [sa] the
    initiator sent. Only what the functions are given to write is written. *)
Theorem sm2_key_agreement {tgt : Target} stack aes_stack cfg `{!EllipticGroup cfg} da db ida idb q klen w
    private_a private_b drawsA drawsB ka kb m :
  let ZA := za_hash (cfg := cfg) da ida in let ZB := zb_hash (cfg := cfg) db idb in
  let RA := pub (cfg := cfg) ka in let RB := pub (cfg := cfg) kb in
  let U := meeting cfg ka da kb db in
  ulong_bits = 32 → length (data stack) = 16%nat → aes_arrays aes_stack → p cfg <= 2 ^ 256 → n cfg <= 2 ^ 256 →
  0 < da < n cfg → 0 < db < n cfg → is_bytes ida → is_bytes idb →
  Z.of_nat (length ida) < 8192 → Z.of_nat (length idb) < 8192 → Z.of_nat klen < 2 ^ 31 →
  draw_key cfg drawsA = Some ka → draw_key cfg drawsB = Some kb → nonzero RA → nonzero RB → nonzero U →
  pairwise (all_wires klen w) → Forall (λ r, mvalid m r.1 r.2) (all_wires klen w) →
  Forall (λ r, mread m r.1 (length r.2) = Some r.2 ∧ apart (all_wires klen w) r.1 (length r.2))
    ((private_a, bytes32 da) :: (private_b, bytes32 db) :: public_inputs (cfg := cfg) da db ida idb q) →
  ∃ m', agreement_run stack aes_stack (cfg := cfg) ida idb q klen w private_a private_b drawsA drawsB m = Some ((1, 1), m') ∧
    mread m' (kabuf w) klen = Some (agreed_key U ZA ZB klen) ∧ mread m' (kbbuf w) klen = Some (agreed_key U ZA ZB klen) ∧
    mread m' (sb w) 32 = Some (confirmation 2 U RA RB ZA ZB) ∧ mread m' (s1 w) 32 = Some (confirmation 2 U RA RB ZA ZB) ∧
    mread m' (sa w) 32 = Some (confirmation 3 U RA RB ZA ZB) ∧ mread m' (s2 w) 32 = Some (confirmation 3 U RA RB ZA ZB) ∧
    Forall (λ l, mread m' l 4 = Some (le_bytes 4 32)) [kx1len w; ky1len w; ralen w; kx2len w; ky2len w; xvlen w; yvlen w] ∧
    mframe (all_wires klen w) m m'.
Proof.
  intros ZA ZB RA RB U H32 Hs Haes Hp Hn Hda Hdb Bia Bib Lia Lib Lk Ka Kb Na Nb NU Hpw Hv HR.
  destruct (agreement_run_ok H32 stack Hs aes_stack Haes Hp Hn da db Hda Hdb ida idb Bia Bib Lia Lib q klen Lk w private_a private_b
    drawsA drawsB ka kb m _ _ m Ka Kb Na Nb NU (st_start _ _ _ Hpw Hv HR)) as (r & m' & E & -> & H).
  - intros x Hx. by do 2 apply list_elem_of_further.
  - apply list_elem_of_here.
  - apply list_elem_of_further, list_elem_of_here.
  - exists m'. split; [exact E|]. pose proof (λ i e, st_entry _ _ _ _ m' i e H) as He. split; [exact (He 16%nat _ eq_refl)|].
    split; [exact (He 6%nat _ eq_refl)|]. split; [exact (He 15%nat _ eq_refl)|]. split; [exact (He 17%nat _ eq_refl)|].
    split; [exact (He 18%nat _ eq_refl)|]. split; [exact (He 19%nat _ eq_refl)|]. split; [|exact (st_frame _ _ _ _ _ H)].
    repeat apply list.Forall_cons_2; [exact (He 1%nat _ eq_refl)|exact (He 3%nat _ eq_refl)|exact (He 5%nat _ eq_refl)|exact (He 8%nat _ eq_refl)|
      exact (He 10%nat _ eq_refl)|exact (He 12%nat _ eq_refl)|exact (He 14%nat _ eq_refl)|apply list.Forall_nil_2].
Qed.

(** C36: a party that is sent a pair of numbers which is not a point of the curve returns 0.
    The receiver has then written its temporary public key and nothing else, neither a key
    nor a confirmation; the initiator has written nothing. *)
Theorem sm2_key_agreement_refuses {tgt : Target} stack aes_stack cfg `{!EllipticGroup cfg} da db ida idb q klen w
    private_a private_b px py drawsB ka kb u v m :
  let F := [(kx2 w, 32); (kx2len w, 4); (ky2 w, 32); (ky2len w, 4)]%nat in
  ulong_bits = 32 → length (data stack) = 16%nat → aes_arrays aes_stack → p cfg <= 2 ^ 256 → n cfg <= 2 ^ 256 →
  0 < da < n cfg → 0 < db < n cfg → is_bytes ida → is_bytes idb →
  Z.of_nat (length ida) < 8192 → Z.of_nat (length idb) < 8192 → Z.of_nat klen < 2 ^ 31 →
  0 < ka < n cfg → draw_key cfg drawsB = Some kb → nonzero (pub (cfg := cfg) ka) → nonzero (pub (cfg := cfg) kb) →
  0 <= u < 2 ^ 256 → 0 <= v < 2 ^ 256 → epoint_set cfg u v = None →
  pairwise F → Forall (λ r, mvalid m r.1 r.2) F →
  Forall (λ r, mread m r.1 (length r.2) = Some r.2 ∧ apart F r.1 (length r.2))
    ((px, bytes32 u) :: (py, bytes32 v) :: (private_a, bytes32 da) :: (private_b, bytes32 db) ::
     (kx1 w, (coords (pub (cfg := cfg) ka)).1) :: (ky1 w, (coords (pub (cfg := cfg) ka)).2) ::
     (ra w, sealed aes_stack (bytes32 ka)) :: public_inputs (cfg := cfg) da db ida idb q) →
  (∃ m', sm2_keyagreement_b1_9 stack aes_stack cfg px 32 py 32 (qax q) 32 (qay q) 32 private_b 32 (qbx q) 32 (qby q) 32
      (qida q) (Z.of_nat (length ida)) (qidb q) (Z.of_nat (length idb)) (Z.of_nat klen)
      (kbbuf w) (kx2 w) (kx2len w) (ky2 w) (ky2len w) (xv w) (xvlen w) (yv w) (yvlen w) (sb w) drawsB m = Some (0, m') ∧ mframe F m m') ∧
  (∃ m', sm2_keyagreement_a4_10 stack aes_stack cfg (kx1 w) 32 (ky1 w) 32 (qax q) 32 (qay q) 32 private_a 32 (qbx q) 32 (qby q) 32
      (qida q) (Z.of_nat (length ida)) (qidb q) (Z.of_nat (length idb)) px 32 py 32 (ra w) 32 (Z.of_nat klen) (kabuf w) (s1 w) (sa w) m
      = Some (0, m') ∧ mframe [] m m').
Proof.
  intros F H32 Hs Haes Hp Hn Hda Hdb Bia Bib Lia Lib Lk Bka Kb Na Nb Hu Hv Hoff Hpw Hval HR.
  pose proof (st_start _ _ _ Hpw Hval HR) as H1.
  assert (st m [] (spaces []) ((px, bytes32 u) :: (py, bytes32 v) :: (private_a, bytes32 da) :: (private_b, bytes32 db) ::
     (kx1 w, (coords (pub (cfg := cfg) ka)).1) :: (ky1 w, (coords (pub (cfg := cfg) ka)).2) ::
     (ra w, sealed aes_stack (bytes32 ka)) :: public_inputs (cfg := cfg) da db ida idb q) m) as H2.
  { apply st_start; [done|by apply list.Forall_nil_2|]. eapply list.Forall_impl; [exact HR|]. intros r [Hr _]. split; [done|by apply list.Forall_nil_2]. }
  split.
  - destruct (b1_9_refused H32 stack Hs aes_stack Hp Hn da db Hdb ida idb Bia Bib Lia Lib q klen px py private_b (kbbuf w) (kx2 w)
      (kx2len w) (ky2 w) (ky2len w) (xv w) (xvlen w) (yv w) (yvlen w) (sb w) drawsB kb u v m _ _ m Kb Nb Hu Hv Hoff H1) as (r & m' & E & -> & H);
      [intros x Hx; by do 7 apply list_elem_of_further|member..|]. exists m'. split; [exact E|exact (st_frame _ _ _ _ _ H)].
  - destruct (a4_10_refused H32 stack Hs aes_stack Haes Hp Hn da db Hda ida idb Bia Bib Lia Lib q klen (kx1 w) (ky1 w) private_a px py
      (ra w) (kabuf w) (s1 w) (sa w) ka u v m _ _ m Bka Na Hu Hv Hoff H2) as (r & m' & E & -> & H);
      [intros x Hx; by do 7 apply list_elem_of_further|member..|]. exists m'. split; [exact E|exact (st_frame _ _ _ _ _ H)].
Qed.

(** ** A concrete run *)

Definition key_wires : wires := {| kx1 := Ptr 1 0; kx1len := Ptr 2 0; ky1 := Ptr 3 0; ky1len := Ptr 4 0; ra := Ptr 5 0; ralen := Ptr 6 0;
  kbbuf := Ptr 7 0; kx2 := Ptr 8 0; kx2len := Ptr 9 0; ky2 := Ptr 10 0; ky2len := Ptr 11 0; xv := Ptr 12 0; xvlen := Ptr 13 0;
  yv := Ptr 14 0; yvlen := Ptr 15 0; sb := Ptr 16 0; kabuf := Ptr 17 0; s1 := Ptr 18 0; sa := Ptr 19 0; s2 := Ptr 20 0 |}.
Definition key_parties : parties := {| qax := Ptr 21 0; qay := Ptr 22 0; qbx := Ptr 23 0; qby := Ptr 24 0; qida := Ptr 25 0; qidb := Ptr 26 0 |}.
Definition bill : list Z := [0x42; 0x49; 0x4c; 0x4c].

(** The private keys are 2 and 3, the key has 16 bytes. *)
Definition key_mem : mem :=
  let P k := epoint_get (ecurve_mult small_curve k (base small_curve)) in
  sm2_mem (((λ r, room r.2) <$> all_wires 16 key_wires) ++
    [number (P 2).1; number (P 2).2; number (P 3).1; number (P 3).2; Some <$> alice; Some <$> bill; number 2; number 3]).

Lemma sm2_key_agreement_witness :
  ∃ m' k, agreement_run (tgt := LLP64_x86) example_stack fresh_aes (cfg := small_curve) alice bill key_parties 16 key_wires
      (Ptr 27 0) (Ptr 28 0) [4] [0; 5] key_mem = Some ((1, 1), m') ∧
    mread m' (Ptr 17 0) 16 = Some k ∧ mread m' (Ptr 7 0) 16 = Some k.
Proof.
  destruct (@sm2_key_agreement LLP64_x86 example_stack fresh_aes small_curve _ 2 3 alice bill key_parties 16 key_wires
    (Ptr 27 0) (Ptr 28 0) [4] [0; 5] 4 5 key_mem) as (m' & E & R1 & R2 & _);
    [done|done|decide_by_compute..|].
  eexists m', _. split; [exact E|]. split; [exact R1|exact R2].
Defined.

(** The initiator's numbers are 2 and 4, and the peer sends (2, 2). *)
Definition refused_mem : mem :=
  let P k := epoint_get (ecurve_mult small_curve k (base small_curve)) in
  sm2_mem ([number (P 4).1; room 4; number (P 4).2; room 4; Some <$> sealed fresh_aes (bytes32 4); room 4] ++
    ((λ r, room r.2) <$> (b1_wires 16 key_wires ++ a4_wires 16 key_wires ++ b10_wires key_wires)) ++
    [number (P 2).1; number (P 2).2; number (P 3).1; number (P 3).2; Some <$> alice; Some <$> bill; number 2; number 3; number 2; number 2]).

Lemma sm2_key_agreement_refuses_witness :
  ∃ m', sm2_keyagreement_b1_9 (tgt := LLP64_x86) example_stack fresh_aes small_curve (Ptr 29 0) 32 (Ptr 30 0) 32
    (Ptr 21 0) 32 (Ptr 22 0) 32 (Ptr 28 0) 32 (Ptr 23 0) 32 (Ptr 24 0) 32 (Ptr 25 0) 16 (Ptr 26 0) 4 16 (Ptr 7 0) (Ptr 8 0) (Ptr 9 0)
    (Ptr 10 0) (Ptr 11 0) (Ptr 12 0) (Ptr 13 0) (Ptr 14 0) (Ptr 15 0) (Ptr 16 0) [5] refused_mem = Some (0, m').
Proof.
  destruct (@sm2_key_agreement_refuses LLP64_x86 example_stack fresh_aes small_curve _ 2 3 alice bill key_parties 16 key_wires
    (Ptr 27 0) (Ptr 28 0) (Ptr 29 0) (Ptr 30 0) [5] 4 5 2 2 refused_mem) as [(m' & E & _) _];
    [done|done|decide_by_compute..|].
  exists m'. exact E.
Defined.
