(* ===== verification/WrapperSm2.v ===== *)
(** * WrapperSm2: the SM2 functions of the interface ([src/CryptoWrapper.c])

    [CreateSecretKeySM2], [EncryptSM2] and [DecryptSM2] move keys between the caller's buffers
    and local arrays and call the functions modelled in [Sm2]. All the local arrays are objects
    of the memory; what the functions print is left out. The results of [sm2_encrypt] and
    [sm2_decrypt] are thrown away, which the last theorems show. *)

From S2P Require Import Prelude Mem Own Target ModeSpec Sm3 Aes MirAes Curve Sm2 Sm2Key.

(** [for (i = 0; i < n; i++) dst[i] = src[i]] *)
Fixpoint byte_copy (n : nat) (dst src : ptr) : C unit :=
  match n with
  | O => mret tt
  | S n => b ← load_byte src; store dst [b];; byte_copy n (padd dst 1) (padd src 1)
  end.

(** The value of an [int]. *)
Definition load_int (q : ptr) : C Z := bs ← load q 4; mret (to_signed 32 (le_word bs)).

Section WrapperSm2.
Context {tgt : Target} (stack : SM3_CTX) (cfg : FPECC).

Definition CreateSecretKeySM2 (public_key : ptr) (public_buffer_len : Z) (pubKey_len : ptr)
    (prive_key : ptr) (prive_buffer_len : Z) (privekey_len : ptr) (draw : Z) : C Z :=
  if decide (public_key = Null ∨ public_buffer_len < 64) then mret 0
  else if decide (prive_key = Null ∨ prive_buffer_len < 32) then mret 0
  else
    local 32 (λ pubKey_x, local 32 (λ pubKey_y, local 32 (λ privkey,
    local 4 (λ pubKey_x_len, local 4 (λ pubKey_y_len, local 4 (λ privkeylen,
      memset pubKey_x 0 32;; memset pubKey_y 0 32;; memset privkey 0 32;;
      sm2_keygen cfg pubKey_x pubKey_x_len pubKey_y pubKey_y_len privkey privkeylen draw;;
      byte_copy 32 public_key pubKey_x;;
      byte_copy 32 (padd public_key 32) pubKey_y;;
      xl ← load_int pubKey_x_len; yl ← load_int pubKey_y_len;
      store_int pubKey_len (xl + yl);;
      byte_copy 32 prive_key privkey;;
      l ← load_int privkeylen;
      store_int privekey_len l;;
      mret 1)))))).

Definition EncryptSM2 (public_key : ptr) (pubKey_len : Z) (input_data : ptr) (input_length : Z)
    (out_data output_length : ptr) (draws : list Z) : C Z :=
  if decide (public_key = Null ∨ input_data = Null ∨ out_data = Null) then mret (-1)
  else if decide (pubKey_len < 64) then mret (-1)
  else
    local 32 (λ pubKey_x, local 32 (λ pubKey_y,
      memset pubKey_x 0 32;; memset pubKey_y 0 32;;
      byte_copy 32 pubKey_x public_key;;
      byte_copy 32 pubKey_y (padd public_key 32);;
      sm2_encrypt stack cfg input_data (to_signed 32 (wrap 32 input_length)) pubKey_x 32 pubKey_y 32 out_data draws;;
      store_size output_length (input_length + 64 + 32);;
      mret 0)).

Definition DecryptSM2 (prive_key : ptr) (privekey_len : Z) (input_data : ptr) (input_length : Z)
    (out_data output_length : ptr) : C Z :=
  if decide (prive_key = Null ∨ input_data = Null ∨ out_data = Null) then mret (-1)
  else if decide (privekey_len < 32) then mret (-1)
  else
    local 32 (λ privkey,
      memset privkey 0 32;;
      byte_copy 32 privkey prive_key;;
      sm2_decrypt stack cfg input_data (to_signed 32 (wrap 32 input_length)) privkey 32 out_data;;
      store_size output_length (input_length - 96);;
      mret 0).
End WrapperSm2.

(** ** Steps *)

Lemma byte_copy_ok n : ∀ dst src m bs, mread m src n = Some bs → mvalid m dst n → pdisj dst n src n →
  ∃ m', byte_copy n dst src m = Some (tt, m') ∧ mwrite m dst bs = Some m'.
Proof.
  induction n as [|n IH]; intros dst src m bs Hr Hv Hd.
  - apply mread_length in Hr as ->%nil_length_inv. apply (mvalid_mwrite m dst []) in Hv as [m' Hm].
    exists m'. by rewrite (mwrite_nil _ _ _ Hm) in Hm |- *.
  - apply mread_cons in Hr as (b & l & -> & Hb & Hl). pose proof (mread_length _ _ _ _ Hl) as Ll.
    destruct (mvalid_store m dst [b]) as (m1 & W1 & E1); [by eapply mvalid_take; [exact Hv|cbn; lia]|].
    destruct (IH (padd dst 1) (padd src 1) m1 l) as (m' & E & W').
    + rewrite (mread_mwrite_disj _ _ _ _ _ _ W1); [done|]. apply pdisj_sym, (pdisj_sub src (S n) dst 1 1 n); [|lia].
      by apply pdisj_sym, (pdisj_take dst (S n) src (S n) 1); [|lia].
    + apply (mvalid_mwrite_iff _ _ _ _ _ _ W1), (mvalid_sub m dst (S n) 1 n); [done|lia].
    + apply (pdisj_sub dst (S n) _ _ 1 n); [|lia]. apply pdisj_sym, (pdisj_sub src (S n) _ _ 1 n); [|lia]. by apply pdisj_sym.
    + exists m'. cbn [byte_copy]. rewrite (bind_Some _ _ m b m (load_byte_Some _ _ _ Hb)), (bind_Some _ _ m tt m1 E1). split; [done|].
      change (b :: l) with ([b] ++ l). by rewrite mwrite_app, W1.
Qed.

#[local] Opaque num_bytes Sm3Spec.hash le_bytes.

Section steps.
Context {tgt : Target} (m0 : mem) (F : regions) (W : list entry) (R : list (ptr * list Z)) (m : mem) (Hst : st m0 F W R m).

Lemma wp_copy_entry i j dst src n x bs (Q : unit → mem → Prop) : W !! i = Some (Entry dst n x) → W !! j = Some (known src n bs) → i ≠ j →
  (∀ m', st m0 F (<[i := known dst n bs]> W) R m' → Q tt m') → wp (byte_copy n dst src) m Q.
Proof.
  intros Hi Hj Hne HQ. pose proof (st_entry m0 F W R m j _ Hst Hj) as Hr. cbn in Hr. pose proof (mread_length _ _ _ _ Hr) as Hl.
  eapply (wp_call m0 F); [exact Hst|exact Hi| |exact HQ]. intros V.
  destruct (byte_copy_ok n dst src m bs Hr V) as (m' & E & Hw); [exact (st_disjoint m0 F W R m i j _ _ Hst Hi Hj Hne)|].
  exists m'. split; [done|]. rewrite <- Hl. split; [by apply (mread_mwrite m)|by apply mwrite_mframe].
Qed.

Lemma wp_copy_input i dst src n x bs (Q : unit → mem → Prop) : W !! i = Some (Entry dst n x) → (src, bs) ∈ R → n = length bs →
  (∀ m', st m0 F (<[i := known dst n bs]> W) R m' → Q tt m') → wp (byte_copy n dst src) m Q.
Proof.
  intros Hi Hin -> HQ. pose proof (st_input m0 F W R m _ _ Hst Hin) as Hr.
  eapply (wp_call m0 F); [exact Hst|exact Hi| |exact HQ]. intros V.
  destruct (byte_copy_ok _ dst src m bs Hr V) as (m' & E & Hw).
  - destruct (proj1 (list.Forall_forall _ _) (st_inputs _ _ _ _ _ Hst) _ Hin) as [_ Ha].
    apply (Forall_lookup_1 _ _ i (dst, length bs) Ha). by rewrite list_lookup_fmap, Hi.
  - exists m'. split; [done|]. split; [by apply (mread_mwrite m)|by apply mwrite_mframe].
Qed.

Lemma wp_memset i q n x v (Q : unit → mem → Prop) : W !! i = Some (Entry q n x) →
  (∀ m', st m0 F (<[i := known q n (replicate n (wrap 8 v))]> W) R m' → Q tt m') → wp (memset q v n) m Q.
Proof. intros Hi HQ. apply (wp_store m0 F W R m i q n x _ _ Hst Hi (length_replicate _ _) HQ). Qed.

Lemma wp_load_int i q v (Q : Z → mem → Prop) : W !! i = Some (known q 4 (le_bytes 4 v)) → 0 <= v < 2 ^ 31 → Q v m → wp (load_int q) m Q.
Proof.
  intros Hi Hv HQ. unfold load_int. apply wp_bind, (wp_load m0 F W R m i q 4 _ _ Hst Hi), wp_ret.
  rewrite le_word_bytes. change (8 * Z.of_nat 4) with 32. by rewrite wrap_small, to_signed_small by (unfold is_word; lia).
Qed.

Lemma wp_store_size i q x v (Q : unit → mem → Prop) : W !! i = Some (Entry q size_bytes x) →
  (∀ m', st m0 F (<[i := known q size_bytes (le_bytes size_bytes (size v))]> W) R m' → Q tt m') → wp (store_size q v) m Q.
Proof. intros Hi HQ. apply (wp_store m0 F W R m i q size_bytes x _ _ Hst Hi (le_bytes_length _ _) HQ). Qed.
End steps.

Section wrapper.
Context {tgt : Target} (H32 : ulong_bits = 32) (stack : SM3_CTX) (Hstack : length (data stack) = 16%nat).
Context {cfg : FPECC} `{!EllipticGroup cfg} (Hp : p cfg <= 2 ^ 256) (Hn : n cfg <= 2 ^ 256).

(** *** Keys *)

Definition create_space (pk pkl sk skl : ptr) : regions := [(pk, 32); (padd pk 32, 32); (pkl, 4); (sk, 32); (skl, 4)]%nat.
Definition create_written (pk pkl sk skl : ptr) (d : Z) : list entry :=
  [known pk 32 (coords (pub (cfg := cfg) d)).1; known (padd pk 32) 32 (coords (pub (cfg := cfg) d)).2; known pkl 4 (le_bytes 4 64);
   known sk 32 (bytes32 d); known skl 4 (le_bytes 4 32)].

Lemma CreateSecretKeySM2_ok pk pklen pkl sk sklen skl draw m0 F R m :
  let d := bigrand cfg draw in
  64 <= pklen → 32 <= sklen → d ≠ 0 → nonzero (pub (cfg := cfg) d) →
  st m0 F (spaces (create_space pk pkl sk skl)) R m →
  wp (CreateSecretKeySM2 cfg pk pklen pkl sk sklen skl draw) m
    (λ r m', r = 1 ∧ st m0 F (create_written pk pkl sk skl d) R m').
Proof.
  intros d Hpk Hsk Hd Hnz Hst. pose proof n_pos (cfg := cfg) as Hn1. assert (0 <= d < n cfg) as Bd by (apply Z.mod_pos_bound; lia).
  destruct (nonzero_coords cfg (pub d) (pub_on_curve d) Hp Hnz) as [Bx By].
  unfold CreateSecretKeySM2. rewrite decide_False by (pose proof (st_not_null _ _ _ _ _ 0 _ _ _ Hst eq_refl); naive_solver lia).
  rewrite decide_False by (pose proof (st_not_null _ _ _ _ _ 3 _ _ _ Hst eq_refl); naive_solver lia).
  set (out := create_written pk pkl sk skl d). unfold spaces, create_space in Hst. cbn [fmap list_fmap fst snd] in Hst.
  set (P := coords (pub (cfg := cfg) d)).
  eapply (wp_local m0 F 32 _ _ out); [exact Hst|done|]. clear Hst. intros x m1 H1.
  eapply (wp_local m0 F 32 _ _ (known x 32 P.1 :: out)); [exact H1|done|]. clear H1. intros y m2 H2.
  eapply (wp_local m0 F 32 _ _ (known y 32 P.2 :: known x 32 P.1 :: out)); [exact H2|done|]. clear H2. intros k m3 H3.
  eapply (wp_local m0 F 4 _ _ (known k 32 (bytes32 d) :: known y 32 P.2 :: known x 32 P.1 :: out)); [exact H3|done|]. clear H3. intros xl m4 H4.
  eapply (wp_local m0 F 4 _ _ (known xl 4 (le_bytes 4 32) :: known k 32 (bytes32 d) :: known y 32 P.2 :: known x 32 P.1 :: out)); [exact H4|done|].
  clear H4. intros yl m5 H5.
  eapply (wp_local m0 F 4 _ _ (known yl 4 (le_bytes 4 32) :: known xl 4 (le_bytes 4 32) :: known k 32 (bytes32 d) :: known y 32 P.2 :: known x 32 P.1 :: out));
    [exact H5|done|]. clear H5. intros kl m6 H6.
  apply wp_bind. apply (wp_memset m0 F _ R m6 H6 5 x 32 None _ _ eq_refl). wrote m7 H7 H6.
  apply wp_bind. apply (wp_memset m0 F _ R m7 H7 4 y 32 None _ _ eq_refl). wrote m8 H8 H7.
  apply wp_bind. apply (wp_memset m0 F _ R m8 H8 3 k 32 None _ _ eq_refl). wrote m9 H9 H8.
  apply wp_bind. unfold sm2_keygen. fold d. fold (pub (cfg := cfg) d). rewrite (surjective_pairing (epoint_get (pub d))).
  apply wp_bind. apply (wp_put m0 F _ R m9 H9 5 x _ _ _ eq_refl Bx). wrote m10 H10 H9.
  apply wp_bind. apply (wp_store_int m0 F _ R m10 H10 2 xl None _ _ eq_refl). wrote m11 H11 H10.
  apply wp_bind. apply (wp_put m0 F _ R m11 H11 4 y _ _ _ eq_refl By). wrote m12 H12 H11.
  apply wp_bind. apply (wp_store_int m0 F _ R m12 H12 1 yl None _ _ eq_refl). wrote m13 H13 H12.
  apply wp_bind. apply (wp_put m0 F _ R m13 H13 3 k _ _ _ eq_refl); [lia|]. wrote m14 H14 H13.
  apply (wp_store_int m0 F _ R m14 H14 0 kl None _ _ eq_refl). wrote m15 H15 H14.
  apply wp_bind. apply (wp_copy_entry m0 F _ R m15 H15 6 5 pk x 32 None _ _ eq_refl eq_refl); [done|]. wrote m16 H16 H15.
  apply wp_bind. apply (wp_copy_entry m0 F _ R m16 H16 7 4 (padd pk 32) y 32 None _ _ eq_refl eq_refl); [done|]. wrote m17 H17 H16.
  apply wp_bind. apply (wp_load_int m0 F _ R m17 H17 2 xl 32 _ eq_refl); [done|].
  apply wp_bind. apply (wp_load_int m0 F _ R m17 H17 1 yl 32 _ eq_refl); [done|].
  apply wp_bind. apply (wp_store_int m0 F _ R m17 H17 8 pkl None _ _ eq_refl). wrote m18 H18 H17.
  apply wp_bind. apply (wp_copy_entry m0 F _ R m18 H18 9 3 sk k 32 None _ _ eq_refl eq_refl); [done|]. wrote m19 H19 H18.
  apply wp_bind. apply (wp_load_int m0 F _ R m19 H19 0 kl 32 _ eq_refl); [done|].
  apply wp_bind. apply (wp_store_int m0 F _ R m19 H19 10 skl None _ _ eq_refl). wrote m20 H20 H19.
  apply wp_ret.
  do 6 (split; [eexists _, _, []; exact H20|]; clear m20 H20; intros m20 H20). done.
Qed.

(** *** Messages *)

Context (d : Z) (Hd : 0 < d < n cfg) (ms : list Z) (Hms : is_bytes ms) (Lms : Z.of_nat (length ms) + 96 < 2 ^ 31) (Ems : ms ≠ []).
Abbreviation L := (length ms).

Lemma int_length : to_signed 32 (wrap 32 (Z.of_nat L)) = Z.of_nat L ∧ to_signed 32 (wrap 32 (Z.of_nat L + 96)) = Z.of_nat L + 96.
Proof. split; (rewrite wrap_small by (unfold is_word; lia)); apply to_signed_small; lia. Qed.

(** What makes the ciphertext made with [j] one that can be opened. *)
Definition drawn_ok (j : Z) : Prop := 0 < j ∧ j mod n cfg ≠ 0 ∧ nonzero (ecurve_mult cfg j (pub (cfg := cfg) d)) ∧
  usable (stream cfg j (pub (cfg := cfg) d) L) = true.

Lemma EncryptSM2_ok pk pklen msg out outl draws j m0 F R m :
  64 <= pklen → no_zero cfg (pub (cfg := cfg) d) 1 draws → encrypt_draw cfg (pub (cfg := cfg) d) L 1 draws = Some j →
  st m0 F [space out (96 + L); space outl size_bytes] R m →
  (msg, ms) ∈ R → (pk, (coords (pub (cfg := cfg) d)).1) ∈ R → (padd pk 32, (coords (pub (cfg := cfg) d)).2) ∈ R →
  wp (EncryptSM2 stack cfg pk pklen msg (Z.of_nat L) out outl draws) m
    (λ r m', (r = 0 ∧ drawn_ok j) ∧ st m0 F [known out (96 + L) (sm2_ciphertext cfg j (pub (cfg := cfg) d) ms);
      known outl size_bytes (le_bytes size_bytes (size (Z.of_nat L + 96)))] R m').
Proof.
  intros Hpk Hnz Hj Hst Im Ix Iy. destruct (coords_bytes (pub (cfg := cfg) d)) as (Lx & Ly & _).
  set (P := coords (pub (cfg := cfg) d)) in *. set (res := [known out _ _; known outl _ _]).
  assert (pk ≠ Null) as Npk by (apply (st_input_not_null _ _ _ _ _ _ _ Hst Ix); by intros E; rewrite E in Lx).
  pose proof (st_input_not_null _ _ _ _ _ _ _ Hst Im Ems) as Nm. pose proof (st_not_null _ _ _ _ _ 0 _ _ _ Hst eq_refl) as No.
  unfold EncryptSM2. rewrite decide_False by naive_solver. rewrite decide_False by lia.
  eapply (wp_local m0 F 32 _ _ res); [exact Hst|done|]. clear Hst. intros x m1 H1.
  eapply (wp_local m0 F 32 _ _ (known x 32 P.1 :: res)); [exact H1|done|]. clear H1. intros y m2 H2.
  apply wp_bind. apply (wp_memset m0 F _ R m2 H2 1 x 32 None _ _ eq_refl). wrote m3 H3 H2.
  apply wp_bind. apply (wp_memset m0 F _ R m3 H3 0 y 32 None _ _ eq_refl). wrote m4 H4 H3.
  apply wp_bind. apply (wp_copy_input m0 F _ R m4 H4 1 x pk 32 _ P.1 _ eq_refl Ix); [done|]. wrote m5 H5 H4.
  apply wp_bind. apply (wp_copy_input m0 F _ R m5 H5 0 y (padd pk 32) 32 _ P.2 _ eq_refl Iy); [done|]. wrote m6 H6 H5.
  rewrite (proj1 int_length).
  destruct (sm2_encrypt_ok H32 stack Hstack Hp d Hd msg x y out draws j ms m6) as (J1 & J2 & J3 & J4 & Henc);
    [done|done|exact (st_input m0 F _ R m6 _ _ H6 Im)|exact (st_entry m0 F _ R m6 1 _ H6 eq_refl)|exact (st_entry m0 F _ R m6 0 _ H6 eq_refl)
    |exact (entry_ok_valid _ _ (st_entry m0 F _ R m6 2 _ H6 eq_refl))|exact (st_input_apart m0 F _ R m6 2 _ _ _ _ _ H6 eq_refl Im)|done|done|].
  apply wp_bind. apply (wp_call m0 F _ _ R m6 2 out (96 + L) None (Z.of_nat L + 96) (sm2_ciphertext cfg j (pub (cfg := cfg) d) ms) _ H6 eq_refl).
  { intros _. exact Henc. }
  wrote m7 H7 H6.
  apply wp_bind. apply (wp_store_size m0 F _ R m7 H7 3 outl None _ _ eq_refl). wrote m8 H8 H7.
  replace (Z.of_nat L + 64 + 32) with (Z.of_nat L + 96) in H8 by lia.
  apply wp_ret. do 2 (split; [eexists _, _, []; exact H8|]; clear m8 H8; intros m8 H8). done.
Qed.

Lemma DecryptSM2_ok sk sklen c out outl j m0 F R m :
  32 <= sklen → drawn_ok j →
  st m0 F [space out L; space outl size_bytes] R m →
  (c, sm2_ciphertext cfg j (pub (cfg := cfg) d) ms) ∈ R → length (sm2_ciphertext cfg j (pub (cfg := cfg) d) ms) = (96 + L)%nat → (sk, bytes32 d) ∈ R →
  wp (DecryptSM2 stack cfg sk sklen c (Z.of_nat L + 96) out outl) m
    (λ r m', r = 0 ∧ st m0 F [known out L ms; known outl size_bytes (le_bytes size_bytes (size (Z.of_nat L)))] R m').
Proof.
  intros Hsk (Hj & Hjn & HN & Hu) Hst Ic Lc Ik. set (res := [known out _ _; known outl _ _]).
  pose proof (num_bytes_length 32 d) as Lk.
  assert (sk ≠ Null) as Nk by (apply (st_input_not_null _ _ _ _ _ _ _ Hst Ik); by intros E; rewrite E in Lk).
  assert (c ≠ Null) as Nc by (apply (st_input_not_null _ _ _ _ _ _ _ Hst Ic); by intros E; rewrite E in Lc).
  pose proof (st_not_null _ _ _ _ _ 0 _ _ _ Hst eq_refl) as No.
  unfold DecryptSM2. rewrite decide_False by naive_solver. rewrite decide_False by lia.
  eapply (wp_local m0 F 32 _ _ res); [exact Hst|done|]. clear Hst. intros k m1 H1.
  apply wp_bind. apply (wp_memset m0 F _ R m1 H1 0 k 32 None _ _ eq_refl). wrote m2 H2 H1.
  apply wp_bind. apply (wp_copy_input m0 F _ R m2 H2 0 k sk 32 _ _ _ eq_refl Ik); [done|]. wrote m3 H3 H2.
  rewrite (proj2 int_length).
  apply wp_bind. apply (wp_call m0 F _ _ R m3 1 out L None (Z.of_nat L) ms _ H3 eq_refl).
  { intros V. apply (sm2_decrypt_ok H32 stack Hstack Hp d Hd c k out j ms m3); [done|done|done|done|lia|done|done| | |done|].
    - rewrite <- Lc. exact (st_input m0 F _ R m3 _ _ H3 Ic).
    - exact (st_entry m0 F _ R m3 0 _ H3 eq_refl).
    - rewrite <- Lc. exact (st_input_apart m0 F _ R m3 1 _ _ _ _ _ H3 eq_refl Ic). }
  wrote m4 H4 H3.
  apply wp_bind. apply (wp_store_size m0 F _ R m4 H4 2 outl None _ _ eq_refl). wrote m5 H5 H4.
  replace (Z.of_nat L + 96 - 96) with (Z.of_nat L) in H5 by lia.
  apply wp_ret. split; [eexists _, _, []; exact H5|]. done.
Qed.
End wrapper.

(** *** Failures *)

Section failures.
Context {tgt : Target} (stack : SM3_CTX) {cfg : FPECC}.

Lemma st_number m0 F W R m q v : st m0 F W R m → (q, bytes32 v) ∈ R → mread m q 32 = Some (bytes32 v).
Proof. intros Hs Hi. rewrite <- (num_bytes_length 32 v) at 1. by apply (st_input m0 F W R m). Qed.

Lemma DecryptSM2_failure_ok sk sklen c len out outl ks m0 F R m :
  32 <= sklen → 0 <= len < 2 ^ 31 → sk ≠ Null → c ≠ Null → out ≠ Null → is_bytes ks → length ks = 32%nat → (sk, ks) ∈ R →
  len < 96 ∨ (∃ u v, 0 <= u < 2 ^ 256 ∧ 0 <= v < 2 ^ 256 ∧ epoint_set cfg u v = None ∧ (c, bytes32 u) ∈ R ∧ (padd c 32, bytes32 v) ∈ R) →
  st m0 F [space outl size_bytes] R m →
  wp (DecryptSM2 stack cfg sk sklen c len out outl) m
    (λ r m', r = 0 ∧ st m0 F [known outl size_bytes (le_bytes size_bytes (size (len - 96)))] R m').
Proof.
  intros Hsk Hlen Nk Nc No Bk Lk Ik Hbad Hst. set (res := [known outl _ _]). unfold DecryptSM2.
  rewrite decide_False by naive_solver. rewrite decide_False by lia.
  eapply (wp_local m0 F 32 _ _ res); [exact Hst|done|]. clear Hst. intros k m1 H1.
  apply wp_bind. apply (wp_memset m0 F _ R m1 H1 0 k 32 None _ _ eq_refl). wrote m2 H2 H1.
  apply wp_bind. apply (wp_copy_input m0 F _ R m2 H2 0 k sk 32 _ _ _ eq_refl Ik); [done|]. wrote m3 H3 H2.
  rewrite wrap_small, to_signed_small by (unfold is_word; lia).
  apply wp_bind. assert (∃ r, sm2_decrypt stack cfg c len k 32 out m3 = Some (r, m3)) as [r E].
  { unfold sm2_decrypt. case_decide as Hs; [by eexists|]. destruct Hbad as [?|(u & v & Bu & Bv & Hoff & Iu & Iv)]; [done|].
    rewrite (bind_Some _ _ m3 (be_num ks) m3 (bytes_to_big_ok 32 k m3 ks (st_entry m0 F _ R m3 0 _ H3 eq_refl) Bk ltac:(lia))).
    rewrite (bind_Some _ _ m3 u m3 (bytes_to_big_32 c m3 u (st_number _ _ _ _ _ _ _ H3 Iu) Bu)).
    rewrite (bind_Some _ _ m3 v m3 (bytes_to_big_32 (padd c 32) m3 v (st_number _ _ _ _ _ _ _ H3 Iv) Bv)).
    rewrite Hoff. by eexists. }
  apply (wp_step _ _ r m3); [exact E|].
  apply wp_bind. apply (wp_store_size m0 F _ R m3 H3 1 outl None _ _ eq_refl). wrote m4 H4 H3.
  apply wp_ret. split; [eexists _, _, []; exact H4|]. done.
Qed.

Context `{!EllipticGroup cfg} (Hp : p cfg <= 2 ^ 256).

Lemma EncryptSM2_failure_ok pk pklen msg n out outl u v dr draws m0 F R m :
  64 <= pklen → 0 <= n < 2 ^ 31 → pk ≠ Null → msg ≠ Null → bigrand cfg dr ≠ 0 → nonzero (pub (cfg := cfg) (bigrand cfg dr)) →
  0 <= u < 2 ^ 256 → 0 <= v < 2 ^ 256 → epoint_set cfg u v = None →
  st m0 F [space out 64; space outl size_bytes] R m → (pk, bytes32 u) ∈ R → (padd pk 32, bytes32 v) ∈ R →
  wp (EncryptSM2 stack cfg pk pklen msg n out outl (dr :: draws)) m
    (λ r m', r = 0 ∧ st m0 F [known out 64 ((coords (pub (cfg := cfg) (bigrand cfg dr))).1 ++ (coords (pub (cfg := cfg) (bigrand cfg dr))).2);
      known outl size_bytes (le_bytes size_bytes (size (n + 96)))] R m').
Proof.
  intros Hpk Hlen Nk Nm Hk Hnz Bu Bv Hoff Hst Iu Iv. pose proof (num_bytes_length 32) as LN.
  set (k := bigrand cfg dr) in *. set (P := coords (pub (cfg := cfg) k)) in *. set (res := [known out _ _; known outl _ _]).
  pose proof (st_not_null _ _ _ _ _ 0 _ _ _ Hst eq_refl) as No.
  unfold EncryptSM2. rewrite decide_False by naive_solver. rewrite decide_False by lia.
  eapply (wp_local m0 F 32 _ _ res); [exact Hst|done|]. clear Hst. intros x m1 H1.
  eapply (wp_local m0 F 32 _ _ (known x 32 (bytes32 u) :: res)); [exact H1|done|]. clear H1. intros y m2 H2.
  apply wp_bind. apply (wp_memset m0 F _ R m2 H2 1 x 32 None _ _ eq_refl). wrote m3 H3 H2.
  apply wp_bind. apply (wp_memset m0 F _ R m3 H3 0 y 32 None _ _ eq_refl). wrote m4 H4 H3.
  apply wp_bind. apply (wp_copy_input m0 F _ R m4 H4 1 x pk 32 _ _ _ eq_refl Iu); [done|]. wrote m5 H5 H4.
  apply wp_bind. apply (wp_copy_input m0 F _ R m5 H5 0 y (padd pk 32) 32 _ _ _ eq_refl Iv); [done|]. wrote m6 H6 H5.
  apply wp_bind. apply (wp_call m0 F _ _ R m6 2 out 64 None (-1) (P.1 ++ P.2) _ H6 eq_refl).
  { intros V. destruct (put_point_ok Hp (pub (cfg := cfg) k) out m6) as (m7 & m8 & E1 & E2 & Hw); [apply pub_on_curve|done|done|].
    exists m8. split.
    { unfold sm2_encrypt. rewrite (bind_Some _ _ m6 (inr (-1)) m8); [done|]. unfold sm2_encrypt_run.
      rewrite (bind_Some _ _ m6 u m6 (bytes_to_big_32 x m6 u (st_entry m0 F _ R m6 1 _ H6 eq_refl) Bu)).
      rewrite (bind_Some _ _ m6 v m6 (bytes_to_big_32 y m6 v (st_entry m0 F _ R m6 0 _ H6 eq_refl) Bv)).
      rewrite Hoff. cbn [default encrypt_loop]. fold k. rewrite decide_False by done.
      rewrite (bind_Some _ _ m6 (inr (-1)) m8); [done|]. unfold encrypt_turn. fold (pub (cfg := cfg) k).
      rewrite (surjective_pairing (epoint_get (pub k))).
      by rewrite (bind_Some _ _ m6 32 m7 E1), (bind_Some _ _ m7 32 m8 E2). }
    assert (length (P.1 ++ P.2) = 64%nat) as LP by (unfold P, coords; cbn [fst snd]; by rewrite length_app, !LN).
    change (mwrite m6 out (P.1 ++ P.2) = Some m8) in Hw. rewrite <- LP. split; [by apply (mread_mwrite m6)|by apply mwrite_mframe]. }
  wrote m7 H7 H6.
  apply wp_bind. apply (wp_store_size m0 F _ R m7 H7 3 outl None _ _ eq_refl). wrote m8 H8 H7.
  replace (n + 64 + 32) with (n + 96) in H8 by lia.
  apply wp_ret. do 2 (split; [eexists _, _, []; exact H8|]; clear m8 H8; intros m8 H8). done.
Qed.
End failures.

(** C8: a message encrypted by [EncryptSM2] with the public key of a pair made by
    [CreateSecretKeySM2] is given back by [DecryptSM2] with the private key, bytes and length,
    for every message that is not empty and as long as no number drawn gives a zero coordinate;
    the key pair is the number drawn and its multiple of the base point, the ciphertext is the
    one of the standard, all lengths are those written and nothing else in memory changes. *)
Theorem sm2_interface_roundtrip {tgt : Target} stack cfg `{!EllipticGroup cfg} pk pkl sk skl msg out outl plain plainl ms draw draws j m :
  let L := length ms in let d := bigrand cfg draw in let P := ecurve_mult cfg d (base cfg) in
  let F := create_space pk pkl sk skl ++ [(out, 96 + L); (outl, size_bytes)]%nat ++ [(plain, L); (plainl, size_bytes)] in
  ulong_bits = 32 → length (data stack) = 16%nat → p cfg <= 2 ^ 256 → n cfg <= 2 ^ 256 →
  d ≠ 0 → nonzero P → is_bytes ms → Z.of_nat L + 96 < 2 ^ 31 → ms ≠ [] →
  no_zero cfg P 1 draws → encrypt_draw cfg P L 1 draws = Some j →
  pairwise F → Forall (λ r, mvalid m r.1 r.2) F → mread m msg L = Some ms → apart F msg L →
  ∃ m1 m2 m3,
    CreateSecretKeySM2 cfg pk 64 pkl sk 32 skl draw m = Some (1, m1) ∧
    EncryptSM2 stack cfg pk 64 msg (Z.of_nat L) out outl draws m1 = Some (0, m2) ∧
    DecryptSM2 stack cfg sk 32 out (Z.of_nat L + 96) plain plainl m2 = Some (0, m3) ∧
    mread m3 plain L = Some ms ∧ mread m3 plainl size_bytes = Some (le_bytes size_bytes (size (Z.of_nat L))) ∧
    mread m3 out (96 + L) = Some (sm2_ciphertext cfg j P ms) ∧ mread m3 outl size_bytes = Some (le_bytes size_bytes (size (Z.of_nat L + 96))) ∧
    mread m3 pk 64 = Some (bytes32 (epoint_get P).1 ++ bytes32 (epoint_get P).2) ∧ mread m3 pkl 4 = Some (le_bytes 4 64) ∧
    mread m3 sk 32 = Some (bytes32 d) ∧ mread m3 skl 4 = Some (le_bytes 4 32) ∧ mframe F m m3.
Proof.
  intros L d P F H32 Hs Hp Hn Hd0 HP Hms HL Ems Hnz Hj Hpw Hv Hmsg Hap. pose proof n_pos (cfg := cfg) as Hn1.
  assert (0 < d < n cfg) as Hd by (pose proof (Z.mod_pos_bound draw (n cfg) ltac:(lia)); unfold d, bigrand in *; lia).
  assert (st m F (spaces F) [(msg, ms)] m) as H0 by (apply st_start; [done|done|by apply list.Forall_singleton]).
  set (keys := create_written (cfg := cfg) pk pkl sk skl d).
  set (sealed := [known out (96 + L) (sm2_ciphertext cfg j P ms); known outl size_bytes (le_bytes size_bytes (size (Z.of_nat L + 96)))]).
  set (opened := [known plain L ms; known plainl size_bytes (le_bytes size_bytes (size (Z.of_nat L)))]).
  destruct (run_focus (CreateSecretKeySM2 cfg pk 64 pkl sk 32 skl draw) m F [] (spaces (create_space pk pkl sk skl)) keys
    _ [(msg, ms)] m (λ r, r = 1) H0 eq_refl) as (r1 & m1 & E1 & -> & H1).
  { intros H. eapply CreateSecretKeySM2_ok; done. }
  clear H0. destruct (run_focus (EncryptSM2 stack cfg pk 64 msg (Z.of_nat L) out outl draws) m F keys
    [space out (96 + L); space outl size_bytes] sealed _ [(msg, ms)] m1 (λ r, r = 0 ∧ drawn_ok (cfg := cfg) d ms j) H1 eq_refl) as (r2 & m2 & E2 & [-> Hdr] & H2).
  { intros H. apply (EncryptSM2_ok H32 stack Hs Hp d Hd ms Hms HL Ems _ _ _ _ _ _ j _ _ _ _ ltac:(done) Hnz Hj H); unfold keys;
      cbn [create_written inputs_of omap list_omap econt eptr app]; member. }
  clear H1. rewrite app_assoc in H2.
  destruct (run_focus (DecryptSM2 stack cfg sk 32 out (Z.of_nat L + 96) plain plainl) m F (keys ++ sealed) [space plain L; space plainl size_bytes] opened
    [] [(msg, ms)] m2 (λ r, r = 0) H2 eq_refl) as (r3 & m3 & E3 & -> & H3).
  { intros H. pose proof (mread_length _ _ _ _ (st_entry _ _ _ _ _ 5 _ H2 eq_refl)) as Lc.
    apply (DecryptSM2_ok H32 stack Hs Hp Hn d Hd ms Hms HL _ _ _ _ _ j _ _ _ _ ltac:(done) Hdr H); unfold keys, sealed;
      cbn [create_written inputs_of omap list_omap econt eptr app]; [member|exact Lc|member]. }
  clear H2. pose proof (λ i e, st_entry _ _ _ _ m3 i e H3) as He.
  exists m1, m2, m3. split; [exact E1|]. split; [exact E2|]. split; [exact E3|].
  split; [exact (He 7%nat _ eq_refl)|]. split; [exact (He 8%nat _ eq_refl)|]. split; [exact (He 5%nat _ eq_refl)|].
  split; [exact (He 6%nat _ eq_refl)|]. split; [exact (mread_join _ _ 32 32 _ _ (He 0%nat _ eq_refl) (He 1%nat _ eq_refl))|].
  split; [exact (He 2%nat _ eq_refl)|]. split; [exact (He 3%nat _ eq_refl)|]. split; [exact (He 4%nat _ eq_refl)|exact (st_frame _ _ _ _ _ H3)].
Qed.

(** C37: [DecryptSM2] reports success for a ciphertext that [sm2_decrypt] rejects: one shorter
    than 96 bytes, or one whose first 64 bytes are not a point of the curve. It writes nothing
    but [*output_length], which becomes the length less 96, a value near the largest [size_t]
    for the short ones. *)
Theorem DecryptSM2_hides_failure {tgt : Target} stack cfg sk sklen c len out outl ks u v m :
  32 <= sklen → 0 <= len < 2 ^ 31 → c ≠ Null → out ≠ Null → is_bytes ks → length ks = 32%nat →
  mread m sk 32 = Some ks → apart [(outl, size_bytes)] sk 32 → mvalid m outl size_bytes →
  len < 96 ∨ (0 <= u < 2 ^ 256 ∧ 0 <= v < 2 ^ 256 ∧ epoint_set cfg u v = None ∧
    mread m c 64 = Some (bytes32 u ++ bytes32 v) ∧ apart [(outl, size_bytes)] c 64) →
  ∃ m', DecryptSM2 stack cfg sk sklen c len out outl m = Some (0, m') ∧
    mread m' outl size_bytes = Some (le_bytes size_bytes (size (len - 96))) ∧
    (len < 96 → size (len - 96) = 2 ^ size_bits - (96 - len)) ∧ mframe [(outl, size_bytes)] m m'.
Proof.
  intros Hsk Hlen Nc No Bk Lk Rk Ak Hv Hbad. pose proof (num_bytes_length 32) as LN.
  assert (sk ≠ Null) as Nk by (apply mread_mvalid in Rk; by intros ->).
  set (R := (sk, ks) :: if decide (len < 96) then [] else [(c, bytes32 u); (padd c 32, bytes32 v)]).
  assert (st m [(outl, size_bytes)] (spaces [(outl, size_bytes)]) R m) as H.
  { apply st_start; [done|by apply list.Forall_singleton|]. unfold R. apply list.Forall_cons_2; [cbn [fst snd]; by rewrite Lk|]. case_decide as Hs; [done|].
    destruct Hbad as [?|(_ & _ & _ & Rc & Ac)]; [done|]. apply apart_1 in Ac.
    assert (mread m c 32 = Some (bytes32 u) ∧ mread m (padd c 32) 32 = Some (bytes32 v)) as [R1 R2].
    { apply (mread_split m c 32 32) in Rc as (b1 & b2 & E & Lb & R1 & R2). by apply app_inj_1 in E as [-> ->]; [|rewrite LN]. }
    repeat apply list.Forall_cons_2; [| |done]; cbn [fst snd]; rewrite LN; (split; [done|]); apply apart_1.
    - apply pdisj_sym, (pdisj_take c 64); [by apply pdisj_sym|lia].
    - apply pdisj_sym, (pdisj_sub c 64 _ _ 32 32); [by apply pdisj_sym|lia]. }
  destruct (DecryptSM2_failure_ok (cfg := cfg) stack sk sklen c len out outl ks m [(outl, size_bytes)] R m) as (r & m' & E & -> & H');
    [done|done|done|done|done|done|done|apply list_elem_of_here| |exact H|].
  { destruct (decide (len < 96)) as [Hs|Hs]; [by left|right]. destruct Hbad as [?|(Bu & Bv & Hoff & _)]; [done|].
    exists u, v. do 3 (split; [done|]). split; [apply list_elem_of_further, list_elem_of_here|].
    do 2 apply list_elem_of_further. apply list_elem_of_here. }
  exists m'. split; [exact E|]. split; [exact (st_entry _ _ _ _ _ 0 _ H' eq_refl)|]. split; [|exact (st_frame _ _ _ _ _ H')].
  intros Hs. unfold size, wrap. pose proof size_bits_32 as Hb. pose proof (Z.pow_le_mono_r 2 32 size_bits ltac:(lia) Hb).
  rewrite <- (Z.mod_small (2 ^ size_bits - (96 - len)) (2 ^ size_bits)) by lia.
  replace (2 ^ size_bits - (96 - len)) with (len - 96 + 1 * 2 ^ size_bits) by lia. by rewrite Z.mod_add by lia.
Qed.

(** [EncryptSM2] reports success for a public key that is not a point of the curve: it
    writes the first 64 bytes of the output, which do not depend on the message, and announces
    the length of a whole ciphertext. *)
Theorem EncryptSM2_hides_failure {tgt : Target} stack cfg `{!EllipticGroup cfg} pk pklen msg len out outl u v dr draws m :
  let F := [(out, 64%nat); (outl, size_bytes)] in let P := ecurve_mult cfg (bigrand cfg dr) (base cfg) in
  p cfg <= 2 ^ 256 → 64 <= pklen → 0 <= len < 2 ^ 31 → msg ≠ Null → bigrand cfg dr ≠ 0 → nonzero P →
  0 <= u < 2 ^ 256 → 0 <= v < 2 ^ 256 → epoint_set cfg u v = None →
  mread m pk 64 = Some (bytes32 u ++ bytes32 v) → apart F pk 64 → pairwise F → Forall (λ r, mvalid m r.1 r.2) F →
  ∃ m', EncryptSM2 stack cfg pk pklen msg len out outl (dr :: draws) m = Some (0, m') ∧
    mread m' out 64 = Some (bytes32 (epoint_get P).1 ++ bytes32 (epoint_get P).2) ∧
    mread m' outl size_bytes = Some (le_bytes size_bytes (size (len + 96))) ∧ mframe F m m'.
Proof.
  intros F P Hp Hpk Hlen Nm Hk HP Bu Bv Hoff Rpk Apk Hpw Hv. pose proof (num_bytes_length 32) as LN.
  assert (pk ≠ Null) as Nk by (apply mread_mvalid in Rpk; by intros ->).
  assert (mread m pk 32 = Some (bytes32 u) ∧ mread m (padd pk 32) 32 = Some (bytes32 v)) as [R1 R2].
  { apply (mread_split m pk 32 32) in Rpk as (b1 & b2 & E & Lb & R1 & R2). by apply app_inj_1 in E as [-> ->]; [|rewrite LN]. }
  assert (st m F (spaces F) [(pk, bytes32 u); (padd pk 32, bytes32 v)] m) as H.
  { apply st_start; [done|done|]. repeat (apply list.Forall_cons_2; [|]); [| |done]; cbn [fst snd]; rewrite LN; (split; [done|]);
      (eapply list.Forall_impl; [exact Apk|]); intros r Hr; apply pdisj_sym.
    - apply (pdisj_take _ 64); [by apply pdisj_sym|lia].
    - apply (pdisj_sub pk 64 _ _ 32 32); [by apply pdisj_sym|lia]. }
  destruct (EncryptSM2_failure_ok (cfg := cfg) stack Hp pk pklen msg len out outl u v dr draws m F [(pk, bytes32 u); (padd pk 32, bytes32 v)] m)
    as (r & m' & E & -> & H'); [done..|apply list_elem_of_here|apply list_elem_of_further, list_elem_of_here|].
  exists m'. split; [exact E|]. split; [exact (st_entry _ _ _ _ _ 0 _ H' eq_refl)|].
  split; [exact (st_entry _ _ _ _ _ 1 _ H' eq_refl)|exact (st_frame _ _ _ _ _ H')].
Qed.

(** ** Concrete runs *)

(** The message "abc" for the key pair made from the number 2; the objects are those of the
    theorem in order. *)
Definition interface_mem : mem :=
  sm2_mem [room 64; room 4; room 32; room 4; room 99; room 8; room 3; room 8; Some <$> abc].

Lemma sm2_interface_roundtrip_witness :
  ∃ m1 m2 m3,
    CreateSecretKeySM2 small_curve (Ptr 1 0) 64 (Ptr 2 0) (Ptr 3 0) 32 (Ptr 4 0) 2 interface_mem = Some (1, m1) ∧
    EncryptSM2 (tgt := LLP64_x86) example_stack small_curve (Ptr 1 0) 64 (Ptr 9 0) 3 (Ptr 5 0) (Ptr 6 0) [0; 4] m1 = Some (0, m2) ∧
    DecryptSM2 (tgt := LLP64_x86) example_stack small_curve (Ptr 3 0) 32 (Ptr 5 0) 99 (Ptr 7 0) (Ptr 8 0) m2 = Some (0, m3) ∧
    mread m3 (Ptr 7 0) 3 = Some abc.
Proof.
  destruct (@sm2_interface_roundtrip LLP64_x86 example_stack small_curve _ (Ptr 1 0) (Ptr 2 0) (Ptr 3 0) (Ptr 4 0) (Ptr 9 0) (Ptr 5 0)
    (Ptr 6 0) (Ptr 7 0) (Ptr 8 0) abc 2 [0; 4] 4 interface_mem) as (m1 & m2 & m3 & E1 & E2 & E3 & R & _);
    [done|done|decide_by_compute..|].
  exists m1, m2, m3. split; [exact E1|]. split; [exact E2|]. split; [exact E3|exact R].
Defined.

Definition failure_mem : mem :=
  sm2_mem [number 2; Some <$> bytes32 2 ++ bytes32 2; room 64; room 8].

Lemma DecryptSM2_hides_failure_witness :
  ∃ m', DecryptSM2 (tgt := LLP64_x86) example_stack small_curve (Ptr 1 0) 32 (Ptr 2 0) 95 (Ptr 3 0) (Ptr 4 0) failure_mem = Some (0, m') ∧
    mread m' (Ptr 4 0) 8 = Some (replicate 8 255).
Proof.
  destruct (@DecryptSM2_hides_failure LLP64_x86 example_stack small_curve (Ptr 1 0) 32 (Ptr 2 0) 95 (Ptr 3 0) (Ptr 4 0) (bytes32 2) 2 2
    failure_mem) as (m' & E & R & _); [done|done|done|done|decide_by_compute|done|decide_by_compute..|by left|].
  exists m'. split; [exact E|]. exact R.
Defined.

Lemma EncryptSM2_hides_failure_witness :
  ∃ m', EncryptSM2 (tgt := LLP64_x86) example_stack small_curve (Ptr 2 0) 64 (Ptr 1 0) 3 (Ptr 3 0) (Ptr 4 0) [4] failure_mem = Some (0, m').
Proof.
  destruct (@EncryptSM2_hides_failure LLP64_x86 example_stack small_curve _ (Ptr 2 0) 64 (Ptr 1 0) 3 (Ptr 3 0) (Ptr 4 0) 2 2 4 []
    failure_mem) as (m' & E & _); [done|done|done|done|decide_by_compute..|].
  exists m'. exact E.
Defined.
