(* ===== verification/BigNum.v ===== *)
(** * BigNum: the numbers of MIRACL and what [mrcore.c] does with them

    A [big] is a length, with the sign in its highest bit, and an array of words of 32 bits,
    the lowest first; the words above the length are zero. [mirsys(20, 0)], the only call in
    the program, chooses full words ([base] is 0) and 21 of them ([nib]), and as many in every
    variable; some of the work space has twice as many. A variable is a name, so that the
    arguments of a function may be the same variable, as the code allows. The trace of calls
    ([MR_IN], [MR_OUT]) is left out. *)

From S2P Require Import Prelude.

(** ** Variables and state *)

(** [struct bigtype] *)
Record big := Big { len : Z; words : list Z }.

(** What the functions use of [struct miracl]. *)
Record mip := Mip { nib : nat; check : bool; ERNUM : Z; bigs : gmap positive big }.

(** A computation is undefined, [None], when it reads or writes outside an array. *)
Definition M (A : Type) : Type := mip → option (A * mip).

#[export] Instance M_ret : MRet M := λ A a m, Some (a, m).
#[export] Instance M_bind : MBind M := λ A B k c m, match c m with Some (a, m') => k a m' | None => None end.

(** A variable gets a new value. *)
Definition put (x : positive) (b : big) (m : mip) : mip := Mip (nib m) (check m) (ERNUM m) (<[x := b]> (bigs m)).

(** Undefined where [o] is [None]. *)
Definition lift {A} (o : option A) : M A := λ m, match o with Some a => Some (a, m) | None => None end.

Definition get_big (x : positive) : M big := λ m, lift (bigs m !! x) m.
Definition put_big (x : positive) (b : big) : M unit := λ m, Some (tt, put x b m).

(** [x->len], [x->w[i]] *)
Definition get_len (x : positive) : M Z := b ← get_big x; mret (len b).
Definition set_len (x : positive) (l : Z) : M unit := b ← get_big x; put_big x (Big l (words b)).
Definition get_word (x : positive) (i : nat) : M Z := b ← get_big x; lift (words b !! i).
Definition set_word (x : positive) (i : nat) (v : Z) : M unit :=
  b ← get_big x;
  if decide (i < length (words b))%nat then put_big x (Big (len b) (<[i := v]> (words b))) else lift None.

Definition get_nib : M nat := λ m, Some (nib m, m).
Definition get_check : M bool := λ m, Some (check m, m).
Definition set_check (c : bool) : M unit := λ m, Some (tt, Mip (nib m) c (ERNUM m) (bigs m)).
Definition get_ERNUM : M Z := λ m, Some (ERNUM m, m).

(** [mr_berror] where nothing is printed: the error is noted. *)
Definition mr_berror (nerr : Z) : M unit := λ m, Some (tt, Mip (nib m) (check m) nerr (bigs m)).

Definition MR_ERR_DIV_BY_ZERO : Z := 2.
Definition MR_ERR_OVERFLOW : Z := 3.
Definition MR_ERR_NEG_RESULT : Z := 4.
Definition MR_ERR_BAD_PARAMETERS : Z := 7.
Definition MR_ERR_INT_OP : Z := 12.
Definition MR_ERR_TOO_BIG : Z := 14.

Definition MR_MSBIT : Z := 2 ^ 31.
Definition MR_OBITS : Z := 2 ^ 31 - 1.

(** [for (i = lo; i < lo + k; i++) a = body(i, a);] *)
Fixpoint floop {A} (k i : nat) (body : nat → A → M A) (a : A) : M A :=
  match k with O => mret a | S k => a ← body i a; floop k (S i) body a end.

(** The work space, variables like the others: [mr_mip->w0] and so on. *)
Definition w0 : positive := 1.

(** ** mrcore.c *)

(** With [MR_FLASH] the two halves of a length count the words of a fraction. *)
Definition mr_lent (x : positive) : M nat :=
  l ← get_len x; let lx := Z.land l MR_OBITS in
  mret (Z.to_nat (Z.land lx 0xFFFF + Z.land (Z.shiftr lx 16) 0xFFFF)).

Definition mr_notint (x : positive) : M bool :=
  l ← get_len x; mret (bool_decide (Z.land (Z.shiftr (Z.land l MR_OBITS) 16) 0xFFFF ≠ 0)).

Definition zero (x : positive) : M unit :=
  n ← mr_lent x; floop n 0 (λ i _, set_word x i 0) tt;; set_len x 0.

Definition copy (x y : positive) : M unit :=
  if decide (x = y) then mret tt else
  ny ← mr_lent y; nx ← mr_lent x;
  floop (ny - nx) nx (λ i _, set_word y i 0) tt;;
  floop nx 0 (λ i _, v ← get_word x i; set_word y i v) tt;;
  l ← get_len x; set_len y l.

Definition exsign (x : positive) : M Z :=
  l ← get_len x; mret (if decide (Z.land l MR_MSBIT = 0) then 1 else -1).

Definition insign (s : Z) (x : positive) : M unit :=
  l ← get_len x;
  if decide (l = 0) then mret tt
  else if decide (s < 0) then set_len x (Z.lor l MR_MSBIT) else set_len x (Z.land l MR_OBITS).

(** [while (m>0 && x->w[m-1]==0) m--;] *)
Fixpoint strip (x : positive) (m : nat) : M nat :=
  match m with
  | O => mret O
  | S m' => v ← get_word x m'; if decide (v = 0) then strip x m' else mret m
  end.

Definition mr_lzero (x : positive) : M unit :=
  l ← get_len x;
  m ← strip x (Z.to_nat (Z.land l MR_OBITS));
  set_len x (if decide (m = 0%nat) then 0 else Z.lor (Z.of_nat m) (Z.land l MR_MSBIT)).

Definition negify (x y : positive) : M unit :=
  copy x y;; l ← get_len y; if decide (l = 0) then mret tt else set_len y (Z.lxor l MR_MSBIT).

Definition absol (x y : positive) : M unit := copy x y;; l ← get_len y; set_len y (Z.land l MR_OBITS).

Definition MR_TOOBIG : Z := 2 ^ 30.

Definition size (x : positive) : M Z :=
  l ← get_len x; let m := Z.land l MR_OBITS in
  if decide (m = 0) then mret 0 else
  v ← get_word x 0;
  let n := if decide (m = 1 ∧ v < MR_TOOBIG) then v else MR_TOOBIG in
  mret (if decide (Z.land l MR_MSBIT = MR_MSBIT) then - n else n).

(** [while (m>0) { m--; ... }] *)
Fixpoint compare_words (x y : positive) (sig : Z) (m : nat) : M Z :=
  match m with
  | O => mret 0
  | S m =>
      a ← get_word x m; b ← get_word y m;
      if decide (b < a) then mret sig else if decide (a < b) then mret (- sig) else compare_words x y sig m
  end.

Definition mr_compare (x y : positive) : M Z :=
  if decide (x = y) then mret 0 else
  lx ← get_len x; ly ← get_len y;
  let sx := Z.land lx MR_MSBIT in let sy := Z.land ly MR_MSBIT in
  let sig := if decide (sx = 0) then 1 else -1 in
  if decide (sx ≠ sy) then mret sig else
  let m := Z.land lx MR_OBITS in let n := Z.land ly MR_OBITS in
  if decide (n < m) then mret sig else if decide (m < n) then mret (- sig) else compare_words x y sig (Z.to_nat m).

Definition uconvert (n : Z) (x : positive) : M unit :=
  zero x;; if decide (n = 0) then mret tt else set_word x 0 n;; set_len x 1.

Definition convert (n : Z) (x : positive) : M unit :=
  if decide (n = 0) then zero x else
  let s := if decide (n < 0) then MR_MSBIT else 0 in
  uconvert (if decide (n < 0) then - n else n) x;; l ← get_len x; set_len x (Z.lor l s).

(** ** Digits *)

Abbreviation B := 4294967296.

(** The weight of a digit. *)
Definition W (i : nat) : Z := B ^ Z.of_nat i.
Definition digit (v : Z) (i : nat) : Z := v / W i mod B.
Definition digits (k : nat) (v : Z) : list Z := digit v <$> seq 0 k.

(** How many digits a number has. *)
Definition ndigits (v : Z) : nat := if decide (v <= 0) then 0%nat else S (Z.to_nat (Z.log2 v / 32)).

Lemma W_0 : W 0 = 1. Proof. done. Qed.
Lemma W_S i : W (S i) = B * W i.
Proof. unfold W. by rewrite Nat2Z.inj_succ, Z.pow_succ_r by lia. Qed.
Lemma W_1 : W 1 = B. Proof. done. Qed.
Lemma W_pos i : 0 < W i.
Proof. unfold W. apply Z.pow_pos_nonneg; lia. Qed.
Lemma W_add i j : W (i + j) = W i * W j.
Proof. unfold W. by rewrite Nat2Z.inj_add, Z.pow_add_r by lia. Qed.
Lemma W_le i j : (i <= j)%nat → W i <= W j.
Proof. intros H. unfold W. apply Z.pow_le_mono_r; lia. Qed.
Lemma W_lt i j : (i < j)%nat → W i < W j.
Proof. intros H. unfold W. apply Z.pow_lt_mono_r; lia. Qed.
#[export] Hint Resolve W_pos : core.

Lemma digit_bound v i : 0 <= digit v i < B.
Proof. by apply Z.mod_pos_bound. Qed.

Lemma digit_0 i : digit 0 i = 0.
Proof. unfold digit. by rewrite Z.div_0_l by (pose proof (W_pos i); lia). Qed.

Lemma digit_small v i : 0 <= v < W i → digit v i = 0.
Proof. intros H. unfold digit. by rewrite Z.div_small. Qed.

(** Splitting off the next digit. *)
Lemma mod_W_S v i : v mod W (S i) = v mod W i + W i * digit v i.
Proof. rewrite W_S, (Z.mul_comm B). unfold digit. pose proof (W_pos i). by rewrite Z.rem_mul_r by lia. Qed.

(** A digit depends only on what is below the next. *)
Lemma digit_mod v i j : (i < j)%nat → digit (v mod W j) i = digit v i.
Proof.
  intros Hij. replace j with (S i + (j - S i))%nat by lia. set (k := (j - S i)%nat). rewrite W_add. unfold digit.
  pose proof (W_pos i). pose proof (W_pos k). rewrite W_S, (Z.mul_comm B), <- Z.mul_assoc.
  rewrite (Z.rem_mul_r v (W i)) by lia. rewrite (Z.mul_comm (W i)), Z.div_add, (Z.div_small (v mod W i)) by (lia || by apply Z.mod_pos_bound).
  rewrite Z.add_0_l. rewrite Z.rem_mul_r by lia. rewrite (Z.mul_comm B), Z.mod_add by lia. by apply Z.mod_mod.
Qed.

Lemma digit_congr v v' i : v mod W (S i) = v' mod W (S i) → digit v i = digit v' i.
Proof. intros H. rewrite <- (digit_mod v i (S i)), <- (digit_mod v' i (S i)) by lia. by rewrite H. Qed.

Lemma digit_shift v i k : digit (W k * v) (k + i) = digit v i.
Proof. unfold digit. rewrite W_add. pose proof (W_pos k). pose proof (W_pos i). by rewrite Z.div_mul_cancel_l by lia. Qed.

Lemma digit_div v i k : digit v (k + i) = digit (v / W k) i.
Proof. unfold digit. rewrite W_add. pose proof (W_pos k). pose proof (W_pos i). by rewrite Z.div_div by lia. Qed.

(** Digits below [k] are not changed by adding a multiple of the weight of [k]. *)
Lemma digit_add_high v u i k : (i < k)%nat → digit (v + u * W k) i = digit v i.
Proof. intros Hi. rewrite <- (digit_mod (v + _) i k), <- (digit_mod v i k) by done. pose proof (W_pos k). by rewrite Z.mod_add by lia. Qed.

Lemma digit_mul_low v i k : (i < k)%nat → digit (v * W k) i = 0.
Proof. intros Hi. rewrite <- (Z.add_0_l (v * W k)), digit_add_high by done. unfold digit. pose proof (W_pos i). by rewrite Z.div_0_l by lia. Qed.

Lemma digits_length k v : length (digits k v) = k.
Proof. unfold digits. by rewrite length_fmap, length_seq. Qed.

Lemma digits_lookup k v i : (i < k)%nat → digits k v !! i = Some (digit v i).
Proof. intros H. unfold digits. by rewrite list_lookup_fmap, lookup_seq_lt. Qed.

Lemma digits_0 k : digits k 0 = replicate k 0.
Proof.
  apply list_eq. intros i. destruct (decide (i < k)%nat).
  - rewrite digits_lookup, lookup_replicate_2 by done. by rewrite digit_0.
  - rewrite !lookup_ge_None_2; [done|by rewrite length_replicate; lia|by rewrite digits_length; lia].
Qed.

(** Lists of digits are equal when the digits are. *)
Lemma digits_eq k v l : length l = k → (∀ i, (i < k)%nat → l !! i = Some (digit v i)) → l = digits k v.
Proof.
  intros Hl H. apply list_eq. intros i. destruct (decide (i < k)%nat).
  - rewrite digits_lookup by done. by apply H.
  - rewrite !lookup_ge_None_2; [done|by rewrite digits_length; lia|lia].
Qed.

(** Putting the last digit on top of the others. *)
Lemma digits_insert_top cap v k : 0 <= v < W (S k) → (k < cap)%nat → <[k := v / W k]> (digits cap (v mod W k)) = digits cap v.
Proof.
  intros Hv Hk. apply digits_eq; [by rewrite length_insert, digits_length|]. intros j Hj. pose proof (W_pos k). destruct (decide (j = k)) as [->|Hne].
  - rewrite list_lookup_insert_eq by (rewrite digits_length; lia). unfold digit. rewrite Z.mod_small; [done|]. rewrite W_S in Hv. split; [apply Z.div_pos; lia|apply Z.div_lt_upper_bound; lia].
  - rewrite list_lookup_insert_ne, digits_lookup by lia. f_equal. destruct (decide (j < k)%nat); [by apply digit_mod|].
    pose proof (W_le (S k) j ltac:(lia)). pose proof (Z.mod_pos_bound v (W k) ltac:(lia)). pose proof (W_le k j ltac:(lia)). rewrite !digit_small by lia. done.
Qed.

(** *** The number of digits *)

Lemma ndigits_0 : ndigits 0 = 0%nat. Proof. done. Qed.

Lemma ndigits_pos v : 0 < v → (0 < ndigits v)%nat ∧ W (ndigits v - 1) <= v < W (ndigits v).
Proof.
  intros Hv. unfold ndigits. rewrite decide_False by lia. split; [lia|]. pose proof (Z.log2_spec v Hv) as [H1 H2]. pose proof (Z.log2_nonneg v).
  replace (S (Z.to_nat (Z.log2 v / 32)) - 1)%nat with (Z.to_nat (Z.log2 v / 32)) by lia. unfold W.
  change B with (2 ^ 32). rewrite <- !Z.pow_mul_r by lia.
  assert (32 * (Z.log2 v / 32) <= Z.log2 v < 32 * (Z.log2 v / 32) + 32) by (Z.to_euclidean_division_equations; lia).
  assert (0 <= Z.log2 v / 32) by (apply Z.div_pos; lia). split.
  - etransitivity; [|exact H1]. apply Z.pow_le_mono_r; lia.
  - eapply Z.lt_le_trans; [exact H2|]. apply Z.pow_le_mono_r; lia.
Qed.

Lemma ndigits_lt v : 0 <= v → v < W (ndigits v).
Proof. intros Hv. destruct (decide (v = 0)) as [->|]; [done|]. apply ndigits_pos. lia. Qed.

Lemma ndigits_le v k : 0 <= v → v < W k → (ndigits v <= k)%nat.
Proof.
  intros Hv Hk. destruct (decide (v = 0)) as [->|]; [rewrite ndigits_0; lia|]. destruct (ndigits_pos v ltac:(lia)) as [H1 H2].
  destruct (decide (ndigits v <= k)%nat); [done|]. pose proof (W_le k (ndigits v - 1) ltac:(lia)). lia.
Qed.

Lemma ndigits_unique v n : (0 < n)%nat → W (n - 1) <= v → v < W n → ndigits v = n.
Proof.
  intros Hn H1 H2. pose proof (W_pos (n - 1)). pose proof (ndigits_le v n ltac:(lia) H2). destruct (ndigits_pos v ltac:(lia)) as [H3 [H4 H5]].
  destruct (decide (ndigits v = n)); [done|]. pose proof (W_le (ndigits v) (n - 1) ltac:(lia)). lia.
Qed.

Lemma ndigits_mono u v : 0 <= u <= v → (ndigits u <= ndigits v)%nat.
Proof. intros H. apply ndigits_le; [lia|]. pose proof (ndigits_lt v ltac:(lia)). lia. Qed.

(** Fewer digits, a smaller number. *)
Lemma ndigits_lt_lt u v : 0 <= u → 0 <= v → (ndigits u < ndigits v)%nat → u < v.
Proof. intros Hu Hv H. destruct (decide (v <= u)); [|lia]. pose proof (ndigits_mono v u). lia. Qed.

Lemma digit_ndigits v i : 0 <= v → (ndigits v <= i)%nat → digit v i = 0.
Proof. intros Hv Hi. apply digit_small. pose proof (ndigits_lt v Hv). pose proof (W_le _ _ Hi). lia. Qed.

Lemma digit_top v : 0 < v → digit v (ndigits v - 1) ≠ 0.
Proof.
  intros Hv. destruct (ndigits_pos v Hv) as [Hn [H1 H2]]. set (i := (ndigits v - 1)%nat) in *. replace (ndigits v) with (S i) in H2 by lia.
  rewrite W_S in H2. pose proof (W_pos i). unfold digit. rewrite Z.mod_small.
  - assert (1 <= v / W i) by (apply Z.div_le_lower_bound; lia). lia.
  - split; [apply Z.div_pos; lia|apply Z.div_lt_upper_bound; lia].
Qed.

(** *** Carries *)

(** What is carried into place [i] when [u] times [y] is added to [a], digit by digit; for a
    negative [u] it is a borrow, negated. *)
Definition carry (a u y : Z) (i : nat) : Z := (a mod W i + u * (y mod W i)) / W i.

Lemma carry_0 a u y : carry a u y 0 = 0.
Proof. unfold carry. by rewrite W_0, !Z.mod_1_r, Z.mul_0_r. Qed.

(** The schoolbook step: the digit of the result and the next carry. *)
Lemma carry_step a u y i : digit a i + u * digit y i + carry a u y i = digit (a + u * y) i + B * carry a u y (S i).
Proof.
  unfold carry. pose proof (W_pos i) as Hi. set (r := a mod W i + u * (y mod W i)).
  assert (a mod W (S i) + u * (y mod W (S i)) = r + (digit a i + u * digit y i) * W i) as E by (rewrite !mod_W_S; unfold r; lia).
  rewrite E. set (s := digit a i + u * digit y i) in *.
  assert ((r + s * W i) / W i = s + r / W i) as E1 by (rewrite Z.div_add by lia; lia).
  assert ((r + s * W i) / W (S i) = (s + r / W i) / B) as E2 by (rewrite W_S, (Z.mul_comm B), <- Z.div_div, E1 by lia; done).
  assert (digit (a + u * y) i = (s + r / W i) mod B) as E3.
  { rewrite <- E1, <- E. transitivity (digit (a mod W (S i) + u * (y mod W (S i))) i); [|done]. apply digit_congr.
    pose proof (W_pos (S i)). rewrite (Z.add_mod (a mod _)), Z.mod_mod, Zmult_mod_idemp_r, <- Z.add_mod by lia. done. }
  rewrite E2, E3. pose proof (Z.div_mod (s + r / W i) B ltac:(lia)). lia.
Qed.

Lemma carry_bound a u y i : 0 <= u < B → 0 <= carry a u y i < B.
Proof.
  intros Hu. unfold carry. pose proof (W_pos i). pose proof (Z.mod_pos_bound a (W i) ltac:(lia)). pose proof (Z.mod_pos_bound y (W i) ltac:(lia)).
  split; [apply Z.div_pos; nia|]. apply Z.div_lt_upper_bound; [lia|]. nia.
Qed.

(** Beyond all digits of both numbers the carry is the rest of the result. *)
Lemma carry_high a u y i : 0 <= a < W i → 0 <= y < W i → carry a u y i = (a + u * y) / W i.
Proof. intros Ha Hy. unfold carry. by rewrite !Z.mod_small. Qed.

(** Where every column is already a digit and nothing is carried in, nothing is carried on. *)
Lemma carry_stop a u y i : carry a u y i = 0 → (∀ j, (i <= j)%nat → 0 <= digit a j + u * digit y j < B) →
  ∀ j, (i <= j)%nat → carry a u y j = 0 ∧ digit (a + u * y) j = digit a j + u * digit y j.
Proof.
  intros Hc Hd j Hj. assert (carry a u y j = 0) as E.
  { induction Hj as [|j Hj IH]; [done|]. specialize (IH). pose proof (carry_step a u y j) as Hs. pose proof (Hd j Hj). pose proof (digit_bound (a + u * y) j). lia. }
  split; [done|]. pose proof (carry_step a u y j) as Hs. pose proof (Hd j Hj). pose proof (digit_bound (a + u * y) j). lia.
Qed.

(** ** Numbers in variables *)

Definition big_of (cap : nat) (v : Z) : big :=
  Big (Z.of_nat (ndigits (Z.abs v)) + if decide (v < 0) then MR_MSBIT else 0) (digits cap (Z.abs v)).

Lemma big_of_nonneg cap v : 0 <= v → big_of cap v = Big (Z.of_nat (ndigits v)) (digits cap v).
Proof. intros Hv. unfold big_of. by rewrite decide_False, Z.abs_eq, Z.add_0_r by lia. Qed.

Lemma len_nonzero cap v : v ≠ 0 → len (big_of cap v) ≠ 0.
Proof. intros Hv. cbn. destruct (ndigits_pos (Z.abs v) ltac:(lia)). unfold MR_MSBIT. case_decide; lia. Qed.

(** The variable [x], with room for [cap] digits, is the number [v]. Lengths stay below
    [2^16], as [mirsys] makes sure. *)
Definition holds (m : mip) (x : positive) (cap : nat) (v : Z) : Prop :=
  bigs m !! x = Some (big_of cap v) ∧ Z.abs v < W cap ∧ Z.of_nat cap < 65536.

(** *** The parts of a length *)

Lemma land_sign n s : 0 <= n < 65536 → s = 0 ∨ s = MR_MSBIT → Z.land (n + s) MR_OBITS = n ∧ Z.land (n + s) MR_MSBIT = s ∧ Z.lor n s = n + s ∧ Z.lxor (n + s) MR_MSBIT = n + (MR_MSBIT - s).
Proof.
  intros Hn Hs. assert (Z.lor n s = n + s ∧ Z.land n s = 0) as [E1 E2].
  { assert (Z.land n s = 0) as E.
    { destruct Hs as [-> | ->]; [apply Z.land_0_r|]. unfold MR_MSBIT. apply Z.bits_inj'. intros i Hi. rewrite Z.land_spec, Z.bits_0.
      rewrite Z.pow2_bits_eqb by lia. destruct (Z.eqb_spec 31 i) as [<-|]; [|apply andb_false_r]. rewrite (Z.testbit_eqb n), Z.div_small by lia. done. }
    pose proof (Z.add_lor_land n s). split; [lia|done]. }
  rewrite <- E1. unfold MR_OBITS, MR_MSBIT in *. change (2 ^ 31 - 1) with (Z.ones 31).
  assert (Z.land n (2 ^ 31) = 0) as E3.
  { apply Z.bits_inj'. intros i Hi. rewrite Z.land_spec, Z.bits_0, Z.pow2_bits_eqb by lia. destruct (Z.eqb_spec 31 i) as [<-|]; [|apply andb_false_r].
    rewrite (Z.testbit_eqb n), Z.div_small by lia. done. }
  assert (Z.land n (Z.ones 31) = n) as E4 by (rewrite Z.land_ones, Z.mod_small by lia; done).
  rewrite !Z.land_lor_distr_l, E3, E4. split; [|split; [|split; [done|]]].
  - destruct Hs as [-> | ->]; [apply Z.lor_0_r|]. by rewrite (Z.land_ones (2 ^ 31)), Z.lor_0_r by lia.
  - destruct Hs as [-> | ->]; [done|]. by rewrite Z.lor_0_l.
  - destruct Hs as [-> | ->]; [rewrite Z.lor_0_r, Z.sub_0_r|rewrite Z.sub_diag, Z.add_0_r].
    + rewrite Z.lxor_lor by done. pose proof (Z.add_lor_land n (2 ^ 31)). lia.
    + rewrite <- Z.lxor_lor by done. by rewrite Z.lxor_assoc, Z.lxor_nilpotent, Z.lxor_0_r.
Qed.

Section length.
Context (cap : nat) (v : Z) (Hv : Z.abs v < W cap) (Hcap : Z.of_nat cap < 65536).

Definition sign_bit : Z := if decide (v < 0) then MR_MSBIT else 0.

Lemma sign_bit_cases : sign_bit = 0 ∨ sign_bit = MR_MSBIT.
Proof using. unfold sign_bit. case_decide; auto. Qed.

Lemma ndigits_cap : (ndigits (Z.abs v) <= cap)%nat.
Proof. apply ndigits_le; [lia|done]. Qed.

Lemma len_parts : let l := len (big_of cap v) in
  Z.land l MR_OBITS = Z.of_nat (ndigits (Z.abs v)) ∧ Z.land l MR_MSBIT = sign_bit ∧ Z.lxor l MR_MSBIT = Z.of_nat (ndigits (Z.abs v)) + (MR_MSBIT - sign_bit) ∧
  Z.to_nat (Z.land (Z.land l MR_OBITS) 0xFFFF + Z.land (Z.shiftr (Z.land l MR_OBITS) 16) 0xFFFF) = ndigits (Z.abs v) ∧
  Z.land (Z.shiftr (Z.land l MR_OBITS) 16) 0xFFFF = 0.
Proof.
  pose proof ndigits_cap. cbn [len big_of]. fold sign_bit. destruct (land_sign (Z.of_nat (ndigits (Z.abs v))) sign_bit) as (-> & -> & _ & ->); [lia|apply sign_bit_cases|].
  split; [done|]. split; [done|]. split; [done|]. change 0xFFFF with (Z.ones 16). rewrite !Z.land_ones, Z.shiftr_div_pow2 by lia.
  rewrite (Z.div_small _ (2 ^ 16)), (Z.mod_small (Z.of_nat _)) by lia. rewrite Z.mod_0_l by lia. split; lia.
Qed.
End length.

(** ** Running the operations *)

Lemma mbind_Some {A C} (c : M A) (k : A → M C) m a m' : c m = Some (a, m') → (c ≫= k) m = k a m'.
Proof. intros H. unfold mbind, M_bind. by rewrite H. Qed.

Lemma put_put x b1 b2 m : put x b2 (put x b1 m) = put x b2 m.
Proof. unfold put. cbn. by rewrite insert_insert_eq. Qed.

Lemma put_comm x y b1 b2 m : x ≠ y → put x b1 (put y b2 m) = put y b2 (put x b1 m).
Proof. intros H. unfold put. cbn. by rewrite insert_insert_ne. Qed.

Lemma put_same x b m : bigs m !! x = Some b → put x b m = m.
Proof. intros H. unfold put. rewrite insert_id by done. by destruct m. Qed.

Lemma bigs_put x b m : bigs (put x b m) !! x = Some b.
Proof. apply lookup_insert_eq. Qed.

Lemma bigs_put_ne x y b m : x ≠ y → bigs (put x b m) !! y = bigs m !! y.
Proof. intros H. by apply lookup_insert_ne. Qed.

Section ops.
Context (x : positive) (b : big) (m : mip) (Hx : bigs m !! x = Some b).

Lemma get_big_ok : get_big x m = Some (b, m).
Proof. unfold get_big. by rewrite Hx. Qed.
Lemma get_len_ok : get_len x m = Some (len b, m).
Proof. unfold get_len. by rewrite (mbind_Some _ _ m _ m get_big_ok). Qed.
Lemma set_len_ok l : set_len x l m = Some (tt, put x (Big l (words b)) m).
Proof. unfold set_len. by rewrite (mbind_Some _ _ m _ m get_big_ok). Qed.
Lemma get_word_ok i v : words b !! i = Some v → get_word x i m = Some (v, m).
Proof. intros Hi. unfold get_word. rewrite (mbind_Some _ _ m _ m get_big_ok). by rewrite Hi. Qed.
Lemma set_word_ok i v : (i < length (words b))%nat → set_word x i v m = Some (tt, put x (Big (len b) (<[i := v]> (words b))) m).
Proof. intros Hi. unfold set_word. rewrite (mbind_Some _ _ m _ m get_big_ok). by rewrite decide_True. Qed.
End ops.

(** A loop in which the value carried along and the state are known at every round. *)
Lemma floop_steps {A} (body : nat → A → M A) (a : nat → A) (s : nat → mip) k : ∀ lo,
  (∀ i, (lo <= i < lo + k)%nat → body i (a i) (s i) = Some (a (S i), s (S i))) → floop k lo body (a lo) (s lo) = Some (a (lo + k)%nat, s (lo + k)%nat).
Proof.
  induction k as [|k IH]; intros lo H; cbn [floop]; [by rewrite Nat.add_0_r|]. rewrite (mbind_Some _ _ _ _ _ (H lo ltac:(lia))).
  rewrite IH by (intros; apply H; lia). by replace (S lo + k)%nat with (lo + S k)%nat by lia.
Qed.

(** Loops that write the words of [z], one after the other from place [off + lo]: [c] is the
    value carried along, [d] the words written. *)
Lemma floop_ok {A} (body : nat → A → M A) z l off (c : nat → A) (d : nat → Z) (ws0 : list Z) m k : ∀ lo (ws : list Z),
  (off + lo + k <= length ws)%nat → (∀ j, (off + lo <= j)%nat → ws !! j = ws0 !! j) →
  (∀ i (ws : list Z), (lo <= i < lo + k)%nat → (off + i < length ws)%nat → (∀ j, (off + i <= j)%nat → ws !! j = ws0 !! j) →
    body i (c i) (put z (Big l ws) m) = Some (c (S i), put z (Big l (<[(off + i)%nat := d i]> ws)) m)) →
  floop k lo body (c lo) (put z (Big l ws) m) =
    Some (c (lo + k)%nat, put z (Big l (take (off + lo) ws ++ (d <$> seq lo k) ++ drop (off + lo + k) ws)) m).
Proof.
  induction k as [|k IH]; intros lo ws Hl Hsame Hbody.
  - cbn [floop seq fmap list_fmap app]. rewrite !Nat.add_0_r, take_drop. done.
  - cbn [floop]. rewrite (mbind_Some _ _ _ _ _ (Hbody lo ws ltac:(lia) ltac:(lia) Hsame)).
    set (ws1 := <[(off + lo)%nat := d lo]> ws). assert (length ws1 = length ws) as L1 by apply length_insert.
    rewrite (IH (S lo) ws1).
    + replace (S lo + k)%nat with (lo + S k)%nat by lia. do 4 f_equal. replace (off + S lo)%nat with (S (off + lo)) by lia. unfold ws1.
      rewrite (take_S_r _ _ (d lo)) by (apply list_lookup_insert_eq; lia). rewrite take_insert_ge by lia. rewrite <- app_assoc. cbn [seq fmap list_fmap app].
      do 3 f_equal. rewrite drop_insert_lt by lia. f_equal. lia.
    + lia.
    + intros j Hj. unfold ws1. rewrite list_lookup_insert_ne by lia. apply Hsame. lia.
    + intros i ws' Hi Hl' Hs'. apply Hbody; [lia|done|done].
Qed.

(** The words after such a loop. *)
Lemma splice_lookup (d : nat → Z) off lo k (ws : list Z) j : (off + lo + k <= length ws)%nat →
  (take (off + lo) ws ++ (d <$> seq lo k) ++ drop (off + lo + k) ws) !! j =
  if decide (off + lo <= j < off + lo + k)%nat then Some (d (j - off)%nat) else ws !! j.
Proof.
  intros Hl. destruct (decide (j < off + lo)%nat) as [Hj|Hj].
  - rewrite lookup_app_l, decide_False by (rewrite ?length_take; lia). by rewrite lookup_take_lt by lia.
  - rewrite lookup_app_r, length_take by (rewrite length_take; lia). replace (j - (off + lo) `min` length ws)%nat with (j - (off + lo))%nat by lia. case_decide.
    + rewrite lookup_app_l by (rewrite length_fmap, length_seq; lia). rewrite list_lookup_fmap, lookup_seq_lt by lia. cbn. do 2 f_equal. lia.
    + rewrite lookup_app_r, length_fmap, length_seq, lookup_drop by (rewrite length_fmap, length_seq; lia). f_equal. lia.
Qed.

Lemma splice_words_length (d : nat → Z) off lo k (ws : list Z) : (off + lo + k <= length ws)%nat →
  length (take (off + lo) ws ++ (d <$> seq lo k) ++ drop (off + lo + k) ws) = length ws.
Proof. intros Hl. rewrite !length_app, length_take, length_fmap, length_seq, length_drop. lia. Qed.

(** The same, word by word. *)
Lemma floop_cols {A} (body : nat → A → M A) z l off (c : nat → A) (d : nat → Z) (ws : list Z) m k lo :
  (off + lo + k <= length ws)%nat →
  (∀ i (ws' : list Z), (lo <= i < lo + k)%nat → (off + i < length ws')%nat → (∀ j, (off + i <= j)%nat → ws' !! j = ws !! j) →
    body i (c i) (put z (Big l ws') m) = Some (c (S i), put z (Big l (<[(off + i)%nat := d i]> ws')) m)) → ∃ ws',
  floop k lo body (c lo) (put z (Big l ws) m) = Some (c (lo + k)%nat, put z (Big l ws') m) ∧ length ws' = length ws ∧
  ∀ j, ws' !! j = if decide (off + lo <= j < off + lo + k)%nat then Some (d (j - off)%nat) else ws !! j.
Proof.
  intros Hl Hb. eexists. split; [by apply (floop_ok body z l off c d ws)|]. split; [by apply splice_words_length|]. intros j. by apply splice_lookup.
Qed.

(** Reading a variable while [z], which may be the same, is being written: the word is still
    there. *)
Lemma get_word_alias m x cap v z l ws i : bigs m !! x = Some (big_of cap v) → (i < cap)%nat → (x = z → ws !! i = Some (digit (Z.abs v) i)) →
  get_word x i (put z (Big l ws) m) = Some (digit (Z.abs v) i, put z (Big l ws) m).
Proof.
  intros Hx Hi Hz. destruct (decide (x = z)) as [<-|Hne].
  - apply (get_word_ok x _ _ (bigs_put x _ m)). by apply Hz.
  - eapply get_word_ok; [rewrite bigs_put_ne by congruence; exact Hx|]. by apply digits_lookup.
Qed.

Lemma get_word_other m x cap v z l ws i : x ≠ z → bigs m !! x = Some (big_of cap v) → (i < cap)%nat →
  get_word x i (put z (Big l ws) m) = Some (digit (Z.abs v) i, put z (Big l ws) m).
Proof. intros Hne E Hi. by apply (get_word_alias m x cap v). Qed.

(** ** What the functions of mrcore.c do *)

Lemma holds_put m x cap v : Z.abs v < W cap → Z.of_nat cap < 65536 → holds (put x (big_of cap v) m) x cap v.
Proof. intros H1 H2. split; [apply bigs_put|done]. Qed.

Lemma holds_put_ne m x y b cap v : x ≠ y → holds m y cap v → holds (put x b m) y cap v.
Proof. intros Hne [H1 H2]. split; [by rewrite bigs_put_ne|done]. Qed.

(** What a call has left alone: the environment and every variable but [ws]. *)
Definition changed (ws : list positive) (m m' : mip) : Prop :=
  nib m' = nib m ∧ check m' = check m ∧ ERNUM m' = ERNUM m ∧ ∀ w, w ∉ ws → bigs m' !! w = bigs m !! w.

(** Membership in a list that is written out. *)
Ltac solve_in := first [apply list_elem_of_here | apply list_elem_of_further; solve_in].
Ltac solve_notin := rewrite ?not_elem_of_cons; repeat split; try apply not_elem_of_nil; first [done | congruence | tauto].

Lemma changed_refl ws m : changed ws m m.
Proof. done. Qed.

Lemma changed_trans ws m1 m2 m3 : changed ws m1 m2 → changed ws m2 m3 → changed ws m1 m3.
Proof. intros (A1 & A2 & A3 & A4) (B1 & B2 & B3 & B4). repeat (split; [congruence|]). intros w Hw. by rewrite B4, A4. Qed.

Lemma changed_sub ws ws' m m' : changed ws m m' → ws ⊆ ws' → changed ws' m m'.
Proof. intros (A1 & A2 & A3 & A4) Hs. repeat (split; [done|]). intros w Hw. apply A4. intros Hw'. by apply Hw, Hs. Qed.

Lemma changed_put ws x b m m' : changed ws m m' → x ∈ ws → changed ws m (put x b m').
Proof. intros (A1 & A2 & A3 & A4) Hx. repeat (split; [done|]). intros w Hw. rewrite bigs_put_ne by (intros ->; done). by apply A4. Qed.

Lemma changed_if ws (P : Prop) `{!Decision P} x b m m' : changed ws m m' → x ∈ ws → changed ws m (if decide P then put x b m' else m').
Proof. intros H Hx. case_decide; [by apply changed_put|done]. Qed.

Ltac solve_changed := repeat first [apply changed_refl | apply changed_put; [|solve_in] | apply changed_if; [|solve_in] | assumption].

Lemma holds_changed ws m m' x cap v : changed ws m m' → x ∉ ws → holds m x cap v → holds m' x cap v.
Proof. intros (_ & _ & _ & H) Hx (E & Hv). split; [by rewrite H|done]. Qed.

(** Room for [cap] digits: a variable that may have leading zeros, as the rest of a division
    has for a while, but nothing above its length. *)
Definition space (m : mip) (x : positive) (cap : nat) : Prop :=
  ∃ n s v, bigs m !! x = Some (Big (Z.of_nat n + s) (digits cap v)) ∧ (s = 0 ∨ s = MR_MSBIT) ∧ 0 <= v < W n ∧ (n <= cap)%nat ∧ Z.of_nat cap < 65536.

Lemma holds_space m x cap v : holds m x cap v → space m x cap.
Proof.
  intros (Hx & Hv & Hc). exists (ndigits (Z.abs v)), (sign_bit v), (Z.abs v). split; [done|]. split; [apply sign_bit_cases|].
  split; [split; [lia|apply ndigits_lt; lia]|]. split; [by apply ndigits_cap|done].
Qed.

Lemma space_cap m x c1 c2 : space m x c1 → space m x c2 → c1 = c2.
Proof.
  intros (n1 & s1 & v1 & H1 & _) (n2 & s2 & v2 & H2 & _). rewrite H1 in H2. injection H2 as _ E. pose proof (f_equal length E) as El. by rewrite !digits_length in El.
Qed.

Lemma space_bound m x c : space m x c → Z.of_nat c < 65536.
Proof. by intros (n & s & v & _ & _ & _ & _ & H). Qed.

Lemma space_changed ws m m' x cap : changed ws m m' → x ∉ ws → space m x cap → space m' x cap.
Proof. intros (_ & _ & _ & H) Hx (n & s & v & E & Hv). exists n, s, v. split; [by rewrite H|done]. Qed.

Lemma space_put_ne m x y b cap : x ≠ y → space m y cap → space (put x b m) y cap.
Proof. intros Hne (n & s & v & E & Hv). exists n, s, v. split; [by rewrite bigs_put_ne|done]. Qed.

Lemma space_put m x cap v : Z.abs v < W cap → Z.of_nat cap < 65536 → space (put x (big_of cap v) m) x cap.
Proof. intros H1 H2. eapply holds_space, holds_put; done. Qed.

Lemma mr_lent_space m x n s ws : bigs m !! x = Some (Big (Z.of_nat n + s) ws) → Z.of_nat n < 65536 → s = 0 ∨ s = MR_MSBIT → mr_lent x m = Some (n, m).
Proof.
  intros Hx Hn Hs. unfold mr_lent. rewrite (mbind_Some _ _ m _ m (get_len_ok x _ m Hx)). cbn [len]. destruct (land_sign (Z.of_nat n) s ltac:(lia) Hs) as (-> & _).
  change 0xFFFF with (Z.ones 16). rewrite !Z.land_ones, Z.shiftr_div_pow2 by lia. rewrite (Z.div_small _ (2 ^ 16)), (Z.mod_small (Z.of_nat _)) by lia.
  rewrite Z.mod_0_l by lia. unfold mret, M_ret. do 2 f_equal. lia.
Qed.

Lemma mr_lent_ok m x cap v : holds m x cap v → mr_lent x m = Some (ndigits (Z.abs v), m).
Proof.
  intros (Hx & Hv & Hc). unfold mr_lent. rewrite (mbind_Some _ _ m _ m (get_len_ok x _ m Hx)).
  destruct (len_parts cap v Hv Hc) as (_ & _ & _ & H & _). by rewrite H.
Qed.

Lemma mr_notint_ok m x cap v : holds m x cap v → mr_notint x m = Some (false, m).
Proof.
  intros (Hx & Hv & Hc). unfold mr_notint. rewrite (mbind_Some _ _ m _ m (get_len_ok x _ m Hx)).
  destruct (len_parts cap v Hv Hc) as (_ & _ & _ & _ & H). by rewrite H.
Qed.

Lemma digits_prefix cap v n l : length l = cap → (n <= cap)%nat → (∀ i, (i < n)%nat → l !! i = Some (digit v i)) →
  (∀ i, (n <= i < cap)%nat → l !! i = Some 0) → 0 <= v < W n → l = digits cap v.
Proof.
  intros Hl Hn H1 H2 Hv. apply digits_eq; [done|]. intros i Hi. destruct (decide (i < n)%nat); [by apply H1|].
  rewrite H2 by lia. f_equal. symmetry. apply digit_small. pose proof (W_le n i ltac:(lia)). lia.
Qed.

Lemma const_seq (c : Z) k : ∀ lo, (λ _ : nat, c) <$> seq lo k = replicate k c.
Proof. induction k as [|k IH]; intros lo; [done|]. cbn. by rewrite IH. Qed.

(** Zeros from place [lo] to the end of the digits. *)
Lemma zero_fill y l m lo k ws : (lo + k <= length ws)%nat →
  floop k lo (λ i _, set_word y i 0) tt (put y (Big l ws) m) = Some (tt, put y (Big l (take lo ws ++ replicate k 0 ++ drop (lo + k) ws)) m).
Proof.
  intros Hl. pose proof (floop_ok (λ i _, set_word y i 0) y l 0 (λ _, tt) (λ _, 0) ws m k lo ws) as H. cbn [Nat.add] in H. rewrite H; [|done|done|].
  - by rewrite const_seq.
  - intros i ws' Hi Hl' _. rewrite (set_word_ok y _ _ (bigs_put y _ m)) by done. by rewrite put_put.
Qed.

Lemma zero_space m x cap : space m x cap → zero x m = Some (tt, put x (big_of cap 0) m).
Proof.
  intros (n & s & v & Hx & Hs & Hv & Hn & Hc). unfold zero. rewrite (mbind_Some _ _ m _ m (mr_lent_space m x n s _ Hx ltac:(lia) Hs)).
  rewrite <- (put_same x _ m Hx) at 1. assert (0 + n <= length (digits cap v))%nat as Hl by (rewrite digits_length; lia).
  rewrite (mbind_Some _ _ _ _ _ (zero_fill x (Z.of_nat n + s) m 0 n (digits cap v) Hl)).
  rewrite (set_len_ok x _ _ (bigs_put x _ m)). rewrite put_put. do 3 f_equal. unfold big_of. f_equal. rewrite Z.abs_0, digits_0. cbn [words]. rewrite take_0. cbn [app].
  apply list_eq. intros i. destruct (decide (i < cap)%nat) as [Hi|Hi].
  - rewrite lookup_replicate_2 by done. destruct (decide (i < n)%nat).
    + rewrite lookup_app_l by (rewrite length_replicate; lia). by rewrite lookup_replicate_2.
    + rewrite lookup_app_r, length_replicate, lookup_drop by (rewrite length_replicate; lia). replace (0 + n + (i - n))%nat with i by lia.
      rewrite digits_lookup by done. f_equal. apply digit_small. pose proof (W_le n i ltac:(lia)). lia.
  - rewrite !lookup_ge_None_2; [done|rewrite length_replicate; lia|]. rewrite length_app, length_replicate, length_drop, digits_length. lia.
Qed.

Lemma zero_ok m x cap v : holds m x cap v → zero x m = Some (tt, put x (big_of cap 0) m).
Proof. intros H. eapply zero_space, holds_space, H. Qed.

Lemma holds_cap m x c1 c2 v1 v2 : holds m x c1 v1 → holds m x c2 v2 → c1 = c2.
Proof.
  intros (H1 & _) (H2 & _). rewrite H1 in H2. injection H2 as _ E. pose proof (f_equal length E) as El. by rewrite !digits_length in El.
Qed.

Lemma copy_space m x y cx vx cy : holds m x cx vx → space m y cy → Z.abs vx < W cy → copy x y m = Some (tt, put y (big_of cy vx) m).
Proof.
  intros Hhx Hhy Hv. unfold copy. case_decide as Hxy.
  { subst y. rewrite <- (space_cap m x cx cy (holds_space _ _ _ _ Hhx) Hhy). destruct Hhx as (H1 & _). by rewrite put_same. }
  pose proof Hhx as (Hx & Hvx & Hcx). pose proof Hhy as (ny & s & u & Hy & Hs & Hu & Hny & Hcy).
  rewrite (mbind_Some _ _ m _ m (mr_lent_space m y ny s _ Hy ltac:(lia) Hs)), (mbind_Some _ _ m _ m (mr_lent_ok m x cx vx Hhx)).
  set (nx := ndigits (Z.abs vx)).
  assert (nx <= cy)%nat as Hnx by (apply ndigits_le; [lia|done]). pose proof (ndigits_cap cx vx Hvx) as Hnx'. fold nx in Hnx'.
  rewrite <- (put_same y _ m Hy) at 1. set (l := Z.of_nat ny + s).
  assert (nx + (ny - nx) <= length (digits cy u))%nat as Hl by (rewrite digits_length; lia).
  rewrite (mbind_Some _ _ _ _ _ (zero_fill y l m nx (ny - nx) (digits cy u) Hl)). clear Hl. set (ws := take nx (digits cy u) ++ _). assert (length ws = cy) as Lws.
  { unfold ws. rewrite !length_app, length_take, length_replicate, length_drop, digits_length. lia. }
  pose proof (floop_ok (λ i _, v ← get_word x i; set_word y i v) y l 0 (λ _, tt) (digit (Z.abs vx)) ws m nx 0 ws) as Hl. cbn [Nat.add] in Hl.
  rewrite (mbind_Some _ _ _ _ _ (Hl ltac:(lia) ltac:(done) ltac:(intros i ws' Hi Hl' _;
    rewrite (mbind_Some _ _ _ _ _ (get_word_ok x _ _ (eq_trans (bigs_put_ne y x _ m ltac:(congruence)) Hx) i _ (digits_lookup cx _ i ltac:(lia))));
    rewrite (set_word_ok y _ _ (bigs_put y _ m)) by done; by rewrite put_put))).
  rewrite (mbind_Some _ _ _ _ _ (get_len_ok x _ _ (eq_trans (bigs_put_ne y x _ m ltac:(congruence)) Hx))).
  rewrite (set_len_ok y _ _ (bigs_put y _ m)), put_put. do 3 f_equal. unfold big_of. f_equal. cbn [words]. rewrite take_0. cbn [app].
  apply (digits_prefix cy (Z.abs vx) nx).
  - rewrite length_app, length_fmap, length_seq, length_drop. lia.
  - done.
  - intros i Hi. rewrite lookup_app_l by (rewrite length_fmap, length_seq; lia). by rewrite list_lookup_fmap, lookup_seq_lt.
  - intros i Hi. rewrite lookup_app_r, length_fmap, length_seq, lookup_drop by (rewrite length_fmap, length_seq; lia).
    replace (nx + (i - nx))%nat with i by lia. unfold ws.
    rewrite lookup_app_r, length_take, digits_length by (rewrite length_take, digits_length; lia). replace (i - min nx cy)%nat with (i - nx)%nat by lia.
    destruct (decide (i < ny)%nat).
    + rewrite lookup_app_l by (rewrite length_replicate; lia). by rewrite lookup_replicate_2 by lia.
    + rewrite lookup_app_r, length_replicate, lookup_drop by (rewrite length_replicate; lia). rewrite digits_lookup by lia. f_equal. match goal with |- digit _ ?k = _ => replace k with i by lia end. apply digit_small. pose proof (W_le ny i ltac:(lia)). lia.
  - split; [lia|]. apply ndigits_lt. lia.
Qed.

Lemma copy_ok m x y cx vx cy vy : holds m x cx vx → holds m y cy vy → Z.abs vx < W cy → copy x y m = Some (tt, put y (big_of cy vx) m).
Proof. intros H1 H2. by eapply copy_space, holds_space. Qed.

Lemma strip_ok m x l cap v n : bigs m !! x = Some (Big l (digits cap v)) → 0 <= v → (ndigits v <= n <= cap)%nat → strip x n m = Some (ndigits v, m).
Proof.
  intros Hx Hv Hn. induction n as [|n IH]; [cbn [strip]; by replace (ndigits v) with 0%nat by lia|]. cbn [strip].
  rewrite (mbind_Some _ _ m _ m (get_word_ok x _ m Hx n _ (digits_lookup cap v n ltac:(lia)))).
  destruct (decide (ndigits v = S n)) as [E|E].
  - rewrite decide_False; [by rewrite E|]. assert (0 < v) by (destruct (decide (v = 0)) as [->|]; [by rewrite ndigits_0 in E|lia]).
    pose proof (digit_top v) as Ht. rewrite E in Ht. replace (S n - 1)%nat with n in Ht by lia. by apply Ht.
  - rewrite decide_True by (apply digit_ndigits; lia). apply IH. lia.
Qed.

(** The sign [s] and the magnitude [v]. *)
Lemma big_of_signed cap s v : 0 <= v → s = 0 ∨ s = MR_MSBIT →
  Big (Z.of_nat (ndigits v) + if decide (v = 0) then 0 else s) (digits cap v) = big_of cap (if decide (s = 0) then v else - v).
Proof.
  intros Hv Hs. unfold big_of. destruct Hs as [-> | ->].
  - rewrite (decide_True (P := 0 = 0)) by done. rewrite Z.abs_eq by done. rewrite (decide_False (P := v < 0)) by lia. by case_decide.
  - rewrite (decide_False (P := MR_MSBIT = 0)) by done. rewrite Z.abs_opp, Z.abs_eq by done. case_decide; [by rewrite decide_False by lia|by rewrite decide_True by lia].
Qed.

Lemma mr_lzero_ok m x cap v n s : bigs m !! x = Some (Big (Z.of_nat n + s) (digits cap v)) → 0 <= v → (ndigits v <= n <= cap)%nat → Z.of_nat cap < 65536 →
  s = 0 ∨ s = MR_MSBIT → mr_lzero x m = Some (tt, put x (big_of cap (if decide (s = 0) then v else - v)) m).
Proof.
  intros Hx Hv Hn Hc Hs. unfold mr_lzero. rewrite (mbind_Some _ _ m _ m (get_len_ok x _ m Hx)). cbn [len].
  destruct (land_sign (Z.of_nat n) s ltac:(lia) Hs) as (-> & -> & _ & _). rewrite Nat2Z.id. rewrite (mbind_Some _ _ m _ m (strip_ok m x _ cap v n Hx Hv Hn)).
  rewrite (set_len_ok x _ m Hx). cbn [words]. rewrite <- big_of_signed by done. do 4 f_equal. destruct (decide (v = 0)) as [->|Hne]; [done|].
  rewrite decide_False by (destruct (ndigits_pos v ltac:(lia)); lia). by destruct (land_sign (Z.of_nat (ndigits v)) s ltac:(lia) Hs) as (_ & _ & -> & _).
Qed.

Lemma exsign_ok m x cap v : holds m x cap v → exsign x m = Some (if decide (v < 0) then -1 else 1, m).
Proof.
  intros (Hx & Hv & Hc). unfold exsign. rewrite (mbind_Some _ _ m _ m (get_len_ok x _ m Hx)). destruct (len_parts cap v Hv Hc) as (_ & -> & _).
  unfold sign_bit. by repeat case_decide.
Qed.

(** [x->len &= MR_OBITS;] *)
Lemma clear_sign_ok m x cap v : holds m x cap v → (l ← get_len x; set_len x (Z.land l MR_OBITS)) m = Some (tt, put x (big_of cap (Z.abs v)) m).
Proof.
  intros (Hx & Hv & Hc). rewrite (mbind_Some _ _ m _ m (get_len_ok x _ m Hx)), (set_len_ok x _ m Hx). destruct (len_parts cap v Hv Hc) as (-> & _).
  do 3 f_equal. unfold big_of. cbn [words]. rewrite Z.abs_idemp, decide_False by lia. f_equal. lia.
Qed.

(** [x->len ^= MR_MSBIT;] *)
Lemma flip_sign_ok m x cap v : holds m x cap v → v ≠ 0 → (l ← get_len x; set_len x (Z.lxor l MR_MSBIT)) m = Some (tt, put x (big_of cap (- v)) m).
Proof.
  intros (Hx & Hv & Hc) Hne. rewrite (mbind_Some _ _ m _ m (get_len_ok x _ m Hx)), (set_len_ok x _ m Hx). destruct (len_parts cap v Hv Hc) as (_ & _ & -> & _).
  do 3 f_equal. unfold big_of, sign_bit. cbn [words]. rewrite Z.abs_opp. do 2 f_equal. repeat case_decide; lia || done.
Qed.

Lemma absol_ok m x y cx vx cy vy : holds m x cx vx → holds m y cy vy → Z.abs vx < W cy → absol x y m = Some (tt, put y (big_of cy (Z.abs vx)) m).
Proof.
  intros Hx Hy Hv. unfold absol. rewrite (mbind_Some _ _ m _ _ (copy_ok m x y cx vx cy vy Hx Hy Hv)).
  destruct Hy as (_ & _ & Hc). rewrite (clear_sign_ok _ y cy vx) by (by apply holds_put). by rewrite put_put.
Qed.

(** [if (x->len!=0) x->len ^= MR_MSBIT;] *)
Lemma negate_len_ok m x cap v : holds m x cap v →
  (l ← get_len x; if decide (l = 0) then mret tt else set_len x (Z.lxor l MR_MSBIT)) m = Some (tt, put x (big_of cap (- v)) m).
Proof.
  intros Hh. pose proof (flip_sign_ok m x cap v Hh) as Hf. rewrite (mbind_Some _ _ m _ m (get_len_ok x _ m (proj1 Hh))) in Hf. rewrite (mbind_Some _ _ m _ m (get_len_ok x _ m (proj1 Hh))).
  case_decide as H0.
  - cbn [len big_of] in H0. assert (v = 0) as ->.
    { destruct (decide (v = 0)); [done|]. destruct (ndigits_pos (Z.abs v) ltac:(lia)). revert H0. unfold MR_MSBIT. case_decide; lia. }
    unfold mret, M_ret. by rewrite put_same by apply Hh.
  - apply Hf. intros ->. by apply H0.
Qed.

Lemma negify_ok m x y cx vx cy vy : holds m x cx vx → holds m y cy vy → Z.abs vx < W cy → negify x y m = Some (tt, put y (big_of cy (- vx)) m).
Proof.
  intros Hx Hy Hv. unfold negify. rewrite (mbind_Some _ _ m _ _ (copy_ok m x y cx vx cy vy Hx Hy Hv)). destruct Hy as (_ & _ & Hc).
  rewrite (negate_len_ok _ y cy vx) by (by apply holds_put). by rewrite put_put.
Qed.

(** *** Comparison *)

Lemma compare_words_ok m x y lx ly cx cy vx vy sig n : bigs m !! x = Some (Big lx (digits cx vx)) → bigs m !! y = Some (Big ly (digits cy vy)) → (n <= cx)%nat → (n <= cy)%nat →
  compare_words x y sig n m = Some (sig * Z.sgn (vx mod W n - vy mod W n), m).
Proof.
  intros Hx Hy. induction n as [|n IH]; intros H1 H2; cbn [compare_words].
  - rewrite W_0, !Z.mod_1_r. by rewrite Z.mul_0_r.
  - rewrite (mbind_Some _ _ m _ m (get_word_ok x _ m Hx n _ (digits_lookup cx vx n ltac:(lia)))), (mbind_Some _ _ m _ m (get_word_ok y _ m Hy n _ (digits_lookup cy vy n ltac:(lia)))).
    rewrite !mod_W_S. pose proof (W_pos n). pose proof (Z.mod_pos_bound vx (W n) ltac:(lia)). pose proof (Z.mod_pos_bound vy (W n) ltac:(lia)).
    case_decide as Hd1.
    { assert (W n * (digit vy n + 1) <= W n * digit vx n) by (apply Z.mul_le_mono_nonneg_l; lia). rewrite Z.sgn_pos by lia. by rewrite Z.mul_1_r. }
    case_decide as Hd2.
    { assert (W n * (digit vx n + 1) <= W n * digit vy n) by (apply Z.mul_le_mono_nonneg_l; lia). rewrite Z.sgn_neg by lia. by rewrite <- Z.opp_eq_mul_m1. }
    assert (digit vx n = digit vy n) as -> by lia. rewrite IH by lia. do 4 f_equal. lia.
Qed.

(** A number is what its digits say. *)
Lemma digits_inj k u v : digits k u = digits k v → u mod W k = v mod W k.
Proof.
  intros E. assert (∀ i, (i < k)%nat → digit u i = digit v i) as Hd.
  { intros i Hi. pose proof (digits_lookup k u i Hi) as H. rewrite E, digits_lookup in H by done. congruence. }
  clear E. induction k as [|k IH]; [by rewrite W_0, !Z.mod_1_r|]. rewrite !mod_W_S, IH, Hd by (lia || intros; apply Hd; lia). done.
Qed.

Lemma big_of_inj cap u v : Z.abs u < W cap → Z.abs v < W cap → Z.of_nat cap < 65536 → big_of cap u = big_of cap v → u = v.
Proof.
  intros Hu Hv Hc E. destruct (len_parts cap u Hu Hc) as (_ & Su & _). destruct (len_parts cap v Hv Hc) as (_ & Sv & _). rewrite E, Sv in Su.
  injection E as _ E. apply digits_inj in E. rewrite !Z.mod_small in E by lia. revert Su. unfold sign_bit, MR_MSBIT. do 2 case_decide; lia.
Qed.

Lemma holds_eq m x c1 c2 v1 v2 : holds m x c1 v1 → holds m x c2 v2 → v1 = v2.
Proof.
  intros H1 H2. pose proof (holds_cap _ _ _ _ _ _ H1 H2) as ->. destruct H1 as (H1 & L1 & Hc), H2 as (H2 & L2 & _). rewrite H1 in H2. injection H2 as El Ed.
  apply (big_of_inj c2); [done..|]. unfold big_of. by rewrite El, Ed.
Qed.

(** By length, then by words. *)
Lemma compare_abs_ok m x y cx cy vx vy sig : holds m x cx vx → holds m y cy vy →
  (if decide (Z.of_nat (ndigits (Z.abs vy)) < Z.of_nat (ndigits (Z.abs vx))) then mret sig
   else if decide (Z.of_nat (ndigits (Z.abs vx)) < Z.of_nat (ndigits (Z.abs vy))) then mret (- sig)
   else compare_words x y sig (Z.to_nat (Z.of_nat (ndigits (Z.abs vx))))) m = Some (sig * Z.sgn (Z.abs vx - Z.abs vy), m).
Proof.
  intros (Hx & Hvx & Hcx) (Hy & Hvy & Hcy). pose proof (ndigits_lt_lt (Z.abs vx) (Z.abs vy) ltac:(lia) ltac:(lia)). pose proof (ndigits_lt_lt (Z.abs vy) (Z.abs vx) ltac:(lia) ltac:(lia)).
  case_decide; [rewrite Z.sgn_pos by lia; by rewrite Z.mul_1_r|]. case_decide; [rewrite Z.sgn_neg by lia; by rewrite <- Z.opp_eq_mul_m1|].
  pose proof (ndigits_cap cx vx Hvx). pose proof (ndigits_cap cy vy Hvy). rewrite Nat2Z.id.
  rewrite (compare_words_ok m x y _ _ cx cy (Z.abs vx) (Z.abs vy) sig _ Hx Hy) by lia.
  pose proof (ndigits_lt (Z.abs vx) ltac:(lia)). pose proof (ndigits_lt (Z.abs vy) ltac:(lia)) as Hy2. replace (ndigits (Z.abs vy)) with (ndigits (Z.abs vx)) in Hy2 by lia.
  by rewrite !Z.mod_small by lia.
Qed.

Lemma mr_compare_ok m x y cx cy vx vy : holds m x cx vx → holds m y cy vy → mr_compare x y m = Some (Z.sgn (vx - vy), m).
Proof.
  intros Hhx Hhy. unfold mr_compare. case_decide as Hxy; [subst; rewrite (holds_eq _ _ _ _ _ _ Hhx Hhy); by rewrite Z.sub_diag|].
  pose proof Hhx as (Hx & Hvx & Hcx). pose proof Hhy as (Hy & Hvy & Hcy).
  rewrite (mbind_Some _ _ m _ m (get_len_ok x _ m Hx)), (mbind_Some _ _ m _ m (get_len_ok y _ m Hy)).
  destruct (len_parts cx vx Hvx Hcx) as (-> & -> & _). destruct (len_parts cy vy Hvy Hcy) as (-> & -> & _). unfold sign_bit.
  destruct (decide (vx < 0)) as [Sx|Sx], (decide (vy < 0)) as [Sy|Sy]; cbn [decide].
  - rewrite (decide_False (P := MR_MSBIT = 0)), (decide_False (P := MR_MSBIT ≠ MR_MSBIT)) by (done || congruence).
    rewrite (compare_abs_ok m x y cx cy) by done. do 2 f_equal. lia.
  - rewrite (decide_False (P := MR_MSBIT = 0)), (decide_True (P := MR_MSBIT ≠ 0)) by done. by rewrite Z.sgn_neg by lia.
  - rewrite (decide_True (P := 0 = 0)), (decide_True (P := 0 ≠ MR_MSBIT)) by done. by rewrite Z.sgn_pos by lia.
  - rewrite (decide_True (P := 0 = 0)), (decide_False (P := 0 ≠ 0)) by (done || congruence). rewrite (compare_abs_ok m x y cx cy) by done. do 2 f_equal. lia.
Qed.

(** *** Integers of one word *)

Lemma ndigits_1 v : 0 < v < B → ndigits v = 1%nat.
Proof. intros H. apply ndigits_unique; [lia|change (W (1 - 1)) with 1; lia|rewrite W_1; lia]. Qed.

(** [size] is the number, or plus or minus [MR_TOOBIG] where it is larger. *)
Lemma size_ok m x cap v : holds m x cap v → size x m = Some (Z.max (- MR_TOOBIG) (Z.min v MR_TOOBIG), m).
Proof.
  intros (Hx & Hv & Hc). unfold size. rewrite (mbind_Some _ _ m _ m (get_len_ok x _ m Hx)). destruct (len_parts cap v Hv Hc) as (-> & -> & _).
  pose proof (ndigits_cap cap v Hv) as Hn. case_decide as H0.
  { assert (v = 0) as ->; [|done]. destruct (decide (v = 0)); [done|]. destruct (ndigits_pos (Z.abs v) ltac:(lia)). lia. }
  rewrite (mbind_Some _ _ m _ m (get_word_ok x _ m Hx 0 _ (digits_lookup cap _ 0 ltac:(lia)))). unfold digit. rewrite W_0, Z.div_1_r.
  assert (MR_TOOBIG = 1073741824) as ET by done.
  assert ((if decide (Z.of_nat (ndigits (Z.abs v)) = 1 ∧ Z.abs v mod B < MR_TOOBIG) then Z.abs v mod B else MR_TOOBIG) = Z.min (Z.abs v) MR_TOOBIG) as ->.
  { destruct (decide (Z.abs v < B)) as [Hs|Hs].
    - rewrite Z.mod_small by lia. assert (Z.abs v ≠ 0) by (intros E; by rewrite E in H0). rewrite ndigits_1 by lia. case_decide; [lia|]. assert (¬ Z.abs v < MR_TOOBIG) by tauto. lia.
    - rewrite decide_False; [lia|]. intros [E _]. pose proof (ndigits_lt (Z.abs v) ltac:(lia)) as Hl. replace (ndigits (Z.abs v)) with 1%nat in Hl by lia. rewrite W_1 in Hl. lia. }
  unfold sign_bit. destruct (decide (v < 0)); [rewrite decide_True by done|rewrite decide_False by done]; unfold mret, M_ret; do 2 f_equal; lia.
Qed.

Lemma uconvert_ok m x cap n : space m x cap → (0 < cap)%nat → 0 <= n < B → uconvert n x m = Some (tt, put x (big_of cap n) m).
Proof.
  intros Hh Hcap Hn. unfold uconvert. rewrite (mbind_Some _ _ m _ _ (zero_space m x cap Hh)). case_decide as H0; [by subst|].
  assert (0 < length (words (big_of cap 0)))%nat as Hl by (cbn [words big_of]; rewrite digits_length; lia).
  rewrite (mbind_Some _ _ _ _ _ (set_word_ok x _ _ (bigs_put x _ m) 0 n Hl)).
  rewrite put_put, (set_len_ok x _ _ (bigs_put x _ m)), put_put. do 3 f_equal. unfold big_of. cbn [words]. rewrite (Z.abs_eq n), (ndigits_1 n), decide_False by lia. f_equal.
  apply digits_eq; [by rewrite length_insert, digits_length|]. intros i Hi. destruct (decide (i = 0%nat)) as [->|].
  - rewrite list_lookup_insert_eq by (rewrite digits_length; lia). f_equal. unfold digit. rewrite W_0, Z.div_1_r, Z.mod_small by lia. done.
  - rewrite list_lookup_insert_ne, digits_lookup by lia. rewrite Z.abs_0, digit_0. f_equal. symmetry. apply digit_small. split; [lia|].
    pose proof (W_le 1 i ltac:(lia)) as H. rewrite W_1 in H. lia.
Qed.

Lemma convert_ok m x cap n : space m x cap → (0 < cap)%nat → - 2 ^ 31 < n < 2 ^ 31 → convert n x m = Some (tt, put x (big_of cap n) m).
Proof.
  intros Hh Hcap Hn. change (2 ^ 31) with 2147483648 in Hn. unfold convert. case_decide as H0; [subst; by apply (zero_space m x cap)|].
  assert ((if decide (n < 0) then - n else n) = Z.abs n) as -> by (case_decide; lia). rewrite (mbind_Some _ _ m _ _ (uconvert_ok m x cap (Z.abs n) Hh Hcap ltac:(lia))).
  rewrite (mbind_Some _ _ _ _ _ (get_len_ok x _ _ (bigs_put x _ m))), (set_len_ok x _ _ (bigs_put x _ m)), put_put. do 3 f_equal. unfold big_of. cbn [len words].
  rewrite Z.abs_idemp, ndigits_1 by lia. rewrite (decide_False (P := Z.abs n < 0)) by lia. rewrite Z.add_0_r. f_equal. case_decide; [done|]. by rewrite Z.lor_0_r.
Qed.
