(* ===== verification/BigAdd.v ===== *)
(** * BigAdd: addition and subtraction of MIRACL numbers, [mrarth0.c]

    The functions add or subtract the magnitudes column by column and [mr_select] chooses by
    the signs; the operands and the result may be the same variable in every combination.
    Modelled where [base] is 0. *)

From S2P Require Import Prelude BigNum.

Definition PLUS : Z := 1.
Definition MINUS : Z := -1.

(** ** mrarth0.c *)

(** One column of an addition. *)
Definition padd_step (x y z : positive) (i : nat) (carry : Z) : M Z :=
  a ← get_word x i; b ← get_word y i;
  let psum := (a + b + carry) mod B in
  set_word z i psum;;
  mret (if decide (a < psum) then 0 else if decide (psum < a) then 1 else carry).

(** [for (;i<lz && carry>0;i++)]; [k] is [lz - i]. *)
Fixpoint padd_carry (x y z : positive) (k i : nat) (carry : Z) : M (nat * Z) :=
  match k with
  | O => mret (i, carry)
  | S k => if decide (0 < carry) then carry ← padd_step x y z i carry; padd_carry x y z k (S i) carry else mret (i, carry)
  end.

(** [if (gz[z->len-1]==0) z->len--;] *)
Definition padd_trim (z : positive) : M unit :=
  l ← get_len z; v ← get_word z (Z.to_nat ((l - 1) mod B)); if decide (v = 0) then set_len z (l - 1) else mret tt.

Definition mr_padd (x y z : positive) : M unit :=
  lx ← get_len x; ly ← get_len y;
  la ← (if decide (lx < ly) then if decide (x = z) then mret ly else copy y z;; mret lx
        else if decide (y = z) then mret lx else copy x z;; mret ly);
  let lz := Z.max lx ly in
  nib ← get_nib; chk ← get_check;
  set_len z (if bool_decide (lz < Z.of_nat nib) || negb chk then lz + 1 else lz);;
  carry ← floop (Z.to_nat la) 0 (padd_step x y z) 0;
  r ← padd_carry x y z (Z.to_nat lz - Z.to_nat la) (Z.to_nat la) carry;
  let '(i, carry) := r in
  if decide (carry = 0) then padd_trim z
  else if chk && bool_decide (nib <= i)%nat then mr_berror MR_ERR_OVERFLOW
  else set_word z i carry;; padd_trim z.

(** [for (i=0;i<ly || borrow>0;i++)]; it leaves when [i] passes [lx], so that [lx + 2] rounds
    are enough. The result says whether the loop went through. *)
Fixpoint psub_loop (x y z : positive) (lx ly : Z) (fuel i : nat) (borrow : Z) : M bool :=
  match fuel with
  | O => lift None
  | S fuel =>
      if decide (Z.of_nat i < ly ∨ 0 < borrow) then
        if decide (lx < Z.of_nat i) then mr_berror MR_ERR_NEG_RESULT;; mret false else
        a ← get_word x i; b ← get_word y i;
        let pdiff := (a - b - borrow) mod B in
        set_word z i pdiff;;
        psub_loop x y z lx ly fuel (S i) (if decide (pdiff < a) then 0 else if decide (a < pdiff) then 1 else borrow)
      else mret true
  end.

Definition mr_psub (x y z : positive) : M unit :=
  lx ← get_len x; ly ← get_len y;
  if decide (lx < ly) then mr_berror MR_ERR_NEG_RESULT else
  ly ← (if decide (y = z) then mret lx else copy x z;; mret ly);
  set_len z lx;;
  done ← psub_loop x y z lx ly (Z.to_nat lx + 2) 0 0;
  if done : bool then mr_lzero z else mret tt.

(** [x->len &= MR_OBITS], [x->len ^= MR_MSBIT] *)
Definition clear_sign (x : positive) : M unit := l ← get_len x; set_len x (Z.land l MR_OBITS).
Definition flip_sign (x : positive) : M unit := l ← get_len x; set_len x (Z.lxor l MR_MSBIT).

(** The cases of [mr_select] by the signs; the result is the sign. *)
Definition select_op (jf : Z) (xgty : Z) (x y z : positive) : M Z :=
  if decide (jf = 0) then (if decide (0 <= xgty) then mr_padd x y z else mr_padd y x z);; mret MINUS
  else if decide (jf = 1) then
    if decide (xgty <= 0) then mr_psub y x z;; mret PLUS else mr_psub x y z;; mret MINUS
  else if decide (jf = 2) then
    if decide (0 <= xgty) then mr_psub x y z;; mret PLUS else mr_psub y x z;; mret MINUS
  else if decide (jf = 3) then (if decide (0 <= xgty) then mr_padd x y z else mr_padd y x z);; mret PLUS
  else mret 0.

Definition mr_select (x : positive) (d : Z) (y z : positive) : M unit :=
  fx ← mr_notint x; fy ← (if fx : bool then mret true else mr_notint y);
  if fy : bool then mr_berror MR_ERR_INT_OP else
  sx ← exsign x; sy ← exsign y;
  clear_sign x;; clear_sign y;;
  xgty ← mr_compare x y;
  sz ← select_op ((1 + sx) + Z.quot (1 + d * sy) 2) xgty x y z;
  (if decide (sz < 0) then flip_sign z else mret tt);;
  (if decide (x ≠ z ∧ sx < 0) then flip_sign x else mret tt);;
  if decide (y ≠ z ∧ y ≠ x ∧ sy < 0) then flip_sign y else mret tt.

(** [if (mr_mip->ERNUM) return;] *)
Definition unless_error (c : M unit) : M unit := e ← get_ERNUM; if decide (e = 0) then c else mret tt.

Definition add (x y z : positive) : M unit := unless_error (mr_select x PLUS y z).
Definition subtract (x y z : positive) : M unit := unless_error (mr_select x MINUS y z).

Definition incr (x : positive) (n : Z) (z : positive) : M unit := unless_error (convert n w0;; mr_select x PLUS w0 z).
Definition decr (x : positive) (n : Z) (z : positive) : M unit := unless_error (convert n w0;; mr_select x MINUS w0 z).

(** ** The columns *)

Lemma carry_unit a y i : 0 <= carry a 1 y i <= 1.
Proof.
  unfold carry. pose proof (W_pos i). pose proof (Z.mod_pos_bound a (W i) ltac:(lia)). pose proof (Z.mod_pos_bound y (W i) ltac:(lia)).
  rewrite Z.mul_1_l. split; [apply Z.div_pos; lia|]. apply Zlt_succ_le. apply Z.div_lt_upper_bound; lia.
Qed.

(** The comparison with the old digit gives the next carry. *)
Lemma psum_carry a b c s c' : 0 <= a < B → 0 <= b < B → 0 <= c <= 1 → 0 <= s < B → 0 <= c' <= 1 → a + b + c = s + B * c' →
  (a + b + c) mod B = s ∧ (if decide (a < s) then 0 else if decide (s < a) then 1 else c) = c'.
Proof.
  intros Ha Hb Hc Hs Hc' E. split; [rewrite E, (Z.mul_comm B), Z.mod_add, Z.mod_small by lia; done|]. repeat case_decide; lia.
Qed.

Lemma pdiff_borrow a b c s c' : 0 <= a < B → 0 <= b < B → 0 <= c <= 1 → 0 <= s < B → 0 <= c' <= 1 → a - b - c = s - B * c' →
  (a - b - c) mod B = s ∧ (if decide (s < a) then 0 else if decide (a < s) then 1 else c) = c'.
Proof.
  intros Ha Hb Hc Hs Hc' E. split; [|repeat case_decide; lia]. rewrite E. replace (s - B * c') with (s + (- c') * B) by lia. by rewrite Z.mod_add, Z.mod_small by lia.
Qed.

Section columns.
Context (m : mip) (x y z : positive) (cx cy cz : nat) (vx vy : Z).
Context (Hx : bigs m !! x = Some (big_of cx vx)) (Hy : bigs m !! y = Some (big_of cy vy)) (H0x : 0 <= vx) (H0y : 0 <= vy).

(** From column [i] on the words [ws] of the result are those of an operand that is the
    same variable. *)
Definition intact (i : nat) (ws : list Z) : Prop :=
  ∀ j, (i <= j < cz)%nat → (x = z → ws !! j = Some (digit vx j)) ∧ (y = z → ws !! j = Some (digit vy j)).

Lemma intact_same i ws ws' : intact i ws → (∀ j, (i <= j)%nat → ws' !! j = ws !! j) → intact i ws'.
Proof. intros H E j Hj. rewrite E by lia. by apply H. Qed.

Lemma intact_mono i i' ws : intact i ws → (i <= i')%nat → intact i' ws.
Proof. intros H Hi j Hj. apply H. lia. Qed.

Lemma column_reads l ws i : (i < cx)%nat → (i < cy)%nat → (i < cz)%nat → intact i ws →
  get_word x i (put z (Big l ws) m) = Some (digit vx i, put z (Big l ws) m) ∧ get_word y i (put z (Big l ws) m) = Some (digit vy i, put z (Big l ws) m).
Proof.
  intros H1 H2 H3 Hi. destruct (Hi i ltac:(lia)) as [Ex Ey].
  pose proof (get_word_alias m x cx vx z l ws i Hx H1) as Rx. pose proof (get_word_alias m y cy vy z l ws i Hy H2) as Ry.
  rewrite Z.abs_eq in Rx, Ry by done. auto.
Qed.

Lemma padd_step_ok l ws i : (i < cx)%nat → (i < cy)%nat → (i < cz)%nat → (i < length ws)%nat → intact i ws →
  padd_step x y z i (carry vx 1 vy i) (put z (Big l ws) m) = Some (carry vx 1 vy (S i), put z (Big l (<[i := digit (vx + vy) i]> ws)) m).
Proof.
  intros H1 H2 H3 Hl Hi. destruct (column_reads l ws i H1 H2 H3 Hi) as [Rx Ry]. unfold padd_step. rewrite (mbind_Some _ _ _ _ _ Rx), (mbind_Some _ _ _ _ _ Ry).
  pose proof (carry_step vx 1 vy i) as E. rewrite !Z.mul_1_l in E.
  destruct (psum_carry (digit vx i) (digit vy i) (carry vx 1 vy i) (digit (vx + vy) i) (carry vx 1 vy (S i))) as [-> ->];
    [apply digit_bound|apply digit_bound|apply carry_unit|apply digit_bound|apply carry_unit|done|].
  rewrite (mbind_Some _ _ _ _ _ (set_word_ok z _ _ (bigs_put z (Big l ws) m) i _ Hl)). by rewrite put_put.
Qed.

(** The columns that both numbers have. *)
Lemma padd_columns l ws k : (k <= cx)%nat → (k <= cy)%nat → (k <= cz)%nat → length ws = cz → intact 0 ws → ∃ ws',
  floop k 0 (padd_step x y z) 0 (put z (Big l ws) m) = Some (carry vx 1 vy k, put z (Big l ws') m) ∧ length ws' = cz ∧
  ∀ j, ws' !! j = if decide (j < k)%nat then Some (digit (vx + vy) j) else ws !! j.
Proof.
  intros H1 H2 H3 Hl Hi. destruct (floop_cols (padd_step x y z) z l 0 (carry vx 1 vy) (digit (vx + vy)) ws m k 0) as (ws' & E & L & Hw); [cbn; lia| |].
  - intros i ws' Hik Hl' Hs. apply padd_step_ok; [lia..|]. apply (intact_same i ws); [apply (intact_mono 0); [done|lia]|done].
  - rewrite carry_0 in E. exists ws'. split; [done|]. split; [lia|]. intros j. rewrite Hw, Nat.sub_0_r. cbn [Nat.add]. clear E. repeat case_decide; lia || done.
Qed.

(** The columns that only the longer number has. *)
Context (la : nat) (Hplain : ∀ j, (la <= j)%nat → digit vx j + digit vy j < B).

Lemma plain_stop i j : (la <= i <= j)%nat → carry vx 1 vy i = 0 → carry vx 1 vy j = 0 ∧ digit (vx + vy) j = digit vx j + digit vy j.
Proof.
  intros Hj Hc. pose proof (carry_stop vx 1 vy i Hc) as H. rewrite !Z.mul_1_l in H. rewrite <- (Z.mul_1_l (digit vy j)). apply H; [|lia].
  intros j' Hj'. rewrite Z.mul_1_l. pose proof (Hplain j' ltac:(lia)). pose proof (digit_bound vx j'). pose proof (digit_bound vy j'). lia.
Qed.

Lemma padd_carry_ok l k : ∀ i ws, (la <= i)%nat → (i + k <= cx)%nat → (i + k <= cy)%nat → (i + k <= cz)%nat → length ws = cz → intact i ws →
  (∀ j, (i <= j < cz)%nat → ws !! j = Some (digit vx j + digit vy j)) → ∃ i' ws',
  padd_carry x y z k i (carry vx 1 vy i) (put z (Big l ws) m) = Some ((i', carry vx 1 vy (i + k)), put z (Big l ws') m) ∧
  (carry vx 1 vy (i + k) ≠ 0 → i' = (i + k)%nat) ∧ length ws' = cz ∧
  ∀ j, ws' !! j = if decide (i <= j < i + k)%nat then Some (digit (vx + vy) j) else ws !! j.
Proof.
  induction k as [|k IH]; intros i ws Hla H1 H2 H3 Hl Hi Hws.
  - exists i, ws. rewrite Nat.add_0_r. split; [done|]. split; [done|]. split; [done|]. intros j. by rewrite decide_False by lia.
  - cbn [padd_carry]. case_decide as Hc.
    + rewrite (mbind_Some _ _ _ _ _ (padd_step_ok l ws i ltac:(lia) ltac:(lia) ltac:(lia) ltac:(lia) Hi)). set (ws1 := <[i := _]> ws).
      assert (∀ j, (S i <= j)%nat → ws1 !! j = ws !! j) as Hs by (intros j Hj; apply list_lookup_insert_ne; lia).
      destruct (IH (S i) ws1) as (i' & ws' & E & Hi' & L & Hw); [lia..|by unfold ws1; rewrite length_insert| | |].
      { apply (intact_same _ ws); [|done]. apply (intact_mono i); [done|lia]. }
      { intros j Hj. rewrite Hs by lia. apply Hws. lia. }
      exists i', ws'. replace (i + S k)%nat with (S i + k)%nat by lia. split; [done|]. split; [done|]. split; [done|]. intros j. rewrite Hw.
      destruct (decide (S i <= j < S i + k)%nat); [by rewrite decide_True by lia|]. destruct (decide (j = i)) as [->|].
      * rewrite decide_True by lia. apply list_lookup_insert_eq. lia.
      * rewrite decide_False by lia. by apply list_lookup_insert_ne.
    + pose proof (carry_unit vx vy i). assert (carry vx 1 vy i = 0) as E0 by lia. rewrite E0. exists i, ws.
      destruct (plain_stop i (i + S k) ltac:(lia) E0) as [-> _]. split; [done|]. split; [done|]. split; [done|]. intros j. case_decide; [|done].
      rewrite Hws by lia. f_equal. symmetry. apply (plain_stop i); [lia|done].
Qed.
End columns.

Lemma padd_trim_ok m z cz v n : bigs m !! z = Some (Big (Z.of_nat n) (digits cz v)) → 0 <= v → (0 < n <= cz)%nat → Z.of_nat cz < 65536 →
  ndigits v = n ∨ ndigits v = (n - 1)%nat → padd_trim z m = Some (tt, put z (big_of cz v) m).
Proof.
  intros Hz Hv Hn Hc Hd. unfold padd_trim. rewrite (mbind_Some _ _ m _ m (get_len_ok z _ m Hz)). cbn [len]. rewrite Z.mod_small by lia.
  replace (Z.to_nat (Z.of_nat n - 1)) with (n - 1)%nat by lia.
  rewrite (mbind_Some _ _ m _ m (get_word_ok z _ m Hz (n - 1) _ (digits_lookup cz v (n - 1) ltac:(lia)))).
  rewrite big_of_nonneg by done. destruct Hd as [Hd|Hd].
  - rewrite decide_False; [rewrite put_same; [done|by rewrite Hd]|]. rewrite <- Hd. apply digit_top. destruct (decide (v = 0)) as [->|]; [by rewrite ndigits_0 in Hd; lia|lia].
  - rewrite decide_True by (apply digit_ndigits; lia). rewrite (set_len_ok z _ m Hz). do 4 f_equal. lia.
Qed.

(** ** Addition of magnitudes *)

Section padd.
Context (m : mip) (x y z : positive) (cx cy cz : nat) (vx vy vz : Z).
Context (Hx : holds m x cx vx) (Hy : holds m y cy vy) (Hz : holds m z cz vz) (H0x : 0 <= vx) (H0y : 0 <= vy).
Context (Hxy : vx < W cy) (Hyx : vy < W cx) (Hxz : vx < W cz) (Hyz : vy < W cz).
Local Abbreviation nx := (ndigits vx).
Local Abbreviation ny := (ndigits vy).
Local Abbreviation lz := (Nat.max nx ny).

(** The longer number is copied into the result, unless the shorter one is there. *)
Lemma padd_setup : ∃ la l ws,
  (if decide (Z.of_nat nx < Z.of_nat ny) then if decide (x = z) then mret (Z.of_nat ny) else copy y z;; mret (Z.of_nat nx)
   else if decide (y = z) then mret (Z.of_nat nx) else copy x z;; mret (Z.of_nat ny)) m = Some (Z.of_nat la, put z (Big l ws) m) ∧
  (la <= lz)%nat ∧ length ws = cz ∧ intact x y z cz vx vy 0 ws ∧
  (∀ j, (la <= j)%nat → digit vx j + digit vy j < B) ∧ (∀ j, (la <= j < cz)%nat → ws !! j = Some (digit vx j + digit vy j)).
Proof.
  pose proof Hx as (Ex & _). pose proof Hy as (Ey & _). rewrite big_of_nonneg in Ex, Ey by done.
  assert (∀ v j, (ndigits v <= j)%nat → 0 <= v → digit v j = 0) as Z0 by (intros; by apply digit_ndigits).
  destruct (decide (Z.of_nat nx < Z.of_nat ny)) as [Hn|Hn].
  - destruct (decide (x = z)) as [E|E].
    + subst z. rewrite <- (holds_cap m x cx cz vx vz Hx Hz). exists ny, (Z.of_nat nx), (digits cx vx). rewrite put_same by done. split; [done|]. split; [lia|]. split; [apply digits_length|].
      split; [|split].
      * intros j Hj. split; intros E'; [apply digits_lookup; lia|]. subst y. rewrite (holds_eq _ _ _ _ _ _ Hx Hy) in Hn. lia.
      * intros j Hj. rewrite !Z0 by lia. lia.
      * intros j Hj. rewrite digits_lookup, !Z0 by lia. done.
    + rewrite (mbind_Some _ _ m _ _ (copy_ok m y z cy vy cz vz Hy Hz ltac:(lia))). rewrite big_of_nonneg by done.
      exists nx, (Z.of_nat ny), (digits cz vy). split; [done|]. split; [lia|]. split; [apply digits_length|]. split; [|split].
      * intros j Hj. split; intros E'; [done|apply digits_lookup; lia].
      * intros j Hj. rewrite (Z0 vx) by lia. pose proof (digit_bound vy j). lia.
      * intros j Hj. rewrite digits_lookup, (Z0 vx) by lia. done.
  - destruct (decide (y = z)) as [E|E].
    + subst z. rewrite <- (holds_cap m y cy cz vy vz Hy Hz). exists nx, (Z.of_nat ny), (digits cy vy). rewrite put_same by done. split; [done|]. split; [lia|]. split; [apply digits_length|].
      split; [|split].
      * intros j Hj. split; intros E'; [|apply digits_lookup; lia]. subst y. rewrite (holds_eq _ _ _ _ _ _ Hx Hy). apply digits_lookup; lia.
      * intros j Hj. rewrite !Z0 by lia. lia.
      * intros j Hj. rewrite digits_lookup, !Z0 by lia. done.
    + rewrite (mbind_Some _ _ m _ _ (copy_ok m x z cx vx cz vz Hx Hz ltac:(lia))). rewrite big_of_nonneg by done.
      exists ny, (Z.of_nat nx), (digits cz vx). split; [done|]. split; [lia|]. split; [apply digits_length|]. split; [|split].
      * intros j Hj. split; intros E'; [apply digits_lookup; lia|done].
      * intros j Hj. rewrite (Z0 vy) by lia. pose proof (digit_bound vx j). lia.
      * intros j Hj. rewrite digits_lookup, (Z0 vy), Z.add_0_r by lia. done.
Qed.

Definition padd_len : nat := if bool_decide (lz < nib m)%nat || negb (check m) then S lz else lz.

(** What is left after the columns: the digits of the sum and the last carry. *)
Lemma padd_run : ∃ i, ((vx + vy) / W lz ≠ 0 → i = lz) ∧
  mr_padd x y z m = (if decide ((vx + vy) / W lz = 0) then padd_trim z
                     else if check m && bool_decide (nib m <= i)%nat then mr_berror MR_ERR_OVERFLOW
                     else set_word z i ((vx + vy) / W lz);; padd_trim z)
                    (put z (Big (Z.of_nat padd_len) (digits cz ((vx + vy) mod W lz))) m).
Proof.
  pose proof Hx as (Ex & Bx & _). pose proof Hy as (Ey & By & _). destruct padd_setup as (la & l & ws & E1 & Hla & Lws & Hint & Hlt & Hws).
  pose proof (ndigits_le vx cy H0x Hxy). pose proof (ndigits_le vy cx H0y Hyx). pose proof (ndigits_le vx cz H0x Hxz). pose proof (ndigits_le vy cz H0y Hyz).
  pose proof (ndigits_le vx cx H0x ltac:(lia)). pose proof (ndigits_le vy cy H0y ltac:(lia)).
  unfold mr_padd. rewrite (mbind_Some _ _ m _ m (get_len_ok x _ m Ex)), (mbind_Some _ _ m _ m (get_len_ok y _ m Ey)).
  rewrite (big_of_nonneg cx vx), (big_of_nonneg cy vy) by done. cbn [len]. rewrite (mbind_Some _ _ m _ _ E1). cbn zeta. unfold get_nib, get_check.
  set (m1 := put z (Big l ws) m). rewrite (mbind_Some _ _ m1 (nib m) m1 eq_refl), (mbind_Some _ _ m1 (check m) m1 eq_refl). unfold m1.
  replace (if bool_decide (_ < _) || _ then _ else _) with (Z.of_nat padd_len).
  2:{ unfold padd_len. rewrite (bool_decide_ext (lz < nib m)%nat (Z.max (Z.of_nat nx) (Z.of_nat ny) < Z.of_nat (nib m))) by lia. destruct (_ || _); lia. }
  rewrite (mbind_Some _ _ _ _ _ (set_len_ok z _ _ (bigs_put z (Big l ws) m) _)), put_put. cbn [words]. rewrite Nat2Z.id.
  destruct (padd_columns m x y z cx cy cz vx vy Ex Ey H0x H0y (Z.of_nat padd_len) ws la ltac:(lia) ltac:(lia) ltac:(lia) Lws Hint) as (ws1 & E2 & L1 & Hw1).
  rewrite (mbind_Some _ _ _ _ _ E2). replace (Z.to_nat (Z.max (Z.of_nat nx) (Z.of_nat ny)) - la)%nat with (lz - la)%nat by lia.
  assert (∀ j, (la <= j)%nat → ws1 !! j = ws !! j) as Hs by (intros j Hj; rewrite Hw1; by rewrite decide_False by lia).
  destruct (padd_carry_ok m x y z cx cy cz vx vy Ex Ey H0x H0y la Hlt (Z.of_nat padd_len) (lz - la) la ws1) as (i & ws2 & E3 & Hi & L2 & Hw2); [lia..|done| | |].
  { apply (intact_same _ _ _ _ _ _ la ws); [|done]. apply (intact_mono _ _ _ _ _ _ 0); [done|lia]. }
  { intros j Hj. rewrite Hs by lia. apply Hws. lia. }
  replace (la + (lz - la))%nat with lz in * by lia.
  assert (carry vx 1 vy lz = (vx + vy) / W lz) as Ec.
  { rewrite carry_high, Z.mul_1_l; [done| |]; (split; [lia|]); eapply Z.lt_le_trans; [by apply ndigits_lt|apply W_le; lia|by apply ndigits_lt|apply W_le; lia]. }
  rewrite (mbind_Some _ _ _ _ _ E3). rewrite Ec in *. exists i. split; [done|]. do 3 f_equal. f_equal. apply digits_eq; [done|]. intros j Hj. rewrite Hw2. clear E1. case_decide as Hc; [by rewrite digit_mod by lia|].
  rewrite Hw1. case_decide; [by rewrite digit_mod by lia|]. rewrite Hws, !digit_ndigits by lia. f_equal. symmetry. apply digit_small.
  pose proof (Z.mod_pos_bound (vx + vy) (W lz) ltac:(done)). pose proof (W_le lz j ltac:(lia)). lia.
Qed.

Lemma sum_bounds : 0 <= vx + vy < 2 * W lz ∧ ((0 < lz)%nat → W (lz - 1) <= vx + vy).
Proof.
  pose proof (ndigits_lt vx H0x). pose proof (ndigits_lt vy H0y). pose proof (W_le nx lz ltac:(lia)). pose proof (W_le ny lz ltac:(lia)). split; [lia|]. intros Hl.
  destruct (decide (nx <= ny)%nat).
  - destruct (ndigits_pos vy); [destruct (decide (vy = 0)) as [E|]; [rewrite E, ndigits_0 in *|]; lia|]. replace lz with ny by lia. lia.
  - destruct (ndigits_pos vx); [destruct (decide (vx = 0)) as [E|]; [rewrite E, ndigits_0 in *|]; lia|]. replace lz with nx by lia. lia.
Qed.

Context (Hnib : (0 < nib m <= cz)%nat).

(** The sum, where there is room for it. *)
Lemma mr_padd_ok : (check m = false → (lz < cz)%nat) → (check m = true → vx + vy < W (lz `max` nib m)) →
  mr_padd x y z m = Some (tt, put z (big_of cz (vx + vy)) m).
Proof.
  intros Hoff Hon. pose proof Hz as (_ & _ & Hcz). destruct padd_run as (i & Hi & ->). destruct sum_bounds as [Hs Hlow]. pose proof (W_pos lz).
  pose proof (ndigits_le vx cz H0x Hxz). pose proof (ndigits_le vy cz H0y Hyz).
  assert (padd_len = S lz ∧ (lz < cz)%nat ∨ padd_len = lz ∧ (nib m <= lz)%nat ∧ check m = true) as Hpl.
  { unfold padd_len. destruct (check m); cbn [negb]; [rewrite orb_false_r; case_bool_decide; [left|right]; (split; [done|]); auto; lia|]. rewrite orb_true_r. auto. }
  case_decide as Hc.
  - assert (vx + vy < W lz) by (apply Z.div_small_iff in Hc; lia). rewrite Z.mod_small by lia. rewrite (padd_trim_ok _ z cz (vx + vy) padd_len); [by rewrite put_put|apply bigs_put|lia|lia|lia|].
    destruct (decide (lz = 0%nat)) as [E0|E0]; [assert (vx + vy = 0) as ->; [rewrite E0, W_0 in *; lia|]; rewrite ndigits_0; lia|].
    rewrite (ndigits_unique (vx + vy) lz) by (try apply Hlow; lia). lia.
  - rewrite (Hi Hc). assert ((vx + vy) / W lz = 1) as E1.
    { assert ((vx + vy) / W lz < 2) by (apply Z.div_lt_upper_bound; lia). assert (0 <= (vx + vy) / W lz) by (apply Z.div_pos; lia). lia. }
    rewrite E1. assert (W lz <= vx + vy) by (destruct (decide (vx + vy < W lz)); [rewrite Z.div_small in E1 by lia; lia|lia]).
    destruct Hpl as [(-> & Hl)|(_ & Hn & Hk)]; [|exfalso; specialize (Hon Hk); rewrite Nat.max_l in Hon by lia; lia].
    destruct (check m && bool_decide (nib m <= lz)%nat) eqn:Ek.
    { exfalso. apply andb_true_iff in Ek as [Ek1 Ek2%bool_decide_eq_true]. specialize (Hon Ek1). rewrite Nat.max_l in Hon by lia. lia. }
    rewrite (mbind_Some _ _ _ _ _ (set_word_ok z _ _ (bigs_put z (Big (Z.of_nat (S lz)) (digits cz _)) m) lz 1 ltac:(cbn [words]; rewrite digits_length; lia))), put_put.
    cbn [words len]. rewrite <- E1 at 1. rewrite digits_insert_top by (rewrite ?W_S; lia).
    rewrite (padd_trim_ok _ z cz (vx + vy) (S lz)); [by rewrite put_put|apply bigs_put|lia|lia|lia|].
    left. apply ndigits_unique; [lia| |rewrite W_S; lia]. by replace (S lz - 1)%nat with lz by lia.
Qed.

(** The error where there is none. *)
Lemma mr_padd_overflow : check m = true → W (lz `max` nib m) <= vx + vy →
  ∃ b, mr_padd x y z m = Some (tt, Mip (nib m) (check m) MR_ERR_OVERFLOW (<[z := b]> (bigs m))).
Proof.
  intros Hk Hbig. destruct padd_run as (i & Hi & ->). destruct sum_bounds as [Hs Hlow]. pose proof (W_pos lz).
  assert (nib m <= lz)%nat as Hn.
  { destruct (decide (nib m <= lz)%nat); [done|]. pose proof (W_le (S lz) (lz `max` nib m) ltac:(lia)) as Hw. rewrite W_S in Hw. lia. }
  rewrite Nat.max_l in Hbig by lia. assert ((vx + vy) / W lz ≠ 0) as Hc by (pose proof (Z.div_le_lower_bound (vx + vy) (W lz) 1); lia).
  rewrite decide_False by done. rewrite (Hi Hc), Hk. rewrite bool_decide_true by done. unfold mr_berror, put. cbn. rewrite Hk. by eexists.
Qed.
End padd.

(** ** Subtraction of magnitudes *)

Lemma borrow_unit a y i : -1 <= carry a (-1) y i <= 0.
Proof.
  unfold carry. pose proof (W_pos i). pose proof (Z.mod_pos_bound a (W i) ltac:(lia)). pose proof (Z.mod_pos_bound y (W i) ltac:(lia)). split.
  - apply Z.div_le_lower_bound; lia.
  - apply Zlt_succ_le. apply Z.div_lt_upper_bound; lia.
Qed.

Section psub.
Context (m : mip) (x y z : positive) (cx cy cz : nat) (vx vy vz : Z).
Context (Hx : holds m x cx vx) (Hy : holds m y cy vy) (Hz : holds m z cz vz) (H0y : 0 <= vy) (Hle : vy <= vx).
Context (Hxy : vx < W cy) (Hxz : vx < W cz).
Local Abbreviation nx := (ndigits vx).

Lemma psub_loop_ok l ly : (ly <= nx)%nat → (∀ j, (ly <= j)%nat → digit vy j <= digit vx j) → ∀ fuel i ws, (i <= nx)%nat → (nx < fuel + i)%nat → length ws = cz →
  intact x y z cz vx vy i ws → (∀ j, (ly <= j < cz)%nat → (i <= j)%nat → ws !! j = Some (digit vx j - digit vy j)) → ∃ ws',
  psub_loop x y z (Z.of_nat nx) (Z.of_nat ly) fuel i (- carry vx (-1) vy i) (put z (Big l ws) m) = Some (true, put z (Big l ws') m) ∧ length ws' = cz ∧
  ∀ j, (j < cz)%nat → ws' !! j = if decide (j < i)%nat then ws !! j else Some (digit (vx - vy) j).
Proof.
  intros Hly Hge. pose proof Hx as (Ex & Bx & _). pose proof Hy as (Ey & By & _).
  pose proof (ndigits_le vx cy ltac:(lia) Hxy). pose proof (ndigits_le vx cz ltac:(lia) Hxz). pose proof (ndigits_le vx cx ltac:(lia) ltac:(lia)).
  assert (∀ i, carry vx (-1) vy i = 0 → ∀ j, (ly <= i <= j)%nat → digit (vx - vy) j = digit vx j - digit vy j) as Hstop.
  { intros i Hc j Hj. replace (vx - vy) with (vx + -1 * vy) by lia. replace (digit vx j - digit vy j) with (digit vx j + -1 * digit vy j) by lia. apply (carry_stop vx (-1) vy i Hc); [|lia].
    intros j' Hj'. pose proof (Hge j' ltac:(lia)). pose proof (digit_bound vx j'). pose proof (digit_bound vy j'). lia. }
  assert (carry vx (-1) vy nx = 0) as Hend.
  { pose proof (ndigits_lt vx ltac:(lia)). rewrite carry_high by lia. apply Z.div_small. lia. }
  induction fuel as [|fuel IH]; intros i ws Hi Hf Hl Hint Hws; [lia|]. cbn [psub_loop]. pose proof (borrow_unit vx vy i).
  destruct (decide (Z.of_nat i < Z.of_nat ly ∨ 0 < - carry vx (-1) vy i)) as [Hgo|Hgo].
  - assert (i < nx)%nat as Hlt by (destruct (decide (i = nx)) as [->|]; [rewrite Hend in Hgo|]; lia). rewrite decide_False by lia.
    destruct (column_reads m x y z cx cy cz vx vy Ex Ey ltac:(lia) H0y l ws i ltac:(lia) ltac:(lia) ltac:(lia) Hint) as [Rx Ry].
    rewrite (mbind_Some _ _ _ _ _ Rx), (mbind_Some _ _ _ _ _ Ry). pose proof (carry_step vx (-1) vy i) as E. pose proof (borrow_unit vx vy (S i)).
    replace (vx + -1 * vy) with (vx - vy) in E by lia. cbn zeta.
    destruct (pdiff_borrow (digit vx i) (digit vy i) (- carry vx (-1) vy i) (digit (vx - vy) i) (- carry vx (-1) vy (S i))) as [-> ->]; [apply digit_bound|apply digit_bound|lia|apply digit_bound|lia|lia|].
    assert (i < length (words (Big l ws)))%nat as Hli by (cbn [words]; lia).
    rewrite (mbind_Some _ _ _ _ _ (set_word_ok z _ _ (bigs_put z (Big l ws) m) i _ Hli)), put_put. cbn [len words]. set (ws1 := <[i := _]> ws).
    assert (∀ j, (S i <= j)%nat → ws1 !! j = ws !! j) as Hs by (intros j Hj; apply list_lookup_insert_ne; lia).
    destruct (IH (S i) ws1) as (ws' & E' & L & Hw); [lia|lia|by unfold ws1; rewrite length_insert| | |].
    { apply (intact_same _ _ _ _ _ _ _ ws); [|done]. apply (intact_mono _ _ _ _ _ _ i); [done|lia]. }
    { intros j Hj Hij. rewrite Hs by lia. apply Hws; lia. }
    exists ws'. split; [done|]. split; [done|]. intros j Hj. rewrite Hw by done. unfold ws1. destruct (decide (j = i)) as [->|].
    + rewrite decide_True, decide_False by lia. apply list_lookup_insert_eq. lia.
    + rewrite list_lookup_insert_ne by done. repeat case_decide; lia || done.
  - exists ws. split; [done|]. split; [done|]. intros j Hj. case_decide; [done|]. rewrite Hws by lia. f_equal. symmetry. apply (Hstop i); lia.
Qed.

(** The difference of the magnitudes, the larger first. *)
Lemma mr_psub_ok : mr_psub x y z m = Some (tt, put z (big_of cz (vx - vy)) m).
Proof.
  pose proof Hx as (Ex & Bx & Hcx). pose proof Hy as (Ey & By & _). pose proof Hz as (_ & _ & Hcz). unfold mr_psub.
  pose proof (ndigits_mono vy vx ltac:(lia)) as Hn. pose proof (ndigits_le vx cz ltac:(lia) Hxz).
  rewrite (mbind_Some _ _ m _ m (get_len_ok x _ m Ex)), (mbind_Some _ _ m _ m (get_len_ok y _ m Ey)). rewrite (big_of_nonneg cx vx), (big_of_nonneg cy vy) by lia. cbn [len].
  rewrite decide_False by lia.
  assert (∃ (ly : nat) l ws, (if decide (y = z) then mret (Z.of_nat nx) else copy x z;; mret (Z.of_nat (ndigits vy))) m = Some (Z.of_nat ly, put z (Big l ws) m) ∧
    (ly <= nx)%nat ∧ length ws = cz ∧ intact x y z cz vx vy 0 ws ∧ (∀ j, (ly <= j)%nat → digit vy j <= digit vx j) ∧
    (∀ j, (ly <= j < cz)%nat → ws !! j = Some (digit vx j - digit vy j))) as (ly & l & ws & E1 & Hly & Lws & Hint & Hge & Hws).
  { case_decide as E.
    - subst z. pose proof (holds_cap m y cy cz vy vz Hy Hz) as ->. exists nx, (Z.of_nat (ndigits vy)), (digits cz vy). rewrite big_of_nonneg in Ey by done. rewrite put_same by done.
      split; [done|]. split; [lia|]. split; [apply digits_length|]. split; [|split].
      + intros j Hj. split; intros E'; [|apply digits_lookup; lia]. subst y. rewrite (holds_eq _ _ _ _ _ _ Hx Hy). apply digits_lookup; lia.
      + intros j Hj. rewrite (digit_ndigits vy) by lia. apply digit_bound.
      + intros j Hj. rewrite digits_lookup, (digit_ndigits vy), (digit_ndigits vx) by lia. done.
    - rewrite (mbind_Some _ _ m _ _ (copy_ok m x z cx vx cz vz Hx Hz ltac:(lia))). rewrite big_of_nonneg by lia. exists (ndigits vy), (Z.of_nat nx), (digits cz vx).
      split; [done|]. split; [lia|]. split; [apply digits_length|]. split; [|split].
      + intros j Hj. split; intros E'; [apply digits_lookup; lia|done].
      + intros j Hj. rewrite (digit_ndigits vy) by lia. apply digit_bound.
      + intros j Hj. rewrite digits_lookup, (digit_ndigits vy), Z.sub_0_r by lia. done. }
  rewrite (mbind_Some _ _ m _ _ E1), (mbind_Some _ _ _ _ _ (set_len_ok z _ _ (bigs_put z (Big l ws) m) _)), put_put. cbn [words].
  destruct (psub_loop_ok (Z.of_nat nx) ly Hly Hge (nx + 2) 0 ws) as (ws' & E2 & L & Hw); [lia|lia|done|done|intros; apply Hws; lia|].
  rewrite carry_0 in E2. rewrite Nat2Z.id, (mbind_Some _ _ _ _ _ E2).
  assert (ws' = digits cz (vx - vy)) as -> by (apply digits_eq; [done|]; intros j Hj; by rewrite Hw, decide_False by lia).
  rewrite (mr_lzero_ok _ z cz (vx - vy) nx 0), put_put; [done|by rewrite bigs_put, Z.add_0_r|lia| |lia|by left].
  pose proof (ndigits_mono (vx - vy) vx ltac:(lia)). lia.
Qed.
End psub.

(** ** Signed addition and subtraction *)

Lemma mip_eq s s' : nib s = nib s' → check s = check s' → ERNUM s = ERNUM s' → (∀ w, bigs s !! w = bigs s' !! w) → s = s'.
Proof. destruct s, s'. cbn. intros -> -> -> H. f_equal. by apply map_eq. Qed.

(** There is room for [v + w] in a result of [cz] words. *)
Definition room (m : mip) (cz : nat) (v w : Z) : Prop :=
  (check m = false → (ndigits (Z.abs v) `max` ndigits (Z.abs w) < cz)%nat) ∧
  (check m = true → Z.abs (v + w) < W (ndigits (Z.abs v) `max` ndigits (Z.abs w) `max` nib m)).

Section select.
Context (m : mip) (x y z : positive) (cx cy cz : nat) (vx vy vz d : Z).
Context (Hx : holds m x cx vx) (Hy : holds m y cy vy) (Hz : holds m z cz vz) (Hd : d = PLUS ∨ d = MINUS).
Context (Hxy : Z.abs vx < W cy) (Hyx : Z.abs vy < W cx) (Hxz : Z.abs vx < W cz) (Hyz : Z.abs vy < W cz) (Hnib : (0 < nib m <= cz)%nat).

(** The signs go. *)
Definition m2 : mip := put y (big_of cy (Z.abs vy)) (put x (big_of cx (Z.abs vx)) m).

Lemma clear_both : (clear_sign x;; clear_sign y) m = Some (tt, m2).
Proof.
  pose proof Hx as (Ex & Bx & Hcx). pose proof Hy as (Ey & By & Hcy). rewrite (mbind_Some _ _ m _ _ (clear_sign_ok m x cx vx Hx)). unfold m2.
  destruct (decide (x = y)) as [<-|Hne].
  - pose proof (holds_cap _ _ _ _ _ _ Hx Hy) as <-. rewrite <- (holds_eq _ _ _ _ _ _ Hx Hy).
    unfold clear_sign. rewrite (clear_sign_ok _ x cx (Z.abs vx)) by (apply holds_put; lia). by rewrite Z.abs_idemp.
  - by apply (clear_sign_ok _ y cy vy), holds_put_ne.
Qed.

Lemma m2_x : holds m2 x cx (Z.abs vx).
Proof.
  pose proof Hx as (_ & Bx & Hcx). unfold m2. destruct (decide (x = y)) as [E|Hne].
  - subst y. pose proof (holds_cap _ _ _ _ _ _ Hx Hy) as <-. rewrite <- (holds_eq _ _ _ _ _ _ Hx Hy). apply holds_put; lia.
  - apply holds_put_ne; [done|]. apply holds_put; lia.
Qed.

Lemma m2_y : holds m2 y cy (Z.abs vy).
Proof. pose proof Hy as (_ & By & Hcy). apply holds_put; lia. Qed.

Lemma m2_other w : w ≠ x → w ≠ y → bigs m2 !! w = bigs m !! w.
Proof. intros H1 H2. unfold m2. by rewrite !bigs_put_ne. Qed.

Lemma m2_z : ∃ v, holds m2 z cz v.
Proof.
  destruct (decide (z = x)) as [->|]; [rewrite (holds_cap _ _ _ _ _ _ Hz Hx); eexists; apply m2_x|].
  destruct (decide (z = y)) as [->|]; [rewrite (holds_cap _ _ _ _ _ _ Hz Hy); eexists; apply m2_y|].
  exists vz. destruct Hz as (E & B & C). split; [by rewrite m2_other|done].
Qed.

(** The signs come back. *)
Definition restore : M unit :=
  (if decide (x ≠ z ∧ (if decide (vx < 0) then -1 else 1) < 0) then flip_sign x else mret tt);;
  if decide (y ≠ z ∧ y ≠ x ∧ (if decide (vy < 0) then -1 else 1) < 0) then flip_sign y else mret tt.

Lemma restore_one s w cw vw (P : Prop) `{!Decision P} : bigs s !! w = Some (big_of cw (Z.abs vw)) → Z.abs vw < W cw → Z.of_nat cw < 65536 → (P ↔ vw < 0) →
  (if decide P then flip_sign w else mret tt) s = Some (tt, put w (big_of cw vw) s).
Proof.
  intros Hw Bw Hc HP. case_decide as H.
  - apply HP in H. unfold flip_sign. rewrite (flip_sign_ok s w cw (Z.abs vw)); [by replace (- Z.abs vw) with vw by lia| |lia].
    split; [done|]. split; [lia|done].
  - rewrite HP in H. unfold mret, M_ret. rewrite put_same; [done|]. rewrite Hw. do 2 f_equal. lia.
Qed.

Lemma restore_ok s : (∀ w, w ≠ z → bigs s !! w = bigs m2 !! w) → ∃ s', restore s = Some (tt, s') ∧
  nib s' = nib s ∧ check s' = check s ∧ ERNUM s' = ERNUM s ∧ bigs s' !! z = bigs s !! z ∧ ∀ w, w ≠ z → bigs s' !! w = bigs m !! w.
Proof.
  intros Hs. pose proof Hx as (Ex & Bx & Hcx). pose proof Hy as (Ey & By & Hcy).
  pose proof (proj1 m2_x) as E2x. pose proof (proj1 m2_y) as E2y. unfold restore.
  set (s1 := if decide (x = z) then s else put x (big_of cx vx) s).
  assert ((if decide (x ≠ z ∧ (if decide (vx < 0) then -1 else 1) < 0) then flip_sign x else mret tt) s = Some (tt, s1)) as E1.
  { unfold s1. destruct (decide (x = z)) as [E|E]; [by rewrite decide_False by tauto|]. apply restore_one; [by rewrite Hs|done|done|]. case_decide; lia. }
  rewrite (mbind_Some _ _ _ _ _ E1). set (s2 := if decide (y = z ∨ y = x) then s1 else put y (big_of cy vy) s1). exists s2. split.
  { unfold s2. destruct (decide (y = z ∨ y = x)) as [E|E]; [by rewrite decide_False by tauto|]. apply restore_one; [|done|done|].
    - unfold s1. destruct (decide (x = z)); [|rewrite bigs_put_ne by (intros <-; tauto)]; rewrite Hs by tauto; done.
    - destruct (decide (vy < 0)); (split; [lia|]); intros; (split; [|split]); tauto || lia. }
  clear E1. unfold s2, s1. repeat (split; [repeat case_decide; done|]). split.
  { repeat case_decide; rewrite ?bigs_put_ne by tauto; done. }
  intros w Hw. destruct (decide (w = x)) as [->|Nx].
  - rewrite (decide_False (P := x = z)) by done. case_decide; rewrite ?bigs_put_ne by (intros ->; tauto); by rewrite bigs_put.
  - assert (bigs (if decide (x = z) then s else put x (big_of cx vx) s) !! w = bigs m2 !! w) as E by (case_decide; rewrite ?bigs_put_ne by done; by apply Hs).
    destruct (decide (w = y)) as [->|Ny].
    + rewrite decide_False by tauto. by rewrite bigs_put.
    + destruct (decide (y = z ∨ y = x)); rewrite ?bigs_put_ne by done; rewrite E; by apply m2_other.
Qed.

Local Abbreviation sx := (if decide (vx < 0) then -1 else 1).
Local Abbreviation sy := (if decide (vy < 0) then -1 else 1).
Local Abbreviation the_case := (select_op ((1 + sx) + Z.quot (1 + d * sy) 2) (Z.sgn (Z.abs vx - Z.abs vy)) x y z).

(** The two kinds of cases: the magnitudes are added, where the signs are the same, or
    subtracted. *)
Lemma sub_magnitudes : (Z.abs vy <= Z.abs vx → mr_psub x y z m2 = Some (tt, put z (big_of cz (Z.abs vx - Z.abs vy)) m2)) ∧
  (Z.abs vx <= Z.abs vy → mr_psub y x z m2 = Some (tt, put z (big_of cz (Z.abs vy - Z.abs vx)) m2)).
Proof.
  destruct m2_z as (v & Hz2). split; intros H.
  - apply (mr_psub_ok m2 x y z cx cy cz (Z.abs vx) (Z.abs vy) v); apply m2_x || apply m2_y || done || lia.
  - apply (mr_psub_ok m2 y x z cy cx cz (Z.abs vy) (Z.abs vx) v); apply m2_x || apply m2_y || done || lia.
Qed.

Lemma select_op_1 g : select_op 1 g x y z = if decide (g <= 0) then mr_psub y x z;; mret PLUS else mr_psub x y z;; mret MINUS.
Proof. done. Qed.
Lemma select_op_2 g : select_op 2 g x y z = if decide (0 <= g) then mr_psub x y z;; mret PLUS else mr_psub y x z;; mret MINUS.
Proof. done. Qed.

Lemma select_op_cases : ∃ sz, (sz = PLUS ∨ sz = MINUS) ∧ (sz = MINUS → vx + d * vy < 0) ∧ vx + d * vy = sz * Z.abs (vx + d * vy) ∧
  (Z.abs (vx + d * vy) = Z.abs vx + Z.abs vy ∧ the_case = ((if decide (0 <= Z.sgn (Z.abs vx - Z.abs vy)) then mr_padd x y z else mr_padd y x z);; mret sz) ∨
   Z.abs (vx + d * vy) = Z.abs (Z.abs vx - Z.abs vy) ∧ the_case m2 = Some (sz, put z (big_of cz (Z.abs (vx + d * vy))) m2)).
Proof.
  destruct sub_magnitudes as [H1 H2]. unfold PLUS, MINUS in *.
  destruct (decide (vx < 0)) as [Sx|Sx], (decide (vy < 0)) as [Sy|Sy], Hd as [-> | ->]; cbv iota in *.
  all: try (exists (-1); split; [by right|]; split; [lia|]; split; [lia|]; left; split; [lia|reflexivity]).
  all: try (exists 1; split; [by left|]; split; [lia|]; split; [lia|]; left; split; [lia|reflexivity]).
  all: match goal with |- context [select_op ?j] => let v := eval vm_compute in j in change j with v end; rewrite ?select_op_1, ?select_op_2; case_decide as Hs.
  all: match goal with |- context [mr_psub x y z] => rewrite (mbind_Some _ _ _ _ _ (H1 ltac:(lia))) | |- context [mr_psub y x z] => rewrite (mbind_Some _ _ _ _ _ (H2 ltac:(lia))) end.
  all: match goal with |- context [mret MINUS] => exists (-1) | _ => exists 1 end; split; [auto|]; split; [lia|]; split; [lia|]; right; (split; [lia|]); unfold mret, M_ret; do 4 f_equal; lia.
Qed.

(** [mr_select] up to the choice of the case, and what remains after it. *)
Lemma mr_select_run : mr_select x d y z m = (sz ← the_case; (if decide (sz < 0) then flip_sign z else mret tt);; restore) m2.
Proof.
  unfold mr_select. rewrite (mbind_Some _ _ m _ m (mr_notint_ok m x cx vx Hx)), (mbind_Some _ _ m _ m (mr_notint_ok m y cy vy Hy)).
  rewrite (mbind_Some _ _ m _ m (exsign_ok m x cx vx Hx)), (mbind_Some _ _ m _ m (exsign_ok m y cy vy Hy)).
  pose proof clear_both as E. rewrite (mbind_Some _ _ m _ _ (clear_sign_ok m x cx vx Hx)) in E. rewrite (mbind_Some _ _ m _ _ (clear_sign_ok m x cx vx Hx)), (mbind_Some _ _ _ _ _ E).
  by rewrite (mbind_Some _ _ _ _ _ (mr_compare_ok m2 x y cx cy _ _ m2_x m2_y)).
Qed.

Lemma padd_magnitudes : room m cz vx (d * vy) → Z.abs (vx + d * vy) = Z.abs vx + Z.abs vy →
  (if decide (0 <= Z.sgn (Z.abs vx - Z.abs vy)) then mr_padd x y z else mr_padd y x z) m2 = Some (tt, put z (big_of cz (Z.abs (vx + d * vy))) m2).
Proof.
  intros [R1 R2] E. destruct m2_z as (v & Hz2). assert (Z.abs (d * vy) = Z.abs vy) as Ed by (unfold PLUS, MINUS in Hd; lia). rewrite Ed in R1, R2. rewrite E in *.
  assert (nib m2 = nib m) as En by done. assert (check m2 = check m) as Ec by done. case_decide.
  - rewrite (mr_padd_ok m2 x y z cx cy cz (Z.abs vx) (Z.abs vy) v); rewrite ?En, ?Ec; try (apply m2_x || apply m2_y || done || lia).
  - rewrite (Nat.max_comm (ndigits (Z.abs vx))) in R1, R2.
    rewrite (mr_padd_ok m2 y x z cy cx cz (Z.abs vy) (Z.abs vx) v); rewrite ?En, ?Ec, 1?(Z.add_comm (Z.abs vy)); try (apply m2_x || apply m2_y || done || lia).
Qed.

Lemma sum_fits : room m cz vx (d * vy) → Z.abs (vx + d * vy) < W cz.
Proof.
  intros [R1 R2]. assert (Z.abs (d * vy) = Z.abs vy) as Ed by (unfold PLUS, MINUS in Hd; lia). rewrite Ed in R1, R2.
  pose proof (ndigits_le (Z.abs vx) cz ltac:(lia) Hxz). pose proof (ndigits_le (Z.abs vy) cz ltac:(lia) Hyz). set (n := Nat.max (ndigits (Z.abs vx)) (ndigits (Z.abs vy))) in *.
  destruct (check m).
  - eapply Z.lt_le_trans; [by apply R2|]. apply W_le. lia.
  - specialize (R1 eq_refl). pose proof (W_le (S n) cz ltac:(lia)) as HW. rewrite W_S in HW. pose proof (W_le (ndigits (Z.abs vx)) n ltac:(lia)). pose proof (W_le (ndigits (Z.abs vy)) n ltac:(lia)).
    pose proof (ndigits_lt (Z.abs vx) ltac:(lia)). pose proof (ndigits_lt (Z.abs vy) ltac:(lia)). lia.
Qed.

Lemma mr_select_ok : room m cz vx (d * vy) → mr_select x d y z m = Some (tt, put z (big_of cz (vx + d * vy)) m).
Proof.
  intros HR. rewrite mr_select_run. destruct select_op_cases as (sz & Hs & Hm & Hv & Hcase).
  assert (the_case m2 = Some (sz, put z (big_of cz (Z.abs (vx + d * vy))) m2)) as E.
  { destruct Hcase as [[Ha ->]|[_ Hc]]; [|done]. by rewrite (mbind_Some _ _ _ _ _ (padd_magnitudes HR Ha)). }
  clear Hcase. rewrite (mbind_Some _ _ _ _ _ E). pose proof Hz as (_ & _ & Hcz).
  set (s3 := put z (big_of cz (vx + d * vy)) m2).
  assert ((if decide (sz < 0) then flip_sign z else mret tt) (put z (big_of cz (Z.abs (vx + d * vy))) m2) = Some (tt, s3)) as E3.
  { destruct Hs as [-> | ->].
    - unfold PLUS in *. rewrite decide_False by lia. rewrite Hv, Z.mul_1_l, Z.abs_idemp. unfold s3. by replace (Z.abs (vx + d * vy)) with (vx + d * vy) by lia.
    - specialize (Hm eq_refl). unfold MINUS in *. rewrite decide_True by lia. unfold flip_sign.
      rewrite (flip_sign_ok _ z cz (Z.abs (vx + d * vy))); [|apply holds_put; [|done]|lia].
      + rewrite put_put. unfold s3. by replace (- Z.abs (vx + d * vy)) with (vx + d * vy) by lia.
      + rewrite Z.abs_idemp. by apply sum_fits. }
  rewrite (mbind_Some _ _ _ _ _ E3). destruct (restore_ok s3) as (s' & -> & N1 & N2 & N3 & Hs' & Ho); [intros w Hw; by apply bigs_put_ne|].
  do 2 f_equal. apply mip_eq; [done..|]. intros w. destruct (decide (w = z)) as [->|Hne].
  - rewrite Hs'. unfold s3. by rewrite !bigs_put.
  - rewrite Ho by done. by rewrite bigs_put_ne.
Qed.

(** Where the magnitudes are added and there is no room. *)
Lemma mr_select_overflow : check m = true → Z.abs (vx + d * vy) = Z.abs vx + Z.abs vy →
  W (ndigits (Z.abs vx) `max` ndigits (Z.abs vy) `max` nib m) <= Z.abs vx + Z.abs vy →
  ∃ m', mr_select x d y z m = Some (tt, m') ∧ ERNUM m' = MR_ERR_OVERFLOW ∧ ∀ w, w ≠ z → bigs m' !! w = bigs m !! w.
Proof.
  intros Hk Ha Hbig. rewrite mr_select_run. destruct select_op_cases as (sz & Hs & Hm & Hv & Hcase).
  assert (∃ b, the_case m2 = Some (sz, Mip (nib m2) (check m2) MR_ERR_OVERFLOW (<[z := b]> (bigs m2)))) as [b E].
  { destruct m2_z as (v & Hz2). assert (nib m2 = nib m) as En by done. assert (check m2 = true) as Ec by done. destruct Hcase as [[_ ->]|[Hd' _]].
    - case_decide.
      + destruct (mr_padd_overflow m2 x y z cx cy cz (Z.abs vx) (Z.abs vy) v) as (b & E); rewrite ?En; try (apply m2_x || apply m2_y || done || lia).
        exists b. by rewrite (mbind_Some _ _ _ _ _ E).
      + rewrite (Nat.max_comm (ndigits (Z.abs vx))) in Hbig. rewrite Z.add_comm in Hbig.
        destruct (mr_padd_overflow m2 y x z cy cx cz (Z.abs vy) (Z.abs vx) v) as (b & E); rewrite ?En; try (apply m2_x || apply m2_y || done || lia).
        exists b. by rewrite (mbind_Some _ _ _ _ _ E).
    - pose proof (W_le (ndigits (Z.abs vx)) (ndigits (Z.abs vx) `max` ndigits (Z.abs vy) `max` nib m)%nat ltac:(lia)).
      pose proof (W_le (ndigits (Z.abs vy)) (ndigits (Z.abs vx) `max` ndigits (Z.abs vy) `max` nib m)%nat ltac:(lia)).
      pose proof (ndigits_lt (Z.abs vx) ltac:(lia)). pose proof (ndigits_lt (Z.abs vy) ltac:(lia)). lia. }
  rewrite (mbind_Some _ _ _ _ _ E). set (s0 := Mip _ _ _ _).
  assert (∃ s3, (if decide (sz < 0) then flip_sign z else mret tt) s0 = Some (tt, s3) ∧ ERNUM s3 = MR_ERR_OVERFLOW ∧ ∀ w, w ≠ z → bigs s3 !! w = bigs m2 !! w) as (s3 & E3 & N3 & Ho3).
  { clear E. destruct (decide (sz < 0)); [|exists s0; split; [done|]; split; [done|]; intros w Hw; by apply lookup_insert_ne].
    assert (bigs s0 !! z = Some b) as Eb by apply lookup_insert_eq. unfold flip_sign. rewrite (mbind_Some _ _ _ _ _ (get_len_ok z _ _ Eb)), (set_len_ok z _ _ Eb).
    eexists. split; [done|]. split; [done|]. intros w Hw. rewrite bigs_put_ne by done. by apply lookup_insert_ne. }
  rewrite (mbind_Some _ _ _ _ _ E3). destruct (restore_ok s3 Ho3) as (s' & -> & _ & _ & N & _ & Ho). exists s'. split; [done|]. split; [congruence|done].
Qed.
End select.

(** ** The functions of the library *)

Section sums.
Context (m : mip) (x y z : positive) (cx cy cz : nat) (vx vy vz : Z).
Context (Hx : holds m x cx vx) (Hy : holds m y cy vy) (Hz : holds m z cz vz) (HE : ERNUM m = 0).
Context (Hxy : Z.abs vx < W cy) (Hyx : Z.abs vy < W cx) (Hxz : Z.abs vx < W cz) (Hyz : Z.abs vy < W cz) (Hnib : (0 < nib m <= cz)%nat).

Lemma unless_error_ok c : unless_error c m = c m.
Proof. unfold unless_error, get_ERNUM, mbind, M_bind. by rewrite decide_True. Qed.

Lemma add_ok : room m cz vx vy → add x y z m = Some (tt, put z (big_of cz (vx + vy)) m).
Proof.
  intros HR. unfold add. rewrite unless_error_ok. rewrite (mr_select_ok m x y z cx cy cz vx vy vz PLUS); unfold PLUS; rewrite ?Z.mul_1_l; auto.
Qed.

Lemma subtract_ok : room m cz vx (- vy) → subtract x y z m = Some (tt, put z (big_of cz (vx - vy)) m).
Proof.
  intros HR. unfold subtract. rewrite unless_error_ok. replace (- vy) with (MINUS * vy) in HR by (unfold MINUS; lia).
  rewrite (mr_select_ok m x y z cx cy cz vx vy vz MINUS); auto.
Qed.

(** In an environment that checks, the magnitude does not fit in [nib] words. *)
Lemma add_overflow_ok : check m = true → 0 <= vx * vy → (ndigits (Z.abs vx) <= nib m)%nat → (ndigits (Z.abs vy) <= nib m)%nat → W (nib m) <= Z.abs (vx + vy) →
  ∃ m', add x y z m = Some (tt, m') ∧ ERNUM m' = MR_ERR_OVERFLOW ∧ ∀ w, w ≠ z → bigs m' !! w = bigs m !! w.
Proof.
  intros Hk Hs Hn1 Hn2 Hbig. unfold add. rewrite unless_error_ok. assert (Z.abs (vx + vy) = Z.abs vx + Z.abs vy) as E by nia.
  apply (mr_select_overflow m x y z cx cy cz vx vy vz PLUS); unfold PLUS; rewrite ?Z.mul_1_l; auto. rewrite Nat.max_r by lia. lia.
Qed.
End sums.

Section increments.
Context (m : mip) (x z : positive) (cx cz c0 : nat) (vx vz n : Z).
Context (Hx : holds m x cx vx) (Hz : holds m z cz vz) (H0 : space m w0 c0) (HE : ERNUM m = 0) (Hxw : x ≠ w0) (Hzw : z ≠ w0).
Context (Hxz : Z.abs vx < W cz) (Hx0 : Z.abs vx < W c0) (Hnib : (0 < nib m <= cz)%nat) (Hcx : (0 < cx)%nat) (Hc0 : (0 < c0)%nat) (Hn : - 2 ^ 31 < n < 2 ^ 31).

Lemma int_fits cap : (0 < cap)%nat → Z.abs n < W cap.
Proof. intros H. pose proof (W_le 1 cap ltac:(lia)) as Hw. rewrite W_1 in Hw. change (2 ^ 31) with 2147483648 in Hn. lia. Qed.

Lemma convert_w0 : convert n w0 m = Some (tt, put w0 (big_of c0 n) m).
Proof. by apply (convert_ok m w0 c0). Qed.

Lemma w0_holds : holds (put w0 (big_of c0 n) m) w0 c0 n.
Proof. apply holds_put; [by apply int_fits|by eapply space_bound]. Qed.

Lemma incr_ok : room m cz vx n → incr x n z m = Some (tt, put z (big_of cz (vx + n)) (put w0 (big_of c0 n) m)).
Proof.
  intros HR. unfold incr. rewrite (unless_error_ok m HE), (mbind_Some _ _ _ _ _ convert_w0).
  rewrite (mr_select_ok _ x w0 z cx c0 cz vx n vz PLUS); unfold PLUS; rewrite ?Z.mul_1_l; auto using w0_holds, int_fits, holds_put_ne.
  apply int_fits. lia.
Qed.

Lemma decr_ok : room m cz vx (- n) → decr x n z m = Some (tt, put z (big_of cz (vx - n)) (put w0 (big_of c0 n) m)).
Proof.
  intros HR. unfold decr. rewrite (unless_error_ok m HE), (mbind_Some _ _ _ _ _ convert_w0). replace (- n) with (MINUS * n) in HR by (unfold MINUS; lia).
  rewrite (mr_select_ok _ x w0 z cx c0 cz vx n vz MINUS); auto using w0_holds, int_fits, holds_put_ne.
  apply int_fits. lia.
Qed.
End increments.
