(* ===== verification/BigMul.v ===== *)
(** * BigMul: multiplication of MIRACL numbers, [mrarth1.c] and [mrarth2.c]

    By one word ([mr_pmul], [premult]) and by each other ([multiply]: by rows, and with the
    shorter method for squares of more than five words). Modelled where [base] is 0; a
    [doubleword] is a number of 64 bits and its halves. *)

From S2P Require Import Prelude BigNum BigAdd.

(** [dble.h[0]], [dble.h[1]] *)
Definition h0 (d : Z) : Z := d mod B.
Definition h1 (d : Z) : Z := d / B mod B.

(** ** mrarth1.c *)

Definition mr_pmul (x : positive) (sn : Z) (z : positive) : M unit :=
  (if decide (x ≠ z) then zero z else mret tt);;
  if decide (sn = 0) then (if decide (x ≠ z) then mret tt else zero z) else
  l ← get_len x;
  let sx := Z.land l MR_MSBIT in let xl := Z.land l MR_OBITS in
  carry ← floop (Z.to_nat xl) 0 (λ m carry, v ← get_word x m; let dble := v * sn + carry in set_word z m (h0 dble);; mret (h1 dble)) 0;
  ok ← (if decide (0 < carry) then
          nib ← get_nib; chk ← get_check;
          if bool_decide (Z.of_nat nib <= xl) && chk then mr_berror MR_ERR_OVERFLOW;; mret false
          else set_word z (Z.to_nat xl) carry;; set_len z (xl + 1);; mret true
        else set_len z xl;; mret true);
  if ok : bool then l ← get_len z; if decide (l = 0) then mret tt else set_len z (Z.lor l sx) else mret tt.

Definition premult (x : positive) (n : Z) (z : positive) : M unit :=
  unless_error
    (f ← mr_notint x;
     if f : bool then mr_berror MR_ERR_INT_OP else
     if decide (n = 0) then zero z else
     if decide (n = 1) then copy x z else
     if decide (n < 0) then mr_pmul x (- n) z;; l ← get_len z; if decide (l = 0) then mret tt else set_len z (Z.lxor l MR_MSBIT)
     else mr_pmul x n z).

(** ** multiply, mrarth2.c *)

(** The rows: [w0 += x->w[i] * y * base^i]. *)
Definition mult_row (x y w : positive) (yl i : nat) : M unit :=
  carry ← floop yl 0 (λ j carry, a ← get_word x i; b ← get_word y j; c ← get_word w (i + j);
                              let dble := a * b + carry + c in set_word w (i + j) (h0 dble);; mret (h1 dble)) 0;
  set_word w (yl + i) carry.

Definition mult_rows (x y w : positive) (xl yl : nat) : M unit := floop xl 0 (λ i _, mult_row x y w yl i) tt.

(** The method for squares: the products of two different words once, doubled, and the
    squares of the words. *)
Definition square_row (x w : positive) (xl i : nat) : M unit :=
  carry ← floop (xl - (i + 1)) (i + 1) (λ j carry, a ← get_word x i; b ← get_word x j; c ← get_word w (i + j);
                              let dble := a * b + carry + c in set_word w (i + j) (h0 dble);; mret (h1 dble)) 0;
  set_word w (xl + i) carry.

Definition square_diagonal (x w : positive) (i : nat) (carry : Z) : M Z :=
  let ti := (i + i)%nat in
  a ← get_word x i; c ← get_word w ti;
  let dble := a * a + carry + c in
  set_word w ti (h0 dble);;
  let carry := h1 dble in
  c ← get_word w (ti + 1);
  let s := (c + carry) mod B in
  set_word w (ti + 1) s;; mret (if decide (s < carry) then 1 else 0).

Definition square_rows (x w : positive) (xl : nat) : M unit :=
  floop (xl - 1) 0 (λ i _, square_row x w xl i) tt;;
  set_len w (Z.of_nat (xl + xl - 1));;
  mr_padd w w w;;
  floop xl 0 (square_diagonal x w) 0;; mret tt.

Definition w5 : positive := 6.

(** Where the product is collected. *)
Definition mult_acc (x y z : positive) : positive := if decide (x ≠ w5 ∧ y ≠ w5 ∧ z = w5) then w5 else w0.

Definition multiply (x y z : positive) : M unit :=
  unless_error
    (ly ← get_len y; lx ← get_len x;
     if decide (ly = 0 ∨ lx = 0) then zero z else
     let w := mult_acc x y z in
     fx ← mr_notint x; fy ← (if fx : bool then mret true else mr_notint y);
     if fy : bool then mr_berror MR_ERR_INT_OP else
     let sz := Z.lxor (Z.land lx MR_MSBIT) (Z.land ly MR_MSBIT) in
     let xl := Z.to_nat (Z.land lx MR_OBITS) in let yl := Z.to_nat (Z.land ly MR_OBITS) in
     zero w;;
     nib ← get_nib; chk ← get_check;
     if chk && bool_decide (nib < xl + yl)%nat then mr_berror MR_ERR_OVERFLOW else
     (if decide (x = y ∧ (5 < xl)%nat) then square_rows x w xl else mult_rows x y w xl yl);;
     set_len w (Z.lor sz (Z.of_nat (xl + yl)));;
     mr_lzero w;;
     copy w z).

(** ** One column *)

Lemma h_split s c : 0 <= s < B → 0 <= c < B → h0 (s + B * c) = s ∧ h1 (s + B * c) = c.
Proof.
  intros Hs Hc. unfold h0, h1. rewrite (Z.mul_comm B). rewrite Z.mod_add, Z.div_add by lia. by rewrite (Z.div_small s), !Z.mod_small by lia.
Qed.

Lemma column_ok a u y i d : 0 <= u < B → d = digit a i + u * digit y i + carry a u y i → h0 d = digit (a + u * y) i ∧ h1 d = carry a u y (S i).
Proof. intros Hu ->. rewrite carry_step. apply h_split; [apply digit_bound|by apply carry_bound]. Qed.

(** ** By a word *)

Section pmul.
Context (m : mip) (x z : positive) (cx cz : nat) (vx vz sn : Z).
Context (Hx : holds m x cx vx) (Hz : holds m z cz vz) (Hsn : 0 <= sn < B) (Hxz : Z.abs vx < W cz).
Local Abbreviation V := (Z.abs vx).
Local Abbreviation nx := (ndigits V).

Local Abbreviation start := (if decide (x = z) then V else 0).

Lemma pmul_loop l ws : length ws = cz → ws = digits cz start → 
  floop nx 0 (λ m carry, v ← get_word x m; let dble := v * sn + carry in set_word z m (h0 dble);; mret (h1 dble)) 0 (put z (Big l ws) m) =
  Some (sn * V / W nx, put z (Big l (digits cz ((sn * V) mod W nx))) m).
Proof.
  intros Hl Hws. pose proof Hx as (Ex & Bx & _). pose proof (ndigits_le V cz ltac:(lia) Hxz). pose proof (ndigits_le V cx ltac:(lia) Bx).
  destruct (floop_cols (λ m carry, v ← get_word x m; let dble := v * sn + carry in set_word z m (h0 dble);; mret (h1 dble)) z l 0 (carry 0 sn V) (digit (sn * V)) ws m nx 0) as (ws' & E & L & Hw).
  - cbn. lia.
  - intros i ws' Hi Hl' Hs. rewrite (mbind_Some _ _ _ _ _ (get_word_alias m x cx vx z l ws' i Ex ltac:(lia) ltac:(intros E; rewrite Hs, Hws by lia; rewrite decide_True by done; apply digits_lookup; lia))).
    cbn zeta. destruct (column_ok 0 sn V i (digit V i * sn + carry 0 sn V i) Hsn ltac:(rewrite digit_0; lia)) as [-> ->].
    rewrite (mbind_Some _ _ _ _ _ (set_word_ok z _ _ (bigs_put z (Big l ws') m) i _ Hl')). by rewrite put_put, Z.add_0_l.
  - rewrite carry_0 in E. rewrite E. cbn [Nat.add]. assert (0 <= V < W nx) by (split; [lia|apply ndigits_lt; lia]).
    rewrite carry_high, Z.add_0_l by (done || (split; [lia|apply W_pos])). do 4 f_equal.
    apply digits_eq; [lia|]. intros j Hj. rewrite Hw. rewrite Nat.sub_0_r. cbn [Nat.add]. clear E.
    destruct (decide (0 <= j < nx)%nat); [by rewrite digit_mod by lia|]. rewrite Hws, digits_lookup by done. f_equal.
    rewrite (digit_small ((sn * V) mod _)) by (pose proof (Z.mod_pos_bound (sn * V) (W nx) ltac:(done)); pose proof (W_le nx j ltac:(lia)); lia).
    destruct (decide (x = z)); [apply digit_ndigits; lia|apply digit_0].
Qed.

(** The product with one word; an error when there is no room and the environment checks. *)
Lemma mr_pmul_ok : Z.abs vx * sn < W cz → (check m = true → Z.abs vx * sn < W (nx `max` nib m)) → 
  mr_pmul x sn z m = Some (tt, put z (big_of cz (vx * sn)) m).
Proof.
  intros Hp Hroom. pose proof Hx as (Ex & Bx & Hcx). pose proof Hz as (Ez & Bz & Hcz). pose proof (ndigits_le V cz ltac:(lia) Hxz). unfold mr_pmul.
  set (l0 := if decide (x = z) then len (big_of cx vx) else 0).
  assert ((if decide (x ≠ z) then zero z else mret tt) m = Some (tt, put z (Big l0 (digits cz start)) m)) as E0.
  { unfold l0. destruct (decide (x = z)) as [E|E].
    - rewrite decide_False by tauto. subst z. pose proof (holds_cap _ _ _ _ _ _ Hx Hz) as <-. by rewrite put_same.
    - rewrite decide_True by done. by rewrite (zero_ok m z cz vz). }
  rewrite (mbind_Some _ _ _ _ _ E0). set (m0 := put z (Big l0 (digits cz start)) m). destruct (decide (sn = 0)) as [->|Hs0].
  { rewrite Z.mul_0_r. unfold m0, l0. destruct (decide (x = z)) as [E|E].
    - rewrite decide_False by tauto. subst z. pose proof (holds_cap _ _ _ _ _ _ Hx Hz) as <-. rewrite put_same by done. by rewrite (zero_ok m x cx vx).
    - by rewrite decide_True by done. }
  assert (∃ b, bigs m0 !! x = Some b ∧ len b = len (big_of cx vx)) as (b & Eb & Lb).
  { unfold m0. destruct (decide (x = z)) as [E|E]; [subst z; rewrite bigs_put; eexists; split; [done|]; unfold l0; by case_decide|].
    rewrite bigs_put_ne by done. by exists (big_of cx vx). }
  rewrite (mbind_Some _ _ m0 _ m0 (get_len_ok x _ m0 Eb)), Lb. destruct (len_parts cx vx Bx Hcx) as (-> & -> & _). rewrite Nat2Z.id.
  rewrite (mbind_Some _ _ _ _ _ (pmul_loop l0 (digits cz start) (digits_length _ _) eq_refl)).
  assert (0 <= V < W nx) as HV by (split; [lia|apply ndigits_lt; lia]). set (P := sn * V) in *. replace (V * sn) with P in * by (unfold P; lia).
  assert (0 <= P < W (S nx)) as HP by (unfold P; rewrite W_S; nia). pose proof (W_pos nx).
  set (n := if decide (0 < P / W nx) then S nx else nx). set (m1 := put z (Big (Z.of_nat n) (digits cz P)) m).
  assert (n = ndigits P) as Hn.
  { unfold n. destruct (decide (0 < P / W nx)) as [Hc|Hc].
    - symmetry. apply ndigits_unique; [lia| |lia]. replace (S nx - 1)%nat with nx by lia. destruct (decide (P < W nx)); [rewrite Z.div_small in Hc by lia|]; lia.
    - assert (P < W nx) by (destruct (decide (P < W nx)); [done|]; pose proof (Z.div_le_lower_bound P (W nx) 1 ltac:(lia) ltac:(lia)); lia).
      destruct (decide (V = 0)) as [E|E]; [unfold P; by rewrite E, Z.mul_0_r|]. destruct (ndigits_pos V ltac:(lia)) as [? ?]. symmetry. apply ndigits_unique; [lia|unfold P; nia|lia]. }
  match goal with |- (?c ≫= _) ?s = _ => assert (c s = Some (true, m1)) as E1 end.
  { set (s1 := put z (Big l0 _) m). unfold m1, n. destruct (decide (0 < P / W nx)) as [Hc|Hc].
    - unfold get_nib, get_check. rewrite (mbind_Some _ _ s1 (nib m) s1 eq_refl), (mbind_Some _ _ s1 (check m) s1 eq_refl).
      assert (W nx <= P) by (destruct (decide (P < W nx)); [rewrite Z.div_small in Hc by lia|]; lia).
      assert (bool_decide (Z.of_nat (nib m) <= Z.of_nat nx) && check m = false) as ->.
      { destruct (check m); [|by rewrite andb_false_r]. rewrite andb_true_r. apply bool_decide_eq_false. specialize (Hroom eq_refl). intros Hn'. rewrite Nat.max_l in Hroom by lia. lia. }
      assert (nx < cz)%nat as Hnx by (destruct (decide (nx < cz)%nat); [done|]; replace cz with nx in * by lia; lia). unfold s1.
      assert (nx < length (words (Big l0 (digits cz (P mod W nx)))))%nat as Hl by (cbn; rewrite digits_length; lia).
      rewrite (mbind_Some _ _ _ _ _ (set_word_ok z _ _ (bigs_put z (Big l0 (digits cz (P mod W nx))) m) nx _ Hl)), put_put. cbn [len words]. rewrite digits_insert_top by done.
      rewrite (mbind_Some _ _ _ _ _ (set_len_ok z _ _ (bigs_put z (Big l0 (digits cz P)) m) _)), put_put. cbn [words]. by replace (Z.of_nat nx + 1) with (Z.of_nat (S nx)) by lia.
    - unfold s1. rewrite (mbind_Some _ _ _ _ _ (set_len_ok z _ _ (bigs_put z (Big l0 _) m) _)), put_put. cbn [words]. rewrite Z.mod_small; [done|].
      split; [lia|]. destruct (decide (P < W nx)); [done|]. pose proof (Z.div_le_lower_bound P (W nx) 1 ltac:(lia) ltac:(lia)). lia. }
  rewrite (mbind_Some _ _ _ _ _ E1). clear E0 E1. unfold m1. rewrite (mbind_Some _ _ _ _ _ (get_len_ok z _ _ (bigs_put z _ m))). cbn [len].
  assert (vx * sn = if decide (sign_bit vx = 0) then P else - P) as Hv.
  { unfold P, sign_bit. destruct (Z.abs_spec vx) as [[? ->]|[? ->]]; [rewrite (decide_False (P := vx < 0)) by lia|rewrite (decide_True (P := vx < 0)) by lia]; [rewrite (decide_True (P := 0 = 0)) by done|rewrite (decide_False (P := MR_MSBIT = 0)) by done]; lia. }
  pose proof (sign_bit_cases vx) as Hsg.
  rewrite Hv, <- big_of_signed by (done || lia). clear Hv. case_decide as Hz0.
  - assert (P = 0) as E by (destruct (decide (P = 0)); [done|]; pose proof (ndigits_pos P ltac:(lia)); lia). rewrite (decide_True (P := P = 0)) by done. unfold mret, M_ret. do 4 f_equal. lia.
  - assert (P ≠ 0) as E by (intros E; rewrite E, ndigits_0 in Hn; lia). rewrite (decide_False (P := P = 0)) by done.
    rewrite (set_len_ok z _ _ (bigs_put z _ m)), put_put. cbn [words]. pose proof (ndigits_le P cz ltac:(lia) Hp).
    destruct (land_sign (Z.of_nat n) (sign_bit vx) ltac:(lia) Hsg) as (_ & _ & -> & _). by rewrite Hn.
Qed.
End pmul.

Lemma premult_ok m x z cx cz vx vz n : holds m x cx vx → holds m z cz vz → ERNUM m = 0 → - 2 ^ 31 < n < 2 ^ 31 → Z.abs vx < W cz → Z.abs (vx * n) < W cz →
  (check m = true → Z.abs (vx * n) < W (ndigits (Z.abs vx) `max` nib m)) → premult x n z m = Some (tt, put z (big_of cz (vx * n)) m).
Proof.
  intros Hx Hz HE Hn Hxz Hp Hroom. change (2 ^ 31) with 2147483648 in Hn. pose proof Hz as (_ & _ & Hcz). unfold premult. rewrite (unless_error_ok m HE), (mbind_Some _ _ _ _ _ (mr_notint_ok m x cx vx Hx)).
  case_decide as H0; [subst; rewrite Z.mul_0_r; by apply (zero_ok m z cz vz)|]. case_decide as H1; [subst; rewrite Z.mul_1_r; by apply (copy_ok m x z cx vx cz vz)|].
  rewrite Z.abs_mul in Hp, Hroom. case_decide as H2.
  - rewrite (Z.abs_neq n) in Hp, Hroom by lia. rewrite (mbind_Some _ _ _ _ _ (mr_pmul_ok m x z cx cz vx vz (- n) Hx Hz ltac:(lia) Hxz Hp Hroom)).
    rewrite (negate_len_ok _ z cz (vx * - n)) by (apply holds_put; [rewrite Z.abs_mul, (Z.abs_eq (- n)) by lia|]; done). rewrite put_put. do 4 f_equal. lia.
  - rewrite (Z.abs_eq n) in Hp, Hroom by lia. by apply (mr_pmul_ok m x z cx cz vx vz n Hx Hz ltac:(lia)).
Qed.

(** ** Rows *)

(** Adding one row: [u] times a number [Y] of [k] words, from place [o = off + lo] on, below
    which the sum had its last digit. *)
Lemma row_ok m w l c0 u Y off lo k A (body : nat → Z → M Z) : 0 <= u < B → 0 <= Y < W k → (off + lo + k < c0)%nat → 0 <= A < W (off + lo + k) →
  (∀ i carry c ws', (lo <= i < lo + k)%nat → ws' !! (off + i)%nat = Some c →
    body i carry (put w (Big l ws') m) = (set_word w (off + i) (h0 (u * digit Y (i - lo) + carry + c));; mret (h1 (u * digit Y (i - lo) + carry + c))) (put w (Big l ws') m)) →
  (carry ← floop k lo body 0; set_word w (off + lo + k) carry) (put w (Big l (digits c0 A)) m) =
  Some (tt, put w (Big l (digits c0 (A + u * Y * W (off + lo)))) m).
Proof.
  intros Hu HY Hc HA Hbody. set (o := (off + lo)%nat) in *. set (a := A / W o). pose proof (W_pos o). pose proof (W_pos k).
  assert (0 <= a < W k) as Ha by (unfold a; rewrite W_add in HA; split; [apply Z.div_pos; lia|apply Z.div_lt_upper_bound; lia]).
  destruct (floop_cols body w l off (λ i, carry a u Y (i - lo)) (λ i, digit (a + u * Y) (i - lo)) (digits c0 A) m k lo) as (ws' & E & L & Hw).
  - rewrite digits_length. unfold o in Hc. lia.
  - intros i ws' Hi Hl Hs. rewrite (Hbody i _ (digit A (off + i)) ws' Hi) by (rewrite Hs, digits_lookup by (unfold o in Hc; lia); done).
    destruct (column_ok a u Y (i - lo) (u * digit Y (i - lo) + carry a u Y (i - lo) + digit A (off + i)) Hu) as [-> ->].
    { unfold a. rewrite <- digit_div. replace (o + (i - lo))%nat with (off + i)%nat by (unfold o; lia). lia. }
    rewrite (mbind_Some _ _ _ _ _ (set_word_ok w _ _ (bigs_put w (Big l ws') m) _ _ Hl)), put_put. cbn [len words]. by replace (S i - lo)%nat with (S (i - lo)) by lia.
  - rewrite Nat.sub_diag, carry_0 in E. rewrite (mbind_Some _ _ _ _ _ E). rewrite digits_length in L. cbv beta.
    replace (lo + k - lo)%nat with k by lia. rewrite carry_high by done.
    assert (o + k < length (words (Big l ws')))%nat as Hl by (cbn; lia). rewrite (set_word_ok w _ _ (bigs_put w (Big l ws') m) _ _ Hl), put_put. cbn [len words]. do 4 f_equal.
    set (S1 := a + u * Y). assert (A + u * Y * W o = A mod W o + S1 * W o) as ES by (unfold S1, a; pose proof (Z.div_mod A (W o)); lia).
    assert (0 <= S1 < W (S k)) as HS by (unfold S1; rewrite W_S; nia). pose proof (Z.mod_pos_bound A (W o) ltac:(lia)).
    assert ((A + u * Y * W o) / W o = S1) as ED by (rewrite ES, Z.div_add, Z.div_small by lia; lia).
    apply digits_eq; [by rewrite length_insert|]. intros j Hj. destruct (decide (j = o + k)%nat) as [->|Hne].
    { rewrite list_lookup_insert_eq by lia. f_equal. rewrite digit_div, ED. unfold digit. rewrite Z.mod_small; [done|]. rewrite W_S in HS. split; [apply Z.div_pos; lia|apply Z.div_lt_upper_bound; lia]. }
    rewrite list_lookup_insert_ne by done. rewrite Hw. destruct (decide (off + lo <= j < off + lo + k)%nat) as [Hj'|Hj'].
    + f_equal. replace j with (o + (j - off - lo))%nat at 2 by (unfold o; lia). by rewrite digit_div, ED.
    + rewrite digits_lookup by done. f_equal. destruct (decide (j < o)%nat).
      * by rewrite digit_add_high.
      * assert (o + k < j)%nat by (unfold o in *; lia). replace j with (o + (j - o))%nat by lia. rewrite !digit_div, ED. fold a.
        pose proof (W_le (S k) (j - o) ltac:(lia)). pose proof (W_le k (j - o) ltac:(lia)). rewrite !digit_small by lia. done.
Qed.

(** ** The product by rows *)

Section rows.
Context (m : mip) (x y w : positive) (cx cy c0 : nat) (vx vy l : Z).
Context (Hx : bigs m !! x = Some (big_of cx vx)) (Hy : bigs m !! y = Some (big_of cy vy)) (Hxw : x ≠ w) (Hyw : y ≠ w).
Local Abbreviation X := (Z.abs vx).
Local Abbreviation Y := (Z.abs vy).
Context (xl yl : nat) (HX : X < W xl) (HY : Y < W yl) (Hcx : (xl <= cx)%nat) (Hcy : (yl <= cy)%nat) (Hc0 : (xl + yl <= c0)%nat).

Lemma mult_row_ok i A : (i < xl)%nat → 0 <= A < W (i + yl) → mult_row x y w yl i (put w (Big l (digits c0 A)) m) = Some (tt, put w (Big l (digits c0 (A + digit X i * Y * W i))) m).
Proof.
  intros Hi HA. unfold mult_row. pose proof (digit_bound X i) as Hd.
  pose proof (row_ok m w l c0 (digit X i) Y i 0 yl A (λ j carry, a ← get_word x i; b ← get_word y j; c ← get_word w (i + j); let dble := a * b + carry + c in set_word w (i + j) (h0 dble);; mret (h1 dble)) Hd) as H.
  rewrite Nat.add_0_r in H. rewrite (Nat.add_comm yl). apply H; [lia|lia|done|]. clear H. intros j carry c ws' Hj Hc.
  rewrite (mbind_Some _ _ _ _ _ (get_word_other m x cx vx w l ws' i Hxw Hx ltac:(lia))), (mbind_Some _ _ _ _ _ (get_word_other m y cy vy w l ws' j Hyw Hy ltac:(lia))).
  rewrite (mbind_Some _ _ _ _ _ (get_word_ok w _ _ (bigs_put w (Big l ws') m) _ _ Hc)). by rewrite Nat.sub_0_r.
Qed.

Lemma mult_rows_ok : mult_rows x y w xl yl (put w (Big l (digits c0 0)) m) = Some (tt, put w (Big l (digits c0 (X * Y))) m).
Proof.
  unfold mult_rows. pose proof (floop_steps (λ i _, mult_row x y w yl i) (λ _, tt) (λ i, put w (Big l (digits c0 ((X mod W i) * Y))) m) xl 0) as H.
  cbv beta in H. rewrite W_0, Z.mod_1_r, Z.mul_0_l in H. cbn [Nat.add] in H. rewrite (Z.mod_small X) in H by lia. apply H. intros i Hi.
  rewrite mult_row_ok; [|lia|].
  - rewrite mod_W_S. do 5 f_equal. lia.
  - pose proof (W_pos i). pose proof (Z.mod_pos_bound X (W i) ltac:(lia)). rewrite W_add. nia.
Qed.
End rows.

(** ** Squares *)

(** What is collected from the words below [i]: the products with the words above, and the
    squares. *)
Fixpoint cross (V : Z) (i : nat) : Z := match i with O => 0 | S i => cross V i + digit V i * (V / W (S i)) * W (i + S i) end.
Fixpoint sqsum (V : Z) (i : nat) : Z := match i with O => 0 | S i => sqsum V i + digit V i * digit V i * W (i + i) end.

Lemma div_W_S V i : V / W i = digit V i + B * (V / W (S i)).
Proof. unfold digit. pose proof (W_pos i). rewrite W_S, (Z.mul_comm B (W i)), <- Z.div_div by lia. pose proof (Z.div_mod (V / W i) B). lia. Qed.

Lemma square_split V i : V * V = sqsum V i + 2 * cross V i + V / W i * (V / W i) * W (i + i).
Proof.
  induction i as [|i IH]; cbn [sqsum cross]; [change (0 + 0)%nat with 0%nat; rewrite W_0, Z.div_1_r; lia|]. rewrite IH. rewrite (div_W_S V i).
  set (T := V / W (S i)). set (d := digit V i). replace (S i + S i)%nat with (S (S (i + i))) by lia. replace (i + S i)%nat with (S (i + i)) by lia. rewrite !W_S. ring.
Qed.

Lemma cross_bound V i : 0 <= V → 0 <= cross V i <= V mod W i * V.
Proof.
  intros HV. induction i as [|i IH]; cbn [cross]; [rewrite W_0, Z.mod_1_r; lia|]. rewrite mod_W_S, W_add. pose proof (digit_bound V i). pose proof (W_pos i). pose proof (W_pos (S i)).
  pose proof (Z.mul_div_le V (W (S i)) ltac:(lia)). pose proof (Z.div_pos V (W (S i)) HV ltac:(lia)).
  replace (digit V i * (V / W (S i)) * (W i * W (S i))) with ((W i * digit V i) * (W (S i) * (V / W (S i)))) by ring.
  assert (0 <= W i * digit V i) by (apply Z.mul_nonneg_nonneg; lia). split.
  - assert (0 <= W i * digit V i * (W (S i) * (V / W (S i)))) by (apply Z.mul_nonneg_nonneg; [lia|apply Z.mul_nonneg_nonneg; lia]). lia.
  - rewrite Z.mul_add_distr_r. apply Z.add_le_mono; [lia|]. by apply Z.mul_le_mono_nonneg_l.
Qed.

Lemma sqsum_bound V i : 0 <= sqsum V i < W (i + i).
Proof.
  induction i as [|i IH]; cbn [sqsum]; [change (0 + 0)%nat with 0%nat; rewrite W_0; lia|]. replace (S i + S i)%nat with (S (S (i + i))) by lia. rewrite !W_S. pose proof (digit_bound V i) as Hd.
  assert (0 <= digit V i * digit V i <= (B - 1) * (B - 1)) as Hq by (split; [apply Z.mul_nonneg_nonneg; lia|apply Z.mul_le_mono_nonneg; lia]).
  pose proof (Z.mul_nonneg_nonneg _ (W (i + i)) (proj1 Hq) ltac:(pose proof (W_pos (i + i)); lia)).
  pose proof (Z.mul_le_mono_nonneg_r _ _ (W (i + i)) ltac:(pose proof (W_pos (i + i)); lia) (proj2 Hq)). lia.
Qed.

(** The two words that one square changes: [a] is what the words above hold, [c] the carry. *)
Lemma diagonal_arith a c u : 0 <= c <= 1 → 0 <= u < B → let dble := u * u + c + a mod B in let s := (a / B mod B + h1 dble) mod B in let c' := if decide (s < h1 dble) then 1 else 0 in
  h0 dble = (a + c + u * u) mod B ∧ s = (a + c + u * u) / B mod B ∧ (a + c + u * u) / B / B = a / B / B + c' ∧ 0 <= c' <= 1.
Proof.
  intros Hc Hu dble s c'. pose proof (Z.mod_pos_bound a B ltac:(lia)) as Ha. assert (0 <= u * u <= (B - 1) * (B - 1)) as Hq by (split; [lia|apply Z.mul_le_mono_nonneg; lia]).
  assert (a = B * (a / B) + a mod B) as Ea by (apply Z.div_mod; lia). assert (a + c + u * u = dble + (a / B) * B) as E by (unfold dble; lia).
  assert (0 <= dble / B < B) as Hd by (unfold dble; split; [apply Z.div_pos|apply Z.div_lt_upper_bound]; lia).
  assert (h1 dble = dble / B) as E1 by (unfold h1; by apply Z.mod_small). assert ((a + c + u * u) / B = a / B + dble / B) as E2 by (rewrite E, Z.div_add by lia; lia).
  rewrite E2. split; [unfold h0; rewrite E; by rewrite Z.mod_add by lia|]. pose proof (Z.mod_pos_bound (a / B) B ltac:(lia)) as Hm.
  assert (a / B = B * (a / B / B) + a / B mod B) as Eb by (apply Z.div_mod; lia). set (q := a / B / B) in *. set (r := a / B mod B) in *.
  assert (s = (a / B + dble / B) mod B) as Es by (unfold s; rewrite E1, Eb; replace (B * q + r + dble / B) with (r + dble / B + q * B) by lia; by rewrite Z.mod_add by lia).
  split; [done|]. assert ((a / B + dble / B) / B = q + (r + dble / B) / B) as -> by (rewrite Eb; replace (B * q + r + dble / B) with (r + dble / B + q * B) by lia; rewrite Z.div_add by lia; lia).
  assert ((r + dble / B) / B = c') as Hc'; [|unfold c'; case_decide; lia]. unfold c', s. rewrite E1. fold r. destruct (decide (r + dble / B < B)).
  - rewrite Z.div_small, (Z.mod_small (r + _)) by lia. by rewrite decide_False by lia.
  - replace (r + dble / B) with ((r + dble / B - B) + 1 * B) by lia. rewrite Z.mod_add, Z.div_add, Z.div_small, Z.mod_small by lia. by rewrite decide_True by lia.
Qed.

Section squares.
Context (m : mip) (x w : positive) (cx c0 : nat) (vx l : Z).
Context (Hx : bigs m !! x = Some (big_of cx vx)) (Hxw : x ≠ w).
Local Abbreviation V := (Z.abs vx).
Context (xl : nat) (HV : V < W xl) (Hcx : (xl <= cx)%nat) (Hc0 : (xl + xl <= c0)%nat).

Lemma square_row_ok i A : (i < xl - 1)%nat → 0 <= A < W (i + xl) →
  square_row x w xl i (put w (Big l (digits c0 A)) m) = Some (tt, put w (Big l (digits c0 (A + digit V i * (V / W (S i)) * W (i + S i)))) m).
Proof.
  intros Hi HA. unfold square_row. pose proof (digit_bound V i) as Hd. replace (i + 1)%nat with (S i) by lia.
  pose proof (row_ok m w l c0 (digit V i) (V / W (S i)) i (S i) (xl - S i) A (λ j carry, a ← get_word x i; b ← get_word x j; c ← get_word w (i + j); let dble := a * b + carry + c in set_word w (i + j) (h0 dble);; mret (h1 dble)) Hd) as H.
  replace (i + S i + (xl - S i))%nat with (xl + i)%nat in H by lia. rewrite Nat.add_comm in HA. apply H; [|lia|done|].
  - pose proof (W_pos (S i)). split; [apply Z.div_pos; lia|]. apply Z.div_lt_upper_bound; [lia|]. rewrite <- W_add. by replace (S i + (xl - S i))%nat with xl by lia.
  - clear H. intros j carry c ws' Hj Hc.
    rewrite (mbind_Some _ _ _ _ _ (get_word_other m x cx vx w l ws' i Hxw Hx ltac:(lia))), (mbind_Some _ _ _ _ _ (get_word_other m x cx vx w l ws' j Hxw Hx ltac:(lia))).
    rewrite (mbind_Some _ _ _ _ _ (get_word_ok w _ _ (bigs_put w (Big l ws') m) _ _ Hc)). rewrite <- digit_div. by replace (S i + (j - S i))%nat with j by lia.
Qed.

(** Every product of two different words once. *)
Lemma cross_ok : floop (xl - 1) 0 (λ i _, square_row x w xl i) tt (put w (Big l (digits c0 0)) m) = Some (tt, put w (Big l (digits c0 (cross V xl))) m).
Proof.
  pose proof (floop_steps (λ i _, square_row x w xl i) (λ _, tt) (λ i, put w (Big l (digits c0 (cross V i))) m) (xl - 1) 0) as H. cbv beta in H. change (cross V 0) with 0 in H. cbn [Nat.add] in H.
  rewrite H.
  - do 5 f_equal. destruct xl as [|k]; [done|]. replace (S k - 1)%nat with k by lia. cbn [cross]. rewrite (Z.div_small V) by lia. lia.
  - intros i Hi. rewrite square_row_ok; [done|lia|]. destruct (cross_bound V i ltac:(lia)) as [H1 H2]. split; [done|]. rewrite W_add.
    pose proof (W_pos i). pose proof (Z.mod_pos_bound V (W i) ltac:(lia)). nia.
Qed.

(** One step of the diagonal: in place [t] are the word [a] and a carry. *)
Lemma square_diagonal_ok i D : (i < xl)%nat → 0 <= D → let t := (i + i)%nat in let c := (D + sqsum V i) / W t - D / W t in 
  let c' := (D + sqsum V (S i)) / W (S (S t)) - D / W (S (S t)) in
  square_diagonal x w i c (put w (Big l (digits c0 (D + sqsum V i - c * W t))) m) =
  Some (c', put w (Big l (digits c0 (D + sqsum V (S i) - c' * W (S (S t))))) m).
Proof.
  intros Hi HD t c c'. set (S0 := D + sqsum V i). set (u := digit V i). set (a := D / W t). pose proof (W_pos t) as Ht. pose proof (digit_bound V i) as Hu. fold u in Hu.
  assert (S0 / W t = a + c) as Ec by (unfold a, c, S0; lia). pose proof (sqsum_bound V i) as Hsq. fold t in Hsq.
  assert (0 <= c <= 1) as Hc.
  { unfold c. pose proof (Z.div_mod D (W t) ltac:(lia)) as Ed. pose proof (Z.mod_pos_bound D (W t) ltac:(lia)). set (q := D / W t) in *.
    replace (D + sqsum V i) with ((D mod W t + sqsum V i) + q * W t) by lia. rewrite Z.div_add by lia.
    assert (0 <= (D mod W t + sqsum V i) / W t < 2) by (split; [apply Z.div_pos|apply Z.div_lt_upper_bound]; lia). lia. }
  assert (D + sqsum V (S i) = S0 + u * u * W t) as ES by (unfold S0; cbn [sqsum]; fold t; fold u; lia). unfold c'. rewrite ES.
  assert ((S0 + u * u * W t) / W t = a + c + u * u) as EX by (rewrite Z.div_add, Ec by lia; done).
  destruct (diagonal_arith a c u Hc Hu) as (A1 & A2 & A3 & A4). set (dble := u * u + c + a mod B) in *. set (cc := if decide (_ < _) then 1 else 0) in *.
  assert ((S0 + u * u * W t) / W (S (S t)) = D / W (S (S t)) + cc) as E2.
  { rewrite !W_S. replace (B * (B * W t)) with (W t * B * B) by ring. rewrite <- !Z.div_div by lia. rewrite EX. by fold a. }
  replace ((S0 + u * u * W t) / W (S (S t)) - D / W (S (S t))) with cc by lia.
  unfold square_diagonal. fold t. cbn zeta.
  rewrite (mbind_Some _ _ _ _ _ (get_word_other m x cx vx w l _ i Hxw Hx ltac:(lia))). fold u.
  set (ws := digits c0 (S0 - c * W t)). assert ((S0 - c * W t) / W t = a) as Ea by (replace (S0 - c * W t) with (S0 + (- c) * W t) by lia; rewrite Z.div_add by lia; lia).
  assert (ws !! t = Some (a mod B)) as R1 by (unfold ws; rewrite digits_lookup by (unfold t; lia); unfold digit; by rewrite Ea).
  assert (ws !! (t + 1)%nat = Some (a / B mod B)) as R2 by (unfold ws; rewrite digits_lookup, digit_div, Ea by (unfold t; lia); unfold digit; by rewrite W_1).
  assert (length ws = c0) as Lw by apply digits_length.
  rewrite (mbind_Some _ _ _ _ _ (get_word_ok w _ _ (bigs_put w (Big l ws) m) t _ R1)). fold dble.
  assert (t < length (words (Big l ws)))%nat as L1 by (cbn; unfold t; lia). rewrite (mbind_Some _ _ _ _ _ (set_word_ok w _ _ (bigs_put w (Big l ws) m) t _ L1)), put_put. cbn [len words].
  set (ws1 := <[t := h0 dble]> ws). assert (ws1 !! (t + 1)%nat = Some (a / B mod B)) as R3 by (unfold ws1; by rewrite list_lookup_insert_ne by lia).
  rewrite (mbind_Some _ _ _ _ _ (get_word_ok w _ _ (bigs_put w (Big l ws1) m) (t + 1) _ R3)).
  assert (t + 1 < length (words (Big l ws1)))%nat as L2 by (cbn; unfold ws1; rewrite length_insert; unfold t; lia). rewrite (mbind_Some _ _ _ _ _ (set_word_ok w _ _ (bigs_put w (Big l ws1) m) _ _ L2)), put_put.
  cbn [len words]. fold cc. unfold mret, M_ret. do 4 f_equal. unfold ws1. rewrite A1, A2.
  set (v := S0 + u * u * W t - cc * W (S (S t))). set (X := a + c + u * u) in *. assert (v / W t = X + - (cc * B) * B) as EV.
  { unfold v. rewrite !W_S. replace (S0 + u * u * W t - cc * (B * (B * W t))) with (S0 + u * u * W t + (- (cc * B * B)) * W t) by ring. rewrite Z.div_add, EX by lia. lia. }
  apply digits_eq; [by rewrite !length_insert|]. intros j Hj. destruct (decide (j = t + 1)%nat) as [->|N1].
  { rewrite list_lookup_insert_eq by (rewrite length_insert; lia). f_equal. rewrite digit_div, EV. unfold digit. rewrite W_1, Z.div_add by lia. replace (X / B + - (cc * B)) with (X / B + (- cc) * B) by ring. by rewrite Z.mod_add by lia. }
  rewrite list_lookup_insert_ne by done. destruct (decide (j = t)) as [->|N2].
  { rewrite list_lookup_insert_eq by lia. f_equal. replace (digit v t) with (digit v (t + 0)) by (by rewrite Nat.add_0_r). rewrite digit_div, EV. unfold digit. rewrite W_0, Z.div_1_r. by rewrite Z.mod_add by lia. }
  rewrite list_lookup_insert_ne by done. unfold ws. rewrite digits_lookup by done. f_equal. destruct (decide (j < t)%nat) as [Hlt|Hge].
  - unfold v. rewrite !W_S. replace (S0 + u * u * W t - cc * (B * (B * W t))) with (S0 + (u * u - cc * B * B) * W t) by ring. replace (S0 - c * W t) with (S0 + (- c) * W t) by ring. by rewrite !digit_add_high.
  - replace j with (t + (2 + (j - t - 2)))%nat by lia. rewrite !digit_div, EV, Ea. f_equal. change (W 2) with (B * B). rewrite <- !Z.div_div, Z.div_add by lia.
    replace (X / B + - (cc * B)) with (X / B + (- cc) * B) by ring. rewrite Z.div_add by lia. lia.
Qed.

Lemma diagonal_ok : floop xl 0 (square_diagonal x w) 0 (put w (Big l (digits c0 (2 * cross V xl))) m) = Some (0, put w (Big l (digits c0 (V * V))) m).
Proof.
  set (D := 2 * cross V xl). destruct (cross_bound V xl ltac:(lia)) as [HD _]. assert (V * V = D + sqsum V xl) as EV.
  { rewrite (square_split V xl), (Z.div_small V) by lia. unfold D. lia. }
  assert (V * V < W (xl + xl)) as HVV by (rewrite W_add; nia). pose proof (sqsum_bound V xl).
  pose proof (floop_steps (square_diagonal x w) (λ i, (D + sqsum V i) / W (i + i) - D / W (i + i)) (λ i, put w (Big l (digits c0 (D + sqsum V i - ((D + sqsum V i) / W (i + i) - D / W (i + i)) * W (i + i)))) m) xl 0) as Hl.
  cbv beta in Hl. change (0 + 0)%nat with 0%nat in Hl. change (0 + xl)%nat with xl in Hl. change (sqsum V 0) with 0 in Hl. rewrite Z.add_0_r, Z.sub_diag, Z.mul_0_l, Z.sub_0_r in Hl. rewrite <- EV in Hl.
  rewrite (Z.div_small (V * V)), (Z.div_small D), Z.sub_diag, Z.mul_0_l, Z.sub_0_r in Hl by lia. apply Hl. intros i Hi.
  replace (S i + S i)%nat with (S (S (i + i))) by lia. apply square_diagonal_ok; unfold D; lia.
Qed.
End squares.

(** Doubling in place a number whose length is only a bound. *)
Lemma padd_double m w n c0 A : bigs m !! w = Some (Big (Z.of_nat n) (digits c0 A)) → (0 < n < c0)%nat → Z.of_nat c0 < 65536 → 0 <= A → 2 * A < W (S n) → A < W n →
  (check m = true → (n < nib m)%nat) → ∃ l, mr_padd w w w m = Some (tt, put w (Big l (digits c0 (2 * A))) m).
Proof.
  intros Hw Hn Hc HA H2 HAn Hk. unfold mr_padd. rewrite !(mbind_Some _ _ m _ m (get_len_ok w _ m Hw)). cbn [len]. rewrite decide_False by lia. rewrite (decide_True (P := w = w)) by done.
  rewrite (mbind_Some _ _ m (Z.of_nat n) m eq_refl). cbn zeta. rewrite Z.max_id. unfold get_nib, get_check. rewrite (mbind_Some _ _ m (nib m) m eq_refl), (mbind_Some _ _ m (check m) m eq_refl).
  rewrite (mbind_Some _ _ _ _ _ (set_len_ok w _ m Hw _)). cbn [words]. set (l0 := if _ || _ then _ else _). rewrite Nat2Z.id, Nat.sub_diag.
  set (m0 := put w (big_of c0 A) m). assert (∀ b, put w b m = put w b m0) as E0 by (intros b; unfold m0; by rewrite put_put). rewrite E0.
  destruct (padd_columns m0 w w w c0 c0 c0 A A (bigs_put _ _ _) (bigs_put _ _ _) HA HA l0 (digits c0 A) n ltac:(lia) ltac:(lia) ltac:(lia) (digits_length _ _)) as (ws & E1 & L1 & Hws).
  { intros j Hj. split; intros _; apply digits_lookup; lia. }
  rewrite (mbind_Some _ _ _ _ _ E1). cbn [padd_carry]. rewrite carry_high by lia. replace (A + 1 * A) with (2 * A) by lia. replace (A + A) with (2 * A) in Hws by lia.
  assert (ws = digits c0 ((2 * A) mod W n)) as ->.
  { apply digits_eq; [done|]. intros j Hj. rewrite Hws. case_decide; [by rewrite digit_mod by done|]. rewrite digits_lookup by done. f_equal. pose proof (W_le n j ltac:(lia)).
    pose proof (Z.mod_pos_bound (2 * A) (W n) ltac:(done)). rewrite !digit_small by lia. done. }
  rewrite (mbind_Some _ _ _ (n, 2 * A / W n) _ eq_refl). set (ws := digits c0 _). 
  assert (l0 = Z.of_nat n ∨ l0 = Z.of_nat (S n)) as Hl0 by (unfold l0; destruct (_ || _); lia).
  assert (∀ ws, length ws = c0 → ∃ l, padd_trim w (put w (Big l0 ws) m0) = Some (tt, put w (Big l ws) m0)) as Htrim.
  { intros ws' L. unfold padd_trim. rewrite (mbind_Some _ _ _ _ _ (get_len_ok w _ _ (bigs_put w _ m0))). cbn [len]. rewrite Z.mod_small by lia.
    destruct (lookup_lt_is_Some_2 ws' (Z.to_nat (l0 - 1))) as [v Ev]; [lia|]. rewrite (mbind_Some _ _ _ _ _ (get_word_ok w _ _ (bigs_put w (Big l0 ws') m0) _ _ Ev)).
    case_decide; [|by exists l0]. rewrite (set_len_ok w _ _ (bigs_put w _ m0)), put_put. by eexists. }
  case_decide as Hz.
  - destruct (Htrim ws (digits_length _ _)) as [l E]. exists l. rewrite E, E0. unfold ws. rewrite Z.mod_small; [done|]. split; [lia|]. destruct (decide (2 * A < W n)); [done|].
    pose proof (W_pos n). pose proof (Z.div_le_lower_bound (2 * A) (W n) 1 ltac:(lia) ltac:(lia)). lia.
  - assert (check m && bool_decide (nib m <= n)%nat = false) as ->. { destruct (check m); [|done]. apply bool_decide_eq_false. specialize (Hk eq_refl). lia. }
    assert (n < length (words (Big l0 ws)))%nat as Hl by (cbn; unfold ws; rewrite digits_length; lia).
    rewrite (mbind_Some _ _ _ _ _ (set_word_ok w _ _ (bigs_put w (Big l0 ws) m0) n _ Hl)), put_put. cbn [len words]. unfold ws. rewrite digits_insert_top by lia.
    destruct (Htrim (digits c0 (2 * A)) (digits_length _ _)) as [l E]. exists l. by rewrite E, E0.
Qed.

Lemma square_rows_ok m x w cx c0 vx xl l : bigs m !! x = Some (big_of cx vx) → x ≠ w → Z.abs vx < W xl → (xl <= cx)%nat → (xl + xl <= c0)%nat → (0 < xl)%nat → Z.of_nat c0 < 65536 →
  (check m = true → (xl + xl <= nib m)%nat) →
  ∃ l', square_rows x w xl (put w (Big l (digits c0 0)) m) = Some (tt, put w (Big l' (digits c0 (Z.abs vx * Z.abs vx))) m).
Proof.
  intros Hx Hxw HV Hcx Hc0 H0 Hc Hk. unfold square_rows. rewrite (mbind_Some _ _ _ _ _ (cross_ok m x w cx c0 vx l Hx Hxw xl HV Hcx Hc0)). set (V := Z.abs vx) in *.
  rewrite (mbind_Some _ _ _ _ _ (set_len_ok w _ _ (bigs_put w _ m) _)), put_put. cbn [words]. set (m1 := put w _ m).
  destruct (cross_bound V xl ltac:(lia)) as [HA _]. pose proof (square_split V xl) as Hsp. rewrite (Z.div_small V) in Hsp by lia. pose proof (sqsum_bound V xl).
  assert (V * V < W (xl + xl)) by (rewrite W_add; nia).
  assert (cross V xl < W (xl + xl - 1)) as HA1.
  { destruct xl as [|k]; [lia|]. cbn [cross]. rewrite (Z.div_small V) by lia. replace (S k + S k - 1)%nat with (k + S k)%nat by lia. rewrite W_add.
    destruct (cross_bound V k ltac:(lia)) as [_ Hb]. pose proof (Z.mod_pos_bound V (W k) ltac:(done)). pose proof (W_pos k). nia. }
  destruct (padd_double m1 w (xl + xl - 1) c0 (cross V xl)) as [l' E]; [apply bigs_put|lia|done|done|replace (S (xl + xl - 1)) with (xl + xl)%nat by lia; lia|done|unfold m1; cbn; intros Hck; specialize (Hk Hck); lia|].
  rewrite (mbind_Some _ _ _ _ _ E). unfold m1. rewrite put_put, (mbind_Some _ _ _ _ _ (diagonal_ok m x w cx c0 vx l' Hx Hxw xl HV Hcx Hc0)). by exists l'.
Qed.

(** ** multiply *)

Section multiply.
Context (m : mip) (x y z : positive) (cx cy cz c0 : nat) (vx vy : Z).
Local Abbreviation w := (mult_acc x y z).
Context (Hx : holds m x cx vx) (Hy : holds m y cy vy) (Hz : space m z cz) (Hw : space m w c0) (HE : ERNUM m = 0) (Hxw : x ≠ w) (Hyw : y ≠ w).
Local Abbreviation X := (Z.abs vx).
Local Abbreviation Y := (Z.abs vy).
Local Abbreviation nx := (ndigits X).
Local Abbreviation ny := (ndigits Y).

Lemma acc_cases : w = z ∨ w = w0.
Proof. unfold mult_acc. case_decide as H; [left; symmetry; apply H|by right]. Qed.

Lemma multiply_zero : vx = 0 ∨ vy = 0 → multiply x y z m = Some (tt, put z (big_of cz 0) m).
Proof.
  intros H0. pose proof Hx as (Ex & _). pose proof Hy as (Ey & _). unfold multiply. rewrite (unless_error_ok m HE).
  rewrite (mbind_Some _ _ m _ m (get_len_ok y _ m Ey)), (mbind_Some _ _ m _ m (get_len_ok x _ m Ex)). rewrite decide_True; [by apply (zero_space m z cz)|].
  destruct H0 as [-> | ->]; auto.
Qed.

(** Up to the rows. *)
Lemma multiply_run : vx ≠ 0 → vy ≠ 0 → multiply x y z m =
  (if check m && bool_decide (nib m < nx + ny)%nat then mr_berror MR_ERR_OVERFLOW else
   (if decide (x = y ∧ (5 < nx)%nat) then square_rows x w nx else mult_rows x y w nx ny);;
   set_len w (Z.lor (Z.lxor (sign_bit vx) (sign_bit vy)) (Z.of_nat (nx + ny)));; mr_lzero w;; copy w z) (put w (big_of c0 0) m).
Proof.
  intros N1 N2. pose proof Hx as (Ex & Bx & Hcx). pose proof Hy as (Ey & By & Hcy). unfold multiply. rewrite (unless_error_ok m HE).
  rewrite (mbind_Some _ _ m _ m (get_len_ok y _ m Ey)), (mbind_Some _ _ m _ m (get_len_ok x _ m Ex)).
  rewrite decide_False by (intros [H|H]; revert H; by apply len_nonzero). rewrite (mbind_Some _ _ m _ m (mr_notint_ok m x cx vx Hx)), (mbind_Some _ _ m _ m (mr_notint_ok m y cy vy Hy)).
  cbn zeta. destruct (len_parts cx vx Bx Hcx) as (-> & -> & _). destruct (len_parts cy vy By Hcy) as (-> & -> & _). rewrite !Nat2Z.id. by rewrite (mbind_Some _ _ m _ _ (zero_space m w c0 Hw)).
Qed.

(** The digits of the product are refused where they are more than [nib] at first count. *)
Lemma multiply_overflow : vx ≠ 0 → vy ≠ 0 → check m = true → (nib m < nx + ny)%nat →
  multiply x y z m = Some (tt, Mip (nib m) (check m) MR_ERR_OVERFLOW (<[w := big_of c0 0]> (bigs m))).
Proof. intros N1 N2 Hk Hn. rewrite multiply_run by done. rewrite Hk, bool_decide_true by done. unfold mr_berror, put. cbn. by rewrite Hk. Qed.

Lemma sign_product : vx ≠ 0 → vy ≠ 0 → let s := Z.lxor (sign_bit vx) (sign_bit vy) in (s = 0 ∨ s = MR_MSBIT) ∧ (if decide (s = 0) then X * Y else - (X * Y)) = vx * vy.
Proof.
  intros N1 N2 s. unfold s, sign_bit. destruct (decide (vx < 0)), (decide (vy < 0)); rewrite ?Z.lxor_nilpotent, ?Z.lxor_0_l, ?Z.lxor_0_r.
  all: split; [by auto|]. all: first [rewrite (decide_True (P := 0 = 0)) by done|rewrite (decide_False (P := MR_MSBIT = 0)) by done].
  all: destruct (Z.abs_spec vx) as [[? ->]|[? ->]], (Z.abs_spec vy) as [[? ->]|[? ->]]; lia.
Qed.

Context (Hc0 : (nx + ny <= c0)%nat) (Hk : check m = true → (nx + ny <= nib m)%nat) (Hp : Z.abs (vx * vy) < W cz).

Lemma space_kept v : Z.abs v < W cz → space (put z (big_of cz v) m) w c0.
Proof.
  intros Hv. pose proof (space_bound _ _ _ Hz). destruct (decide (w = z)) as [Ew|Nw]; [|apply space_put_ne; [congruence|done]].
  pose proof Hw as Hw2. rewrite Ew in Hw2 |- *. rewrite (space_cap _ _ _ _ Hw2 Hz). by apply space_put.
Qed.

Lemma multiply_ok : ∃ m', multiply x y z m = Some (tt, m') ∧ holds m' z cz (vx * vy) ∧ changed [z; w0] m m' ∧ space m' w c0.
Proof.
  pose proof Hz as (_ & _ & _ & _ & _ & _ & _ & Hcz). pose proof Hw as (_ & _ & _ & _ & _ & _ & _ & Hc).
  destruct (decide (vx = 0 ∨ vy = 0)) as [H0|H0].
  { rewrite multiply_zero by done. assert (vx * vy = 0) as -> by (destruct H0; subst; lia). eexists. split; [done|]. split; [apply holds_put; [done|done]|].
    split; [solve_changed|]. by apply space_kept. }
  assert (vx ≠ 0 ∧ vy ≠ 0) as [N1 N2] by tauto. rewrite multiply_run by done. destruct (sign_product N1 N2) as [Hs Hv]. set (s := Z.lxor _ _) in *.
  assert (check m && bool_decide (nib m < nx + ny)%nat = false) as ->. { destruct (check m); [|done]. apply bool_decide_eq_false. specialize (Hk eq_refl). lia. }
  pose proof Hx as (Ex & Bx & Hcx). pose proof Hy as (Ey & By & Hcy). pose proof (ndigits_cap cx vx Bx). pose proof (ndigits_cap cy vy By).
  pose proof (ndigits_lt X ltac:(lia)) as HX. pose proof (ndigits_lt Y ltac:(lia)) as HY. set (l0 := len (big_of c0 0)).
  assert (∃ l, (if decide (x = y ∧ (5 < nx)%nat) then square_rows x w nx else mult_rows x y w nx ny) (put w (big_of c0 0) m) = Some (tt, put w (Big l (digits c0 (X * Y))) m)) as [l E].
  { destruct (decide (x = y ∧ (5 < nx)%nat)) as [[Exy H5]|Hsq].
    - pose proof Hy as Hy'. rewrite <- Exy in Hy'. rewrite <- (holds_eq _ _ _ _ _ _ Hx Hy'). rewrite <- (holds_eq _ _ _ _ _ _ Hx Hy') in Hc0, Hk.
      apply (square_rows_ok m x w cx c0 vx nx l0); try done; lia.
    - exists l0. by apply (mult_rows_ok m x y w cx cy c0 vx vy l0 Ex Ey Hxw Hyw nx ny HX HY). }
  rewrite (mbind_Some _ _ _ _ _ E), (mbind_Some _ _ _ _ _ (set_len_ok w _ _ (bigs_put w _ m) _)), put_put. cbn [words].
  pose proof (ndigits_pos X ltac:(lia)) as [_ HX1]. pose proof (ndigits_pos Y ltac:(lia)) as [_ HY1].
  assert (0 <= X * Y < W (nx + ny)) as HXY by (rewrite W_add; nia). assert (ndigits (X * Y) <= nx + ny)%nat as Hn by (apply ndigits_le; lia).
  rewrite Z.lor_comm. destruct (land_sign (Z.of_nat (nx + ny)) s ltac:(lia) Hs) as (_ & _ & -> & _).
  rewrite (mbind_Some _ _ _ _ _ (mr_lzero_ok _ w c0 (X * Y) (nx + ny) s (bigs_put w _ m) ltac:(lia) ltac:(lia) Hc Hs)), put_put, Hv.
  assert (Z.abs (vx * vy) < W c0) as Hpw by (rewrite Z.abs_mul; pose proof (W_le (nx + ny) c0 ltac:(lia)); lia).
  clear E. pose proof (holds_put m w c0 (vx * vy) Hpw Hc) as Hw'. set (m1 := put w (big_of c0 (vx * vy)) m) in *.
  assert (space m1 z cz) as Hz'.
  { destruct (decide (w = z)) as [Ew|]; [|by apply space_put_ne]. pose proof Hw as Hw2. rewrite Ew in Hw2. rewrite (space_cap _ _ _ _ Hz Hw2). pose proof Hw' as Hw3. rewrite Ew in Hw3. eapply holds_space, Hw3. }
  rewrite (copy_space m1 w z c0 (vx * vy) cz Hw' Hz' Hp). eexists. split; [done|]. split; [by apply holds_put|].
  split; [apply changed_put; [|solve_in]; apply changed_put; [apply changed_refl|]; destruct acc_cases as [-> | ->]; solve_in|].
  unfold m1. destruct (decide (w = z)) as [Ew|Nw]; [|apply space_put_ne; [congruence|by eapply holds_space]].
  pose proof Hw as Hw2. rewrite Ew in Hw2 |- *. rewrite (space_cap _ _ _ _ Hw2 Hz). by apply space_put.
Qed.
End multiply.

(** C28: The method for squares (the products of two different words once, doubled, then the squares of the words)
    leaves the same words in the work space as the rows of the ordinary multiplication, for any number of words. *)
Theorem square_method_ok m x cx c0 vx xl l : holds m x cx vx → x ≠ w0 → Z.abs vx < W xl → (0 < xl <= cx)%nat → (xl + xl <= c0)%nat → Z.of_nat c0 < 65536 → (check m = true → (xl + xl <= nib m)%nat) →
  ∃ l1 l2 ws, square_rows x w0 xl (put w0 (Big l (digits c0 0)) m) = Some (tt, put w0 (Big l1 ws) m) ∧ mult_rows x x w0 xl xl (put w0 (Big l (digits c0 0)) m) = Some (tt, put w0 (Big l2 ws) m).
Proof.
  intros (Ex & Bx & _) Nx Hv Hl Hc0 Hc Hk. destruct (square_rows_ok m x w0 cx c0 vx xl l Ex Nx Hv ltac:(lia) Hc0 ltac:(lia) Hc Hk) as [l1 E1].
  exists l1, l, (digits c0 (Z.abs vx * Z.abs vx)). split; [done|]. apply (mult_rows_ok m x x w0 cx cx c0 vx vx l Ex Ex Nx Nx xl xl Hv Hv); lia.
Qed.

Lemma square_method_ok_witness : let m := Mip 4 true 0 (<[w0 := big_of 4 0]> {[2%positive := big_of 2 (2 ^ 64 - 1)]}) in
  ∃ l1 l2 ws, square_rows 2 w0 2 (put w0 (Big 0 (digits 4 0)) m) = Some (tt, put w0 (Big l1 ws) m) ∧ mult_rows 2 2 w0 2 2 (put w0 (Big 0 (digits 4 0)) m) = Some (tt, put w0 (Big l2 ws) m).
Proof.
  intros m. apply (square_method_ok m 2 2 4 (2 ^ 64 - 1) 2 0); [|done|done|lia|lia|done|cbn; lia]. split; [done|]. split; [done|lia].
Defined.
