(* ===== verification/BigDiv.v ===== *)
(** * BigDiv: division of MIRACL numbers, [mrarth1.c] and [mrarth2.c]

    By one word ([mr_sdiv]) and by each other ([divide], the method of Knuth: the divisor is
    scaled so that its first word is large, every digit of the quotient is guessed from three
    words of the rest and two of the divisor and corrected at most twice, the product is
    subtracted and, where the guess was one too large, the divisor added again); [mad] and
    [divisible], which are built on them. Modelled where [base] is 0. *)

From S2P Require Import Prelude BigNum BigAdd BigMul.

(** ** mrarth1.c *)

(** [for (i=xl-1;i>=0;i--)]; [k] is [i + 1]. Division by zero is undefined. *)
Fixpoint sdiv_loop (x z : positive) (sn : Z) (k : nat) (sr : Z) : M Z :=
  match k with
  | O => mret sr
  | S i =>
      v ← get_word x i;
      if decide (sn = 0) then lift None else
      let dble := v + sr * B in
      let q := (dble / sn) mod B in
      set_word z i q;;
      sdiv_loop x z sn i ((dble - q * sn) mod B)
  end.

Definition mr_sdiv (x : positive) (sn : Z) (z : positive) : M Z :=
  l ← get_len x;
  (if decide (x ≠ z) then zero z else mret tt);;
  sr ← sdiv_loop x z sn (Z.to_nat (Z.land l MR_OBITS)) 0;
  l ← get_len x; set_len z l;; mr_lzero z;; mret sr.

(** ** divide, mrarth2.c *)

Definition normalise (x y : positive) : M Z :=
  (if decide (x ≠ y) then copy x y else mret tt);;
  l ← get_len y;
  v ← get_word y (Z.to_nat ((Z.land l MR_OBITS - 1) mod B));
  let r := (v + 1) mod B in
  let norm := if decide (r = 0) then 1 else (B / r) mod B in
  (if decide (norm = 1) then mret tt else mr_pmul y norm y);; mret norm.

(** [if (x->len!=0) x->len|=s;] *)
Definition or_sign (x : positive) (s : Z) : M unit := l ← get_len x; if decide (l = 0) then mret tt else set_len x (Z.lor l s).

(** Numbers of the same length, where the quotient is small: subtract until it is done. *)
Fixpoint div_subtract (w y : positive) (fuel : nat) (d : Z) : M Z :=
  match fuel with
  | O => lift None
  | S fuel => c ← mr_compare w y; if decide (0 <= c) then mr_psub w y w;; div_subtract w y fuel (d + 1) else mret d
  end.

Definition div_same_length (w y : positive) (x0 y0 : nat) : M Z :=
  if decide (x0 ≠ y0) then mret 0 else
  if decide (x0 = 1%nat) then
    a ← get_word w 0; b ← get_word y 0;
    if decide (b = 0) then lift None else set_word w 0 (a mod b);; mr_lzero w;; mret (a / b)
  else
    a ← get_word w (x0 - 1); b ← get_word y (x0 - 1);
    if decide (a / 4 < b) then div_subtract w y 5 0 else mret 0.

(** The guess at a digit of the quotient from the words [u2], [u1] of the rest and the first
    word of the divisor: the digit, what remains, and whether that has passed a word. *)
Definition div_guess (u2 u1 ldy : Z) : M (Z * Z * Z) :=
  if decide (u2 = ldy) then
    let ra := (ldy + u1) mod B in mret (B - 1, ra, if decide (ra < ldy) then 1 else 0)
  else
    if decide (ldy = 0) then lift None else
    let dble := u1 + u2 * B in let attemp := (dble / ldy) mod B in mret (attemp, (dble - attemp * ldy) mod B, 0).

(** The correction with the third word [u0] and the second word of the divisor. The rest
    passes a word after two rounds at the latest, since the divisor is scaled. *)
Fixpoint div_correct (u0 ldy sdy : Z) (fuel : nat) (attemp ra carry : Z) : M Z :=
  match fuel with
  | O => lift None
  | S fuel =>
      if decide (carry ≠ 0) then mret attemp else
      let dble := attemp * sdy in let r := h0 dble in let tst := h1 dble in
      if decide (tst < ra ∨ tst = ra ∧ r <= u0) then mret attemp else
      let ra' := (ra + ldy) mod B in
      div_correct u0 ldy sdy fuel ((attemp - 1) mod B) ra' (if decide (ra' < ldy) then 1 else 0)
  end.

(** [w0 -= attemp * y] from place [m] on; the borrow that is left. *)
Definition div_subrow (w y : positive) (y0 m : nat) (attemp : Z) : M Z :=
  floop y0 0 (λ i borrow,
    v ← get_word y i; let dble := attemp * v + borrow in let dig := h0 dble in
    c ← get_word w (m + i);
    set_word w (m + i) ((c - dig) mod B);; mret (if decide (c < dig) then (h1 dble + 1) mod B else h1 dble)) 0.

(** [w0 += y] from place [m] on. *)
Definition div_addrow (w y : positive) (y0 m : nat) : M Z :=
  floop y0 0 (λ i carry,
    c ← get_word w (m + i); v ← get_word y i; let psum := (c + v + carry) mod B in
    set_word w (m + i) psum;; mret (if decide (v < psum) then 0 else if decide (psum < v) then 1 else carry)) 0.

(** One digit of the quotient. *)
Definition div_digit (w y : positive) (y0 m : nat) (ldy sdy : Z) : M Z :=
  let k := (m + y0 - 1)%nat in
  u2 ← get_word w (k + 1); u1 ← get_word w k;
  g ← div_guess u2 u1 ldy;
  let '(attemp, ra, carry) := g in
  u0 ← get_word w (k - 1);
  attemp ← div_correct u0 ldy sdy 4 attemp ra carry;
  if decide (attemp = 0) then mret 0 else
  borrow ← div_subrow w y y0 m attemp;
  top ← get_word w (k + 1);
  if decide (top < borrow) then set_word w (k + 1) 0;; div_addrow w y y0 m;; mret ((attemp - 1) mod B)
  else set_word w (k + 1) ((top - borrow) mod B);; mret attemp.

(** [for (k=w00-1;k>=y0-1;k--)]; [n] digits are left. *)
Fixpoint div_loop (w y z : positive) (y0 : nat) (ldy sdy : Z) (n w00 : nat) : M nat :=
  match n with
  | O => mret w00
  | S m =>
      attemp ← div_digit w y y0 m ldy sdy;
      if decide ((m + y0 - 1)%nat = (w00 - 1)%nat ∧ attemp = 0) then div_loop w y z y0 ldy sdy m (w00 - 1)
      else (if decide (y ≠ z) then set_word z m attemp else mret tt);; div_loop w y z y0 ldy sdy m w00
  end.

(** [y->len|=s;], [z->w[0]=d; if (d>0) z->len=(sz|1);] *)
Definition put_sign (y : positive) (s : Z) : M unit := l ← get_len y; set_len y (Z.lor l s).
Definition put_word (z : positive) (d s : Z) : M unit := zero z;; set_word z 0 d;; if decide (0 < d) then set_len z (Z.lor s 1) else mret tt.

(** What follows the long division: signs and lengths, the rest and the divisor scaled back. *)
Definition div_finish (x y z : positive) (sx sy sz d : Z) (w00 y0 : nat) : M unit :=
  (if decide (y ≠ z) then set_len z (Z.lor (Z.of_nat (w00 + 1 - y0)) sz) else mret tt);;
  set_len w0 (Z.of_nat y0);;
  mr_lzero y;;
  mr_lzero z;;
  (if decide (x ≠ z) then
     mr_lzero w0;;
     (if decide (d = 1) then copy w0 x else mr_sdiv w0 d x;; mret tt);;
     or_sign x sx
   else mret tt);;
  (if decide (d = 1) then mret tt else mr_sdiv y d y;; mret tt);;
  put_sign y sy.

(** The long division of [w0] by [y]. *)
Definition div_long (x y z : positive) (sx sy sz : Z) (w00 y0 : nat) : M unit :=
  (if decide (y ≠ z) then zero z else mret tt);;
  d ← normalise y y;
  chk ← get_check;
  set_check false;;
  (if decide (d = 1) then mret tt else mr_pmul w0 d w0);;
  ldy ← get_word y (y0 - 1); sdy ← get_word y (y0 - 2);
  w00 ← div_loop w0 y z y0 ldy sdy (w00 - (y0 - 1)) w00;
  div_finish x y z sx sy sz d w00 y0;;
  set_check chk.

Definition divide (x y z : positive) : M unit :=
  unless_error (
    (if decide (x = y) then mr_berror MR_ERR_BAD_PARAMETERS else mret tt);;
    fx ← mr_notint x; fy ← (if fx : bool then mret true else mr_notint y);
    (if fy : bool then mr_berror MR_ERR_INT_OP else mret tt);;
    ly ← get_len y;
    (if decide (ly = 0) then mr_berror MR_ERR_DIV_BY_ZERO else mret tt);;
    unless_error (
      lx ← get_len x; ly ← get_len y;
      let sx := Z.land lx MR_MSBIT in let sy := Z.land ly MR_MSBIT in let sz := Z.lxor sx sy in
      set_len x (Z.land lx MR_OBITS);; 
      ly ← get_len y; set_len y (Z.land ly MR_OBITS);;
      lx ← get_len x; ly ← get_len y;
      let x0 := Z.to_nat lx in let y0 := Z.to_nat ly in
      copy x w0;;
      lw ← get_len w0; let w00 := Z.to_nat lw in
      nib ← get_nib; chk ← get_check;
      if chk && bool_decide (Z.of_nat nib < lw - ly + 1) then mr_berror MR_ERR_OVERFLOW else
      d ← div_same_length w0 y x0 y0;
      c ← mr_compare w0 y;
      if decide (c < 0) then
        (if decide (x ≠ z) then copy w0 x;; or_sign x sx else mret tt);;
        (if decide (y ≠ z) then put_word z d sz else mret tt);;
        put_sign y sy
      else if decide (y0 = 1%nat) then
        v ← get_word y 0;
        r ← mr_sdiv w0 v w0;
        (if decide (y ≠ z) then copy w0 z;; put_sign z sz else mret tt);;
        (if decide (x ≠ z) then put_word x r sx else mret tt);;
        put_sign y sy
      else div_long x y z sx sy sz w00 y0)).

(** [q = (x*y + z) / w], the rest in [r]; [z] is added when it is neither [x] nor [y]. *)
Definition mad (x y z w q r : positive) : M unit :=
  unless_error (
    if decide (w = r) then mr_berror MR_ERR_BAD_PARAMETERS else
    chk ← get_check;
    set_check false;;
    multiply x y w0;;
    (if decide (x ≠ z ∧ y ≠ z) then add w0 z w0 else mret tt);;
    divide w0 w q;;
    (if decide (q ≠ r) then copy w0 r else mret tt);;
    set_check chk).

Definition divisible (x y : positive) : M bool :=
  e ← get_ERNUM;
  if decide (e ≠ 0) then mret false else
  copy x w0;; divide w0 y y;; s ← size w0; mret (bool_decide (s = 0)).

(** ** Division by a word *)

Lemma sdiv_step V sn i : 0 <= V → 0 < sn < B → let d := digit V i + V / W (S i) mod sn * B in
  (d / sn) mod B = digit (V / sn) i ∧ (d - (d / sn) mod B * sn) mod B = V / W i mod sn.
Proof.
  intros HV Hsn d. pose proof (W_pos i) as Hw. pose proof (digit_bound V i) as Hd. set (T := V / W (S i)) in *.
  pose proof (Z.div_mod T sn ltac:(lia)) as ET. pose proof (Z.mod_pos_bound T sn ltac:(lia)) as Hr. set (r := T mod sn) in *. set (q := T / sn) in *.
  assert (V / W i = d + B * q * sn) as EV by (rewrite div_W_S; fold T; unfold d; lia).
  assert (0 <= d / sn < B) as Hq by (unfold d; split; [apply Z.div_pos; lia|apply Z.div_lt_upper_bound; nia]).
  rewrite (Z.mod_small (d / sn)) by lia. split.
  - unfold digit. rewrite Z.div_div, (Z.mul_comm sn), <- Z.div_div by lia. rewrite EV, Z.div_add by lia. rewrite (Z.mul_comm B), Z.mod_add, Z.mod_small by lia. done.
  - rewrite EV, Z.mod_add by lia. pose proof (Z.mod_eq d sn ltac:(lia)). pose proof (Z.mod_pos_bound d sn ltac:(lia)). rewrite Z.mod_small by lia. lia.
Qed.

Section sdiv.
Context (m : mip) (x z : positive) (cx cz : nat) (vx sn : Z).
Local Abbreviation V := (Z.abs vx).
Context (Ex : bigs m !! x = Some (big_of cx vx)) (Hsn : 0 < sn < B).

Lemma sdiv_loop_ok l : ∀ k ws, (k <= cx)%nat → (k <= cz)%nat → length ws = cz → (x = z → ∀ j, (j < k)%nat → ws !! j = Some (digit V j)) →
  (∀ j, (k <= j < cz)%nat → ws !! j = Some (digit (V / sn) j)) →
  sdiv_loop x z sn k (V / W k mod sn) (put z (Big l ws) m) = Some (V mod sn, put z (Big l (digits cz (V / sn))) m).
Proof.
  induction k as [|i IH]; intros ws Hcx Hcz Hl Ha Hd; cbn [sdiv_loop].
  - rewrite W_0, Z.div_1_r. replace ws with (digits cz (V / sn)); [done|]. symmetry. apply digits_eq; [done|]. intros j Hj. apply Hd. lia.
  - rewrite (mbind_Some _ _ _ _ _ (get_word_alias m x cx vx z l ws i Ex ltac:(lia) ltac:(intros E; apply Ha; [done|lia]))).
    rewrite decide_False by lia. cbn zeta. destruct (sdiv_step V sn i ltac:(lia) Hsn) as [-> ->].
    assert (i < length (words (Big l ws)))%nat as Hli by (cbn; lia). rewrite (mbind_Some _ _ _ _ _ (set_word_ok z _ _ (bigs_put z (Big l ws) m) i _ Hli)), put_put. cbn [len words].
    apply IH; [lia|lia|by rewrite length_insert| |].
    + intros E j Hj. rewrite list_lookup_insert_ne by lia. apply Ha; [done|lia].
    + intros j Hj. destruct (decide (j = i)) as [->|]; [apply list_lookup_insert_eq; lia|]. rewrite list_lookup_insert_ne by lia. apply Hd. lia.
Qed.
End sdiv.

Lemma quot_sign vx sn : 0 < sn → (if decide (sign_bit vx = 0) then Z.abs vx / sn else - (Z.abs vx / sn)) = Z.quot vx sn.
Proof.
  intros Hsn. unfold sign_bit. destruct (Z.abs_spec vx) as [[H ->]|[H ->]].
  - rewrite (decide_False (P := vx < 0)), (decide_True (P := 0 = 0)) by (done || lia). by rewrite Z.quot_div_nonneg.
  - rewrite (decide_True (P := vx < 0)), (decide_False (P := MR_MSBIT = 0)) by (done || lia). rewrite <- (Z.quot_div_nonneg (- vx)) by lia. by rewrite Z.quot_opp_l, Z.opp_involutive by lia.
Qed.

(** The quotient, rounded to zero, and the remainder of the magnitude. *)
Lemma mr_sdiv_ok m x z cx cz vx vz sn : holds m x cx vx → holds m z cz vz → 0 < sn < B → Z.abs vx < W cz →
  mr_sdiv x sn z m = Some (Z.abs vx mod sn, put z (big_of cz (Z.quot vx sn)) m).
Proof.
  intros Hx Hz Hsn Hxz. pose proof Hx as (Ex & Bx & Hcx). pose proof Hz as (Ez & Bz & Hcz). unfold mr_sdiv. set (V := Z.abs vx) in *.
  rewrite (mbind_Some _ _ m _ m (get_len_ok x _ m Ex)). destruct (len_parts cx vx Bx Hcx) as (-> & _). rewrite Nat2Z.id. fold V.
  set (l0 := if decide (x = z) then len (big_of cx vx) else 0). set (ws0 := digits cz (if decide (x = z) then V else 0)).
  assert ((if decide (x ≠ z) then zero z else mret tt) m = Some (tt, put z (Big l0 ws0) m)) as E0.
  { unfold l0, ws0. destruct (decide (x = z)) as [E|E].
    - rewrite decide_False by tauto. subst z. pose proof (holds_cap _ _ _ _ _ _ Hx Hz) as <-. by rewrite put_same.
    - rewrite decide_True by done. by rewrite (zero_ok m z cz vz). }
  rewrite (mbind_Some _ _ _ _ _ E0). clear E0. pose proof (ndigits_lt V ltac:(lia)) as Hn.
  assert (ndigits (V / sn) <= ndigits V)%nat as Hnq by (apply ndigits_mono; split; [apply Z.div_pos; lia|apply Z.div_le_upper_bound; nia]).
  pose proof (sdiv_loop_ok m x z cx cz vx sn Ex Hsn l0 (ndigits V) ws0) as Hloop. fold V in Hloop. rewrite (Z.div_small V (W _)), Z.mod_0_l in Hloop by lia.
  rewrite (mbind_Some _ _ _ _ _ (Hloop ltac:(apply ndigits_le; lia) ltac:(apply ndigits_le; lia) (digits_length _ _)
    ltac:(intros E j Hj; unfold ws0; rewrite decide_True by done; apply digits_lookup; pose proof (ndigits_le V cz ltac:(lia) Hxz); lia)
    ltac:(intros j Hj; unfold ws0; rewrite digits_lookup by lia; f_equal; rewrite (digit_ndigits (V / sn)) by (try apply Z.div_pos; lia); case_decide; [apply digit_ndigits; lia|apply digit_0]))).
  set (m1 := put z _ m). assert (∃ b, bigs m1 !! x = Some b ∧ len b = len (big_of cx vx)) as (b & Eb & Lb).
  { unfold m1. destruct (decide (x = z)) as [->|E]; [rewrite bigs_put; eexists; split; [done|]; unfold l0; cbn [len]; try case_decide; done|]. rewrite bigs_put_ne by done. by exists (big_of cx vx). }
  rewrite (mbind_Some _ _ m1 _ m1 (get_len_ok x _ m1 Eb)), Lb. unfold m1. rewrite (mbind_Some _ _ _ _ _ (set_len_ok z _ _ (bigs_put z _ m) _)), put_put. cbn [words].
  pose proof (mr_lzero_ok (put z (Big (len (big_of cx vx)) (digits cz (V / sn))) m) z cz (V / sn) (ndigits V) (sign_bit vx)) as Hz0. cbn [len big_of] in Hz0 |- *.
  rewrite (mbind_Some _ _ _ _ _ (Hz0 (bigs_put _ _ _) ltac:(apply Z.div_pos; lia) ltac:(pose proof (ndigits_le V cz ltac:(lia) Hxz); lia) Hcz (sign_bit_cases vx))), put_put.
  unfold V. by rewrite quot_sign by lia.
Qed.

(** ** Scaling *)

Lemma norm_arith v : 0 < v < B → let r := (v + 1) mod B in let d := if decide (r = 0) then 1 else (B / r) mod B in
  0 < d < B ∧ d * (v + 1) <= B ∧ B / 2 <= d * v.
Proof.
  intros Hv r d. destruct (decide (v = B - 1)) as [->|Hne].
  { unfold d, r. rewrite decide_True by done. change (B / 2) with 2147483648. lia. }
  assert (r = v + 1) as Er by (apply Z.mod_small; lia). unfold d. rewrite Er, decide_False by lia. clear d.
  assert (0 < B / (v + 1) < B) as Hd by (split; [apply Z.div_str_pos; lia|apply Z.div_lt; lia]).
  rewrite Z.mod_small by lia. pose proof (Z.mul_div_le B (v + 1) ltac:(lia)) as H1. pose proof (Z.mul_succ_div_gt B (v + 1) ltac:(lia)) as H2. set (d := B / (v + 1)) in *.
  split; [lia|]. split; [lia|]. change (B / 2) with 2147483648. destruct (decide (v = 1)) as [->|]; [lia|]. destruct (decide (d = 1)) as [Ed|]; [rewrite Ed in *; lia|].
  destruct (decide (d = 2)) as [Ed|]; [rewrite Ed in *; lia|]. assert (0 <= (d - 3) * (v - 2)) by (apply Z.mul_nonneg_nonneg; lia). lia.
Qed.

Lemma digit_top_div v n : 0 <= v < W (S n) → digit v n = v / W n.
Proof.
  intros H. unfold digit. pose proof (W_pos n). rewrite W_S in H. apply Z.mod_small. split; [apply Z.div_pos; lia|apply Z.div_lt_upper_bound; lia].
Qed.

Lemma normalise_ok m y cy vy : holds m y cy vy → 0 < vy → ∃ d, normalise y y m = Some (d, put y (big_of cy (vy * d)) m) ∧
  0 < d < B ∧ ndigits (vy * d) = ndigits vy ∧ B / 2 <= digit (vy * d) (ndigits vy - 1).
Proof.
  intros Hy Hv. pose proof Hy as (Ey & By & Hcy). rewrite Z.abs_eq in By by lia. pose proof (ndigits_le vy cy ltac:(lia) By) as Hn.
  destruct (ndigits_pos vy Hv) as [Hpos [Hlo Hhi]]. set (n := (ndigits vy - 1)%nat) in *. assert (ndigits vy = S n) as En by (unfold n; lia). rewrite En in Hhi, Hn |- *. clearbody n. pose proof (W_pos n).
  assert (0 < digit vy n < B) as Ht by (pose proof (digit_bound vy n); rewrite (digit_top_div vy n) in * by lia; split; [apply Z.div_str_pos; lia|lia]).
  unfold normalise. rewrite decide_False by tauto. rewrite (mbind_Some _ _ m tt m eq_refl), (mbind_Some _ _ m _ m (get_len_ok y _ m Ey)).
  destruct (len_parts cy vy ltac:(lia) Hcy) as (-> & _). rewrite Z.abs_eq, En by lia.
  rewrite Z.mod_small by lia. replace (Z.to_nat (Z.of_nat (S n) - 1)) with n by lia. rewrite big_of_nonneg in Ey by lia.
  rewrite (mbind_Some _ _ m _ m (get_word_ok y _ m Ey n _ (digits_lookup cy vy n ltac:(lia)))). cbn zeta.
  destruct (norm_arith (digit vy n) Ht) as (D1 & D2 & D3). set (d := if decide (_ = 0) then 1 else _) in *. exists d.
  assert (vy < (digit vy n + 1) * W n) as Hup. { rewrite (digit_top_div vy n) by lia. pose proof (Z.mul_succ_div_gt vy (W n) ltac:(lia)). lia. }
  assert (digit vy n * W n <= vy) as Hdn. { rewrite (digit_top_div vy n) by lia. pose proof (Z.mul_div_le vy (W n) ltac:(lia)). lia. }
  assert (vy * d < W (S n)) as Hd. { rewrite W_S. apply Z.lt_le_trans with ((digit vy n + 1) * W n * d); [nia|]. replace ((digit vy n + 1) * W n * d) with (d * (digit vy n + 1) * W n) by ring. nia. }
  assert (d * digit vy n * W n <= vy * d) as Hd2 by nia.
  split.
  - destruct (decide (d = 1)) as [E|E]; [rewrite E, Z.mul_1_r; rewrite (mbind_Some _ _ m tt m eq_refl), put_same; [done|rewrite Ey, big_of_nonneg by lia; done]|].
    pose proof (W_le (S n) cy ltac:(lia)). rewrite (mbind_Some _ _ _ _ _ (mr_pmul_ok m y y cy cy vy vy d Hy Hy ltac:(lia) ltac:(lia) ltac:(rewrite Z.abs_eq; lia)
      ltac:(intros _; rewrite Z.abs_eq, En by lia; pose proof (W_le (S n) (S n `max` nib m)%nat ltac:(lia)); lia))). done.
  - split; [done|]. split; [apply ndigits_unique; [lia|replace (S n - 1)%nat with n by lia; nia|done]|].
    rewrite (digit_top_div (vy * d) n) by nia. etransitivity; [exact D3|]. apply Z.div_le_lower_bound; nia.
Qed.

(** ** Guessing a digit *)

Lemma mod_wrap a : B <= a < 2 * B → a mod B = a - B.
Proof. intros H. symmetry. apply (Z.mod_unique_pos a B 1); lia. Qed.

Section guess.
Context (u2 u1 u0 ldy sdy : Z) (H2 : 0 <= u2 <= ldy) (H1 : 0 <= u1 < B) (H0 : 0 <= u0 < B) (Hl : B / 2 <= ldy < B) (Hs : 0 <= sdy < B).
Local Abbreviation U2 := (u2 * B + u1).
Local Abbreviation U3 := ((u2 * B + u1) * B + u0).
Local Abbreviation V2 := (ldy * B + sdy).
Definition best : Z := Z.min (B - 1) (U3 / V2).

Lemma div_correct_ok fuel m : ∀ attemp ra carry R, best <= attemp < B → R = U2 - attemp * ldy → 0 <= R → (if decide (carry = 0) then ra = R ∧ R < B else B <= R) →
  (0 < fuel)%nat → B <= R + (Z.of_nat fuel - 1) * ldy → div_correct u0 ldy sdy fuel attemp ra carry m = Some (best, m).
Proof.
  change (B / 2) with 2147483648 in Hl. assert (0 <= best) as Hb0 by (unfold best; assert (0 <= U3 / V2) by (apply Z.div_pos; lia); lia).
  induction fuel as [|fuel IH]; intros attemp ra carry R Ha HR HR0 Hc Hf Hfu; [lia|]. cbn [div_correct].
  assert (attemp * sdy <= R * B + u0 → attemp = best) as Hdone.
  { intros Hle. assert (attemp * V2 <= U3) by (rewrite HR in Hle; lia). assert (attemp <= U3 / V2) by (apply Z.div_le_lower_bound; lia). unfold best in *. lia. }
  destruct (decide (carry = 0)) as [E|E].
  - destruct Hc as [-> HRB]. rewrite (decide_False (P := carry ≠ 0)) by tauto. cbn zeta. assert (0 <= attemp * sdy <= (B - 1) * (B - 1)) as Hp by (split; [apply Z.mul_nonneg_nonneg; lia|apply Z.mul_le_mono_nonneg; lia]).
    unfold h0, h1. rewrite (Z.mod_small (attemp * sdy / B)) by (split; [apply Z.div_pos; lia|apply Z.div_lt_upper_bound; lia]).
    pose proof (Z.div_mod (attemp * sdy) B ltac:(lia)) as Edm. pose proof (Z.mod_pos_bound (attemp * sdy) B ltac:(lia)). set (q := attemp * sdy / B) in *. set (r := (attemp * sdy) mod B) in *.
    case_decide as Ht; [rewrite <- Hdone by lia; done|]. assert (R * B + u0 < attemp * sdy) as Hgt by (assert (R < q ∨ R = q ∧ u0 < r) as [?|?] by lia; nia).
    assert (U3 < attemp * V2) as Hgt2 by (rewrite HR in Hgt; lia). assert (U3 / V2 < attemp) by (apply Z.div_lt_upper_bound; lia).
    assert (0 < attemp) by (destruct (decide (attemp = 0)) as [->|]; lia). rewrite (Z.mod_small (attemp - 1)) by lia.
    apply (IH _ _ _ (R + ldy)); [unfold best in *; lia|lia|lia| |lia|lia].
    destruct (decide (R + ldy < B)).
    + rewrite (Z.mod_small (R + ldy)) by lia. rewrite (decide_False (P := R + ldy < ldy)) by lia. rewrite decide_True by done. done.
    + rewrite (mod_wrap (R + ldy)) by lia. rewrite (decide_True (P := R + ldy - B < ldy)) by lia. rewrite decide_False by done. lia.
  - rewrite (decide_True (P := carry ≠ 0)) by done. assert (attemp * sdy <= (B - 1) * (B - 1)) by (apply Z.mul_le_mono_nonneg; lia). by rewrite <- Hdone by nia.
Qed.

Lemma div_guess_ok m : ∃ attemp ra carry, div_guess u2 u1 ldy m = Some ((attemp, ra, carry), m) ∧ best <= attemp < B ∧ let R := U2 - attemp * ldy in
  0 <= R ∧ (if decide (carry = 0) then ra = R ∧ R < B else B <= R).
Proof.
  change (B / 2) with 2147483648 in Hl. unfold div_guess. destruct (decide (u2 = ldy)) as [E|E].
  - exists (B - 1), ((ldy + u1) mod B), (if decide ((ldy + u1) mod B < ldy) then 1 else 0). split; [done|]. split; [unfold best; lia|]. cbn zeta.
    replace (U2 - (B - 1) * ldy) with (ldy + u1) by lia. split; [lia|]. destruct (decide (ldy + u1 < B)).
    + rewrite (Z.mod_small (ldy + u1)) by lia. rewrite (decide_False (P := ldy + u1 < ldy)) by lia. by rewrite decide_True.
    + rewrite (mod_wrap (ldy + u1)) by lia. rewrite (decide_True (P := ldy + u1 - B < ldy)) by lia. rewrite decide_False by done. lia.
  - rewrite decide_False by lia. replace (u1 + u2 * B) with U2 by lia. pose proof (Z.div_mod U2 ldy ltac:(lia)) as Edm. pose proof (Z.mod_pos_bound U2 ldy ltac:(lia)).
    assert (0 <= U2 / ldy < B) as Hq by (split; [apply Z.div_pos; lia|apply Z.div_lt_upper_bound; nia]). rewrite (Z.mod_small (U2 / ldy)) by lia.
    exists (U2 / ldy), (U2 mod ldy), 0. replace (U2 - U2 / ldy * ldy) with (U2 mod ldy) by lia. rewrite (Z.mod_small (U2 mod ldy)) by lia. split; [done|]. split; [|cbn zeta; split; [lia|rewrite (decide_True (P := 0 = 0)) by done; split; [done|lia]]].
    split; [|lia]. unfold best. apply Z.min_le_iff. right. apply Z.div_le_lower_bound; [lia|]. pose proof (Z.mul_div_le U3 V2 ltac:(lia)). assert (0 <= U3 / V2) by (apply Z.div_pos; lia). nia.
Qed.
End guess.

(** ** One digit of the quotient *)

(** Leading words give the quotient up to one. *)
Lemma quot_close a Y q w U V : 0 < w → 0 <= U → w * U <= a < w * (U + 1) → w * V <= Y < w * (V + 1) → B <= V → Y * q <= a < Y * (q + 1) → 0 <= q →
  q <= U / V ∧ Z.min (B - 1) (U / V) <= q + 1.
Proof.
  intros Hw HU [A1 A2] [B1 B2] HV [Q1 Q2] Hq. split.
  - apply Z.div_le_lower_bound; [lia|]. apply Z.lt_succ_r. apply (Z.mul_lt_mono_pos_l w); [done|]. unfold Z.succ.
    assert (w * V * q <= Y * q) by (by apply Z.mul_le_mono_nonneg_r). lia.
  - set (t := Z.min (B - 1) (U / V)). destruct (decide (t <= q + 1)) as [|Hgt]; [done|]. exfalso. assert (0 <= U / V) by (apply Z.div_pos; lia).
    pose proof (Z.mul_div_le U V ltac:(lia)) as H1. assert (V * t <= V * (U / V)) as H2 by (apply Z.mul_le_mono_nonneg_l; lia).
    assert (w * (V * t) <= w * U) as H3 by (apply Z.mul_le_mono_nonneg_l; lia). assert (Y * (q + 1) <= Y * (t - 1)) as H4 by (apply Z.mul_le_mono_nonneg_l; lia).
    assert (Y * (t - 1) <= w * (V + 1) * (t - 1)) as H5 by (apply Z.mul_le_mono_nonneg_r; lia).
    assert (w * (V * t) < w * ((V + 1) * (t - 1))) as H6 by lia. apply Z.mul_lt_mono_pos_l in H6; [|done]. lia.
Qed.

Section digit.
Context (m : mip) (w y : positive) (c0 cy : nat) (l Y : Z) (n : nat).
Context (Ey : bigs m !! y = Some (big_of cy Y)) (Hyw : y ≠ w) (HY : W (n - 1) <= Y < W n) (Hn : (2 <= n)%nat) (Hcy : (n <= cy)%nat).

Lemma Y_pos : 0 < Y.
Proof. pose proof (W_pos (n - 1)). lia. Qed.

Lemma read_y ws i : (i < n)%nat → get_word y i (put w (Big l ws) m) = Some (digit Y i, put w (Big l ws) m).
Proof. intros Hi. pose proof Y_pos. rewrite (get_word_other m y cy Y w l ws i Hyw Ey) by lia. by rewrite Z.abs_eq by lia. Qed.

(** In the words [o], ..., [o + n - 1] of [ws] are the digits of [A]. *)
Definition window (ws : list Z) (o : nat) (A : Z) : Prop := ∀ i, (i < n)%nat → ws !! (o + i)%nat = Some (digit A i).

Lemma negative_carry a t i : 0 <= t → - t <= carry a (- t) Y i <= 0.
Proof.
  intros Ht. unfold carry. pose proof (W_pos i). pose proof (Z.mod_pos_bound a (W i) ltac:(lia)). pose proof (Z.mod_pos_bound Y (W i) ltac:(lia)). split.
  - apply Z.div_le_lower_bound; [lia|]. nia.
  - apply Zlt_succ_le. apply Z.div_lt_upper_bound; nia.
Qed.

Lemma sub_column a t v b s b' : 0 <= a < B → 0 <= t < B → 0 <= v < B → 0 <= b <= t → 0 <= s < B → 0 <= b' <= t → a - t * v - b = s - B * b' → 
  let d := t * v + b in (a - h0 d) mod B = s ∧ (if decide (a < h0 d) then (h1 d + 1) mod B else h1 d) = b'.
Proof.
  intros Ha Ht Hv Hb Hs Hb' E d. assert (0 <= t * v <= (B - 1) * (B - 1)) by (split; [apply Z.mul_nonneg_nonneg; lia|apply Z.mul_le_mono_nonneg; lia]).
  assert (0 <= d / B < B) as Hd by (unfold d; split; [apply Z.div_pos; lia|apply Z.div_lt_upper_bound; lia]). pose proof (Z.div_mod d B ltac:(lia)) as Ed. pose proof (Z.mod_pos_bound d B ltac:(lia)).
  unfold h0, h1. rewrite (Z.mod_small (d / B)) by lia. set (q := d / B) in *. set (r := d mod B) in *. case_decide.
  - assert (b' = q + 1 ∧ s = a - r + B) as [-> ->] by (unfold d in Ed; lia). rewrite (Z.mod_small (q + 1)) by lia. split; [|done].
    symmetry. apply (Z.mod_unique_pos _ _ (-1)); lia.
  - assert (b' = q ∧ s = a - r) as [-> ->] by (unfold d in Ed; lia). split; [|done]. apply Z.mod_small. lia.
Qed.

Lemma div_subrow_ok ws o t A : length ws = c0 → (o + n <= c0)%nat → 0 <= t < B → window ws o A → ∃ ws',
  div_subrow w y n o t (put w (Big l ws) m) = Some (- carry A (- t) Y n, put w (Big l ws') m) ∧ length ws' = c0 ∧
  ∀ j, ws' !! j = if decide (o <= j < o + n)%nat then Some (digit (A + - t * Y) (j - o)) else ws !! j.
Proof.
  intros Hl Ho Ht Hw. unfold div_subrow.
  destruct (floop_cols (λ i borrow, v ← get_word y i; let dble := t * v + borrow in let dig := h0 dble in c ← get_word w (o + i);
    set_word w (o + i) ((c - dig) mod B);; mret (if decide (c < dig) then (h1 dble + 1) mod B else h1 dble)) w l o (λ i, - carry A (- t) Y i) (digit (A + - t * Y)) ws m n 0) as (ws' & E & L & Hj).
  - lia.
  - intros i ws' Hi Hli Hs. rewrite (mbind_Some _ _ _ _ _ (read_y ws' i ltac:(lia))). cbn zeta.
    rewrite (mbind_Some _ _ _ _ _ (get_word_ok w _ _ (bigs_put w (Big l ws') m) (o + i) (digit A i) ltac:(cbn [words]; rewrite Hs by lia; apply Hw; lia))).
    pose proof (carry_step A (- t) Y i) as Hst. pose proof (negative_carry A t i ltac:(lia)). pose proof (negative_carry A t (S i) ltac:(lia)).
    destruct (sub_column (digit A i) t (digit Y i) (- carry A (- t) Y i) (digit (A + - t * Y) i) (- carry A (- t) Y (S i))) as [-> ->]; [apply digit_bound|lia|apply digit_bound|lia|apply digit_bound|lia|lia|].
    rewrite (mbind_Some _ _ _ _ _ (set_word_ok w _ _ (bigs_put w (Big l ws') m) (o + i) _ Hli)). by rewrite put_put.
  - rewrite carry_0 in E. exists ws'. split; [exact E|]. split; [lia|]. intros j. rewrite Hj. by rewrite Nat.add_0_r.
Qed.

Lemma div_addrow_ok ws o A : length ws = c0 → (o + n <= c0)%nat → window ws o A → ∃ c ws',
  div_addrow w y n o (put w (Big l ws) m) = Some (c, put w (Big l ws') m) ∧ length ws' = c0 ∧
  ∀ j, ws' !! j = if decide (o <= j < o + n)%nat then Some (digit (A + Y) (j - o)) else ws !! j.
Proof.
  intros Hl Ho Hw. unfold div_addrow.
  destruct (floop_cols (λ i carry, c ← get_word w (o + i); v ← get_word y i; let psum := (c + v + carry) mod B in
    set_word w (o + i) psum;; mret (if decide (v < psum) then 0 else if decide (psum < v) then 1 else carry)) w l o (carry A 1 Y) (digit (A + Y)) ws m n 0) as (ws' & E & L & Hj).
  - lia.
  - intros i ws' Hi Hli Hs. rewrite (mbind_Some _ _ _ _ _ (get_word_ok w _ _ (bigs_put w (Big l ws') m) (o + i) (digit A i) ltac:(cbn [words]; rewrite Hs by lia; apply Hw; lia))).
    rewrite (mbind_Some _ _ _ _ _ (read_y ws' i ltac:(lia))). cbn zeta. pose proof (carry_step A 1 Y i) as Hst. rewrite !Z.mul_1_l in Hst.
    rewrite (Z.add_comm (digit A i)).
    destruct (psum_carry (digit Y i) (digit A i) (carry A 1 Y i) (digit (A + Y) i) (carry A 1 Y (S i))) as [-> ->];
      [apply digit_bound|apply digit_bound|apply carry_unit|apply digit_bound|apply carry_unit|lia|].
    rewrite (mbind_Some _ _ _ _ _ (set_word_ok w _ _ (bigs_put w (Big l ws') m) (o + i) _ Hli)). by rewrite put_put.
  - rewrite carry_0 in E. exists (carry A 1 Y n), ws'. split; [exact E|]. split; [lia|]. intros j. rewrite Hj. by rewrite Nat.add_0_r.
Qed.

(** The guess is the digit or one more. *)
Lemma best_close a : 0 <= a < Y * B → B / 2 <= digit Y (n - 1) →
  let b := best (digit a n) (digit a (n - 1)) (digit a (n - 2)) (digit Y (n - 1)) (digit Y (n - 2)) in
  digit a n <= digit Y (n - 1) ∧ a / Y <= b <= a / Y + 1 ∧ 0 <= a / Y < B ∧ a / W n = digit a n.
Proof.
  intros Ha Hl. cbv zeta. change (B / 2) with 2147483648 in Hl. pose proof Y_pos as HYp. destruct n as [|[|k]] eqn:En; [lia|lia|]. replace (S (S k) - 1)%nat with (S k) in * by lia. replace (S (S k) - 2)%nat with k in * by lia.
  pose proof (W_pos k) as Wk. pose proof (W_pos (S k)). pose proof (W_pos (S (S k))). pose proof (W_S k) as W1. pose proof (W_S (S k)) as W2.
  assert (a < W (S (S (S k)))) as Ha3 by (rewrite W_S; nia).
  pose proof (digit_top_div a (S (S k)) ltac:(lia)) as D2. pose proof (div_W_S a (S k)) as D1. pose proof (div_W_S a k) as D0. pose proof (digit_top_div Y (S k) ltac:(lia)) as Y1. pose proof (div_W_S Y k) as Y0.
  pose proof (digit_bound a (S k)). pose proof (digit_bound a k). pose proof (digit_bound Y (S k)). pose proof (digit_bound Y k).
  rewrite <- D2 in D1. rewrite D1 in D0. rewrite <- Y1 in Y0. set (u2 := digit a (S (S k))) in *. set (u1 := digit a (S k)) in *. set (u0 := digit a k) in *. set (ldy := digit Y (S k)) in *. set (sdy := digit Y k) in *.
  set (U3 := (u2 * B + u1) * B + u0). set (V2 := ldy * B + sdy). assert (a / W k = U3) as EU by (unfold U3; lia). assert (Y / W k = V2) as EV by (unfold V2; lia).
  assert (u2 <= ldy) as Hu2.
  { rewrite D2. apply Zlt_succ_le. apply Z.div_lt_upper_bound; [lia|]. pose proof (Z.mul_succ_div_gt Y (W (S k)) ltac:(lia)). rewrite <- Y1 in *. nia. }
  pose proof (Z.mul_div_le a (W k) ltac:(lia)) as A1. pose proof (Z.mul_succ_div_gt a (W k) ltac:(lia)) as A2. rewrite EU in A1, A2.
  pose proof (Z.mul_div_le Y (W k) ltac:(lia)) as B1. pose proof (Z.mul_succ_div_gt Y (W k) ltac:(lia)) as B2. rewrite EV in B1, B2.
  pose proof (Z.mul_div_le a Y ltac:(lia)) as Q1. pose proof (Z.mul_succ_div_gt a Y ltac:(lia)) as Q2. assert (0 <= a / Y < B) as HQ by (split; [apply Z.div_pos; lia|apply Z.div_lt_upper_bound; lia]).
  set (q := a / Y) in *. assert (0 < V2) by (unfold V2; lia). assert (B <= V2) by (unfold V2; lia). assert (0 <= U3) by (rewrite <- EU; apply Z.div_pos; lia).
  split; [done|]. split; [|split; [done|done]]. unfold best. fold U3 V2. destruct (quot_close a Y q (W k) U3 V2) as [C1 C2]; try done; lia.
Qed.

Lemma window_result U a ws o r : a = U / W o → length ws = c0 → (o + n < c0)%nat → 0 <= U < W (o + n + 1) → 0 <= r < W n → 
  (∀ j, (j < c0)%nat → ws !! j = if decide (o <= j < o + n)%nat then Some (digit r (j - o)) else if decide (j = o + n)%nat then Some 0 else digits c0 U !! j) →
  ws = digits c0 (U - (a - r) * W o).
Proof.
  intros -> Hl Ho HU Hr Hj. pose proof (W_pos o). pose proof (Z.div_mod U (W o) ltac:(lia)) as Edm. pose proof (Z.mod_pos_bound U (W o) ltac:(lia)).
  assert ((U - (U / W o - r) * W o) / W o = r) as ED.
  { replace (U - (U / W o - r) * W o) with (U mod W o + r * W o) by lia. rewrite Z.div_add, Z.div_small by lia. lia. }
  apply digits_eq; [done|]. intros j Hjc. rewrite Hj by done. case_decide as H1.
  { f_equal. replace j with (o + (j - o))%nat at 2 by lia. by rewrite digit_div, ED. }
  case_decide as H2.
  { subst j. f_equal. rewrite digit_div, ED. by rewrite digit_small by lia. }
  rewrite digits_lookup by done. f_equal. destruct (decide (j < o)%nat).
  - replace (U - (U / W o - r) * W o) with (U + (- (U / W o - r)) * W o) by ring. by rewrite digit_add_high.
  - rewrite (digit_small U) by (pose proof (W_le (o + n + 1) j ltac:(lia)); lia). replace j with (o + (j - o))%nat by lia. rewrite digit_div, ED. rewrite digit_small; [done|]. pose proof (W_le n (j - o) ltac:(lia)). lia.
Qed.

Lemma div_digit_ok U o : 0 <= U < Y * W (o + 1) → B / 2 <= digit Y (n - 1) → (o + n < c0)%nat → let q := U / W o / Y in
  div_digit w y n o (digit Y (n - 1)) (digit Y (n - 2)) (put w (Big l (digits c0 U)) m) = Some (q, put w (Big l (digits c0 (U - q * Y * W o))) m).
Proof.
  intros HU Hl Ho q. set (a := U / W o) in *. pose proof Y_pos as HYp. pose proof (W_pos o) as Wo. pose proof (W_pos n) as Wn.
  assert (0 <= a < Y * B) as Ha. { replace (o + 1)%nat with (S o) in HU by lia. rewrite W_S in HU. unfold a. split; [apply Z.div_pos; lia|apply Z.div_lt_upper_bound; lia]. }
  destruct (best_close a Ha Hl) as (Hu2 & [Hb1 Hb2] & Hq & Etop). set (b := best _ _ _ _ _) in *. fold q in Hb1, Hb2, Hq.
  set (s0 := put w (Big l (digits c0 U)) m). assert (∀ i, (i <= n)%nat → get_word w (o + i) s0 = Some (digit a i, s0)) as Hread.
  { intros i Hi. unfold a. rewrite <- digit_div. apply (get_word_ok w _ _ (bigs_put w (Big l (digits c0 U)) m)). apply digits_lookup. lia. }
  unfold div_digit. cbn zeta. replace (o + n - 1 + 1)%nat with (o + n)%nat by lia. replace (o + n - 1 - 1)%nat with (o + (n - 2))%nat by lia. replace (o + n - 1)%nat with (o + (n - 1))%nat by lia.
  rewrite (mbind_Some _ _ s0 _ s0 (Hread n ltac:(lia))), (mbind_Some _ _ s0 _ s0 (Hread (n - 1)%nat ltac:(lia))).
  destruct (div_guess_ok (digit a n) (digit a (n - 1)) (digit a (n - 2)) (digit Y (n - 1)) (digit Y (n - 2)) ltac:(pose proof (digit_bound a n); lia) (digit_bound _ _) (digit_bound _ _) ltac:(pose proof (digit_bound Y (n - 1)); lia) (digit_bound _ _) s0)
    as (t0 & ra & cr & E1 & Hbest & HR0 & HR).
  rewrite (mbind_Some _ _ _ _ _ E1), (mbind_Some _ _ s0 _ s0 (Hread (n - 2)%nat ltac:(lia))).
  pose proof (digit_bound Y (n - 1)) as Hld. assert (0 <= b < B) as Hbb by (split; [lia|fold b in Hbest; lia]).
  rewrite (mbind_Some _ _ _ _ _ (div_correct_ok (digit a n) (digit a (n - 1)) (digit a (n - 2)) (digit Y (n - 1)) (digit Y (n - 2)) ltac:(pose proof (digit_bound a n); lia) (digit_bound _ _) (digit_bound _ _) ltac:(lia) (digit_bound _ _)
    4 s0 t0 ra cr _ Hbest eq_refl HR0 HR ltac:(lia) ltac:(change (B / 2) with 2147483648 in Hl; lia))). fold b.
  pose proof (Z.div_mod a Y ltac:(lia)) as Eaq. pose proof (Z.mod_pos_bound a Y ltac:(lia)) as Hr. fold q in Eaq. set (r := a mod Y) in *.
  assert (q * Y * W o = (a - r) * W o) as -> by (rewrite Eaq; ring).
  destruct (decide (b = 0)) as [Eb|Eb].
  { assert (q = 0) as Eq by lia. rewrite Eq in *. unfold mret, M_ret. unfold s0. do 4 f_equal. f_equal. replace (a - r) with 0 by lia. lia. }
  assert (0 <= U < W (o + n + 1)) as HU2. { split; [lia|]. replace (o + n + 1)%nat with (n + (o + 1))%nat by lia. rewrite W_add. pose proof (W_pos (o + 1)). nia. }
  destruct (div_subrow_ok (digits c0 U) o b a (digits_length _ _) ltac:(lia) Hbb) as (ws & E2 & L2 & Hw2).
  { intros i Hi. unfold a. rewrite <- digit_div. apply digits_lookup. lia. }
  rewrite (mbind_Some _ _ _ _ _ E2).
  assert (- carry a (- b) Y n = digit a n - (a + - b * Y) / W n) as ->.
  { unfold carry. rewrite (Z.mod_small Y) by lia. pose proof (Z.div_mod a (W n) ltac:(lia)) as Em. rewrite Etop in Em.
    replace (a + - b * Y) with (a mod W n + - b * Y + digit a n * W n) by lia. rewrite Z.div_add by lia. lia. }
  assert (ws !! (o + n)%nat = Some (digit a n)) as Htop by (rewrite Hw2, decide_False by lia; unfold a; rewrite <- digit_div; apply digits_lookup; lia).
  rewrite (mbind_Some _ _ _ _ _ (get_word_ok w _ _ (bigs_put w (Big l ws) m) _ _ Htop)). pose proof (digit_bound a n).
  assert (a + - b * Y = r + (q - b) * Y) as Ew by (rewrite Eaq; ring).
  assert (∀ ws, length ws = c0 → (o + n < length (words (Big l ws)))%nat) as HL by (intros ws' Hws'; cbn; lia).
  destruct (decide (b = q)) as [Ebq|Ebq].
  - assert ((a + - b * Y) / W n = 0) as -> by (rewrite Ew, Ebq, Z.sub_diag, Z.mul_0_l, Z.add_0_r; apply Z.div_small; lia).
    rewrite Z.sub_0_r. rewrite decide_False by lia. rewrite Z.sub_diag. rewrite (mbind_Some _ _ _ _ _ (set_word_ok w _ _ (bigs_put w (Big l ws) m) (o + n) _ (HL ws L2))), put_put. cbn [len words].
    unfold mret, M_ret. do 4 f_equal. 2: f_equal. { exact Ebq. }
    apply (window_result U a _ o r eq_refl); [by rewrite length_insert|lia|done|lia|]. intros j Hj. destruct (decide (j = o + n)%nat) as [->|Hne].
    + rewrite list_lookup_insert_eq, decide_False by lia. done.
    + rewrite list_lookup_insert_ne, Hw2 by done. replace (a + - b * Y) with r by (rewrite Ew, Ebq; ring). done.
  - assert (b = q + 1) as Eb1 by lia. assert ((a + - b * Y) / W n = -1) as ->.
    { symmetry. apply (Z.div_unique_pos _ _ _ (r - Y + W n)); [lia|]. rewrite Ew, Eb1. ring. }
    rewrite decide_True by lia. rewrite (mbind_Some _ _ _ _ _ (set_word_ok w _ _ (bigs_put w (Big l ws) m) (o + n) _ (HL ws L2))), put_put. cbn [len words]. set (ws1 := <[(o + n)%nat := 0]> ws).
    destruct (div_addrow_ok ws1 o (a + - b * Y)) as (cc & ws2 & E3 & L3 & Hw3); [unfold ws1; by rewrite length_insert|lia| |].
    { intros i Hi. unfold ws1. rewrite list_lookup_insert_ne, Hw2, decide_True by lia. do 2 f_equal. lia. }
    rewrite (mbind_Some _ _ _ _ _ E3). unfold mret, M_ret. rewrite Z.mod_small by lia. do 4 f_equal; [lia|]. f_equal.
    apply (window_result U a _ o r eq_refl); [done|lia|done|lia|]. intros j Hj. rewrite Hw3. replace (a + - b * Y + Y) with r by (rewrite Ew, Eb1; ring).
    destruct (decide (o <= j < o + n)%nat); [done|]. unfold ws1. destruct (decide (j = o + n)%nat) as [->|Hne]; [apply list_lookup_insert_eq; lia|]. rewrite list_lookup_insert_ne, Hw2, decide_False by done. done.
Qed.
End digit.

(** ** The long division *)

Section loop.
Context (m : mip) (w y z : positive) (c0 cy cz : nat) (lw lz Y U : Z) (n : nat).
Context (Ey : bigs m !! y = Some (big_of cy Y)) (Hyw : y ≠ w) (Hzw : z ≠ w) (HY : W (n - 1) <= Y < W n) (Hn : (2 <= n)%nat) (Hcy : (n <= cy)%nat).
Context (Htop : B / 2 <= digit Y (n - 1)).
Local Abbreviation Q := (U / Y).
Context (HQ : 0 < Q) (Hcz : (ndigits Q <= cz)%nat).

(** The digits of the quotient from place [k] on are in [z], unless the divisor is there. *)
Definition zstate (k : nat) : mip := if decide (y ≠ z) then put z (Big lz (digits cz (Q / W k * W k))) m else m.

Lemma zstate_y k : bigs (zstate k) !! y = Some (big_of cy Y).
Proof. unfold zstate. case_decide; [by rewrite bigs_put_ne by congruence|done]. Qed.

Lemma quotient_digit o : U mod (Y * W (S o)) / W o / Y = digit Q o ∧ U mod (Y * W (S o)) - digit Q o * Y * W o = U mod (Y * W o).
Proof.
  pose proof (W_pos (n - 1)). pose proof (W_pos o). rewrite W_S. replace (Y * (B * W o)) with (Y * W o * B) by ring. rewrite Z.rem_mul_r by nia.
  assert (U / (Y * W o) mod B = digit Q o) as E by (unfold digit; by rewrite Z.div_div by lia). rewrite E. rewrite Z.div_div by lia. rewrite (Z.mul_comm (W o)). split; [|ring].
  rewrite (Z.mul_comm _ (digit Q o)), Z.div_add, Z.div_small by (nia || apply Z.mod_pos_bound; nia). lia.
Qed.

Lemma quotient_above o : Q / W o * W o = Q / W (S o) * W (S o) + digit Q o * W o.
Proof. rewrite (div_W_S Q o), W_S. ring. Qed.

Lemma set_quotient o bw : (o < cz)%nat → y ≠ z → set_word z o (digit Q o) (put w bw (zstate (S o))) = Some (tt, put w bw (zstate o)).
Proof.
  intros Ho Hyz. unfold zstate. rewrite !decide_True by done. set (ws := digits cz (Q / W (S o) * W (S o))).
  assert (o < length (words (Big lz ws)))%nat as Hl by (cbn; unfold ws; rewrite digits_length; lia).
  rewrite put_comm by congruence. rewrite (set_word_ok z _ _ (bigs_put z (Big lz ws) _) o _ Hl), put_put. cbn [len words]. rewrite (put_comm w z) by congruence. do 4 f_equal.
  apply digits_eq; [unfold ws; by rewrite length_insert, digits_length|]. intros j Hj. pose proof (W_pos o) as Wo. pose proof (W_pos (S o)). destruct (decide (j = o)) as [->|Hne].
  - rewrite list_lookup_insert_eq by (unfold ws; rewrite digits_length; lia). f_equal. unfold digit. by rewrite Z.div_mul by lia.
  - rewrite list_lookup_insert_ne by done. unfold ws. rewrite digits_lookup by done. f_equal. destruct (decide (j < o)%nat).
    + rewrite !digit_mul_low by lia. done.
    + rewrite (quotient_above o). replace j with (S o + (j - S o))%nat by lia. rewrite !digit_div. rewrite Z.div_mul by lia. rewrite (Z.add_comm (_ * _)), Z.div_add by lia.
      rewrite (Z.div_small (digit Q o * W o)); [done|]. pose proof (digit_bound Q o). rewrite W_S. nia.
Qed.

(** Where the loop stands: only zeros so far, or the first digit of the quotient has been met. *)
Definition leading (k w00 : nat) : Prop := w00 = (k + n - 1)%nat ∧ Q < W k ∨ (k < ndigits Q)%nat ∧ w00 = (ndigits Q + n - 1)%nat.

Lemma div_loop_ok : ∀ k w00, (k + n <= c0)%nat → leading k w00 →
  div_loop w y z n (digit Y (n - 1)) (digit Y (n - 2)) k w00 (put w (Big lw (digits c0 (U mod (Y * W k)))) (zstate k)) =
  Some ((ndigits Q + n - 1)%nat, put w (Big lw (digits c0 (U mod Y))) (zstate 0)).
Proof.
  pose proof (W_pos (n - 1)) as Wn. induction k as [|o IH]; intros w00 Hk Hlead; cbn [div_loop].
  - rewrite W_0, Z.mul_1_r. unfold mret, M_ret. destruct Hlead as [[-> Hlt]|[H1 ->]]; [rewrite W_0 in Hlt; lia|done].
  - destruct (quotient_digit o) as [Eq Er]. pose proof (W_pos (S o)) as Ws. pose proof (W_pos o) as Wo.
    pose proof (div_digit_ok (zstate (S o)) w y c0 cy lw Y n (zstate_y _) Hyw HY Hn Hcy (U mod (Y * W (S o))) o) as Hd. cbv zeta in Hd. rewrite Eq, Er in Hd.
    rewrite (mbind_Some _ _ _ _ _ (Hd ltac:(replace (o + 1)%nat with (S o) by lia; apply Z.mod_pos_bound; nia) Htop ltac:(lia))). clear Hd Er.
    destruct (decide ((o + n - 1)%nat = (w00 - 1)%nat ∧ digit Q o = 0)) as [[Hw Hz]|Hnz].
    + assert (leading o (w00 - 1)) as Hl.
      { destruct Hlead as [[-> Hlt]|[H1 ->]]; [|lia]. left. split; [lia|]. pose proof (digit_top_div Q o ltac:(lia)) as Ht. rewrite Hz in Ht. symmetry in Ht. apply Z.div_small_iff in Ht; lia. }
      rewrite <- (IH _ ltac:(lia) Hl). f_equal. f_equal. unfold zstate. case_decide; [|done]. do 3 f_equal. rewrite (quotient_above o), Hz. lia.
    + assert (leading o w00 ∧ (o < ndigits Q)%nat) as [Hl Ho].
      { destruct Hlead as [[-> Hlt]|[H1 ->]].
        - assert (digit Q o ≠ 0) as Hne by (intros E; apply Hnz; split; [lia|done]). assert (ndigits Q = S o) as EQ.
          { apply ndigits_unique; [lia| |done]. replace (S o - 1)%nat with o by lia. destruct (decide (W o <= Q)); [done|]. exfalso. apply Hne, digit_small. lia. }
          split; [|lia]. right. split; [lia|]. rewrite EQ. lia.
        - split; [|lia]. right. split; [lia|done]. }
      assert ((if decide (y ≠ z) then set_word z o (digit Q o) else mret tt) (put w (Big lw (digits c0 (U mod (Y * W o)))) (zstate (S o))) =
        Some (tt, put w (Big lw (digits c0 (U mod (Y * W o)))) (zstate o))) as E.
      { destruct (decide (y = z)) as [Eyz|Eyz].
        - rewrite decide_False by tauto. unfold zstate. rewrite !decide_False by tauto. done.
        - rewrite decide_True by done. apply set_quotient; [lia|done]. }
      rewrite (mbind_Some _ _ _ _ _ E). apply IH; [lia|done].
Qed.
End loop.
