(* ===== verification/BigLong.v ===== *)
(** * BigLong: the long division as a whole

    What happens around the loop of [BigDiv.v]: the divisor and the dividend are scaled, the
    quotient gets its length and sign, the rest and the divisor are scaled back. *)

From S2P Require Import Prelude BigNum BigAdd BigMul BigDiv.

(** ** After the loop *)

Lemma signed_fits cap v s : 0 <= v < W cap → Z.abs (if decide (s = 0) then v else - v) < W cap.
Proof. intros H. case_decide; lia. Qed.

Lemma or_sign_ok m x cap v s : holds m x cap v → 0 <= v → s = 0 ∨ s = MR_MSBIT → or_sign x s m = Some (tt, put x (big_of cap (if decide (s = 0) then v else - v)) m).
Proof.
  intros (Ex & Bx & Hc) Hv Hs. unfold or_sign. rewrite (mbind_Some _ _ m _ m (get_len_ok x _ m Ex)). rewrite <- big_of_signed by done. rewrite big_of_nonneg in * by done. cbn [len].
  pose proof (ndigits_le v cap ltac:(lia) ltac:(lia)). case_decide as H0.
  - assert (v = 0) as -> by (destruct (decide (v = 0)); [done|]; pose proof (ndigits_pos v ltac:(lia)); lia). rewrite (decide_True (P := 0 = 0)) by done. unfold mret, M_ret. by rewrite put_same.
  - rewrite (decide_False (P := v = 0)) by (intros ->; by rewrite ndigits_0 in H0). rewrite (set_len_ok x _ m Ex). cbn [words]. by destruct (land_sign (Z.of_nat (ndigits v)) s ltac:(lia) Hs) as (_ & _ & -> & _).
Qed.

Lemma put_sign_ok m x cap v s : holds m x cap v → 0 < v → s = 0 ∨ s = MR_MSBIT → put_sign x s m = Some (tt, put x (big_of cap (if decide (s = 0) then v else - v)) m).
Proof.
  intros Hx Hv Hs. rewrite <- (or_sign_ok m x cap v s Hx ltac:(lia) Hs). unfold put_sign, or_sign. destruct Hx as (Ex & _). rewrite !(mbind_Some _ _ m _ m (get_len_ok x _ m Ex)).
  rewrite decide_False; [done|]. rewrite big_of_nonneg by lia. cbn. pose proof (ndigits_pos v Hv). lia.
Qed.

Lemma mr_lzero_same m x cap v : holds m x cap v → 0 <= v → mr_lzero x m = Some (tt, m).
Proof.
  intros (Ex & Bx & Hc) Hv. rewrite big_of_nonneg in Ex by done. pose proof (ndigits_le v cap ltac:(lia) ltac:(lia)).
  rewrite (mr_lzero_ok m x cap v (ndigits v) 0) by (rewrite ?Z.add_0_r; auto; lia). rewrite (decide_True (P := 0 = 0)) by done. rewrite put_same; [done|]. by rewrite big_of_nonneg.
Qed.

(** The magnitude [v] with the sign [s]. *)
Abbreviation signed s v := (if decide (s = 0) then v else - v).

Section finish.
Context (s : mip) (x y z : positive) (cx cy cz c0 : nat) (vx lw lz sx sy sz d R Y Q : Z) (n : nat).
Context (Hy : holds s y cy (Y * d)) (Hz : y ≠ z → bigs s !! z = Some (Big lz (digits cz Q))) (Hw : bigs s !! w0 = Some (Big lw (digits c0 (R * d)))).
Context (Hx : x ≠ w0 → x ≠ z → holds s x cx vx) (Hxw : x = w0 → cx = c0) (Hxy : x ≠ y) (Hyw : y ≠ w0) (Hzw : z ≠ w0).
Context (HY : 0 < Y) (Hd : 0 < d < B) (Hn : n = ndigits (Y * d)) (HR : 0 <= R < Y) (HQ : 0 < Q) (Hcz : y ≠ z → Q < W cz ∧ Z.of_nat cz < 65536) (Hc0 : (n <= c0)%nat) (Hcc : Z.of_nat c0 < 65536).
Context (Hcx : x ≠ z → (n <= cx)%nat ∧ Z.of_nat cx < 65536) (Sx : sx = 0 ∨ sx = MR_MSBIT) (Sy : sy = 0 ∨ sy = MR_MSBIT) (Sz : sz = 0 ∨ sz = MR_MSBIT).

Lemma rest_fits : 0 <= R * d < W n ∧ (ndigits (R * d) <= n)%nat.
Proof. pose proof (ndigits_lt (Y * d) ltac:(nia)) as H. rewrite <- Hn in H. assert (0 <= R * d < W n) as H1 by nia. split; [done|]. apply ndigits_le; lia. Qed.

(** The rest: scaled back, with its sign, in [x]. *)
Lemma finish_rest s3 : bigs s3 !! w0 = Some (Big (Z.of_nat n) (digits c0 (R * d))) → (x ≠ w0 → bigs s3 !! x = bigs s !! x) → x ≠ z →
  ∃ s4, (mr_lzero w0;; (if decide (d = 1) then copy w0 x else mr_sdiv w0 d x;; mret tt);; or_sign x sx) s3 = Some (tt, s4) ∧
    bigs s4 !! x = Some (big_of cx (signed sx R)) ∧ (x ≠ w0 → space s4 w0 c0) ∧ changed [x; w0] s3 s4.
Proof.
  intros Hw3 Hx3 Nxz. destruct rest_fits as [F1 F2]. destruct (Hcx Nxz) as [Hcx1 Hcx2]. pose proof (W_le n c0 Hc0). pose proof (W_le n cx Hcx1). assert (R * d < W cx) by lia. assert (R < W cx) by nia.
  rewrite <- (Z.add_0_r (Z.of_nat n)) in Hw3.
  rewrite (mbind_Some _ _ _ _ _ (mr_lzero_ok s3 w0 c0 (R * d) n 0 Hw3 ltac:(lia) ltac:(lia) Hcc ltac:(by left))). rewrite (decide_True (P := 0 = 0)) by done.
  set (s3' := put w0 _ s3). assert (holds s3' w0 c0 (R * d)) as Hw' by (apply holds_put; lia).
  assert (∃ v, holds s3' x cx v) as [v Hx'].
  { destruct (decide (x = w0)) as [E|E]; [rewrite E, (Hxw E); by eexists|]. exists vx. apply holds_put_ne; [congruence|]. destruct (Hx E Nxz) as (E1 & E2). split; [|done]. by rewrite Hx3. }
  assert ((if decide (d = 1) then copy w0 x else mr_sdiv w0 d x;; mret tt) s3' = Some (tt, put x (big_of cx R) s3')) as E.
  { case_decide as D1.
    - rewrite D1, Z.mul_1_r in Hw'. apply (copy_ok s3' w0 x c0 R cx v Hw' Hx'). lia.
    - rewrite (mbind_Some _ _ _ _ _ (mr_sdiv_ok s3' w0 x c0 cx (R * d) v d Hw' Hx' ltac:(lia) ltac:(lia))). by rewrite Z.quot_mul by lia. }
  rewrite (mbind_Some _ _ _ _ _ E). rewrite (or_sign_ok _ x cx R sx) by (done || lia || apply holds_put; lia). rewrite put_put. eexists. split; [done|]. split; [apply bigs_put|]. split; [|solve_changed].
  intros Nxw. apply space_put_ne; [done|]. eapply holds_space, Hw'.
Qed.

Lemma div_finish_ok : ∃ s', div_finish x y z sx sy sz d (ndigits Q + n - 1) n s = Some (tt, s') ∧ changed [x; y; z; w0] s s' ∧
  (y ≠ z → bigs s' !! z = Some (big_of cz (signed sz Q))) ∧
  (x ≠ z → bigs s' !! x = Some (big_of cx (signed sx R))) ∧ bigs s' !! y = Some (big_of cy (signed sy Y)) ∧ (x ≠ w0 → space s' w0 c0).
Proof.
  destruct rest_fits as [F1 F2]. pose proof Hy as (Ey & By & Hcy). assert (0 < n)%nat as Hn0 by (pose proof (ndigits_pos (Y * d) ltac:(nia)); lia).
  unfold div_finish. replace (ndigits Q + n - 1 + 1 - n)%nat with (ndigits Q) by lia.
  set (s1 := if decide (y ≠ z) then put z (Big (Z.of_nat (ndigits Q) + sz) (digits cz Q)) s else s).
  assert (y ≠ z → (ndigits Q <= cz)%nat ∧ Z.of_nat cz < 65536) as HnQ by (intros Nyz; destruct (Hcz Nyz); split; [apply ndigits_le; lia|done]).
  assert ((if decide (y ≠ z) then set_len z (Z.lor (Z.of_nat (ndigits Q)) sz) else mret tt) s = Some (tt, s1)) as E1.
  { unfold s1. case_decide as Nyz; [|done]. rewrite (set_len_ok z _ s (Hz Nyz)). cbn [words]. destruct (HnQ Nyz). by destruct (land_sign (Z.of_nat (ndigits Q)) sz ltac:(lia) Sz) as (_ & _ & -> & _). }
  rewrite (mbind_Some _ _ _ _ _ E1).
  assert (∀ v, v ≠ z → bigs s1 !! v = bigs s !! v) as Hs1 by (intros v Hv; unfold s1; case_decide; [by rewrite bigs_put_ne by done|done]).
  rewrite (mbind_Some _ _ _ _ _ (set_len_ok w0 _ s1 (eq_trans (Hs1 w0 (not_eq_sym Hzw)) Hw) _)). cbn [words]. set (s2 := put w0 _ s1).
  assert (holds s2 y cy (Y * d)) as Hy2.
  { split; [|done]. unfold s2. rewrite bigs_put_ne by congruence. destruct (decide (y = z)) as [E|E]; [unfold s1; by rewrite decide_False by tauto|by rewrite Hs1]. }
  rewrite (mbind_Some _ _ _ _ _ (mr_lzero_same s2 y cy (Y * d) Hy2 ltac:(nia))).
  set (s3 := if decide (y ≠ z) then put z (big_of cz (signed sz Q)) s2 else s2).
  assert (mr_lzero z s2 = Some (tt, s3)) as E3.
  { unfold s3. case_decide as Nyz.
    - destruct (HnQ Nyz). apply (mr_lzero_ok s2 z cz Q (ndigits Q) sz); [|lia|lia|done|done]. unfold s2. rewrite bigs_put_ne by congruence. unfold s1. try rewrite decide_True by done. apply bigs_put.
    - assert (z = y) as -> by (destruct (decide (y = z)); [done|tauto]). apply (mr_lzero_same s2 y cy (Y * d) Hy2). nia. }
  rewrite (mbind_Some _ _ _ _ _ E3).
  assert (∀ v, v ≠ z → bigs s3 !! v = bigs s2 !! v) as Hs3 by (intros v Hv; unfold s3; case_decide; [by rewrite bigs_put_ne by done|done]).
  assert (y ≠ z → bigs s3 !! z = Some (big_of cz (signed sz Q))) as Hz3 by (intros Nyz; unfold s3; rewrite decide_True by done; apply bigs_put).
  assert (bigs s3 !! y = Some (big_of cy (Y * d))) as Hy3 by (destruct Hy2 as (E & _); destruct (decide (y = z)) as [E'|E']; [unfold s3; by rewrite decide_False by tauto|by rewrite Hs3]).
  assert (changed [x; y; z; w0] s s3) as Hch3.
  { solve_changed. }
  assert (bigs s3 !! w0 = Some (Big (Z.of_nat n) (digits c0 (R * d)))) as Hw3 by (rewrite Hs3 by congruence; apply bigs_put).
  assert (∃ s4, (if decide (x ≠ z) then mr_lzero w0;; (if decide (d = 1) then copy w0 x else mr_sdiv w0 d x;; mret tt);; or_sign x sx else mret tt) s3 = Some (tt, s4) ∧
    (x ≠ z → bigs s4 !! x = Some (big_of cx (signed sx R))) ∧ changed (if decide (x = z) then [w0] else [x; w0]) s3 s4 ∧ (x ≠ w0 → space s4 w0 c0)) as (s4 & E4 & Hx4 & Hch4 & Hsp4).
  { destruct (decide (x = z)) as [E|Nxz]; [rewrite decide_False by tauto; exists s3; split; [done|]; split; [done|]; split; [apply changed_refl|]; intros _; exists n, 0, (R * d); rewrite Z.add_0_r; split; [done|split; [by left|done]]|]. rewrite decide_True by done.
    destruct (finish_rest s3 Hw3) as (s4 & E4 & Hx4 & Hsp4 & Hch4); [|done|by exists s4]. intros Nxw. rewrite Hs3 by done. unfold s2. rewrite bigs_put_ne by congruence. by apply Hs1. }
  rewrite (mbind_Some _ _ _ _ _ E4).
  assert (bigs s4 !! y = Some (big_of cy (Y * d))) as Hy4 by (destruct Hch4 as (_ & _ & _ & H); rewrite H by (destruct (decide (x = z)); solve_notin); done).
  assert (y ≠ z → bigs s4 !! z = Some (big_of cz (signed sz Q))) as Hz4 by (intros Nyz; destruct Hch4 as (_ & _ & _ & H); rewrite H by (destruct (decide (x = z)); solve_notin); auto).
  assert ((if decide (d = 1) then mret tt else mr_sdiv y d y;; mret tt) s4 = Some (tt, put y (big_of cy Y) s4)) as E5.
  { destruct (decide (d = 1)) as [D1|D1]; [rewrite D1, Z.mul_1_r in Hy4; unfold mret, M_ret; by rewrite put_same|].
    assert (holds s4 y cy (Y * d)) as H4 by done. rewrite (mbind_Some _ _ _ _ _ (mr_sdiv_ok s4 y y cy cy (Y * d) (Y * d) d H4 H4 ltac:(lia) ltac:(lia))). by rewrite Z.quot_mul by lia. }
  rewrite (mbind_Some _ _ _ _ _ E5). rewrite (put_sign_ok _ y cy Y sy) by (done || lia || apply holds_put; nia). rewrite put_put. eexists. split; [done|].
  split; [|split; [|split; [|split]]].
  - apply changed_put; [|solve_in]. apply (changed_trans _ _ s3); [done|]. eapply changed_sub; [done|]. clear. intros v. destruct (decide (x = z)); rewrite !elem_of_cons; tauto.
  - intros Nyz. rewrite bigs_put_ne by done. auto.
  - intros Nxz. rewrite bigs_put_ne by congruence. auto.
  - apply bigs_put.
  - intros Nxw. apply space_put_ne; [done|]. by apply Hsp4.
Qed.
End finish.

(** ** The whole of it *)

Lemma bigs_check c m : bigs (Mip (nib m) c (ERNUM m) (bigs m)) = bigs m.
Proof. done. Qed.

Section long.
Context (m : mip) (x y z : positive) (cx cy cz c0 : nat) (sx sy sz X Y vx : Z).
Context (Hy : holds m y cy Y) (Hw : holds m w0 c0 X) (Hz : space m z cz) (Hx : holds m x cx vx) (Hxw : x = w0 → cx = c0).
Context (Hxy : x ≠ y) (Hyw : y ≠ w0) (Hzw : z ≠ w0) (HY : 0 < Y) (HYX : Y <= X) (Hn2 : (2 <= ndigits Y)%nat) (Hc0 : (ndigits X < c0)%nat) (Hcx : x ≠ z → (ndigits X <= cx)%nat).
Context (Hcz : y ≠ z → X / Y < W cz) (Sx : sx = 0 ∨ sx = MR_MSBIT) (Sy : sy = 0 ∨ sy = MR_MSBIT) (Sz : sz = 0 ∨ sz = MR_MSBIT).

Lemma div_long_ok : ∃ m', div_long x y z sx sy sz (ndigits X) (ndigits Y) m = Some (tt, m') ∧ changed [x; y; z; w0] m m' ∧
  (y ≠ z → bigs m' !! z = Some (big_of cz (signed sz (X / Y)))) ∧ (x ≠ z → bigs m' !! x = Some (big_of cx (signed sx (X mod Y)))) ∧ bigs m' !! y = Some (big_of cy (signed sy Y)) ∧ (x ≠ w0 → space m' w0 c0).
Proof.
  pose proof (ndigits_mono Y X ltac:(lia)) as Hnn. set (n := ndigits Y) in *. set (nx := ndigits X) in *. pose proof Hw as (Ew & Bw & Hcc). pose proof (space_bound _ _ _ Hz) as Hczz.
  unfold div_long. set (m1 := if decide (y ≠ z) then put z (big_of cz 0) m else m).
  assert ((if decide (y ≠ z) then zero z else mret tt) m = Some (tt, m1)) as E1 by (unfold m1; destruct (decide (y ≠ z)); [by rewrite (zero_space m z cz)|done]).
  rewrite (mbind_Some _ _ _ _ _ E1). clear E1. assert (∀ v, v ≠ z → bigs m1 !! v = bigs m !! v) as H1 by (intros v Hv; unfold m1; case_decide; [by rewrite bigs_put_ne|done]).
  assert (holds m1 y cy Y) as Hy1.
  { destruct Hy as (Ey & By). split; [|done]. destruct (decide (y = z)) as [E|E]; [unfold m1; by rewrite decide_False by tauto|by rewrite H1]. }
  destruct (normalise_ok m1 y cy Y Hy1 HY) as (d & E2 & Hd & Hnd & Htop). fold n in Hnd, Htop. rewrite (mbind_Some _ _ _ _ _ E2). clear E2.
  unfold get_check. set (m2 := put y (big_of cy (Y * d)) m1). rewrite (mbind_Some _ _ m2 (check m) m2) by (unfold m2, m1; by case_decide).
  set (m3 := Mip (nib m2) false (ERNUM m2) (bigs m2)). rewrite (mbind_Some (set_check false) _ m2 tt m3 eq_refl).
  assert (ndigits (Y * d) = n) as Hnd' by done. pose proof (ndigits_pos (Y * d) ltac:(nia)) as [_ HYd]. rewrite Hnd in HYd.
  assert (bigs m3 !! y = Some (big_of cy (Y * d))) as Ey3 by apply bigs_put.
  assert (bigs m3 !! w0 = Some (big_of c0 X)) as Ew3 by (change (bigs m3) with (bigs m2); unfold m2; rewrite bigs_put_ne by congruence; by rewrite H1 by congruence).
  assert (X * d < W c0) as HXd. { pose proof (ndigits_lt X ltac:(lia)) as Hx1. fold nx in Hx1. pose proof (W_le (S nx) c0 ltac:(lia)) as Hx2. rewrite W_S in Hx2. nia. }
  set (m4 := put w0 (big_of c0 (X * d)) m3).
  assert ((if decide (d = 1) then mret tt else mr_pmul w0 d w0) m3 = Some (tt, m4)) as E4.
  { unfold m4. destruct (decide (d = 1)) as [D1|D1]; [rewrite D1, Z.mul_1_r; unfold mret, M_ret; by rewrite put_same|]. assert (holds m3 w0 c0 X) as Hw3 by done.
    apply (mr_pmul_ok m3 w0 w0 c0 c0 X X d Hw3 Hw3); [lia|lia|rewrite Z.abs_eq by lia; lia|by intros ?]. }
  rewrite (mbind_Some _ _ _ _ _ E4). clear E4.
  assert (bigs m4 !! y = Some (big_of cy (Y * d))) as Ey4 by (unfold m4; by rewrite bigs_put_ne by congruence).
  assert (Y * d < W cy) as HYcy by (destruct Hy as (_ & By & _); pose proof (ndigits_le Y cy ltac:(lia) ltac:(lia)) as Hle; fold n in Hle; pose proof (W_le n cy Hle); lia).
  assert (n <= cy)%nat as Hncy by (apply ndigits_le; [lia|]; destruct Hy as (_ & By & _); lia). rewrite big_of_nonneg in Ey4 by nia.
  rewrite (mbind_Some _ _ m4 _ m4 (get_word_ok y _ m4 Ey4 (n - 1) _ (digits_lookup cy _ (n - 1) ltac:(lia)))), (mbind_Some _ _ m4 _ m4 (get_word_ok y _ m4 Ey4 (n - 2) _ (digits_lookup cy _ (n - 2) ltac:(lia)))).
  set (k := (nx - (n - 1))%nat). set (U := X * d). assert (U / (Y * d) = X / Y) as EQ by (unfold U; by rewrite Z.div_mul_cancel_r by lia).
  assert (U mod (Y * d) = X mod Y * d) as ER by (unfold U; by rewrite Z.mul_mod_distr_r by lia).
  assert (0 <= U) as HU0 by (unfold U; apply Z.mul_nonneg_nonneg; lia).
  assert (0 < U / (Y * d)) as HQ by (rewrite EQ; apply Z.div_str_pos; lia). set (Q := U / (Y * d)) in *.
  assert (U < Y * d * W k) as HUk.
  { pose proof (ndigits_lt X ltac:(lia)) as Hx1. fold nx in Hx1. replace nx with (n - 1 + k)%nat in Hx1 by lia. rewrite W_add in Hx1. destruct (ndigits_pos Y HY) as [_ [HYl _]]. fold n in HYl. pose proof (W_pos k). unfold U.
    assert (W (n - 1) * W k <= Y * W k) by (apply Z.mul_le_mono_nonneg_r; lia). replace (Y * d * W k) with (Y * W k * d) by ring. apply Z.mul_lt_mono_pos_r; lia. }
  assert (0 < Y * d) as HYd0 by (apply Z.mul_pos_pos; lia). assert (Q < W k) as HQk by (unfold Q; by apply Z.div_lt_upper_bound).
  set (czq := if decide (y = z) then ndigits Q else cz).
  assert (ndigits Q <= czq)%nat as Hczq by (unfold czq; destruct (decide (y = z)) as [|Nyz]; [lia|]; apply ndigits_le; [lia|]; rewrite EQ; auto).
  assert (zstate m3 y z czq 0 (Y * d) U k = m3) as Ez3.
  { unfold zstate. fold Q. destruct (decide (y = z)) as [E|Nyz]; [by rewrite decide_False by tauto|]. rewrite decide_True by done. apply put_same. change (bigs m3) with (bigs m2). unfold m2. rewrite bigs_put_ne by done.
    unfold m1. rewrite decide_True, bigs_put by done. unfold czq. rewrite Z.div_small by lia. done. }
  pose proof (div_loop_ok m3 w0 y z c0 cy czq (len (big_of c0 U)) 0 (Y * d) U n Ey3 Hyw Hzw HYd Hn2 Hncy Htop HQ Hczq k nx ltac:(lia) ltac:(left; split; [lia|done])) as Hloop.
  rewrite Ez3, (Z.mod_small U (Y * d * W k)), ER in Hloop by done. fold Q in Hloop.
  assert (put w0 (Big (len (big_of c0 U)) (digits c0 U)) m3 = m4) as E5 by (unfold m4; fold U; by rewrite (big_of_nonneg c0 U) by done). rewrite E5 in Hloop.
  rewrite (mbind_Some _ _ _ _ _ Hloop). clear Hloop E5. set (s := put w0 _ _).
  assert (changed [x; y; z; w0] m3 s) as Hs by (unfold s, zstate; solve_changed).
  assert (∀ v, v ≠ w0 → v ≠ z → bigs s !! v = bigs m3 !! v) as Hsv by (intros v V1 V2; unfold s, zstate; rewrite bigs_put_ne by congruence; case_decide; [by rewrite bigs_put_ne by congruence|done]).
  assert (holds s y cy (Y * d)) as Hys.
  { destruct Hy1 as (_ & _ & Hcy). split; [|split; [lia|done]]. unfold s, zstate. rewrite bigs_put_ne by congruence. case_decide; [by rewrite bigs_put_ne by congruence|done]. }
  assert (y ≠ z → bigs s !! z = Some (Big 0 (digits cz (X / Y)))) as Hzs.
  { intros Nyz. unfold s, zstate. rewrite bigs_put_ne by congruence. rewrite decide_True, bigs_put by done. unfold czq. rewrite (decide_False (P := y = z)), W_0, Z.div_1_r, Z.mul_1_r by done. fold Q. by rewrite EQ. }
  assert (x ≠ w0 → x ≠ z → holds s x cx vx) as Hxs.
  { intros N1 N2. destruct Hx as (E & B'). split; [|done]. rewrite Hsv by done. change (bigs m3) with (bigs m2). unfold m2. rewrite bigs_put_ne by congruence. by rewrite H1 by done. }
  rewrite EQ in *. destruct (div_finish_ok s x y z cx cy cz c0 vx (len (big_of c0 U)) 0 sx sy sz d (X mod Y) Y (X / Y) n) as (s' & E & Hch & Hzr & Hxr & Hyr & Hsp); try done.
  - apply bigs_put.
  - by apply Z.mod_pos_bound.
  - intros Nyz. split; [by apply Hcz|done].
  - clear - Hnn Hc0. lia.
  - intros Nxz. destruct Hx as (_ & _ & Hcxx). specialize (Hcx Nxz). split; [|done]. clear - Hnn Hcx. lia.
  - rewrite (mbind_Some _ _ _ _ _ E). set (m' := Mip (nib s') (check m) (ERNUM s') (bigs s')). exists m'. split; [done|]. split; [|done].
    destruct (changed_trans _ _ _ _ Hs Hch) as (C1 & _ & C3 & C4). assert (nib m3 = nib m ∧ ERNUM m3 = ERNUM m) as [N1 N2] by (unfold m3, m2, m1; destruct (decide (y ≠ z)); done).
    repeat (split; [unfold m'; cbn; congruence|]). intros v Hv. change (bigs m' !! v) with (bigs s' !! v). rewrite C4 by done. change (bigs m3) with (bigs m2).
    apply not_elem_of_cons in Hv as [_ [Vy [Vz _]%not_elem_of_cons]%not_elem_of_cons]. unfold m2. rewrite bigs_put_ne by congruence. by apply H1.
Qed.
End long.
