(* ===== verification/BigDivide.v ===== *)
(** * BigDivide: what division, [mad] and [divisible] compute

    The theorems on [divide], [mad] and [divisible] of [BigDiv.v]: the quotient and the rest
    are those of division rounded to zero, whichever of the variables are the same, and the
    operands that are not results are left alone. *)

From S2P Require Import Prelude BigNum BigAdd BigMul BigDiv BigLong.

(** ** divide *)

Lemma put_word_ok m z cz d s : space m z cz → (0 < cz)%nat → 0 <= d < B → s = 0 ∨ s = MR_MSBIT → put_word z d s m = Some (tt, put z (big_of cz (signed s d)) m).
Proof.
  intros Hz Hcz Hd Hs. unfold put_word. pose proof (space_bound _ _ _ Hz) as Hc. rewrite (mbind_Some _ _ m _ _ (zero_space m z cz Hz)).
  assert (0 < length (words (big_of cz 0)))%nat as Hl by (cbn [words big_of]; rewrite digits_length; lia).
  rewrite (mbind_Some _ _ _ _ _ (set_word_ok z _ _ (bigs_put z (big_of cz 0) m) 0 d Hl)), put_put. cbn [len words big_of].
  assert (<[0%nat := d]> (digits cz (Z.abs 0)) = digits cz d) as ->.
  { pose proof (digits_insert_top cz d 0 ltac:(change (W 1) with B; lia) Hcz) as H. rewrite W_0, Z.div_1_r, Z.mod_1_r in H. exact H. }
  rewrite <- big_of_signed by (done || lia). destruct (decide (0 < d)) as [Hd0|Hd0].
  - rewrite (set_len_ok z _ _ (bigs_put z _ m)), put_put. cbn [words]. rewrite ndigits_1, (decide_False (P := d = 0)) by lia. rewrite Z.lor_comm. by destruct (land_sign 1 s ltac:(lia) Hs) as (_ & _ & -> & _).
  - assert (d = 0) as -> by lia. done.
Qed.

(** Equal lengths and a small quotient: it is found by subtracting. *)
Lemma div_subtract_ok m y cy c0 Y n : holds m y cy Y → y ≠ w0 → 0 < Y → (n <= cy)%nat → (n <= c0)%nat → Z.of_nat c0 < 65536 → ∀ fuel X d, 0 <= X < W n → X < Z.of_nat fuel * Y →
  ∃ q, div_subtract w0 y fuel d (put w0 (big_of c0 X) m) = Some (d + q, put w0 (big_of c0 (X - q * Y)) m) ∧ 0 <= q < Z.of_nat fuel ∧ 0 <= X - q * Y < Y.
Proof.
  intros Hy Hyw HY Hcy Hc0 Hc. pose proof (W_le n cy Hcy). pose proof (W_le n c0 Hc0). induction fuel as [|fuel IH]; intros X d HX Hf; [lia|]. cbn [div_subtract].
  assert (holds (put w0 (big_of c0 X) m) y cy Y) as Hy' by (apply holds_put_ne; [congruence|done]).
  assert (holds (put w0 (big_of c0 X) m) w0 c0 X) as Hw' by (apply holds_put; lia).
  rewrite (mbind_Some _ _ _ _ _ (mr_compare_ok _ w0 y c0 cy X Y Hw' Hy')). destruct (decide (0 <= Z.sgn (X - Y))) as [Hge|Hlt].
  - rewrite (mbind_Some _ _ _ _ _ (mr_psub_ok _ w0 y w0 c0 cy c0 X Y X Hw' Hy' Hw' ltac:(lia) ltac:(lia) ltac:(lia) ltac:(lia))), put_put.
    destruct (IH (X - Y) (d + 1)) as (q & E & Hq & Hr); [lia|lia|]. exists (q + 1). rewrite E. replace (d + 1 + q) with (d + (q + 1)) by lia. replace (X - Y - q * Y) with (X - (q + 1) * Y) by lia. split; [done|lia].
  - exists 0. rewrite Z.add_0_r, Z.mul_0_l, Z.sub_0_r. split; [done|lia].
Qed.

Lemma div_same_length_ok m y cy c0 X Y : holds m y cy Y → y ≠ w0 → 0 < Y → holds m w0 c0 X → 0 <= X → 
  ∃ d, div_same_length w0 y (ndigits X) (ndigits Y) m = Some (d, put w0 (big_of c0 (X - d * Y)) m) ∧ 0 <= d < B ∧ 0 <= X - d * Y ∧ (d = 0 ∨ X - d * Y < Y).
Proof.
  intros Hy Hyw HY Hw HX. pose proof Hy as (Ey & By & Hcy). pose proof Hw as (Ew & Bw & Hcw). unfold div_same_length.
  assert ((mret 0 : M Z) m = Some (0, put w0 (big_of c0 (X - 0 * Y)) m)) as Hzero by (rewrite Z.mul_0_l, Z.sub_0_r; by rewrite put_same).
  destruct (decide (ndigits X ≠ ndigits Y)) as [|En]; [exists 0; split; [done|lia]|]. assert (ndigits X = ndigits Y) as E by (destruct (decide (ndigits X = ndigits Y)); tauto). clear En. rewrite E.
  destruct (ndigits_pos Y HY) as [Hn [Hl Hh]]. pose proof (ndigits_lt X HX) as Hx. rewrite E in Hx. set (n := ndigits Y) in *.
  pose proof (ndigits_le Y cy ltac:(lia) ltac:(lia)) as Hncy. pose proof (ndigits_le X c0 ltac:(lia) ltac:(lia)) as Hnc0. fold n in Hncy. rewrite E in Hnc0.
  rewrite big_of_nonneg in Ew, Ey by lia. destruct (decide (n = 1%nat)) as [E1|E1].
  - rewrite (mbind_Some _ _ m _ m (get_word_ok w0 _ m Ew 0 _ (digits_lookup c0 X 0 ltac:(lia)))), (mbind_Some _ _ m _ m (get_word_ok y _ m Ey 0 _ (digits_lookup cy Y 0 ltac:(lia)))).
    rewrite E1, W_1 in Hx, Hh. rewrite (digit_top_div X 0), (digit_top_div Y 0), W_0, !Z.div_1_r by (rewrite W_1; lia). rewrite decide_False by lia.
    assert (0 < length (words (Big (Z.of_nat (ndigits X)) (digits c0 X))))%nat as Hlen by (cbn; rewrite digits_length; lia).
    rewrite (mbind_Some _ _ _ _ _ (set_word_ok w0 _ m Ew 0 (X mod Y) Hlen)). cbn [len words]. exists (X / Y). pose proof (Z.mod_pos_bound X Y HY). pose proof (Z.div_mod X Y ltac:(lia)).
    assert (<[0%nat := X mod Y]> (digits c0 X) = digits c0 (X mod Y)) as ->.
    { apply digits_eq; [by rewrite length_insert, digits_length|]. intros j Hj. destruct (decide (j = 0)%nat) as [->|].
      - rewrite list_lookup_insert_eq by (rewrite digits_length; lia). by rewrite (digit_top_div _ 0), W_0, Z.div_1_r by (rewrite W_1; lia).
      - rewrite list_lookup_insert_ne, digits_lookup by lia. pose proof (W_le 1 j ltac:(lia)) as Hw1. rewrite W_1 in Hw1. by rewrite !digit_small by lia. }
    assert (ndigits (X mod Y) <= ndigits X)%nat as Hnm by (apply ndigits_mono; pose proof (Z.mod_le X Y HX HY); lia).
    rewrite <- (Z.add_0_r (Z.of_nat (ndigits X))).
    rewrite (mbind_Some _ _ _ _ _ (mr_lzero_ok _ w0 c0 (X mod Y) (ndigits X) 0 (bigs_put _ _ _) ltac:(lia) ltac:(lia) Hcw ltac:(by left))), put_put. rewrite (decide_True (P := 0 = 0)) by done.
    replace (X - X / Y * Y) with (X mod Y) by lia. split; [done|]. split; [split; [apply Z.div_pos; lia|apply Z.div_lt_upper_bound; lia]|lia].
  - rewrite (mbind_Some _ _ m _ m (get_word_ok w0 _ m Ew (n - 1) _ (digits_lookup c0 X (n - 1) ltac:(lia)))), (mbind_Some _ _ m _ m (get_word_ok y _ m Ey (n - 1) _ (digits_lookup cy Y (n - 1) ltac:(lia)))).
    case_decide as Hsmall; [|exists 0; split; [done|lia]]. replace n with (S (n - 1)) in Hx, Hh by lia. rewrite (digit_top_div X (n - 1)), (digit_top_div Y (n - 1)) in Hsmall by lia. pose proof (W_pos (n - 1)).
    assert (X < 4 * Y) as H4.
    { pose proof (Z.mul_succ_div_gt X (W (n - 1)) ltac:(lia)). pose proof (Z.mul_div_le Y (W (n - 1)) ltac:(lia)). pose proof (Z.mul_succ_div_gt (X / W (n - 1)) 4 ltac:(lia)).
      set (a := X / W (n - 1)) in *. set (b := Y / W (n - 1)) in *. assert (a + 1 <= 4 * b) by lia. assert (W (n - 1) * (a + 1) <= W (n - 1) * (4 * b)) by (apply Z.mul_le_mono_nonneg_l; lia). lia. }
    replace (S (n - 1)) with n in Hx, Hh by lia. rewrite <- big_of_nonneg in Ew by lia.
    destruct (div_subtract_ok m y cy c0 Y n Hy Hyw HY Hncy Hnc0 Hcw 5 X 0) as (q & E2 & Hq & Hr); [lia|lia|]. rewrite put_same in E2 by done. exists q. rewrite E2. split; [done|]. lia.
Qed.

Section divide.
Context (m : mip) (x y z : positive) (cx cy cz c0 : nat) (vx vy : Z).
Context (Hx : holds m x cx vx) (Hy : holds m y cy vy) (Hz : space m z cz) (Hw : space m w0 c0) (HE : ERNUM m = 0).
Context (Hxy : x ≠ y) (Hyw : y ≠ w0) (Hzw : z ≠ w0) (Hvy : vy ≠ 0).
Local Abbreviation X := (Z.abs vx).
Local Abbreviation Y := (Z.abs vy).
Local Abbreviation sx := (sign_bit vx).
Local Abbreviation sy := (sign_bit vy).
Local Abbreviation sz := (Z.lxor (sign_bit vx) (sign_bit vy)).
Context (Hx0 : (ndigits X < c0)%nat).

(** The signs are off and [w0] has the magnitude of [x]. *)
Definition entry : mip := put w0 (big_of c0 X) (put y (big_of cy Y) (put x (big_of cx X) m)).

Lemma entry_w0 : holds entry w0 c0 X.
Proof. pose proof (space_bound _ _ _ Hw) as Hc. apply holds_put; [|done]. rewrite Z.abs_idemp. eapply Z.lt_le_trans; [apply ndigits_lt; lia|apply W_le; lia]. Qed.

Lemma entry_y : holds entry y cy Y.
Proof. destruct Hy as (_ & By & Hc). apply holds_put_ne; [congruence|]. apply holds_put; lia. Qed.

Lemma entry_x : holds entry x cx X.
Proof.
  destruct (decide (x = w0)) as [E|E]; [pose proof entry_w0 as H; rewrite <- E in H; pose proof Hw as Hw'; rewrite <- E in Hw'; by rewrite (space_cap _ _ _ _ (holds_space _ _ _ _ Hx) Hw')|].
  destruct Hx as (_ & Bx & Hc). apply holds_put_ne; [congruence|]. apply holds_put_ne; [congruence|]. apply holds_put; lia.
Qed.

Lemma entry_z : space entry z cz.
Proof.
  destruct (decide (z = x)) as [E|Nx]; [rewrite E; pose proof Hz as Hz'; rewrite E in Hz'; rewrite (space_cap _ _ _ _ Hz' (holds_space _ _ _ _ Hx)); eapply holds_space, entry_x|].
  destruct (decide (z = y)) as [E|Ny]; [rewrite E; pose proof Hz as Hz'; rewrite E in Hz'; rewrite (space_cap _ _ _ _ Hz' (holds_space _ _ _ _ Hy)); eapply holds_space, entry_y|].
  by repeat (apply space_put_ne; [congruence|]).
Qed.

Lemma X_cx : X < W cx.
Proof. by destruct Hx as (_ & H & _). Qed.

(** [divide] up to the test of the length. *)
Lemma divide_enter : divide x y z m =
  (if check m && bool_decide (Z.of_nat (nib m) < Z.of_nat (ndigits X) - Z.of_nat (ndigits Y) + 1) then mr_berror MR_ERR_OVERFLOW else
  (d ← div_same_length w0 y (ndigits X) (ndigits Y);
    c ← mr_compare w0 y;
    if decide (c < 0) then
      (if decide (x ≠ z) then copy w0 x;; or_sign x sx else mret tt);;
      (if decide (y ≠ z) then put_word z d sz else mret tt);;
      put_sign y sy
    else if decide (ndigits Y = 1%nat) then
      v ← get_word y 0;
      r ← mr_sdiv w0 v w0;
      (if decide (y ≠ z) then copy w0 z;; put_sign z sz else mret tt);;
      (if decide (x ≠ z) then put_word x r sx else mret tt);;
      put_sign y sy
    else div_long x y z sx sy sz (ndigits X) (ndigits Y))) entry.
Proof.
  pose proof Hx as (Ex & Bx & Hcx'). pose proof Hy as (Ey & By & Hcy). pose proof (space_bound _ _ _ Hw) as Hcw. unfold divide. rewrite (unless_error_ok m HE). rewrite decide_False by done.
  rewrite (mbind_Some _ _ m tt m eq_refl), (mbind_Some _ _ m _ m (mr_notint_ok m x cx vx Hx)), (mbind_Some _ _ m _ m (mr_notint_ok m y cy vy Hy)), (mbind_Some _ _ m tt m eq_refl).
  rewrite (mbind_Some _ _ m _ m (get_len_ok y _ m Ey)). rewrite (decide_False (P := len (big_of cy vy) = 0)) by by apply len_nonzero.
  rewrite (mbind_Some _ _ m tt m eq_refl), (unless_error_ok m HE), (mbind_Some _ _ m _ m (get_len_ok x _ m Ex)), (mbind_Some _ _ m _ m (get_len_ok y _ m Ey)). cbn zeta.
  destruct (len_parts cx vx Bx Hcx') as (-> & -> & _). destruct (len_parts cy vy By Hcy) as (PL & -> & _).
  assert (Big (Z.of_nat (ndigits X)) (digits cx X) = big_of cx X) as Bgx by (by rewrite big_of_nonneg by lia). assert (Big (Z.of_nat (ndigits Y)) (digits cy Y) = big_of cy Y) as Bgy by (by rewrite big_of_nonneg by lia).
  rewrite (mbind_Some _ _ m _ _ (set_len_ok x _ m Ex _)). cbn [words big_of]. rewrite Bgx. set (m1 := put x (big_of cx X) m).
  assert (bigs m1 !! y = Some (big_of cy vy)) as Ey1 by (unfold m1; by rewrite bigs_put_ne by congruence).
  rewrite (mbind_Some _ _ m1 _ m1 (get_len_ok y _ m1 Ey1)), PL, (mbind_Some _ _ m1 _ _ (set_len_ok y _ m1 Ey1 _)). cbn [words big_of]. rewrite Bgy. set (m2 := put y (big_of cy Y) m1).
  assert (holds m2 x cx X) as Hx2 by (apply holds_put_ne; [congruence|]; apply holds_put; lia).
  assert (holds m2 y cy Y) as Hy2 by (apply holds_put; lia).
  rewrite (mbind_Some _ _ m2 _ m2 (get_len_ok x _ m2 (proj1 Hx2))), (mbind_Some _ _ m2 _ m2 (get_len_ok y _ m2 (proj1 Hy2))). rewrite <- Bgx, <- Bgy. cbn [len]. rewrite !Nat2Z.id.
  assert (space m2 w0 c0) as Hw2.
  { destruct (decide (x = w0)) as [E|E]; [|by repeat (apply space_put_ne; [congruence|])]. pose proof Hw as Hw'. rewrite <- E in Hw' |- *. rewrite <- (space_cap _ _ _ _ (holds_space _ _ _ _ Hx) Hw'). eapply holds_space, Hx2. }
  assert (X < W c0) as HXc by (eapply Z.lt_le_trans; [apply ndigits_lt; lia|apply W_le; lia]).
  rewrite (mbind_Some _ _ _ _ _ (copy_space m2 x w0 cx X c0 Hx2 Hw2 ltac:(lia))). fold entry. pose proof entry_w0 as (Ee & _). rewrite big_of_nonneg in Ee by lia.
  rewrite (mbind_Some _ _ entry _ entry (get_len_ok w0 _ entry Ee)). cbn [len]. unfold get_nib, get_check. rewrite (mbind_Some _ _ entry (nib m) entry eq_refl), (mbind_Some _ _ entry (check m) entry eq_refl).
  by rewrite !Nat2Z.id.
Qed.

(** A quotient that is too long: the error is noted, but the signs of both are lost. *)
Lemma divide_overflow : check m = true → Z.of_nat (nib m) < Z.of_nat (ndigits X) - Z.of_nat (ndigits Y) + 1 →
  ∃ m', divide x y z m = Some (tt, m') ∧ ERNUM m' = MR_ERR_OVERFLOW ∧ holds m' x cx X ∧ holds m' y cy Y.
Proof.
  intros Hkc Hn. rewrite divide_enter, Hkc, bool_decide_true by done. eexists. split; [done|]. split; [done|]. split; [apply entry_x|apply entry_y].
Qed.

Context (Hk : check m = true → Z.of_nat (ndigits X) - Z.of_nat (ndigits Y) + 1 <= Z.of_nat (nib m)).
Context (Hcz : y ≠ z → (0 < cz)%nat ∧ X / Y < W cz) (Hcx : (0 < cx)%nat).

(** [divide] up to the comparison. *)
Lemma divide_run : divide x y z m =
  (d ← div_same_length w0 y (ndigits X) (ndigits Y);
   c ← mr_compare w0 y;
   if decide (c < 0) then
     (if decide (x ≠ z) then copy w0 x;; or_sign x sx else mret tt);;
     (if decide (y ≠ z) then put_word z d sz else mret tt);;
     put_sign y sy
   else if decide (ndigits Y = 1%nat) then
     v ← get_word y 0;
     r ← mr_sdiv w0 v w0;
     (if decide (y ≠ z) then copy w0 z;; put_sign z sz else mret tt);;
     (if decide (x ≠ z) then put_word x r sx else mret tt);;
     put_sign y sy
   else div_long x y z sx sy sz (ndigits X) (ndigits Y)) entry.
Proof.
  rewrite divide_enter. assert (check m && bool_decide (Z.of_nat (nib m) < Z.of_nat (ndigits X) - Z.of_nat (ndigits Y) + 1) = false) as ->; [|done].
  destruct (check m); [|done]. specialize (Hk eq_refl). apply bool_decide_eq_false. lia.
Qed.

Lemma signs_quot : signed sz (X / Y) = Z.quot vx vy.
Proof. 
  destruct (decide (vx = 0)) as [->|N]; [rewrite Z.div_0_l by lia; by case_decide|]. unfold sign_bit. destruct (Z.abs_spec vx) as [[? ->]|[? ->]], (Z.abs_spec vy) as [[? ->]|[? ->]].
  all: repeat first [rewrite (decide_True (P := vx < 0)) by lia|rewrite (decide_False (P := vx < 0)) by lia|rewrite (decide_True (P := vy < 0)) by lia|rewrite (decide_False (P := vy < 0)) by lia].
  all: rewrite ?Z.lxor_nilpotent, ?Z.lxor_0_l, ?Z.lxor_0_r. all: first [rewrite (decide_True (P := 0 = 0)) by done|rewrite (decide_False (P := MR_MSBIT = 0)) by done].
  all: rewrite <- Z.quot_div_nonneg by lia. all: rewrite ?Z.quot_opp_l, ?Z.quot_opp_r by lia. all: lia.
Qed.

Lemma signs_rem : signed sx (X mod Y) = Z.rem vx vy.
Proof.
  unfold sign_bit. destruct (Z.abs_spec vx) as [[? ->]|[? ->]], (Z.abs_spec vy) as [[? ->]|[? ->]].
  all: first [rewrite (decide_True (P := vx < 0)) by lia|rewrite (decide_False (P := vx < 0)) by lia]. all: first [rewrite (decide_True (P := 0 = 0)) by done|rewrite (decide_False (P := MR_MSBIT = 0)) by done].
  all: rewrite <- Z.rem_mod_nonneg by lia. all: rewrite ?Z.rem_opp_l, ?Z.rem_opp_r by lia. all: lia.
Qed.

Lemma signs_y : signed sy Y = vy.
Proof. unfold sign_bit. destruct (decide (vy < 0)); [rewrite (decide_False (P := MR_MSBIT = 0)) by done|rewrite (decide_True (P := 0 = 0)) by done]; lia. Qed.

(** What every way through the function has to establish. *)
Definition divided (m' : mip) : Prop := changed [x; z; w0] m m' ∧ holds m' y cy vy ∧ (y ≠ z → holds m' z cz (Z.quot vx vy)) ∧ (x ≠ z → holds m' x cx (Z.rem vx vy)) ∧ (x ≠ w0 → space m' w0 c0).

Lemma divided_intro m' : changed [x; y; z; w0] entry m' → bigs m' !! y = Some (big_of cy (signed sy Y)) →
  (y ≠ z → bigs m' !! z = Some (big_of cz (signed sz (X / Y)))) → (x ≠ z → bigs m' !! x = Some (big_of cx (signed sx (X mod Y)))) → (x ≠ w0 → space m' w0 c0) → divided m'.
Proof.
  intros Hch Hy' Hz' Hx' Hsp. rewrite signs_y in Hy'. pose proof Hy as (Ey & By & Hcy). pose proof (space_bound _ _ _ Hz) as Hcz'. pose proof Hx as (_ & Bx & Hcx').
  assert (0 <= X mod Y < W cx) as HR by (pose proof (Z.mod_pos_bound X Y ltac:(lia)); pose proof (Z.mod_le X Y ltac:(lia) ltac:(lia)); pose proof X_cx; lia).
  assert (changed [x; y; z; w0] m m') as (C1 & C2 & C3 & C4).
  { apply (changed_trans _ _ entry); [|done]. unfold entry. solve_changed. }
  split; [|split; [|split; [|split; [|done]]]].
  - split; [done|]. split; [done|]. split; [done|]. intros v Hv. destruct (decide (v = y)) as [->|Ny]; [congruence|]. apply C4. apply not_elem_of_cons in Hv as [V1 [V2 [V3 _]%not_elem_of_cons]%not_elem_of_cons]. solve_notin.
  - by split.
  - intros Nyz. split; [rewrite <- signs_quot; auto|]. split; [|done]. rewrite <- signs_quot. apply signed_fits. destruct (Hcz Nyz). split; [apply Z.div_pos; lia|done].
  - intros Nxz. split; [rewrite <- signs_rem; auto|]. split; [|done]. rewrite <- signs_rem. by apply signed_fits.
Qed.

Lemma space_x v : 0 <= v < W c0 → space (put w0 (big_of c0 v) entry) x cx.
Proof.
  intros Hv. pose proof (space_bound _ _ _ Hw) as Hc. destruct (decide (x = w0)) as [E|E]; [|apply space_put_ne; [congruence|]; eapply holds_space, entry_x].
  pose proof Hw as Hw'. rewrite <- E in Hw' |- *. rewrite (space_cap _ _ _ _ (holds_space _ _ _ _ Hx) Hw'). apply space_put; [lia|done].
Qed.

Lemma sz_cases : sz = 0 ∨ sz = MR_MSBIT.
Proof. destruct (sign_bit_cases vx) as [-> | ->], (sign_bit_cases vy) as [-> | ->]; rewrite ?Z.lxor_nilpotent, ?Z.lxor_0_l, ?Z.lxor_0_r; auto. Qed.

(** The smaller number has been reached, with the quotient [d]. *)
Lemma divide_small d : 0 <= d < B → 0 <= X - d * Y < Y → ∃ m',
  ((if decide (x ≠ z) then copy w0 x;; or_sign x sx else mret tt);; (if decide (y ≠ z) then put_word z d sz else mret tt);; put_sign y sy) (put w0 (big_of c0 (X - d * Y)) entry) = Some (tt, m') ∧ divided m'.
Proof.
  intros Hd HR. pose proof X_cx as HXcx. assert (X / Y = d ∧ X mod Y = X - d * Y) as [EQ ER] by (split; symmetry; [apply (Z.div_unique_pos X Y d (X - d * Y))|apply (Z.mod_unique_pos X Y d (X - d * Y))]; lia).
  set (R := X - d * Y) in *. pose proof entry_w0 as (_ & Bw & Hcw). set (s0 := put w0 (big_of c0 R) entry). assert (R <= X) as HRX by (unfold R; nia).
  assert (holds s0 w0 c0 R) as Hw0 by (apply holds_put; lia).
  assert (space s0 x cx) as Hx0' by (apply space_x; lia).
  set (s1 := if decide (x ≠ z) then put x (big_of cx (signed sx R)) s0 else s0).
  assert ((if decide (x ≠ z) then copy w0 x;; or_sign x sx else mret tt) s0 = Some (tt, s1)) as E1.
  { unfold s1. destruct (decide (x ≠ z)); [|done]. rewrite (mbind_Some _ _ _ _ _ (copy_space s0 w0 x c0 R cx Hw0 Hx0' ltac:(lia))). destruct Hx as (_ & _ & Hcx').
    rewrite (or_sign_ok _ x cx R sx) by (apply sign_bit_cases || lia || (apply holds_put; lia)). by rewrite put_put. }
  rewrite (mbind_Some _ _ _ _ _ E1). clear E1.
  assert (space s1 z cz) as Hz1.
  { unfold s1. destruct (decide (x = z)) as [E|E].
    - rewrite decide_False by tauto. pose proof Hz as Hz2. rewrite <- E in Hz2 |- *. by rewrite (space_cap _ _ _ _ Hz2 (holds_space _ _ _ _ Hx)).
    - rewrite decide_True by done. apply space_put_ne; [done|]. apply space_put_ne; [done|apply entry_z]. }
  assert (holds s1 y cy Y) as Hy1.
  { unfold s1. destruct (decide (x ≠ z)); [apply holds_put_ne; [done|]|]; (apply holds_put_ne; [congruence|apply entry_y]). }
  set (s2 := if decide (y ≠ z) then put z (big_of cz (signed sz d)) s1 else s1).
  assert ((if decide (y ≠ z) then put_word z d sz else mret tt) s1 = Some (tt, s2)) as E2.
  { unfold s2. destruct (decide (y ≠ z)) as [Nyz|]; [|done]. destruct (Hcz Nyz). apply (put_word_ok s1 z cz); auto using sz_cases. }
  rewrite (mbind_Some _ _ _ _ _ E2). clear E2.
  assert (holds s2 y cy Y) as Hy2 by (unfold s2; destruct (decide (y ≠ z)); [apply holds_put_ne; [congruence|done]|done]).
  rewrite (put_sign_ok s2 y cy Y sy Hy2 ltac:(lia) (sign_bit_cases _)). eexists. split; [done|]. apply divided_intro.
  - unfold s2, s1, s0. solve_changed.
  - apply bigs_put.
  - intros Nyz. rewrite bigs_put_ne by done. unfold s2. rewrite decide_True by done. by rewrite bigs_put, EQ.
  - intros Nxz. rewrite bigs_put_ne by congruence. unfold s2. assert (bigs s1 !! x = Some (big_of cx (signed sx R))) as Ex1 by (unfold s1; rewrite decide_True by done; apply bigs_put).
    rewrite ER. destruct (decide (y ≠ z)); [by rewrite bigs_put_ne by congruence|done].
  - intros Nxw. unfold s2, s1, s0. repeat (apply space_put_ne; [congruence|]).
    destruct (decide (y ≠ z)); [apply space_put_ne; [congruence|]|]; (destruct (decide (x ≠ z)); [apply space_put_ne; [congruence|]|]); apply space_put; lia.
Qed.

(** A divisor of one word. *)
Lemma divide_word : Y <= X → ndigits Y = 1%nat → ∃ m',
  (v ← get_word y 0; r ← mr_sdiv w0 v w0; (if decide (y ≠ z) then copy w0 z;; put_sign z sz else mret tt);; (if decide (x ≠ z) then put_word x r sx else mret tt);; put_sign y sy) entry = Some (tt, m') ∧ divided m'.
Proof.
  intros HYX HY1. pose proof entry_w0 as He0. pose proof He0 as (_ & Bw & Hcw). pose proof entry_y as Hey. pose proof Hey as (Eey & Bey & Hcy). pose proof (ndigits_lt Y ltac:(lia)) as HYB. rewrite HY1, W_1 in HYB.
  pose proof (ndigits_le Y cy ltac:(lia) ltac:(lia)) as Hncy. rewrite HY1 in Hncy. rewrite big_of_nonneg in Eey by lia.
  rewrite (mbind_Some _ _ entry _ entry (get_word_ok y _ entry Eey 0 _ (digits_lookup cy Y 0 ltac:(lia)))). rewrite (digit_top_div Y 0), W_0, Z.div_1_r by (rewrite W_1; lia).
  rewrite (mbind_Some _ _ _ _ _ (mr_sdiv_ok entry w0 w0 c0 c0 X X Y He0 He0 ltac:(lia) ltac:(lia))). rewrite Z.abs_idemp, Z.quot_div_nonneg by lia.
  set (s0 := put w0 (big_of c0 (X / Y)) entry). pose proof (Z.div_str_pos X Y ltac:(lia)) as HQ. pose proof (Z.mod_pos_bound X Y ltac:(lia)) as HR.
  assert (X / Y <= X) by (apply Z.div_le_upper_bound; nia). assert (holds s0 w0 c0 (X / Y)) as Hw0 by (apply holds_put; lia).
  assert (holds s0 y cy Y) as Hy0 by (apply holds_put_ne; [congruence|done]). pose proof entry_z as Hez. assert (space s0 z cz) as Hz0 by (apply space_put_ne; [congruence|done]).
  set (s1 := if decide (y ≠ z) then put z (big_of cz (signed sz (X / Y))) s0 else s0).
  assert ((if decide (y ≠ z) then copy w0 z;; put_sign z sz else mret tt) s0 = Some (tt, s1)) as E1.
  { unfold s1. destruct (decide (y ≠ z)) as [Nyz|]; [|done]. destruct (Hcz Nyz). pose proof (space_bound _ _ _ Hez) as Hczz. rewrite (mbind_Some _ _ _ _ _ (copy_space s0 w0 z c0 (X / Y) cz Hw0 Hz0 ltac:(lia))).
    rewrite (put_sign_ok _ z cz (X / Y) sz) by (apply sz_cases || lia || (apply holds_put; lia)). by rewrite put_put. }
  rewrite (mbind_Some _ _ _ _ _ E1). clear E1.
  assert (x ≠ z → space s1 x cx) as Hx1.
  { intros Nxz. assert (space s0 x cx) as Hv by (apply space_x; lia). unfold s1. destruct (decide (y ≠ z)); [by apply space_put_ne|done]. }
  set (s2 := if decide (x ≠ z) then put x (big_of cx (signed sx (X mod Y))) s1 else s1).
  assert ((if decide (x ≠ z) then put_word x (X mod Y) sx else mret tt) s1 = Some (tt, s2)) as E2.
  { unfold s2. destruct (decide (x ≠ z)) as [Nxz|]; [|done]. apply (put_word_ok s1 x cx); [auto|done|lia|apply sign_bit_cases]. }
  rewrite (mbind_Some _ _ _ _ _ E2). clear E2.
  assert (holds s2 y cy Y) as Hy2.
  { unfold s2, s1. destruct (decide (x ≠ z)); [apply holds_put_ne; [congruence|]|]; (destruct (decide (y ≠ z)); [by apply holds_put_ne|done]). }
  rewrite (put_sign_ok s2 y cy Y sy Hy2 ltac:(lia) (sign_bit_cases _)). eexists. split; [done|]. apply divided_intro.
  - unfold s2, s1, s0. solve_changed.
  - apply bigs_put.
  - intros Nyz. rewrite bigs_put_ne by done. unfold s2. assert (bigs s1 !! z = Some (big_of cz (signed sz (X / Y)))) as Ez1 by (unfold s1; rewrite decide_True by done; apply bigs_put).
    destruct (decide (x ≠ z)); [by rewrite bigs_put_ne|done].
  - intros Nxz. rewrite bigs_put_ne by congruence. unfold s2. rewrite decide_True by done. apply bigs_put.
  - intros Nxw. unfold s2, s1, s0. apply space_put_ne; [congruence|].
    destruct (decide (x ≠ z)); [apply space_put_ne; [congruence|]|]; (destruct (decide (y ≠ z)); [apply space_put_ne; [congruence|]|]); apply space_put; lia.
Qed.

Lemma divide_ok : ∃ m', divide x y z m = Some (tt, m') ∧ divided m'.
Proof.
  rewrite divide_run. destruct (div_same_length_ok entry y cy c0 X Y entry_y Hyw ltac:(lia) entry_w0 ltac:(lia)) as (d & E1 & Hd & HR & Hsmall).
  rewrite (mbind_Some _ _ _ _ _ E1). set (s0 := put w0 (big_of c0 (X - d * Y)) entry). pose proof entry_w0 as (Ew & Bw & Hcw).
  assert (holds s0 w0 c0 (X - d * Y)) as Hw0 by (apply holds_put; [nia|done]).
  assert (holds s0 y cy Y) as Hy0 by (apply holds_put_ne; [congruence|apply entry_y]).
  rewrite (mbind_Some _ _ _ _ _ (mr_compare_ok s0 w0 y c0 cy _ _ Hw0 Hy0)). destruct (decide (Z.sgn (X - d * Y - Y) < 0)) as [Hlt|Hge].
  - apply divide_small; lia.
  - assert (d = 0) as -> by lia. assert (s0 = entry) as -> by (unfold s0; rewrite Z.mul_0_l, Z.sub_0_r; by apply put_same). destruct (decide (ndigits Y = 1%nat)) as [E|E].
    + apply divide_word; [lia|done].
    + pose proof entry_z as Hez. assert (2 <= ndigits Y)%nat as Hn2 by (pose proof (ndigits_pos Y ltac:(lia)); lia).
      destruct (div_long_ok entry x y z cx cy cz c0 sx sy sz X Y X entry_y entry_w0 Hez entry_x) as (m' & -> & Hch & Hzr & Hxr & Hyr & Hsp); try done; try lia.
      * intros E'. pose proof Hw as Hw'. rewrite <- E' in Hw'. by rewrite (space_cap _ _ _ _ (holds_space _ _ _ _ Hx) Hw').
      * intros _. apply ndigits_le; [lia|apply X_cx].
      * apply sign_bit_cases.
      * apply sign_bit_cases.
      * apply sz_cases.
      * exists m'. split; [done|]. by apply divided_intro.
Qed.
End divide.

(** ** mad and divisible *)

Ltac solve_sub := let v := fresh "v" in let H := fresh "H" in intros v H; rewrite !elem_of_cons in H; rewrite ?elem_of_cons; clear - H; tauto.

(** Arithmetic that does not depend on which variables are the same. *)
Ltac lia_words := repeat match goal with H : @eq positive _ _ → _ |- _ => clear H | H : ¬ @eq positive _ _ |- _ => clear H | H : @eq positive _ _ |- _ => clear H end; lia.

Lemma set_check_changed c m ws m' : changed ws (Mip (nib m) c (ERNUM m) (bigs m)) m' → changed ws m (Mip (nib m') (check m) (ERNUM m') (bigs m')).
Proof. intros (A1 & _ & A3 & A4). by repeat split. Qed.

Section mad.
Context (m : mip) (x y z w q r : positive) (cx cy cz cw cq cr c0 : nat) (vx vy vz vw : Z).
Context (Hx : holds m x cx vx) (Hy : holds m y cy vy) (Hz : holds m z cz vz) (Hw : holds m w cw vw) (Hq : space m q cq) (Hr : space m r cr) (H0 : space m w0 c0).
Context (HE : ERNUM m = 0) (Nx : x ≠ w0) (Ny : y ≠ w0) (Nz : z ≠ w0) (Nw : w ≠ w0) (Nq : q ≠ w0) (Nr : r ≠ w0) (Hwr : w ≠ r) (Hvw : vw ≠ 0).
(** The number that is divided. *)
Definition dividend : Z := if decide (x ≠ z ∧ y ≠ z) then vx * vy + vz else vx * vy.
Context (Hxy : (ndigits (Z.abs vx) + ndigits (Z.abs vy) <= c0)%nat) (Hnib : (0 < nib m <= c0)%nat).
Context (Hadd : x ≠ z → y ≠ z → Z.abs (vx * vy) < W cz ∧ Z.abs vz < W (c0 - 1) ∧ Z.abs (vx * vy) < W (c0 - 1)).
Context (Hdig : (ndigits (Z.abs dividend) < c0)%nat) (Hquot : w ≠ q → (0 < cq)%nat ∧ Z.abs dividend / Z.abs vw < W cq) (Hrem : q ≠ r → Z.abs vw <= W cr).

Lemma mad_ok : ∃ m', mad x y z w q r m = Some (tt, m') ∧ changed [q; r; w0] m m' ∧ space m' w0 c0 ∧ holds m' w cw vw ∧
  (w ≠ q → holds m' q cq (Z.quot dividend vw)) ∧ (q ≠ r → holds m' r cr (Z.rem dividend vw)).
Proof.
  unfold mad. rewrite (unless_error_ok m HE). rewrite (decide_False (P := w = r)) by done. rewrite (mbind_Some _ _ m (check m) m eq_refl).
  set (s := Mip (nib m) false (ERNUM m) (bigs m)). rewrite (mbind_Some (set_check false) _ m tt s eq_refl).
  assert (mult_acc x y w0 = w0) as Eacc by (unfold mult_acc; rewrite decide_False by (intros (_ & _ & E); discriminate E); done).
  assert (Z.abs (vx * vy) < W c0) as Hp.
  { rewrite Z.abs_mul. pose proof (ndigits_lt (Z.abs vx) (Z.abs_nonneg _)) as HX. pose proof (ndigits_lt (Z.abs vy) (Z.abs_nonneg _)) as HY. pose proof (W_le _ _ Hxy) as HW. rewrite W_add in HW.
    eapply Z.lt_le_trans; [|exact HW]. apply Z.mul_lt_mono_nonneg; [apply Z.abs_nonneg|exact HX|apply Z.abs_nonneg|exact HY]. }
  destruct (multiply_ok s x y w0 cx cy c0 c0 vx vy) as (s1 & E1 & Hw1 & Hc1 & _); rewrite ?Eacc; try done.
  rewrite (mbind_Some _ _ _ _ _ E1). clear E1.
  assert (∀ v c u, v ≠ w0 → holds m v c u → holds s1 v c u) as Hkeep by (intros v c u Nv Hv; apply (holds_changed [w0; w0] s); [done|solve_notin|done]).
  assert (∃ s2, (if decide (x ≠ z ∧ y ≠ z) then add w0 z w0 else mret tt) s1 = Some (tt, s2) ∧ holds s2 w0 c0 dividend ∧ changed [w0] s s2) as (s2 & E2 & Hw2 & Hc2).
  { assert (changed [w0] s s1) as Hc1' by (apply (changed_sub _ _ _ _ Hc1); solve_sub). unfold dividend in *.
    destruct (decide (x ≠ z ∧ y ≠ z)) as [[A1 A2]|]; [|by exists s1]. destruct (Hadd A1 A2) as (B1 & B2 & B3). pose proof Hc1 as (N1 & K1 & R1 & _). pose proof (W_le (c0 - 1) c0 ltac:(lia_words)).
    assert (0 < c0)%nat as Hc0p by lia_words. assert (∀ v, Z.abs v < W (c0 - 1) → (ndigits (Z.abs v) < c0)%nat) as Hnd by (intros v Hv; pose proof (ndigits_le (Z.abs v) (c0 - 1) (Z.abs_nonneg _) Hv) as Hle; clear - Hc0p Hle; lia_words).
    assert (ERNUM s1 = 0) as E0 by (rewrite R1; exact HE). rewrite (add_ok s1 w0 z w0 c0 cz c0 (vx * vy) vz (vx * vy) Hw1 (Hkeep _ _ _ Nz Hz) Hw1 E0); [|lia_words|lia_words|lia_words|lia_words|rewrite N1; cbn; lia_words|].
    - eexists. split; [done|]. split; [apply holds_put; [|by eapply space_bound]|by apply changed_put; [|solve_in]]. pose proof (ndigits_lt (Z.abs (vx * vy + vz)) ltac:(lia_words)) as Hl. pose proof (W_le _ c0 (Nat.lt_le_incl _ _ Hdig)). lia_words.
    - split; [|rewrite K1; cbn; done]. intros _. pose proof (Hnd _ B2). pose proof (Hnd _ B3). lia_words. }
  rewrite (mbind_Some _ _ _ _ _ E2). clear E2 Hkeep Hw1 Hc1 s1.
  assert (∀ v c u, v ≠ w0 → holds m v c u → holds s2 v c u) as Hkeep by (intros v c u Nv Hv; apply (holds_changed [w0] s); [done|solve_notin|done]).
  pose proof Hc2 as (N2 & K2 & R2 & _). pose proof (space_bound _ _ _ H0) as Hc0. assert (∀ v c, v ≠ w0 → space m v c → space s2 v c) as Hkeep' by (intros v c Nv Hv; apply (space_changed [w0] s); [done|solve_notin|done]).
  destruct (divide_ok s2 w0 w q c0 cw cq c0 dividend vw Hw2 (Hkeep _ _ _ Nw Hw) (Hkeep' _ _ Nq Hq) (holds_space _ _ _ _ Hw2)) as (s3 & E3 & Hc3 & Hw3 & Hq3 & Hr3 & _); [by rewrite R2|congruence|done|done|done|done|rewrite K2; cbn; done|done|lia_words|].
  rewrite (mbind_Some _ _ _ _ _ E3). clear E3. specialize (Hr3 ltac:(congruence)).
  assert (Z.abs (Z.rem dividend vw) < Z.abs vw) as Hrb by (apply Z.rem_bound_abs; done).
  assert (∃ s4, (if decide (q ≠ r) then copy w0 r else mret tt) s3 = Some (tt, s4) ∧ changed [r] s3 s4 ∧ (q = r → s4 = s3) ∧ (q ≠ r → holds s4 r cr (Z.rem dividend vw))) as (s4 & E4 & Hc4 & Es4 & Hr4).
  { destruct (decide (q ≠ r)) as [Nqr|Eqr]; [|exists s3; split; [done|]; split; [apply changed_refl|split; tauto]]. specialize (Hrem Nqr). pose proof (space_bound _ _ _ Hr) as Hcr.
    assert (space s3 r cr) as Hr' by (apply (space_changed _ _ _ _ _ Hc3); [solve_notin|by apply Hkeep']).
    rewrite (copy_space s3 w0 r c0 _ cr Hr3 Hr') by lia_words. eexists. split; [done|]. split; [by apply changed_put; [|solve_in]|]. split; [done|]. intros _. apply holds_put; [lia_words|done]. }
  rewrite (mbind_Some _ _ _ _ _ E4). clear E4. eexists. split; [done|]. cbn beta.
  assert (changed [q; r; w0] s s4) as Hc.
  { apply (changed_trans _ _ s2); [apply (changed_sub _ _ _ _ Hc2)|apply (changed_trans _ _ s3); [apply (changed_sub _ _ _ _ Hc3)|apply (changed_sub _ _ _ _ Hc4)]]; solve_sub. }
  split; [by apply (set_check_changed false)|]. split; [|split; [|split; [|exact Hr4]]].
  { change (space s4 w0 c0). apply (space_changed [r] s3); [done|solve_notin|eapply holds_space, Hr3]. }
  { change (holds s4 w cw vw). apply (holds_changed [r] s3); [done|solve_notin|done]. }
  intros Nwq. destruct (decide (q = r)) as [E|Nqr].
  - rewrite (Es4 E). by apply Hq3.
  - change (holds s4 q cq (Z.quot dividend vw)); apply (holds_changed [r] s3); [done|solve_notin|by apply Hq3].
Qed.
End mad.

Lemma divisible_ok m x y cx cy c0 vx vy : holds m x cx vx → holds m y cy vy → space m w0 c0 → ERNUM m = 0 → y ≠ w0 → vy ≠ 0 →
  (ndigits (Z.abs vx) < c0)%nat → (check m = true → Z.of_nat (ndigits (Z.abs vx)) - Z.of_nat (ndigits (Z.abs vy)) + 1 <= Z.of_nat (nib m)) →
  ∃ m', divisible x y m = Some (bool_decide (Z.rem vx vy = 0), m') ∧ changed [w0] m m' ∧ holds m' w0 c0 (Z.rem vx vy).
Proof.
  intros Hx Hy Hw HE Nyw Hvy Hd Hk. pose proof (space_bound _ _ _ Hw) as Hc0. pose proof (W_le _ _ (Nat.lt_le_incl _ _ Hd)) as HWd. pose proof (ndigits_lt (Z.abs vx) ltac:(lia)) as HXd.
  unfold divisible, get_ERNUM. rewrite (mbind_Some _ _ m _ m eq_refl), HE, decide_False by tauto. rewrite (mbind_Some _ _ _ _ _ (copy_space m x w0 cx vx c0 Hx Hw ltac:(lia))).
  set (s := put w0 (big_of c0 vx) m). assert (holds s w0 c0 vx) as Hws by (apply holds_put; lia). assert (holds s y cy vy) as Hys by (by apply holds_put_ne).
  destruct (divide_ok s w0 y y c0 cy cy c0 vx vy Hws Hys) as (m' & E & Hch & Hy' & _ & Hr & _); auto; [by eapply holds_space|by eapply holds_space|tauto|lia|].
  rewrite (mbind_Some _ _ _ _ _ E). specialize (Hr (not_eq_sym Nyw)). rewrite (mbind_Some _ _ _ _ _ (size_ok _ _ _ _ Hr)). exists m'. split; [|split; [|done]].
  - unfold mret, M_ret. do 2 f_equal. apply bool_decide_ext. unfold MR_TOOBIG. change (2 ^ 30) with 1073741824. lia.
  - assert (changed [w0] m s) as Hs by (unfold s; solve_changed). destruct (changed_trans _ _ _ _ (changed_sub _ [w0; y] _ _ Hs ltac:(solve_sub)) (changed_sub _ [w0; y] _ _ Hch ltac:(solve_sub))) as (A1 & A2 & A3 & A4).
    repeat (split; [done|]). intros v [Nv _]%not_elem_of_cons. destruct (decide (v = y)) as [->|]; [|apply A4; solve_notin]. destruct Hy as (-> & _). by destruct Hy' as (-> & _).
Qed.

(** *** The errors *)

(** Division by zero, and by the same variable, leave everything alone but the error number. *)
Lemma divide_by_zero m x y z cx cy vx : holds m x cx vx → holds m y cy 0 → ERNUM m = 0 → divide x y z m = Some (tt, Mip (nib m) (check m) MR_ERR_DIV_BY_ZERO (bigs m)).
Proof.
  intros Hx Hy HE. unfold divide. rewrite (unless_error_ok m HE). set (s := if decide (x = y) then Mip (nib m) (check m) MR_ERR_BAD_PARAMETERS (bigs m) else m).
  assert ((if decide (x = y) then mr_berror MR_ERR_BAD_PARAMETERS else mret tt) m = Some (tt, s)) as E1 by (unfold s; by case_decide).
  assert (bigs s = bigs m ∧ nib s = nib m ∧ check s = check m) as (Eb & En & Ek) by (unfold s; by case_decide).
  assert (∀ v c u, holds m v c u → holds s v c u) as Hs by (intros v c u (A & B'); split; [by rewrite Eb|done]).
  rewrite (mbind_Some _ _ _ _ _ E1), (mbind_Some _ _ s _ s (mr_notint_ok s x cx vx (Hs _ _ _ Hx))), (mbind_Some _ _ s _ s (mr_notint_ok s y cy 0 (Hs _ _ _ Hy))), (mbind_Some _ _ s tt s eq_refl).
  rewrite (mbind_Some _ _ s _ s (get_len_ok y _ s (proj1 (Hs _ _ _ Hy)))). rewrite (decide_True (P := len (big_of cy 0) = 0)) by done.
  rewrite (mbind_Some (mr_berror _) _ s tt (Mip (nib s) (check s) MR_ERR_DIV_BY_ZERO (bigs s)) eq_refl). unfold unless_error, get_ERNUM, mbind, M_bind. cbn. by rewrite Eb, En, Ek.
Qed.

(** Where the quotient would have more words than a variable, [divide] raises the overflow error, and both
    operands have lost their signs, which it takes off before the test and does not put back. *)
Theorem divide_loses_signs m x y z cx cy cz c0 vx vy : holds m x cx vx → holds m y cy vy → space m z cz → space m w0 c0 → ERNUM m = 0 → x ≠ y → y ≠ w0 → z ≠ w0 → vy ≠ 0 →
  (ndigits (Z.abs vx) < c0)%nat → check m = true → Z.of_nat (nib m) < Z.of_nat (ndigits (Z.abs vx)) - Z.of_nat (ndigits (Z.abs vy)) + 1 →
  ∃ m', divide x y z m = Some (tt, m') ∧ ERNUM m' = MR_ERR_OVERFLOW ∧ holds m' x cx (Z.abs vx) ∧ holds m' y cy (Z.abs vy).
Proof. intros Hx Hy Hz Hw HE Nxy Ny Nz Hvy Hd Hk Hn. by eapply divide_overflow. Qed.

Lemma divide_loses_signs_witness : let m := Mip 1 true 0 (<[w0 := big_of 5 0]> (<[2%positive := big_of 3 (- 2 ^ 70)]> (<[3%positive := big_of 1 (- 7)]> {[4%positive := big_of 1 0]}))) in
  ∃ m', divide 2 3 4 m = Some (tt, m') ∧ ERNUM m' = MR_ERR_OVERFLOW ∧ holds m' 2 3 (2 ^ 70) ∧ holds m' 3 1 7.
Proof.
  intros m. apply (divide_loses_signs m 2 3 4 3 1 1 5 (- 2 ^ 70) (- 7)); try done.
  - apply (holds_space _ _ _ 0). done.
  - apply (holds_space _ _ _ 0). done.
  - apply Nat.ltb_lt. vm_compute. done.
Defined.
