(* ===== verification/BigEnv.v ===== *)
(** * BigEnv: calls of the arithmetic in an environment of MIRACL

    What the variables of an environment mean: every one is an integer of [nib] words, the
    work space is only room. [calls_ok] is the refinement of whole sequences of calls: as long
    as the integers calculated fit, the environment calculates what the integers do. *)

From S2P Require Import Prelude BigNum BigAdd BigMul BigDiv BigLong BigDivide.

(** A call of the arithmetic with the variables it is given. *)
Inductive call :=
| Zero (x : positive) | Convert (n : Z) (x : positive) | Copy (x y : positive) | Negify (x y : positive) | Absol (x y : positive)
| Add (x y z : positive) | Subtract (x y z : positive) | Incr (x : positive) (n : Z) (z : positive) | Decr (x : positive) (n : Z) (z : positive)
| Multiply (x y z : positive) | Premult (x : positive) (n : Z) (z : positive) | Divide (x y z : positive) | Mad (x y z w q r : positive).

Definition run (c : call) : M unit :=
  match c with
  | Zero x => zero x | Convert n x => convert n x | Copy x y => copy x y | Negify x y => negify x y | Absol x y => absol x y
  | Add x y z => add x y z | Subtract x y z => subtract x y z | Incr x n z => incr x n z | Decr x n z => decr x n z
  | Multiply x y z => multiply x y z | Premult x n z => premult x n z | Divide x y z => divide x y z | Mad x y z w q r => mad x y z w q r
  end.

Definition runs (cs : list call) : M unit := foldr (λ c k, run c;; k) (mret tt) cs.

(** ** What the calls mean *)

(** The variable [z] is one of those known, and the value fits in [n] words. *)
Definition assign (n : nat) (z : positive) (v : Z) (σ : gmap positive Z) : option (gmap positive Z) :=
  _ ← σ !! z; guard (Z.abs v < W n);; Some (<[z := v]> σ).

Definition small (n : Z) : Prop := - 2 ^ 31 < n < 2 ^ 31.
#[export] Instance small_dec n : Decision (small n).
Proof. unfold small. apply _. Defined.

(** Where it is not defined the code signals an error, is not given variables, or works with
    numbers that do not fit. *)
Definition meaning (n : nat) (c : call) (σ : gmap positive Z) : option (gmap positive Z) :=
  match c with
  | Zero x => assign n x 0 σ
  | Convert k x => guard (small k);; assign n x k σ
  | Copy x y => v ← σ !! x; assign n y v σ
  | Negify x y => v ← σ !! x; assign n y (- v) σ
  | Absol x y => v ← σ !! x; assign n y (Z.abs v) σ
  | Add x y z => v ← σ !! x; u ← σ !! y; assign n z (v + u) σ
  | Subtract x y z => v ← σ !! x; u ← σ !! y; assign n z (v - u) σ
  | Incr x k z => guard (small k);; v ← σ !! x; assign n z (v + k) σ
  | Decr x k z => guard (small k);; v ← σ !! x; assign n z (v - k) σ
  | Multiply x y z => v ← σ !! x; u ← σ !! y; guard (ndigits (Z.abs v) + ndigits (Z.abs u) <= n)%nat;; assign n z (v * u) σ
  | Premult x k z => guard (small k);; v ← σ !! x; assign n z (v * k) σ
  | Divide x y z =>
      v ← σ !! x; u ← σ !! y; _ ← σ !! z; guard (x ≠ y ∧ u ≠ 0);;
      σ ← (if decide (x ≠ z) then assign n x (Z.rem v u) σ else Some σ);
      if decide (y ≠ z) then assign n z (Z.quot v u) σ else Some σ
  | Mad x y z w q r =>
      vx ← σ !! x; vy ← σ !! y; vz ← σ !! z; vw ← σ !! w; _ ← σ !! q; _ ← σ !! r;
      guard (w ≠ r ∧ vw ≠ 0 ∧ (x ≠ z → y ≠ z → Z.abs (vx * vy) < W n));;
      let d := dividend x y z vx vy vz in
      σ ← (if decide (w ≠ q) then assign n q (Z.quot d vw) σ else Some σ);
      if decide (q ≠ r) then assign n r (Z.rem d vw) σ else Some σ
  end.

Definition meanings (n : nat) (cs : list call) (σ : gmap positive Z) : option (gmap positive Z) :=
  foldr (λ c k σ, meaning n c σ ≫= k) Some cs σ.

Section env.
Context (n c0 : nat) (Hn : (0 < n)%nat) (Hc0 : (2 * n < c0)%nat).

(** The environment [m] has the integers [σ]; the double space [w0] and [w5] are not for the
    caller. *)
Record env (m : mip) (σ : gmap positive Z) : Prop := Env {
  env_nib : nib m = n; env_check : check m = true; env_ERNUM : ERNUM m = 0; env_w0 : space m w0 c0;
  env_big : ∀ x v, σ !! x = Some v → x ≠ w0 ∧ x ≠ w5 ∧ holds m x n v }.

Lemma env_changed m m' ws σ σ' : env m σ → changed ws m m' → space m' w0 c0 →
  (∀ x v, σ' !! x = Some v → x ≠ w0 ∧ x ≠ w5 ∧ (holds m' x n v ∨ x ∉ ws ∧ σ !! x = Some v)) → env m' σ'.
Proof.
  intros [E1 E2 E3 E4 E5] Hch Hw H. pose proof Hch as (A1 & A2 & A3 & _). split; [congruence..|done|]. intros x v Hv. destruct (H x v Hv) as (N1 & N2 & H'). split; [done|]. split; [done|].
  destruct H' as [|[Hx Hs]]; [done|]. apply (holds_changed _ _ _ _ _ _ Hch Hx). by apply E5.
Qed.

Lemma assign_Some z v σ σ' : assign n z v σ = Some σ' → is_Some (σ !! z) ∧ Z.abs v < W n ∧ σ' = <[z := v]> σ.
Proof. unfold assign. intros H. simplify_option_eq. eauto. Qed.

(** A call that writes [z], and perhaps [w0]. *)
Lemma env_assign m m' z v σ : env m σ → is_Some (σ !! z) → changed [z; w0] m m' → holds m' z n v → space m' w0 c0 → env m' (<[z := v]> σ).
Proof.
  intros He [u Hu] Hch Hh Hw. destruct (env_big _ _ He z u Hu) as (N1 & N2 & _). apply (env_changed m m' [z; w0] σ _ He Hch Hw). intros x v' [[<- <-]|[Hne Hx]]%lookup_insert_Some; [auto|].
  destruct (env_big _ _ He x v' Hx) as (N3 & N4 & _). split; [done|]. split; [done|]. right. split; [solve_notin|done].
Qed.

Lemma env_put m z v σ σ' : env m σ → assign n z v σ = Some σ' → env (put z (big_of n v) m) σ'.
Proof.
  intros He (Hs & Hv & ->)%assign_Some. pose proof Hs as [u Hu]. destruct (env_big _ _ He z u Hu) as (N1 & N2 & _ & _ & Hb). apply (env_assign m); try done.
  - solve_changed.
  - by apply holds_put.
  - apply space_put_ne; [done|apply He].
Qed.

Lemma env_scratch m v σ : env m σ → Z.abs v < W c0 → env (put w0 (big_of c0 v) m) σ.
Proof.
  intros He Hv. pose proof (space_bound _ _ _ (env_w0 _ _ He)). apply (env_changed m _ [w0] σ σ He); [solve_changed|by apply space_put|].
  intros x u Hx. destruct (env_big _ _ He x u Hx) as (N1 & N2 & Hh). split; [done|]. split; [done|]. left. by apply holds_put_ne.
Qed.

Lemma env_room m v u σ : env m σ → Z.abs v < W n → Z.abs u < W n → Z.abs (v + u) < W n → room m n v u.
Proof.
  intros He Hv Hu Hs. split; [rewrite (env_check _ _ He); done|]. intros _. rewrite (env_nib _ _ He).
  pose proof (ndigits_le (Z.abs v) n ltac:(lia) Hv). pose proof (ndigits_le (Z.abs u) n ltac:(lia) Hu). by rewrite Nat.max_r by lia.
Qed.

Lemma env_holds m σ x v : env m σ → σ !! x = Some v → holds m x n v.
Proof. intros He Hx. by apply (env_big _ _ He). Qed.

Lemma env_fits m σ x v : env m σ → σ !! x = Some v → Z.abs v < W n.
Proof. intros He Hx. by destruct (env_holds _ _ _ _ He Hx) as (_ & H & _). Qed.
#[local] Hint Resolve env_holds env_fits env_ERNUM env_put : core.

Lemma env_nib_bounds m σ : env m σ → (0 < nib m <= n)%nat.
Proof. intros He. rewrite (env_nib _ _ He). lia. Qed.
#[local] Hint Resolve env_nib_bounds : core.

Lemma run_sum m x y z vx vy σ σ' : env m σ → σ !! x = Some vx → σ !! y = Some vy → assign n z (vx + vy) σ = Some σ' → ∃ m', add x y z m = Some (tt, m') ∧ env m' σ'.
Proof.
  intros He Hx Hy H. pose proof H as ([vz Hz] & Hv & _)%assign_Some. eexists. split; [|by eapply env_put].
  apply (add_ok m x y z n n n vx vy vz); eauto using env_room.
Qed.

Lemma run_difference m x y z vx vy σ σ' : env m σ → σ !! x = Some vx → σ !! y = Some vy → assign n z (vx - vy) σ = Some σ' → ∃ m', subtract x y z m = Some (tt, m') ∧ env m' σ'.
Proof.
  intros He Hx Hy H. pose proof H as ([vz Hz] & Hv & _)%assign_Some. eexists. split; [|by eapply env_put].
  assert (Z.abs (- vy) < W n) by (rewrite Z.abs_opp; eauto). apply (subtract_ok m x y z n n n vx vy vz); eauto using env_room.
Qed.

Lemma small_fits k : small k → Z.abs k < W n.
Proof. unfold small. intros H. pose proof (W_le 1 n ltac:(lia)) as Hw. rewrite W_1 in Hw. change (2 ^ 31) with 2147483648 in H. lia. Qed.

Lemma W_n_c0 v : Z.abs v < W n → Z.abs v < W c0.
Proof. pose proof (W_le n c0 ltac:(lia)). lia. Qed.

Lemma run_incr m x k z vx σ σ' : env m σ → small k → σ !! x = Some vx → assign n z (vx + k) σ = Some σ' → ∃ m', incr x k z m = Some (tt, m') ∧ env m' σ'.
Proof.
  intros He Hk Hx H. pose proof H as ([vz Hz] & Hv & _)%assign_Some. pose proof (small_fits k Hk). eexists. split; [|eapply env_put; [|exact H]; apply env_scratch; eauto using W_n_c0].
  destruct (env_big _ _ He x vx Hx) as (N1 & _ & Hhx), (env_big _ _ He z vz Hz) as (N3 & _ & Hhz).
  apply (incr_ok m x z n n c0 vx vz k); eauto using W_n_c0, env_room; [apply He|lia].
Qed.

Lemma run_decr m x k z vx σ σ' : env m σ → small k → σ !! x = Some vx → assign n z (vx - k) σ = Some σ' → ∃ m', decr x k z m = Some (tt, m') ∧ env m' σ'.
Proof.
  intros He Hk Hx H. pose proof H as ([vz Hz] & Hv & _)%assign_Some. pose proof (small_fits k Hk). eexists. split; [|eapply env_put; [|exact H]; apply env_scratch; eauto using W_n_c0].
  destruct (env_big _ _ He x vx Hx) as (N1 & _ & Hhx), (env_big _ _ He z vz Hz) as (N3 & _ & Hhz). assert (Z.abs (- k) < W n) by (rewrite Z.abs_opp; eauto).
  apply (decr_ok m x z n n c0 vx vz k); eauto using W_n_c0, env_room; [apply He|lia].
Qed.

Lemma run_product m x y z vx vy σ σ' : env m σ → σ !! x = Some vx → σ !! y = Some vy → (ndigits (Z.abs vx) + ndigits (Z.abs vy) <= n)%nat →
  assign n z (vx * vy) σ = Some σ' → ∃ m', multiply x y z m = Some (tt, m') ∧ env m' σ'.
Proof.
  intros He Hx Hy Hd H. pose proof H as (Hs & Hv & ->)%assign_Some. pose proof Hs as [vz Hz].
  destruct (env_big _ _ He x vx Hx) as (N1 & N2 & Hhx), (env_big _ _ He y vy Hy) as (N3 & N4 & Hhy), (env_big _ _ He z vz Hz) as (N5 & N6 & Hhz).
  assert (mult_acc x y z = w0) as Ea by (unfold mult_acc; rewrite decide_False by (intros (A1 & A2 & A3); congruence); done).
  destruct (multiply_ok m x y z n n n c0 vx vy) as (m' & E & Hh & Hch & Hw); rewrite ?Ea; eauto; [by eapply holds_space|apply He|lia|rewrite (env_nib _ _ He); lia|].
  rewrite Ea in Hw.
  exists m'. split; [done|]. by eapply env_assign.
Qed.

Lemma run_premult m x k z vx σ σ' : env m σ → small k → σ !! x = Some vx → assign n z (vx * k) σ = Some σ' → ∃ m', premult x k z m = Some (tt, m') ∧ env m' σ'.
Proof.
  intros He Hk Hx H. pose proof H as ([vz Hz] & Hv & _)%assign_Some. eexists. split; [|by eapply env_put].
  apply (premult_ok m x z n n vx vz k); eauto. intros _. rewrite (env_nib _ _ He). pose proof (W_le n (ndigits (Z.abs vx) `max` n) ltac:(lia)). lia.
Qed.

Lemma assign_if (P : Prop) `{!Decision P} z v σ σ' : (if decide P then assign n z v σ else Some σ) = Some σ' → σ' = if decide P then <[z := v]> σ else σ.
Proof. case_decide; [by intros (_ & _ & ->)%assign_Some|by intros [= <-]]. Qed.

Lemma abs_quot_fits v u : u ≠ 0 → Z.abs v < W n → Z.abs v / Z.abs u < W n.
Proof. intros Hu Hv. assert (Z.abs v / Z.abs u <= Z.abs v) by (apply Z.div_le_upper_bound; nia). lia. Qed.

Lemma run_division m x y z vx vy vz σ σ1 σ' : env m σ → σ !! x = Some vx → σ !! y = Some vy → σ !! z = Some vz → x ≠ y → vy ≠ 0 →
  (if decide (x ≠ z) then assign n x (Z.rem vx vy) σ else Some σ) = Some σ1 → (if decide (y ≠ z) then assign n z (Z.quot vx vy) σ1 else Some σ1) = Some σ' →
  ∃ m', divide x y z m = Some (tt, m') ∧ env m' σ'.
Proof.
  intros He Hx Hy Hz Nxy N0 ->%assign_if ->%assign_if.
  destruct (env_big _ _ He x vx Hx) as (N1 & N2 & Hhx), (env_big _ _ He y vy Hy) as (N3 & N4 & Hhy), (env_big _ _ He z vz Hz) as (N5 & N6 & Hhz).
  pose proof (ndigits_le _ n (Z.abs_nonneg vx) (env_fits _ _ _ _ He Hx)) as Hd. pose proof (ndigits_pos (Z.abs vy) ltac:(lia)) as [Hd1 _].
  destruct (divide_ok m x y z n n n c0 vx vy) as (m' & E & Hch & Hy' & Hz' & Hx' & Hw); auto; [by eapply holds_space|apply He|apply He|lia|rewrite (env_nib _ _ He); lia|split; [lia|]; apply abs_quot_fits; eauto|].
  exists m'. split; [done|]. apply (env_changed m m' [x; z; w0] σ _ He Hch (Hw N1)). intros v u Hv.
  assert (∀ u', σ !! v = Some u' → v ≠ w0 ∧ v ≠ w5) as Hwork by (intros u' Hu'; destruct (env_big _ _ He v u' Hu') as (? & ? & _); auto).
  destruct (decide (v = z ∧ y ≠ z)) as [[-> Nyz]|Nz].
  { rewrite decide_True, lookup_insert_eq in Hv by done. simplify_eq. auto. }
  assert ((if decide (x ≠ z) then <[x:=Z.rem vx vy]> σ else σ) !! v = Some u) as Hv1.
  { destruct (decide (y ≠ z)); [|done]. rewrite lookup_insert_ne in Hv; [done|]. intros ->. tauto. }
  clear Hv. destruct (decide (v = x ∧ x ≠ z)) as [[-> Nxz]|Nx].
  { rewrite decide_True, lookup_insert_eq in Hv1 by done. simplify_eq. auto. }
  assert (σ !! v = Some u) as Hv2 by (destruct (decide (x ≠ z)); [|done]; rewrite lookup_insert_ne in Hv1; [done|]; intros ->; tauto).
  destruct (Hwork u Hv2) as [W1 W2]. split; [done|]. split; [done|]. destruct (decide (v = y)) as [->|Ny]; [left; by simplify_eq|].
  right. split; [|done]. assert (v ≠ z) by (intros ->; apply Nz; split; congruence). assert (v ≠ x) by (intros ->; apply Nx; done). solve_notin.
Qed.

Lemma product_digits v u : Z.abs v < W n → Z.abs u < W n → (ndigits (Z.abs v) <= n)%nat ∧ (ndigits (Z.abs u) <= n)%nat ∧ (ndigits (Z.abs (v * u)) <= 2 * n)%nat.
Proof.
  intros Hv Hu. split; [apply ndigits_le; lia|]. split; [apply ndigits_le; lia|]. apply ndigits_le; [lia|]. replace (2 * n)%nat with (n + n)%nat by lia. rewrite W_add, Z.abs_mul.
  apply Z.mul_lt_mono_nonneg; lia.
Qed.

Lemma sum_digits v u : Z.abs v < W n → Z.abs u < W n → (ndigits (Z.abs (v + u)) < c0)%nat.
Proof. intros Hv Hu. assert (ndigits (Z.abs (v + u)) <= S n)%nat; [|lia]. apply ndigits_le; [lia|]. rewrite W_S. lia. Qed.

Lemma abs_quot v u : u ≠ 0 → Z.abs v / Z.abs u = Z.abs (Z.quot v u).
Proof. intros Hu. rewrite <- Z.quot_abs by done. symmetry. apply Z.quot_div_nonneg; lia. Qed.

Lemma run_mad m x y z w q r vx vy vz vw vq vr σ σ1 σ' : env m σ → σ !! x = Some vx → σ !! y = Some vy → σ !! z = Some vz → σ !! w = Some vw → σ !! q = Some vq → σ !! r = Some vr →
  w ≠ r → vw ≠ 0 → (x ≠ z → y ≠ z → Z.abs (vx * vy) < W n) → let d := dividend x y z vx vy vz in
  (if decide (w ≠ q) then assign n q (Z.quot d vw) σ else Some σ) = Some σ1 → (if decide (q ≠ r) then assign n r (Z.rem d vw) σ1 else Some σ1) = Some σ' →
  ∃ m', mad x y z w q r m = Some (tt, m') ∧ env m' σ'.
Proof.
  intros He Hx Hy Hz Hw Hq Hr Nwr N0 Hp d Hq1 ->%assign_if. pose proof (assign_if _ _ _ _ _ Hq1) as ->.
  destruct (env_big _ _ He x vx Hx) as (Nx & _ & Hhx), (env_big _ _ He y vy Hy) as (Ny & _ & Hhy), (env_big _ _ He z vz Hz) as (Nz & _ & Hhz).
  destruct (env_big _ _ He w vw Hw) as (Nw & _ & Hhw), (env_big _ _ He q vq Hq) as (Nq & _ & Hhq), (env_big _ _ He r vr Hr) as (Nr & _ & Hhr).
  pose proof (env_fits _ _ _ _ He Hx) as Fx. pose proof (env_fits _ _ _ _ He Hy) as Fy. pose proof (env_fits _ _ _ _ He Hz) as Fz. pose proof (env_fits _ _ _ _ He Hw) as Fw.
  pose proof (product_digits vx vy Fx Fy) as (D1 & D2 & D3). pose proof (W_le n (c0 - 1) ltac:(lia_words)) as HW.
  destruct (mad_ok m x y z w q r n n n n n n c0 vx vy vz vw Hhx Hhy Hhz Hhw (holds_space _ _ _ _ Hhq) (holds_space _ _ _ _ Hhr) (env_w0 _ _ He) (env_ERNUM _ _ He) Nx Ny Nz Nw Nq Nr Nwr N0)
    as (m' & E & Hch & Hsp & Hw' & Hq' & Hr').
  - lia_words.
  - rewrite (env_nib _ _ He). lia_words.
  - intros A1 A2. specialize (Hp A1 A2). lia_words.
  - unfold dividend. destruct (decide (x ≠ z ∧ y ≠ z)) as [[A1 A2]|]; [by apply sum_digits; auto|lia_words].
  - intros Nwq. rewrite (decide_True (P := w ≠ q)) in Hq1 by done. apply assign_Some in Hq1 as (_ & Hb & _). split; [done|]. by rewrite abs_quot.
  - lia_words.
  - exists m'. split; [done|]. apply (env_changed m m' [q; r; w0] σ _ He Hch Hsp). intros v u Hv. fold d in Hq', Hr'.
    assert (∀ u', σ !! v = Some u' → v ≠ w0 ∧ v ≠ w5) as Hwork by (intros u' Hu'; destruct (env_big _ _ He v u' Hu') as (? & ? & _); auto).
    destruct (decide (v = r ∧ q ≠ r)) as [[-> Nqr]|Mr].
    { rewrite decide_True, lookup_insert_eq in Hv by done. simplify_eq. destruct (Hwork _ Hr). auto. }
    assert ((if decide (w ≠ q) then <[q:=Z.quot d vw]> σ else σ) !! v = Some u) as Hv1.
    { destruct (decide (q ≠ r)); [|done]. rewrite lookup_insert_ne in Hv; [done|]. intros ->. tauto. }
    clear Hv. destruct (decide (v = q ∧ w ≠ q)) as [[-> Nwq]|Mq].
    { rewrite decide_True, lookup_insert_eq in Hv1 by done. simplify_eq. destruct (Hwork _ Hq). auto. }
    assert (σ !! v = Some u) as Hv2 by (destruct (decide (w ≠ q)); [|done]; rewrite lookup_insert_ne in Hv1; [done|]; intros ->; tauto).
    destruct (Hwork u Hv2) as [W1 W2]. split; [done|]. split; [done|]. destruct (decide (v = w)) as [->|Mw]; [left; by simplify_eq|].
    right. split; [|done]. assert (v ≠ q) by (intros ->; apply Mq; split; congruence). assert (v ≠ r) by (intros ->; apply Mr; split; congruence). solve_notin.
Qed.

Lemma run_ok m σ c σ' : env m σ → meaning n c σ = Some σ' → ∃ m', run c m = Some (tt, m') ∧ env m' σ'.
Proof.
  intros He H. destruct c; cbn [meaning run] in *; repeat match goal with H : (_ ≫= _) = Some _ |- _ => apply bind_Some in H as (? & ? & H) end.
  - pose proof H as ([v Hv] & _)%assign_Some. eexists. split; [|by eapply env_put]. eapply zero_ok; eauto.
  - pose proof H as ([v Hv] & _)%assign_Some. eexists. split; [|by eapply env_put]. eapply convert_ok; eauto. eapply holds_space; eauto.
  - pose proof H as ([v Hv] & _)%assign_Some. eexists. split; [|by eapply env_put]. eapply copy_ok; eauto.
  - pose proof H as ([v Hv] & _)%assign_Some. eexists. split; [|by eapply env_put]. eapply negify_ok; eauto.
  - pose proof H as ([v Hv] & _)%assign_Some. eexists. split; [|by eapply env_put]. eapply absol_ok; eauto.
  - by eapply run_sum.
  - by eapply run_difference.
  - by eapply run_incr.
  - by eapply run_decr.
  - by eapply run_product.
  - by eapply run_premult.
  - match goal with H : _ ≠ _ ∧ _ |- _ => destruct H end. by eapply run_division.
  - match goal with H : _ ≠ _ ∧ _ ∧ _ |- _ => destruct H as (? & ? & ?) end. by eapply run_mad.
Qed.
End env.

(** C13: A sequence of calls of MIRACL's arithmetic ([zero], [convert], [copy], [negify], [absol], [add],
    [subtract], [incr], [decr], [multiply], [premult], [divide], [mad]), with variables that may be the same in
    every way the functions allow, ends, reads and writes only inside the arrays, raises no error, and leaves
    every variable with the integer the same sequence of integer operations gives, as long as those fit. *)
Theorem calls_ok n c0 cs m σ σ' : (0 < n)%nat → (2 * n < c0)%nat → env n c0 m σ → meanings n cs σ = Some σ' → ∃ m', runs cs m = Some (tt, m') ∧ env n c0 m' σ'.
Proof.
  intros Hn Hc0. revert m σ. induction cs as [|c cs IH]; intros m σ He H; cbn in *; [injection H as <-; by exists m|].
  apply bind_Some in H as (σ1 & H1 & H2). destruct (run_ok n c0 Hn Hc0 m σ c σ1 He H1) as (m1 & E1 & He1). destruct (IH m1 σ1 He1 H2) as (m' & E & He').
  exists m'. split; [|done]. by rewrite (mbind_Some _ _ _ _ _ E1).
Qed.

(** Three variables of two words and the work space. *)
Definition small_mip (a b c : Z) : mip := Mip 2 true 0 (<[w0 := big_of 5 0]> (<[2%positive := big_of 2 a]> (<[3%positive := big_of 2 b]> {[4%positive := big_of 2 c]}))).

Lemma small_env a b c : Z.abs a < W 2 → Z.abs b < W 2 → Z.abs c < W 2 → env 2 5 (small_mip a b c) (<[2%positive := a]> (<[3%positive := b]> {[4%positive := c]})).
Proof.
  intros Ha Hb Hc. split; [done..| |].
  - exists 0%nat, 0, 0. split; [done|]. split; [by left|]. rewrite W_0. lia.
  - intros x v [[<- <-]|[_ [[<- <-]|[_ [<- <-]%lookup_singleton_Some]]%lookup_insert_Some]]%lookup_insert_Some.
    all: split; [discriminate|]; split; [discriminate|]; split; [done|lia].
Defined.

(** Euclid's step with the quotient kept, and a sum that leaves one of its operands. *)
Lemma calls_ok_witness : ∃ m', runs [Multiply 2 2 4; Divide 4 3 2; Add 2 4 4; Mad 4 4 4 2 3 4; Negify 2 2] (small_mip 4000000000 (- 7) 1) = Some (tt, m') ∧
  env 2 5 m' (<[2%positive := 2285714285714285714]> (<[3%positive := - 2285714285714285710]> {[4%positive := 4]})).
Proof.
  apply (calls_ok 2 5 _ _ (<[2%positive := 4000000000]> (<[3%positive := - 7]> {[4%positive := 1]}))); [lia|lia|apply small_env; vm_compute; reflexivity|].
  vm_compute. reflexivity.
Defined.
