(* ===== verification/BigBytes.v ===== *)
(** * BigBytes: division by an [int] and numbers as bytes, [mrarth1.c] and [mrbits.c]

    [subdiv], with its shift for 2, and [remain]; [logb2]; [bytes_to_big] and [big_to_bytes],
    which pack four bytes in a word. The theorems show that the last two are what the
    contract of MIRACL in [Sm2.v] takes them for. *)

From S2P Require Import Prelude BigNum BigAdd BigMul BigDiv BigLong.

(** ** Division by an int *)

(** [for (i=0;;i++)], the words moved right by one bit; [k] is [msb - i]. *)
Fixpoint halve (z : positive) (k i : nat) : M unit :=
  v ← get_word z i; set_word z i (Z.shiftr v 1);;
  match k with
  | O => v ← get_word z i; if decide (v = 0) then mr_lzero z else mret tt
  | S k => u ← get_word z (i + 1); let lsb := Z.land u 1 in
           v ← get_word z i; set_word z i (Z.lor v (Z.shiftl lsb 31 mod B));; halve z k (i + 1)
  end.

Definition subdiv (x : positive) (n : Z) (z : positive) : M Z :=
  e ← get_ERNUM;
  if decide (e ≠ 0) then mret 0 else
  f ← mr_notint x;
  (if f : bool then mr_berror MR_ERR_INT_OP else mret tt);;
  (if decide (n = 0) then mr_berror MR_ERR_DIV_BY_ZERO else mret tt);;
  e ← get_ERNUM;
  if decide (e ≠ 0) then mret 0 else
  l ← get_len x;
  if decide (l = 0) then zero z;; mret 0 else
  if decide (n = 1) then copy x z;; mret 0 else
  let sx := Z.land l MR_MSBIT in
  r ← (if decide (n = 2) then
         copy x z;;
         l ← get_len z; let msb := Z.land l MR_OBITS - 1 in
         v ← get_word z 0;
         halve z (Z.to_nat msb) 0;; mret (Z.land v 1)
       else if decide (n < 0) then
         r ← mr_sdiv x (- n) z;
         l ← get_len z; (if decide (l = 0) then mret tt else set_len z (Z.lxor l MR_MSBIT));; mret r
       else mr_sdiv x n z);
  mret (if decide (sx = 0) then r else - r).

(** [base] is 0, so that the tests of the last bits are taken for 2 and 8. *)
Definition remain (x : positive) (n : Z) : M Z :=
  e ← get_ERNUM;
  if decide (e ≠ 0) then mret 0 else
  l ← get_len x; let sx := Z.land l MR_MSBIT in
  if decide (n = 2) then
    v ← get_word x 0; mret (if decide (v mod 2 = 0) then 0 else if decide (sx = 0) then 1 else -1)
  else if decide (n = 8) then
    v ← get_word x 0; let r := v mod 8 in mret (if decide (sx = 0) then r else - r)
  else copy x w0;; subdiv w0 n w0.

Definition subdivisible (x : positive) (n : Z) : M bool := r ← remain x n; mret (bool_decide (r = 0)).

(** [while (top>=1) { lg2++; top/=2; }]; a word has 32 bits. *)
Fixpoint count_bits (fuel : nat) (top lg2 : Z) : Z :=
  match fuel with O => lg2 | S fuel => if decide (1 <= top) then count_bits fuel (top / 2) (lg2 + 1) else lg2 end.

Definition logb2 (x : positive) : M Z :=
  e ← get_ERNUM;
  if decide (e ≠ 0) then mret 0 else
  s ← size x;
  if decide (s = 0) then mret 0 else
  l ← get_len x; let xl := Z.land l MR_OBITS in
  top ← get_word x (Z.to_nat (xl - 1));
  mret (count_bits 32 top (32 * (xl - 1))).

(** ** Bytes *)

(** [while ( *ptr==0) { ptr++; len--; if (len==0) return; }] *)
Fixpoint skip_zeros (ptr : list Z) (len : Z) : option (option (list Z * Z)) :=
  match ptr with
  | [] => None
  | b :: ptr' => if decide (b = 0) then (if decide (len - 1 = 0) then Some None else skip_zeros ptr' (len - 1)) else Some (Some (ptr, len))
  end.

(** [for (j=0;j<k;j++) {wrd<<=8; wrd|=MR_TOBYTE( *ptr++); }] *)
Fixpoint shift_in (k : nat) (wrd : Z) (ptr : list Z) : option (Z * list Z) :=
  match k with
  | O => Some (wrd, ptr)
  | S k => match ptr with [] => None | b :: ptr => shift_in k (Z.lor (Z.shiftl wrd 8 mod B) b) ptr end
  end.

(** [for (i=n-1;i>=0;i--)] *)
Fixpoint pack_words (x : positive) (n : nat) (wrd : Z) (ptr : list Z) : M unit :=
  match n with
  | O => mret tt
  | S i => p ← lift (shift_in 4 wrd ptr); let '(wrd, ptr) := p in set_word x i wrd;; pack_words x i wrd ptr
  end.

(** The bytes from [ptr] on are a list; reading behind its end is undefined. *)
Definition bytes_to_big (len : Z) (ptr : list Z) (x : positive) : M unit :=
  unless_error (
    zero x;;
    if decide (len <= 0) then mret tt else
    o ← lift (skip_zeros ptr len);
    match o with
    | None => mret tt
    | Some (ptr, len) =>
        let n := Z.to_nat (len / 4) in let r := Z.to_nat (len mod 4) in
        p ← lift (if decide (r ≠ 0%nat) then shift_in r 0 ptr else Some (0, ptr));
        let '(wrd, ptr) := p in
        let n' := (if decide (r ≠ 0%nat) then n + 1 else n)%nat in
        set_len x (Z.of_nat n');;
        nib ← get_nib; chk ← get_check;
        if bool_decide (nib < n')%nat && chk then mr_berror MR_ERR_OVERFLOW else
        (if decide (r ≠ 0%nat) then set_word x n wrd else mret tt);;
        pack_words x n wrd ptr;;
        mr_lzero x
    end).

(** [while (wrd!=0) { r++; wrd>>=8; len++; }] *)
Fixpoint byte_count (fuel : nat) (wrd : Z) : nat :=
  match fuel with O => 0 | S fuel => if decide (wrd = 0) then 0 else S (byte_count fuel (Z.shiftr wrd 8)) end.

(** [ptr[at]=b;] *)
Definition poke (at_ : Z) (b : Z) (out : list Z) : option (list Z) :=
  if decide (0 <= at_ < Z.of_nat (length out)) then Some (<[Z.to_nat at_ := b]> out) else None.

(** [for (i=0;i<start;i++) ptr[i]=0;] *)
Fixpoint poke_zeros (k i : nat) (out : list Z) : option (list Z) :=
  match k with O => Some out | S k => out ← poke (Z.of_nat i) 0 out; poke_zeros k (S i) out end.

(** [for (i=r-1;i>=0;i--) { ptr[start+i]=(char)(wrd&0xFF); wrd>>=8; }] *)
Fixpoint poke_word (r : nat) (wrd : Z) (start : Z) (out : list Z) : option (list Z) :=
  match r with O => Some out | S i => out ← poke (start + Z.of_nat i) (Z.land wrd 0xFF) out; poke_word i (Z.shiftr wrd 8) start out end.

(** [for (i=r;i<len;i+=m)]: [k] rounds are left, [n] is the word. *)
Fixpoint unpack_words (x : positive) (k n : nat) (at_ : Z) (out : list Z) : M (list Z) :=
  match k with
  | O => mret out
  | S k => wrd ← get_word x n; out ← lift (poke_word 4 wrd at_ out); unpack_words x k (n - 1) (at_ + 4) out
  end.

(** The result and the bytes from [ptr] on. *)
Definition big_to_bytes (max : Z) (x : positive) (ptr : list Z) (justify : bool) : M (Z * list Z) :=
  e ← get_ERNUM;
  if decide (e ≠ 0) then mret (0, ptr) else
  s ← size x;
  if decide (s = 0 ∨ max <= 0 ∧ justify = true) then mret (0, ptr) else
  mr_lzero x;;
  l ← get_len x;
  let n := Z.to_nat (Z.land l MR_OBITS - 1) in
  wrd ← get_word x n;
  let len := (n * 4 + byte_count 4 wrd)%nat in
  let r := (byte_count 4 wrd mod 4)%nat in
  if decide (0 < max ∧ max < Z.of_nat len) then mr_berror MR_ERR_TOO_BIG;; mret (0, ptr) else
  let start := if justify then max - Z.of_nat len else 0 in
  ptr ← lift (if justify then poke_zeros (Z.to_nat start) 0 ptr else Some ptr);
  p ← (if decide (r ≠ 0%nat) then wrd ← get_word x n; ptr ← lift (poke_word r wrd start ptr); mret (ptr, n - 1)%nat else mret (ptr, n));
  let '(ptr, n) := p in
  ptr ← unpack_words x ((len - r) / 4) n (start + Z.of_nat r) ptr;
  mret (if justify then max else Z.of_nat len, ptr).

(** ** What they compute: division *)

Lemma lor_disjoint a b k : 0 <= a < 2 ^ k → 0 <= k → Z.lor a (b * 2 ^ k) = a + b * 2 ^ k.
Proof.
  intros Ha Hk. pose proof (Z.add_lor_land a (b * 2 ^ k)) as H. assert (Z.land a (b * 2 ^ k) = 0) as E; [|lia].
  apply Z.bits_inj'. intros i Hi. rewrite Z.land_spec, Z.bits_0. destruct (decide (i < k)).
  - rewrite Z.mul_pow2_bits_low by lia. apply andb_false_r.
  - rewrite (Z.testbit_eqb a), Z.div_small by (try (split; [lia|]; eapply Z.lt_le_trans; [apply Ha|apply Z.pow_le_mono_r]); lia). done.
Qed.

Lemma digit_half V i : digit (V / 2) i = digit V i / 2 + digit V (i + 1) mod 2 * 2 ^ 31.
Proof.
  pose proof (W_pos i) as Hw. unfold digit. rewrite W_add, W_1, Z.div_div, (Z.mul_comm 2), <- (Z.div_div V (W i) 2), <- (Z.div_div V (W i) B) by lia. set (T := V / W i).
  assert (T / B = T / 2 / 2 ^ 31) as -> by (rewrite Z.div_div by lia; done).
  assert (T mod B / 2 = T / 2 mod 2 ^ 31) as ->.
  { change B with (2 * 2 ^ 31). rewrite Z.rem_mul_r, (Z.add_comm (T mod 2)), (Z.mul_comm 2 (_ mod _)), Z.div_add_l by lia. rewrite (Z.div_small (T mod 2)) by (by apply Z.mod_pos_bound). lia. }
  assert ((T / 2 / 2 ^ 31) mod B mod 2 = (T / 2 / 2 ^ 31) mod 2) as ->.
  { change B with (2 * 2 ^ 31). rewrite Z.rem_mul_r, (Z.mul_comm 2 (_ mod _)), Z.mod_add, Z.mod_mod by lia. done. }
  change B with (2 ^ 31 * 2) at 1. rewrite Z.rem_mul_r by lia. lia.
Qed.

Lemma word_at m z l ws i v : ws !! i = Some v → get_word z i (put z (Big l ws) m) = Some (v, put z (Big l ws) m).
Proof. intros H. apply (get_word_ok z _ _ (bigs_put z _ m)). exact H. Qed.

Lemma set_at m z l ws i v : (i < length ws)%nat → set_word z i v (put z (Big l ws) m) = Some (tt, put z (Big l (<[i := v]> ws)) m).
Proof. intros H. rewrite (set_word_ok z _ _ (bigs_put z _ m)) by exact H. by rewrite put_put. Qed.

Section halve.
Context (m : mip) (z : positive) (cz : nat) (V s : Z) (HV : 0 < V) (Hs : s = 0 ∨ s = MR_MSBIT) (Hn : (ndigits V <= cz)%nat) (Hc : Z.of_nat cz < 65536).
Local Abbreviation l := (Z.of_nat (ndigits V) + s).

Lemma halve_ok : ∀ k i ws, (k + i + 1)%nat = ndigits V → length ws = cz → (∀ j, (j < i)%nat → ws !! j = Some (digit (V / 2) j)) → (∀ j, (i <= j < cz)%nat → ws !! j = Some (digit V j)) →
  halve z k i (put z (Big l ws) m) = Some (tt, put z (big_of cz (signed s (V / 2))) m).
Proof.
  pose proof (ndigits_pos V HV) as [Hn0 [Hl Hh]]. induction k as [|k IH]; intros i ws Hk Hlen Hlo Hhi; cbn [halve].
  - rewrite (mbind_Some _ _ _ _ _ (word_at m z _ _ i _ (Hhi i ltac:(lia)))). rewrite (mbind_Some _ _ _ _ _ (set_at m z l ws i _ ltac:(lia))).
    assert (<[i := Z.shiftr (digit V i) 1]> ws = digits cz (V / 2)) as Ews.
    { apply digits_eq; [by rewrite length_insert|]. intros j Hj. rewrite digit_half. change (Z.shiftr (digit V i) 1) with (Z.shiftr (digit V i) 1). destruct (decide (j = i)) as [->|Hne].
      - rewrite list_lookup_insert_eq by lia. rewrite (digit_ndigits V (i + 1)) by lia. rewrite Z.shiftr_div_pow2 by lia. f_equal. change (2 ^ 1) with 2. rewrite Z.mod_0_l by lia. lia.
      - rewrite list_lookup_insert_ne by done. rewrite <- digit_half. destruct (decide (j < i)%nat); [by apply Hlo|]. rewrite Hhi by lia. f_equal. rewrite digit_half, !(digit_ndigits V) by lia. done. }
    rewrite Ews. rewrite (mbind_Some _ _ _ _ _ (word_at m z _ _ i _ (digits_lookup cz _ i ltac:(lia)))).
    pose proof (Z.div_mod V 2 ltac:(lia)) as E2. pose proof (Z.mod_pos_bound V 2 ltac:(lia)).
    assert (V / 2 < W (ndigits V)) as Hh2 by lia.
    assert (ndigits (V / 2) <= ndigits V)%nat as Hnm by (apply ndigits_mono; lia).
    destruct (decide (digit (V / 2) i = 0)) as [E|E].
    + rewrite (mr_lzero_ok _ z cz (V / 2) (ndigits V) s (bigs_put z _ m) ltac:(lia) ltac:(lia) Hc Hs). by rewrite put_put.
    + assert (ndigits (V / 2) = ndigits V) as En.
      { apply ndigits_unique; [lia| |done]. destruct (decide (W (ndigits V - 1) <= V / 2)); [done|]. exfalso. apply E. apply digit_small. replace i with (ndigits V - 1)%nat by lia. lia. }
      unfold mret, M_ret. do 2 f_equal. rewrite <- big_of_signed by (done || lia). rewrite En. rewrite (decide_False (P := V / 2 = 0)); [done|]. intros E0. apply E. rewrite E0. apply digit_0.
  - rewrite (mbind_Some _ _ _ _ _ (word_at m z _ _ i _ (Hhi i ltac:(lia)))).
    rewrite (mbind_Some _ _ _ _ _ (set_at m z l ws i _ ltac:(lia))). set (ws1 := <[i := _]> ws). assert (length ws1 = cz) as L1 by (unfold ws1; by rewrite length_insert).
    assert (ws1 !! (i + 1)%nat = Some (digit V (i + 1))) as E1 by (unfold ws1; rewrite list_lookup_insert_ne by lia; apply Hhi; lia).
    assert (ws1 !! i = Some (Z.shiftr (digit V i) 1)) as E0 by (unfold ws1; apply list_lookup_insert_eq; lia).
    rewrite (mbind_Some _ _ _ _ _ (word_at m z _ _ _ _ E1)), (mbind_Some _ _ _ _ _ (word_at m z _ _ _ _ E0)).
    rewrite (mbind_Some _ _ _ _ _ (set_at m z l ws1 i _ ltac:(lia))).
    pose proof (digit_bound V i) as Hd. change B with (2 * 2 ^ 31) in Hd. assert (0 <= digit V i / 2 < 2 ^ 31) as Hd2 by (split; [apply Z.div_pos; lia|apply Z.div_lt_upper_bound; lia]).
    assert (Z.lor (Z.shiftr (digit V i) 1) (Z.shiftl (Z.land (digit V (i + 1)) 1) 31 mod B) = digit (V / 2) i) as ->.
    { rewrite digit_half. change 1 with (Z.ones 1) at 2. rewrite Z.land_ones, Z.shiftl_mul_pow2, Z.shiftr_div_pow2 by lia. change (2 ^ 1) with 2. pose proof (Z.mod_pos_bound (digit V (i + 1)) 2 ltac:(lia)).
      rewrite (Z.mod_small (_ * _)) by (change B with (2 * 2 ^ 31); lia). apply lor_disjoint; lia. }
    apply IH; [lia|by rewrite length_insert|..].
    + intros j Hj. destruct (decide (j = i)) as [->|]; [apply list_lookup_insert_eq; lia|]. rewrite list_lookup_insert_ne by lia. unfold ws1. rewrite list_lookup_insert_ne by lia. apply Hlo. lia.
    + intros j Hj. rewrite list_lookup_insert_ne by lia. unfold ws1. rewrite list_lookup_insert_ne by lia. apply Hhi. lia.
Qed.
End halve.

Lemma mbind_assoc_Some {A C D} (c : M A) (f : A → M C) (k : C → M D) m a m' : (c ≫= f) m = Some (a, m') → (v ← c; f v ≫= k) m = k a m'.
Proof. unfold mbind, M_bind. destruct (c m) as [[v m1]|]; [|done]. by intros ->. Qed.

Section subdiv.
Context (m : mip) (x z : positive) (cx cz : nat) (vx vz n : Z).
Context (Hx : holds m x cx vx) (Hz : holds m z cz vz) (HE : ERNUM m = 0) (Hxz : Z.abs vx < W cz) (Hn : - 2 ^ 31 < n < 2 ^ 31) (Hn0 : n ≠ 0).

Lemma rem_sign : (if decide (sign_bit vx = 0) then Z.abs vx mod Z.abs n else - (Z.abs vx mod Z.abs n)) = Z.rem vx n.
Proof.
  rewrite <- Z.rem_mod_nonneg by lia. unfold sign_bit. destruct (Z.abs_spec n) as [[_ ->]|[_ ->]]; rewrite ?Z.rem_opp_r by done; destruct (decide (vx < 0)).
  1, 3: rewrite decide_False by done; rewrite Z.abs_neq, Z.rem_opp_l by lia; lia.
  all: rewrite decide_True by done; by rewrite Z.abs_eq by lia.
Qed.

Lemma quot_half : signed (sign_bit vx) (Z.abs vx / 2) = Z.quot vx 2.
Proof.
  rewrite <- Z.quot_div_nonneg by lia. unfold sign_bit. destruct (decide (vx < 0)); [rewrite decide_False by done|rewrite decide_True by done; by rewrite Z.abs_eq by lia].
  rewrite Z.abs_neq, Z.quot_opp_l by lia. lia.
Qed.

Lemma subdiv_ok : subdiv x n z m = Some (Z.rem vx n, put z (big_of cz (Z.quot vx n)) m).
Proof.
  pose proof Hx as (Ex & Bx & Hcx). pose proof Hz as (Ez & Bz & Hcz). change (2 ^ 31) with 2147483648 in Hn. unfold subdiv, get_ERNUM.
  rewrite (mbind_Some _ _ m _ m eq_refl), HE, decide_False by tauto. rewrite (mbind_Some _ _ m _ m (mr_notint_ok m x cx vx Hx)), (mbind_Some _ _ m tt m eq_refl).
  rewrite (decide_False (P := n = 0)) by done. rewrite (mbind_Some _ _ m tt m eq_refl), (mbind_Some _ _ m _ m eq_refl), HE, decide_False by tauto.
  rewrite (mbind_Some _ _ m _ m (get_len_ok x _ m Ex)). destruct (decide (vx = 0)) as [->|Nx].
  { rewrite decide_True by done. rewrite (mbind_Some _ _ _ _ _ (zero_ok m z cz vz Hz)). by rewrite Z.rem_0_l, Z.quot_0_l. }
  rewrite decide_False by by apply len_nonzero. destruct (decide (n = 1)) as [->|N1].
  { rewrite (mbind_Some _ _ _ _ _ (copy_ok m x z cx vx cz vz Hx Hz Hxz)). by rewrite Z.rem_1_r, Z.quot_1_r. }
  cbn zeta. destruct (len_parts cx vx Bx Hcx) as (_ & -> & _). rewrite <- rem_sign.
  assert (∀ r m', r = Z.abs vx mod Z.abs n → (mret (if decide (sign_bit vx = 0) then r else - r) : M Z) m' = Some (if decide (sign_bit vx = 0) then Z.abs vx mod Z.abs n else - (Z.abs vx mod Z.abs n), m')) as Hret by (by intros r m' ->).
  destruct (decide (n = 2)) as [E2|N2]; [|destruct (decide (n < 0)) as [Hneg|Hpos]].
  - subst n. pose proof (ndigits_le (Z.abs vx) cz ltac:(lia) Hxz) as Hnd. pose proof (ndigits_pos (Z.abs vx) ltac:(lia)) as [Hnp _].
    assert ((copy x z;; l ← get_len z; v ← get_word z 0; halve z (Z.to_nat (Z.land l MR_OBITS - 1)) 0;; mret (Z.land v 1)) m = Some (Z.abs vx mod Z.abs 2, put z (big_of cz (Z.quot vx 2)) m)) as E.
    { rewrite (mbind_Some _ _ _ _ _ (copy_ok m x z cx vx cz vz Hx Hz Hxz)). rewrite (mbind_Some _ _ _ _ _ (get_len_ok z _ _ (bigs_put z _ m))).
      unfold big_of at 2. fold (sign_bit vx). rewrite (mbind_Some _ _ _ _ _ (word_at m z _ _ 0 _ (digits_lookup cz (Z.abs vx) 0 ltac:(lia)))).
      destruct (len_parts cz vx Hxz Hcz) as (-> & _).
      rewrite (mbind_Some _ _ _ _ _ (halve_ok m z cz (Z.abs vx) (sign_bit vx) ltac:(lia) (sign_bit_cases vx) Hnd Hcz (Z.to_nat (Z.of_nat (ndigits (Z.abs vx)) - 1)) 0 (digits cz (Z.abs vx)) ltac:(lia) (digits_length _ _) ltac:(intros j Hj; lia) ltac:(intros j Hj; apply digits_lookup; lia))).
      rewrite quot_half. unfold mret, M_ret. do 2 f_equal. change 1 with (Z.ones 1). rewrite Z.land_ones by lia. unfold digit. rewrite W_0, Z.div_1_r. change B with (2 * 2 ^ 31).
      rewrite Z.rem_mul_r by lia. rewrite (Z.mul_comm 2), Z.mod_add, Z.mod_mod by lia. done. }
    rewrite (mbind_Some _ _ _ _ _ E). by apply Hret.
  - assert ((r ← mr_sdiv x (- n) z; l ← get_len z; (if decide (l = 0) then mret tt else set_len z (Z.lxor l MR_MSBIT));; mret r) m = Some (Z.abs vx mod Z.abs n, put z (big_of cz (Z.quot vx n)) m)) as E.
    { rewrite (mbind_Some _ _ _ _ _ (mr_sdiv_ok m x z cx cz vx vz (- n) Hx Hz ltac:(lia) Hxz)). rewrite Z.quot_opp_r by done.
      assert (Z.abs (- Z.quot vx n) < W cz) as Hq.
      { rewrite Z.abs_opp, <- Z.quot_abs, Z.quot_div_nonneg by lia. assert (Z.abs vx / Z.abs n <= Z.abs vx) by (apply Z.div_le_upper_bound; nia). lia. }
      pose proof (negate_len_ok _ z cz _ (holds_put m z cz _ Hq Hcz)) as Hl. rewrite put_put, Z.opp_involutive in Hl.
      rewrite (mbind_assoc_Some _ _ _ _ _ _ Hl). by rewrite (Z.abs_neq n) by lia. }
    rewrite (mbind_Some _ _ _ _ _ E). by apply Hret.
  - rewrite (mbind_Some _ _ _ _ _ (mr_sdiv_ok m x z cx cz vx vz n Hx Hz ltac:(lia) Hxz)). apply Hret. f_equal. lia.
Qed.
End subdiv.

(** The last bits of a word are those of the number. *)
Lemma digit_mod_pow v k : 0 <= k <= 32 → digit v 0 mod 2 ^ k = v mod 2 ^ k.
Proof.
  intros Hk. unfold digit. rewrite W_0, Z.div_1_r. change B with (2 ^ 32). replace 32 with (k + (32 - k)) at 1 by lia. rewrite Z.pow_add_r by lia.
  rewrite Z.rem_mul_r by lia. rewrite (Z.mul_comm (2 ^ k)), Z.mod_add, Z.mod_mod by lia. done.
Qed.

Lemma remain_ok m x cx c0 vx n : holds m x cx vx → space m w0 c0 → ERNUM m = 0 → (0 < cx)%nat → Z.abs vx < W c0 → - 2 ^ 31 < n < 2 ^ 31 → n ≠ 0 →
  ∃ m', remain x n m = Some (Z.rem vx n, m') ∧ changed [w0] m m' ∧ space m' w0 c0.
Proof.
  intros Hx Hw HE Hcx0 Hv Hn Hn0. pose proof Hx as (Ex & Bx & Hcx). pose proof (space_bound _ _ _ Hw) as Hc0. unfold remain, get_ERNUM. rewrite (mbind_Some _ _ m _ m eq_refl), HE, decide_False by tauto.
  rewrite (mbind_Some _ _ m _ m (get_len_ok x _ m Ex)). cbn zeta. destruct (len_parts cx vx Bx Hcx) as (_ & -> & _).
  assert (get_word x 0 m = Some (digit (Z.abs vx) 0, m)) as Ew by (apply (get_word_ok x _ m Ex); by apply digits_lookup).
  destruct (decide (n = 2)) as [->|N2]; [|destruct (decide (n = 8)) as [->|N8]].
  - rewrite (mbind_Some _ _ m _ m Ew). exists m. split; [|by split; [apply changed_refl|]]. unfold mret, M_ret. do 2 f_equal. rewrite <- (rem_sign vx 2) by lia.
    pose proof (digit_mod_pow (Z.abs vx) 1 ltac:(lia)) as Hd. change (2 ^ 1) with 2 in Hd. change (Z.abs 2) with 2. pose proof (Z.mod_pos_bound (Z.abs vx) 2 ltac:(lia)). repeat case_decide; lia.
  - rewrite (mbind_Some _ _ m _ m Ew). exists m. split; [|by split; [apply changed_refl|]]. unfold mret, M_ret. do 2 f_equal. rewrite <- (rem_sign vx 8) by lia.
    change 8 with (2 ^ 3). by rewrite (digit_mod_pow (Z.abs vx) 3) by lia.
  - rewrite (mbind_Some _ _ _ _ _ (copy_space m x w0 cx vx c0 Hx Hw Hv)). pose proof (holds_put m w0 c0 vx Hv Hc0) as Hw'.
    rewrite (subdiv_ok _ w0 w0 c0 c0 vx vx n Hw' Hw' HE Hv Hn Hn0), put_put. eexists. split; [done|]. split; [solve_changed|]. apply space_put; [|done].
    rewrite <- Z.quot_abs, Z.quot_div_nonneg by lia. assert (Z.abs vx / Z.abs n <= Z.abs vx) by (apply Z.div_le_upper_bound; nia). lia.
Qed.

Lemma count_bits_ok fuel : ∀ top lg, 0 <= top < 2 ^ Z.of_nat fuel → count_bits fuel top lg = lg + if decide (top = 0) then 0 else Z.log2 top + 1.
Proof.
  induction fuel as [|fuel IH]; intros top lg Ht; cbn [count_bits]; [change (2 ^ Z.of_nat 0) with 1 in Ht; rewrite decide_True by lia; lia|].
  destruct (decide (1 <= top)) as [H1|H1]; [|rewrite decide_True by lia; lia]. rewrite Nat2Z.inj_succ, Z.pow_succ_r in Ht by lia.
  rewrite IH by (split; [apply Z.div_pos; lia|apply Z.div_lt_upper_bound; lia]). rewrite (decide_False (P := top = 0)) by lia. destruct (decide (top / 2 = 0)) as [E|E].
  - apply Z.div_small_iff in E; [|lia]. assert (top = 1) as -> by lia. change (Z.log2 1) with 0. lia.
  - change (top / 2) with (top / 2 ^ 1). rewrite <- (Z.shiftr_div_pow2 top 1), Z.log2_shiftr by lia. assert (1 <= Z.log2 top) by (apply Z.log2_le_pow2; [lia|]; destruct (decide (top = 1)) as [->|]; [done|lia]). lia.
Qed.

Lemma logb2_ok m x cx vx : holds m x cx vx → ERNUM m = 0 → logb2 x m = Some (if decide (vx = 0) then 0 else Z.log2 (Z.abs vx) + 1, m).
Proof.
  intros Hx HE. pose proof Hx as (Ex & Bx & Hcx). unfold logb2, get_ERNUM. rewrite (mbind_Some _ _ m _ m eq_refl), HE, decide_False by tauto. rewrite (mbind_Some _ _ m _ m (size_ok m x cx vx Hx)).
  assert (MR_TOOBIG = 1073741824) as ET by done. destruct (decide (vx = 0)) as [->|N0]; [done|]. rewrite decide_False by lia.
  rewrite (mbind_Some _ _ m _ m (get_len_ok x _ m Ex)). cbn zeta. destruct (len_parts cx vx Bx Hcx) as (-> & _). set (V := Z.abs vx) in *. pose proof (ndigits_pos V ltac:(lia)) as [Hn [Hl Hh]]. pose proof (ndigits_le V cx ltac:(lia) ltac:(lia)).
  rewrite (mbind_Some _ _ m _ m (get_word_ok x _ m Ex (Z.to_nat (Z.of_nat (ndigits V) - 1)) _ (digits_lookup cx V (Z.to_nat (Z.of_nat (ndigits V) - 1)) ltac:(lia)))). unfold mret, M_ret. do 2 f_equal.
  replace (Z.to_nat (Z.of_nat (ndigits V) - 1)) with (ndigits V - 1)%nat by lia. set (k := (ndigits V - 1)%nat) in *. replace (ndigits V) with (S k) in * by lia. rewrite (digit_top_div V k) by lia.
  pose proof (W_pos k). pose proof (Z.div_str_pos V (W k) ltac:(lia)) as Hpos. rewrite W_S in Hh. rewrite count_bits_ok by (split; [lia|apply Z.div_lt_upper_bound; [lia|]; change (2 ^ Z.of_nat 32) with B; lia]). rewrite decide_False by lia.
  assert (W k = 2 ^ (32 * Z.of_nat k)) as EW by (unfold W; change B with (2 ^ 32); rewrite <- Z.pow_mul_r by lia; done).
  rewrite EW, <- Z.shiftr_div_pow2, Z.log2_shiftr by lia. assert (32 * Z.of_nat k <= Z.log2 V) by (apply Z.log2_le_pow2; lia). lia.
Qed.

(** ** What they compute: bytes *)

Lemma B_256 : B = 256 ^ 4. Proof. done. Qed.

Lemma be_num_head b l : be_num (b :: l) = 256 ^ Z.of_nat (length l) * b + be_num l.
Proof. change (b :: l) with ([b] ++ l). rewrite be_num_cat. change (be_num [b]) with (256 * 0 + b). by rewrite Z.mul_0_r, Z.add_0_l. Qed.

Lemma byte_head b l : is_bytes (b :: l) → 0 <= b < 256 ∧ is_bytes l.
Proof. intros H. inversion H as [|? ? Hb Hl]. split; [exact Hb|done]. Qed.

Lemma skip_zeros_ok : ∀ ptr k, is_bytes ptr → (0 < k <= length ptr)%nat → let v := be_num (take k ptr) in
  (skip_zeros ptr (Z.of_nat k) = Some None ∧ v = 0) ∨
  ∃ ptr' k', skip_zeros ptr (Z.of_nat k) = Some (Some (ptr', Z.of_nat k')) ∧ (0 < k' <= length ptr')%nat ∧ is_bytes ptr' ∧ be_num (take k' ptr') = v ∧ 256 ^ (Z.of_nat k' - 1) <= v.
Proof.
  induction ptr as [|b ptr IH]; intros k Hb Hk; [cbn in Hk; lia|]. apply byte_head in Hb as [Hb Hp]. cbn [skip_zeros]. destruct k as [|k]; [lia|]. cbn [take]. rewrite be_num_head.
  cbn [length] in Hk. rewrite length_take, Nat.min_l by lia. destruct (decide (b = 0)) as [->|Nb].
  - rewrite Z.mul_0_r, Z.add_0_l. destruct (decide (Z.of_nat (S k) - 1 = 0)) as [E|E]; [left; split; [done|]; replace k with 0%nat by lia; done|].
    replace (Z.of_nat (S k) - 1) with (Z.of_nat k) by lia. apply (IH k Hp). lia.
  - right. exists (b :: ptr), (S k). split; [done|]. split; [cbn; lia|]. split; [by constructor|]. cbn [take]. rewrite be_num_head, length_take, Nat.min_l by lia. split; [done|].
    replace (Z.of_nat (S k) - 1) with (Z.of_nat k) by lia. pose proof (be_num_bound (take k ptr) (Forall_take _ _ _ Hp)). assert (0 < 256 ^ Z.of_nat k) by lia. nia.
Qed.

Lemma shift_byte w b : 0 <= w → 0 <= b < 256 → Z.lor (Z.shiftl w 8 mod B) b = (w * 256 + b) mod B.
Proof.
  intros Hw Hb. rewrite Z.shiftl_mul_pow2 by lia. change (2 ^ 8) with 256. change B with (256 * 2 ^ 24). rewrite (Z.mul_comm w). rewrite Z.mul_mod_distr_l by lia.
  rewrite Z.lor_comm, (Z.mul_comm 256 (_ mod _)). change 256 with (2 ^ 8) at 1. rewrite lor_disjoint by (change (2 ^ 8) with 256; lia). change (2 ^ 8) with 256.
  symmetry. replace (256 * w + b) with (b + w * 256) by lia. rewrite Z.rem_mul_r, Z.mod_add, Z.div_add, (Z.mod_small b), (Z.div_small b) by lia. rewrite Z.add_0_l. lia.
Qed.

Lemma shift_in_ok : ∀ k w ptr, is_bytes ptr → (k <= length ptr)%nat → 0 <= w < B → shift_in k w ptr = Some ((w * 256 ^ Z.of_nat k + be_num (take k ptr)) mod B, drop k ptr).
Proof.
  induction k as [|k IH]; intros w ptr Hb Hk Hw; cbn [shift_in]; [rewrite take_0; change (be_num []) with 0; rewrite Z.mul_1_r, Z.add_0_r, Z.mod_small by done; done|].
  destruct ptr as [|b ptr]; [cbn in Hk; lia|]. apply byte_head in Hb as [Hb Hp]. cbn [length] in Hk. rewrite shift_byte by lia. rewrite IH; [|done|lia|by apply Z.mod_pos_bound]. cbn [take drop].
  do 2 f_equal. rewrite be_num_head, length_take, Nat.min_l by lia. rewrite <- Z.add_mod_idemp_l, Z.mul_mod_idemp_l, Z.add_mod_idemp_l by done. f_equal. rewrite Nat2Z.inj_succ, Z.pow_succ_r by lia. ring.
Qed.

Lemma W_256 n : W n = 256 ^ Z.of_nat (4 * n).
Proof. unfold W. rewrite B_256, <- Z.pow_mul_r by lia. f_equal. lia. Qed.

Lemma pack_words_ok m x l : ∀ n w ptr ws, is_bytes ptr → (4 * n <= length ptr)%nat → 0 <= w < B → (n <= length ws)%nat →
  ∃ ws', pack_words x n w ptr (put x (Big l ws) m) = Some (tt, put x (Big l ws') m) ∧ length ws' = length ws ∧
    ∀ j, ws' !! j = if decide (j < n)%nat then Some (digit (be_num (take (4 * n) ptr)) j) else ws !! j.
Proof.
  induction n as [|n IH]; intros w ptr ws Hb Hl Hw Hn; cbn [pack_words]; [by exists ws|]. rewrite (shift_in_ok 4 w ptr Hb ltac:(lia) Hw).
  change (256 ^ Z.of_nat 4) with B. set (t := be_num (take 4 ptr)). pose proof (be_num_bound (take 4 ptr) (Forall_take _ _ _ Hb)) as Ht. rewrite length_take, Nat.min_l in Ht by lia. change (256 ^ Z.of_nat 4) with B in Ht. fold t in Ht.
  assert ((w * B + t) mod B = t) as -> by (by rewrite Z.add_comm, Z.mod_add, Z.mod_small). unfold lift. rewrite (mbind_Some _ _ _ _ _ eq_refl). rewrite (mbind_Some _ _ _ _ _ (set_at m x l ws n t ltac:(lia))).
  destruct (IH t (drop 4 ptr) (<[n := t]> ws)) as (ws' & E & L & H); [by apply Forall_drop|rewrite length_drop; lia|done|rewrite length_insert; lia|].
  exists ws'. split; [done|]. split; [by rewrite L, length_insert|]. intros j. rewrite H.
  assert (be_num (take (4 * S n) ptr) = W n * t + be_num (take (4 * n) (drop 4 ptr))) as ->.
  { replace (4 * S n)%nat with (4 + 4 * n)%nat by lia. rewrite <- take_take_drop, be_num_cat, length_take, length_drop, Nat.min_l by lia. by rewrite W_256. }
  pose proof (be_num_bound (take (4 * n) (drop 4 ptr)) (Forall_take _ _ _ (Forall_drop _ _ _ Hb))) as Hu. rewrite length_take, length_drop, Nat.min_l, <- W_256 in Hu by lia. set (u := be_num (take (4 * n) (drop 4 ptr))) in *.
  destruct (decide (j < n)%nat) as [Hj|Hj].
  - rewrite decide_True by lia. rewrite (Z.add_comm (_ * _)), (Z.mul_comm (W n)), digit_add_high by lia. done.
  - destruct (decide (j = n)) as [->|Hne].
    + rewrite list_lookup_insert_eq, decide_True by lia. f_equal. replace n with (n + 0)%nat at 2 by lia. rewrite digit_div. rewrite (Z.mul_comm (W n)), Z.div_add_l, (Z.div_small u), Z.add_0_r by lia. unfold digit. by rewrite W_0, Z.div_1_r, Z.mod_small.
    + rewrite list_lookup_insert_ne by done. by rewrite decide_False by lia.
Qed.

Section bytes_to_big.
Context (m : mip) (x : positive) (cap : nat) (Hx : space m x cap) (HE : ERNUM m = 0).

Lemma pow256_lt i j : 0 <= i → 0 <= j → 256 ^ i < 256 ^ j → i < j.
Proof. intros Hi Hj H. destruct (decide (i < j)); [done|]. pose proof (Z.pow_le_mono_r 256 j i). lia. Qed.

(** The bytes without leading zeros. *)
Lemma pack_ok k ptr n' : is_bytes ptr → (0 < k <= length ptr)%nat → let v := be_num (take k ptr) in
  let n := Z.to_nat (Z.of_nat k / 4) in let r := Z.to_nat (Z.of_nat k mod 4) in n' = (if decide (r ≠ 0) then n + 1 else n)%nat → (bool_decide (nib m < n')%nat && check m = false → n' <= cap)%nat →
  (p ← lift (if decide (r ≠ 0%nat) then shift_in r 0 ptr else Some (0, ptr));
   let '(wrd, ptr) := p in
   set_len x (Z.of_nat n');; nib ← get_nib; chk ← get_check;
   if bool_decide (nib < n')%nat && chk then mr_berror MR_ERR_OVERFLOW else
   (if decide (r ≠ 0%nat) then set_word x n wrd else mret tt);; pack_words x n wrd ptr;; mr_lzero x) (put x (big_of cap 0) m) =
  if bool_decide (nib m < n')%nat && check m then Some (tt, Mip (nib m) (check m) MR_ERR_OVERFLOW (<[x := Big (Z.of_nat n') (digits cap 0)]> (bigs m))) else Some (tt, put x (big_of cap v) m).
Proof.
  intros Hb Hk v n r En' Hn'. pose proof (space_bound _ _ _ Hx) as Hc. pose proof (Z.div_mod (Z.of_nat k) 4 ltac:(lia)) as Ek. pose proof (Z.mod_pos_bound (Z.of_nat k) 4 ltac:(lia)) as Hr4.
  assert (0 <= Z.of_nat k / 4) as Hq by (apply Z.div_pos; lia). assert (k = 4 * n + r)%nat as Ek' by lia. assert (r < 4)%nat as Hr by lia.
  set (t := be_num (take r ptr)). pose proof (be_num_bound (take r ptr) (Forall_take _ _ _ Hb)) as Ht. rewrite length_take, Nat.min_l in Ht by lia. fold t in Ht.
  assert (256 ^ Z.of_nat r <= 2 ^ 24) as Hr24 by (change (2 ^ 24) with (256 ^ 3); apply Z.pow_le_mono_r; lia). change B with 4294967296 in *.
  assert ((if decide (r ≠ 0%nat) then shift_in r 0 ptr else Some (0, ptr)) = Some (t, drop r ptr)) as Ep.
  { destruct (decide (r ≠ 0%nat)) as [|E]; [|assert (r = 0%nat) as E0 by lia; unfold t; rewrite E0, take_0, drop_0; done]. rewrite shift_in_ok by (done || lia). fold t. by rewrite Z.mul_0_l, Z.add_0_l, Z.mod_small by lia. }
  rewrite Ep. unfold lift. rewrite (mbind_Some _ _ _ _ _ eq_refl). rewrite (mbind_Some _ _ _ _ _ (set_len_ok x _ _ (bigs_put x _ m) _)), put_put. cbn [words big_of]. set (b0 := Big (Z.of_nat n') _).
  rewrite (mbind_Some get_nib _ (put x b0 m) (nib m) _ eq_refl), (mbind_Some get_check _ (put x b0 m) (check m) _ eq_refl). destruct (bool_decide (nib m < n')%nat && check m) eqn:Eover; [done|]. specialize (Hn' eq_refl).
  set (ws1 := if decide (r ≠ 0%nat) then <[n := t]> (digits cap 0) else digits cap 0). assert (length ws1 = cap) as L1 by (unfold ws1; case_decide; rewrite ?length_insert; apply digits_length).
  assert ((if decide (r ≠ 0%nat) then set_word x n t else mret tt) (put x b0 m) = Some (tt, put x (Big (Z.of_nat n') ws1) m)) as E1.
  { unfold ws1, b0. destruct (decide (r ≠ 0%nat)); [|done]. apply set_at. change (Z.abs 0) with 0. rewrite digits_length. lia. }
  rewrite (mbind_Some _ _ _ _ _ E1). assert (n <= n')%nat as Hnn by (rewrite En'; case_decide; lia).
  destruct (pack_words_ok m x (Z.of_nat n') n t (drop r ptr) ws1) as (ws & E2 & L2 & Hws); [by apply Forall_drop|rewrite length_drop; lia|change B with 4294967296; lia|lia|].
  rewrite (mbind_Some _ _ _ _ _ E2). set (u := be_num (take (4 * n) (drop r ptr))) in *.
  pose proof (be_num_bound (take (4 * n) (drop r ptr)) (Forall_take _ _ _ (Forall_drop _ _ _ Hb))) as Hu. rewrite length_take, length_drop, Nat.min_l, <- W_256 in Hu by lia. fold u in Hu.
  assert (v = u + t * W n) as Ev.
  { unfold v. rewrite Ek', Nat.add_comm, <- take_take_drop, be_num_cat, length_take, length_drop, Nat.min_l by lia. fold t u. rewrite W_256. lia. }
  assert (r = 0%nat → t = 0) as Ht0 by (intros E; unfold t; by rewrite E, take_0).
  assert (0 <= v < W n') as Hv.
  { split; [nia|]. rewrite En'. pose proof (W_pos n). case_decide as Hr0; [|rewrite Ev, Ht0 by lia; lia]. rewrite Nat.add_1_r, W_S. change B with 4294967296. nia. }
  assert (ws = digits cap v) as ->.
  { apply digits_eq; [lia|]. intros j Hj. rewrite Hws. rewrite Ev. destruct (decide (j < n)%nat) as [Hjn|Hjn]; [by rewrite digit_add_high by lia|].
    replace j with (n + (j - n))%nat at 2 by lia. rewrite digit_div, Z.div_add, (Z.div_small u), Z.add_0_l by lia. unfold ws1. destruct (decide (j = n)) as [->|Hne].
    - rewrite Nat.sub_diag. assert (digit t 0 = t) as -> by (unfold digit; rewrite W_0, Z.div_1_r, Z.mod_small by (change B with 4294967296; lia); done).
      case_decide; [apply list_lookup_insert_eq; rewrite digits_length; lia|]. rewrite Ht0 by lia. rewrite digits_lookup by done. by rewrite digit_0.
    - assert (digits cap 0 !! j = Some (digit t (j - n))) as E; [|case_decide; [by rewrite list_lookup_insert_ne|done]]. rewrite digits_lookup, digit_0 by done. f_equal. symmetry. apply digit_small.
      pose proof (W_le 1 (j - n) ltac:(lia)) as Hw1. rewrite W_1 in Hw1. change B with 4294967296 in Hw1. lia. }
  rewrite <- (Z.add_0_r (Z.of_nat n')). rewrite (mr_lzero_ok _ x cap v n' 0 (bigs_put x _ m) ltac:(lia)) by (auto || split; [apply ndigits_le; lia|lia] || lia).
  by rewrite put_put, (decide_True (P := 0 = 0)).
Qed.

(** The number of words that are needed is refused before anything is written outside. *)
Lemma bytes_run bs len : is_bytes bs → (Z.to_nat len <= length bs)%nat → be_num (take (Z.to_nat len) bs) < W cap ∨ check m = true ∧ W (nib m) <= be_num (take (Z.to_nat len) bs) →
  bytes_to_big len bs x m = if bool_decide (W (nib m) <= be_num (take (Z.to_nat len) bs)) && check m
    then Some (tt, Mip (nib m) (check m) MR_ERR_OVERFLOW (<[x := Big (Z.of_nat (ndigits (be_num (take (Z.to_nat len) bs)))) (digits cap 0)]> (bigs m)))
    else Some (tt, put x (big_of cap (be_num (take (Z.to_nat len) bs))) m).
Proof.
  intros Hb Hl Hv. pose proof (W_pos (nib m)). unfold bytes_to_big. rewrite (unless_error_ok m HE), (mbind_Some _ _ _ _ _ (zero_space m x cap Hx)). destruct (decide (len <= 0)) as [H0|H0].
  { replace (Z.to_nat len) with 0%nat by lia. rewrite take_0. change (be_num []) with 0. rewrite bool_decide_false by lia. done. }
  destruct (skip_zeros_ok bs (Z.to_nat len) Hb ltac:(lia)) as [[E Ev]|(ptr & k & E & Hk & Hp & Ev & Hbig)]; rewrite Z2Nat.id in E by lia; unfold lift at 1; rewrite E, (mbind_Some _ _ _ _ _ eq_refl).
  { rewrite Ev, bool_decide_false by lia. done. }
  set (v := be_num (take (Z.to_nat len) bs)) in *. cbn zeta. set (n' := if decide (Z.to_nat (Z.of_nat k mod 4) ≠ 0%nat) then (Z.to_nat (Z.of_nat k / 4) + 1)%nat else Z.to_nat (Z.of_nat k / 4)).
  assert (4 * n' - 3 <= k <= 4 * n')%nat as Hkn. { unfold n'. pose proof (Z.div_mod (Z.of_nat k) 4 ltac:(lia)). pose proof (Z.mod_pos_bound (Z.of_nat k) 4 ltac:(lia)). case_decide; lia. }
  assert (ndigits v = n') as En.
  { pose proof (be_num_bound (take k ptr) (Forall_take _ _ _ Hp)) as Hu. rewrite Ev, length_take, Nat.min_l in Hu by lia. apply ndigits_unique; [lia| |].
    - rewrite W_256. pose proof (Z.pow_le_mono_r 256 (Z.of_nat (4 * (n' - 1))) (Z.of_nat k - 1)). lia.
    - rewrite W_256. pose proof (Z.pow_le_mono_r 256 (Z.of_nat k) (Z.of_nat (4 * n'))). lia. }
  assert (0 < v) as Hv0 by (assert (0 < 256 ^ (Z.of_nat k - 1)) by (apply Z.pow_pos_nonneg; lia); lia).
  pose proof (pack_ok k ptr n' Hp Hk) as HP. rewrite Ev in HP. cbv zeta in HP.
  assert (bool_decide (nib m < n')%nat = bool_decide (W (nib m) <= v)) as Eb.
  { apply bool_decide_ext. rewrite <- En. pose proof (ndigits_pos v Hv0) as [_ [Hlo _]]. split; intros Hc.
    - pose proof (W_le (nib m) (ndigits v - 1) ltac:(lia)). lia.
    - destruct (decide (nib m < ndigits v)%nat); [done|]. pose proof (W_le (ndigits v) (nib m) ltac:(lia)). pose proof (ndigits_lt v ltac:(lia)). lia. }
  assert (bool_decide (nib m < n')%nat && check m = false → (n' <= cap)%nat) as Hn'.
  { rewrite Eb. intros Eo. destruct Hv as [Hv|[Hk1 Hk2]]; [rewrite <- En; apply ndigits_le; lia|]. rewrite Hk1, bool_decide_true in Eo by done. done. }
  etrans; [exact (HP eq_refl Hn')|]. by rewrite Eb, En.
Qed.
End bytes_to_big.

(** *** big_to_bytes *)

Lemma poke_word_ok : ∀ r wrd start out, 0 <= wrd → (start + r <= length out)%nat →
  poke_word r wrd (Z.of_nat start) out = Some (take start out ++ num_bytes r wrd ++ drop (start + r) out).
Proof.
  induction r as [|r IH]; intros wrd start out Hw Hl; cbn [poke_word num_bytes]; [rewrite Nat.add_0_r; cbn [app]; by rewrite take_drop|].
  unfold poke. rewrite decide_True by lia. cbn [mbind option_bind]. replace (Z.to_nat (Z.of_nat start + Z.of_nat r)) with (start + r)%nat by lia.
  change 0xFF with (Z.ones 8). rewrite Z.land_ones, Z.shiftr_div_pow2 by lia. change (2 ^ 8) with 256. rewrite IH by (rewrite ?length_insert; lia || apply Z.div_pos; lia). f_equal.
  rewrite take_insert_ge by lia. f_equal. rewrite <- app_assoc. f_equal. rewrite (drop_S _ (wrd mod 256)) by (apply list_lookup_insert_eq; lia). rewrite drop_insert_lt by lia. cbn [app]. do 2 f_equal. lia.
Qed.

Lemma poke_zeros_ok : ∀ k i out, (i + k <= length out)%nat → poke_zeros k i out = Some (take i out ++ replicate k 0 ++ drop (i + k) out).
Proof.
  induction k as [|k IH]; intros i out Hl; cbn [poke_zeros replicate app]; [by rewrite Nat.add_0_r, take_drop|]. unfold poke. rewrite decide_True by lia. cbn [mbind option_bind]. rewrite Nat2Z.id.
  rewrite IH by (rewrite length_insert; lia). f_equal. rewrite (take_S_r _ i 0) by (apply list_lookup_insert_eq; lia). rewrite take_insert_ge, <- app_assoc by lia. f_equal. cbn [app]. do 2 f_equal. rewrite drop_insert_lt by lia. f_equal. lia.
Qed.

Lemma byte_count_ok fuel : ∀ w, 0 <= w < 256 ^ Z.of_nat fuel → let r := byte_count fuel w in (r <= fuel)%nat ∧ w < 256 ^ Z.of_nat r ∧ (0 < w → (0 < r)%nat ∧ 256 ^ (Z.of_nat r - 1) <= w).
Proof.
  induction fuel as [|fuel IH]; intros w Hw; cbn [byte_count]; cbv zeta; [cbn in *; lia|]. case_decide as H0; [subst; cbn; lia|].
  rewrite Nat2Z.inj_succ, Z.pow_succ_r in Hw by lia. rewrite Z.shiftr_div_pow2 by lia. change (2 ^ 8) with 256.
  destruct (IH (w / 256)) as (H1 & H2 & H3); [split; [apply Z.div_pos; lia|apply Z.div_lt_upper_bound; lia]|]. set (r := byte_count fuel (w / 256)) in *. pose proof (Z.div_mod w 256 ltac:(lia)). pose proof (Z.mod_pos_bound w 256 ltac:(lia)).
  rewrite Nat2Z.inj_succ, Z.pow_succ_r by lia. split; [lia|]. split; [lia|]. intros _. split; [lia|]. replace (Z.succ (Z.of_nat r) - 1) with (Z.of_nat r) by lia.
  destruct (decide (r = 0%nat)) as [->|Hr]; [cbn; lia|].
  assert (w / 256 ≠ 0) as Hne by (intros E; apply Hr; unfold r; rewrite E; by destruct fuel). assert (0 < w / 256) as Hp by (pose proof (Z.div_pos w 256 ltac:(lia) ltac:(lia)); lia).
  destruct (H3 Hp) as [_ H5]. replace (Z.of_nat r) with (Z.succ (Z.of_nat r - 1)) by lia. rewrite Z.pow_succ_r by lia. lia.
Qed.

Lemma num_bytes_digit v k : num_bytes 4 (digit v k) = num_bytes 4 (v / 256 ^ Z.of_nat (4 * k)).
Proof. unfold digit. rewrite W_256. change B with (256 ^ Z.of_nat 4). apply num_bytes_mod. Qed.

(** The number of bytes of a number. *)
Definition byte_length (v : Z) : nat := (ndigits v - 1) * 4 + byte_count 4 (digit v (ndigits v - 1)).

Section big_to_bytes.
Context (m : mip) (x : positive) (cx : nat) (vx : Z) (Hx : holds m x cx vx) (HE : ERNUM m = 0) (Nx : vx ≠ 0).
Local Abbreviation V := (Z.abs vx).
Local Abbreviation n := (ndigits (Z.abs vx) - 1)%nat.
Local Abbreviation L := (byte_length (Z.abs vx)).

Lemma top_word : 0 < digit V n < B ∧ digit V n = V / W n ∧ (S n <= cx)%nat ∧ ndigits V = S n.
Proof.
  pose proof Hx as (_ & Bx & _). pose proof (ndigits_pos V ltac:(lia)) as [Hn [Hl Hh]]. pose proof (ndigits_le V cx ltac:(lia) ltac:(lia)). pose proof (digit_bound V n).
  assert (digit V n = V / W n) as E by (apply digit_top_div; replace (S n) with (ndigits V) by lia; lia). pose proof (W_pos n). pose proof (Z.div_str_pos V (W n) ltac:(lia)). split; [lia|]. split; [done|lia].
Qed.

Lemma byte_length_ok : (0 < L)%nat ∧ 256 ^ (Z.of_nat L - 1) <= V < 256 ^ Z.of_nat L.
Proof.
  destruct top_word as (Ht & Ed & _ & _). unfold byte_length. assert (0 <= digit V n < 256 ^ Z.of_nat 4) as Hd4 by (change (256 ^ Z.of_nat 4) with B; lia). destruct (byte_count_ok 4 (digit V n) Hd4) as (H1 & H2 & H3). set (r := byte_count 4 _) in *. destruct (H3 ltac:(lia)) as [H4 H5]. split; [lia|].
  assert (V = W n * digit V n + V mod W n) as EV by (rewrite Ed; apply Z.div_mod; pose proof (W_pos n); lia). pose proof (Z.mod_pos_bound V (W n) (W_pos n)). rewrite W_256 in *. pose proof (W_pos n) as Hw. rewrite W_256 in Hw.
  replace (Z.of_nat (n * 4 + r) - 1) with (Z.of_nat (4 * n) + (Z.of_nat r - 1)) by lia. replace (Z.of_nat (n * 4 + r)) with (Z.of_nat (4 * n) + Z.of_nat r) by lia. rewrite !Z.pow_add_r by lia. nia.
Qed.

Lemma word_n i : (i < cx)%nat → get_word x i m = Some (digit V i, m).
Proof. intros Hi. destruct Hx as (Ex & _ & _). apply (get_word_ok x _ m Ex). by apply digits_lookup. Qed.

Lemma unpack_words_ok : ∀ k at_ out, (k <= cx)%nat → (at_ + 4 * k <= length out)%nat →
  unpack_words x k (k - 1) (Z.of_nat at_) out m = Some (take at_ out ++ num_bytes (4 * k) V ++ drop (at_ + 4 * k) out, m).
Proof.
  induction k as [|k IH]; intros at_ out Hk Hl; cbn [unpack_words]; [rewrite Nat.mul_0_r, Nat.add_0_r; cbn [num_bytes app]; by rewrite take_drop|].
  replace (S k - 1)%nat with k by lia. rewrite (mbind_Some _ _ m _ m (word_n k ltac:(lia))). pose proof (digit_bound V k). rewrite poke_word_ok by lia. unfold lift. rewrite (mbind_Some _ _ _ _ _ eq_refl).
  set (out1 := take at_ out ++ _). assert (length (take at_ out) = at_) as La by (rewrite length_take; lia). assert (length (num_bytes 4 (digit V k)) = 4%nat) as L4 by apply num_bytes_length.
  replace (Z.of_nat at_ + 4) with (Z.of_nat (at_ + 4)) by lia. rewrite IH; [|lia|unfold out1; rewrite !length_app, La, L4, length_drop; lia].
  assert (take (at_ + 4) out1 = take at_ out ++ num_bytes 4 (digit V k)) as -> by (unfold out1; rewrite app_assoc; apply take_app_length'; rewrite length_app; lia).
  assert (drop (at_ + 4 + 4 * k) out1 = drop (at_ + 4 * S k) out) as ->.
  { unfold out1. rewrite app_assoc, drop_app, drop_ge by (rewrite length_app; lia). rewrite drop_drop, length_app. cbn [app]. f_equal. lia. }
  replace (4 * S k)%nat with (4 + 4 * k)%nat at 2 by lia. rewrite (num_bytes_app 4), num_bytes_digit. by rewrite <- !app_assoc.
Qed.

(** The bytes of the number, from [start] on. *)
Lemma unpack_ok start out ret : (start + L <= length out)%nat → let r := (byte_count 4 (digit V n) mod 4)%nat in
  (p ← (if decide (r ≠ 0%nat) then wrd ← get_word x n; ptr ← lift (poke_word r wrd (Z.of_nat start) out); mret (ptr, n - 1)%nat else mret (out, n));
   let '(ptr, n) := p in ptr ← unpack_words x ((L - r) / 4) n (Z.of_nat start + Z.of_nat r) ptr; mret (ret, ptr)) m =
  Some ((ret, take start out ++ num_bytes L V ++ drop (start + L) out) : Z * list Z, m).
Proof.
  intros Hl r. destruct top_word as (Ht & Ed & Hnc & Hnn). assert (0 <= digit V n < 256 ^ Z.of_nat 4) as Hd4 by (change (256 ^ Z.of_nat 4) with B; lia). destruct (byte_count_ok 4 (digit V n) Hd4) as (H1 & H2 & H3). destruct (H3 ltac:(lia)) as [H4 _].
  unfold byte_length in *. set (bc := byte_count 4 (digit V n)) in *. assert (r = bc ∧ bc <> 4 ∨ r = 0 ∧ bc = 4)%nat as Hr.
  { unfold r. destruct (decide (bc = 4%nat)) as [->|]; [by right|]. left. split; [apply Nat.mod_small; lia|done]. }
  destruct (decide (r ≠ 0%nat)) as [Hr0|Hr0].
  - assert (r = bc) as Er by lia. rewrite Er in *. rewrite (mbind_Some _ _ m (take start out ++ num_bytes bc (digit V n) ++ drop (start + bc) out, n - 1)%nat m).
    2: { rewrite (mbind_Some _ _ m _ m (word_n n ltac:(lia))). rewrite poke_word_ok by lia. done. }
    cbn beta iota. set (out1 := take start out ++ _). assert (length (take start out) = start) as La by (rewrite length_take; lia). pose proof (num_bytes_length bc (digit V n)) as Lb.
    replace ((n * 4 + bc - bc) / 4)%nat with n by (rewrite Nat.add_sub, Nat.div_mul by done; done). rewrite <- Nat2Z.inj_add.
    rewrite (mbind_Some _ _ _ _ _ (unpack_words_ok n (start + bc) out1 ltac:(lia) ltac:(unfold out1; rewrite !length_app, La, Lb, length_drop; lia))). unfold mret, M_ret. do 3 f_equal.
    assert (take (start + bc) out1 = take start out ++ num_bytes bc (digit V n)) as -> by (unfold out1; rewrite app_assoc; apply take_app_length'; rewrite length_app; lia).
    assert (drop (start + bc + 4 * n) out1 = drop (start + (n * 4 + bc)) out) as ->.
    { unfold out1. rewrite app_assoc, drop_app, drop_ge by (rewrite length_app; lia). rewrite drop_drop, length_app. cbn [app]. f_equal. lia. }
    replace (n * 4 + bc)%nat with (bc + 4 * n)%nat by lia. rewrite (num_bytes_app bc). rewrite Ed, W_256. by rewrite <- !app_assoc.
  - assert (r = 0 ∧ bc = 4)%nat as [-> ->] by lia. rewrite (mbind_Some _ _ m (out, n) m eq_refl). rewrite Z.add_0_r, Nat.sub_0_r. replace ((n * 4 + 4) / 4)%nat with (S n) by (replace (n * 4 + 4)%nat with (S n * 4)%nat by lia; by rewrite Nat.div_mul).
    pose proof (unpack_words_ok (S n) start out ltac:(lia) ltac:(lia)) as Hu. replace (S n - 1)%nat with n in Hu by lia. rewrite (mbind_Some _ _ _ _ _ Hu). unfold mret, M_ret. by replace (4 * S n)%nat with (n * 4 + 4)%nat by lia.
Qed.

Lemma mr_lzero_id : mr_lzero x m = Some (tt, m).
Proof.
  pose proof Hx as (Ex & Bx & Hc). pose proof (ndigits_le V cx ltac:(lia) ltac:(lia)). assert (bigs m !! x = Some (Big (Z.of_nat (ndigits V) + sign_bit vx) (digits cx V))) as E by exact Ex.
  rewrite (mr_lzero_ok m x cx V (ndigits V) (sign_bit vx) E) by (auto using sign_bit_cases || lia). rewrite put_same; [done|]. rewrite Ex. f_equal.
  rewrite <- big_of_signed by (lia || apply sign_bit_cases). rewrite decide_False by lia. done.
Qed.

Lemma to_bytes_enter max out justify : ¬ (max <= 0 ∧ justify = true) →
  big_to_bytes max x out justify m = (if decide (0 < max ∧ max < Z.of_nat L) then mr_berror MR_ERR_TOO_BIG;; mret (0, out) else
    let start := if justify then max - Z.of_nat L else 0 in
    ptr ← lift (if justify then poke_zeros (Z.to_nat start) 0 out else Some out);
    p ← (if decide ((byte_count 4 (digit V n) mod 4)%nat ≠ 0%nat) then wrd ← get_word x n; ptr ← lift (poke_word (byte_count 4 (digit V n) mod 4) wrd start ptr); mret (ptr, n - 1)%nat else mret (ptr, n));
    let '(ptr, n) := p in
    ptr ← unpack_words x ((L - byte_count 4 (digit V (ndigits V - 1)) mod 4) / 4) n (start + Z.of_nat (byte_count 4 (digit V (ndigits V - 1)) mod 4)) ptr;
    mret (if justify then max else Z.of_nat L, ptr)) m.
Proof.
  intros Hj. pose proof Hx as (Ex & Bx & Hc). unfold big_to_bytes, get_ERNUM. rewrite (mbind_Some _ _ m _ m eq_refl), HE, decide_False by tauto. rewrite (mbind_Some _ _ m _ m (size_ok m x cx vx Hx)).
  assert (MR_TOOBIG = 1073741824) as ET by done. rewrite decide_False by (intros [H|H]; [lia|tauto]). rewrite (mbind_Some _ _ m _ m mr_lzero_id), (mbind_Some _ _ m _ m (get_len_ok x _ m Ex)).
  destruct (len_parts cx vx Bx Hc) as (-> & _). cbv zeta. replace (Z.to_nat (Z.of_nat (ndigits V) - 1)) with n by lia. destruct top_word as (_ & _ & Hnc & _). by rewrite (mbind_Some _ _ m _ m (word_n n ltac:(lia))).
Qed.

Lemma too_big_ok max out justify : 0 < max < Z.of_nat L → big_to_bytes max x out justify m = Some ((0, out), Mip (nib m) (check m) MR_ERR_TOO_BIG (bigs m)).
Proof. intros H. rewrite to_bytes_enter by lia. by rewrite decide_True. Qed.

(** With [justify] the number is written right of zeros in [max] bytes. *)
Lemma justified_ok k out : (L <= k <= length out)%nat → big_to_bytes (Z.of_nat k) x out true m = Some ((Z.of_nat k, num_bytes k V ++ drop k out), m).
Proof.
  intros Hk. destruct byte_length_ok as [HL [_ HV]]. rewrite to_bytes_enter by lia. rewrite decide_False by lia. cbv zeta. set (s := (k - L)%nat).
  replace (Z.of_nat k - Z.of_nat L) with (Z.of_nat s) by lia. rewrite Nat2Z.id, poke_zeros_ok by lia. unfold lift at 1. rewrite (mbind_Some _ _ m _ m eq_refl). cbn [take app Nat.add].
  assert (length (replicate s 0 ++ drop s out) = length out) as Lo by (rewrite length_app, length_replicate, length_drop; lia).
  etrans; [apply (unpack_ok s (replicate s 0 ++ drop s out) (Z.of_nat k)); lia|]. do 3 f_equal. rewrite take_app_length' by (by rewrite length_replicate).
  rewrite drop_app, drop_ge, length_replicate, drop_drop by (rewrite length_replicate; lia). cbn [app]. replace (s + (s + L - s))%nat with k by lia. rewrite app_assoc. f_equal.
  replace k with (s + L)%nat at 1 by lia. rewrite (num_bytes_app s L). rewrite (Z.div_small V) by lia. f_equal. clear. induction s as [|s IH]; [done|]. rewrite replicate_S_end, IH. cbn [num_bytes]. done.
Qed.

Lemma plain_ok max out : max <= 0 ∨ Z.of_nat L <= max → (L <= length out)%nat → big_to_bytes max x out false m = Some ((Z.of_nat L, num_bytes L V ++ drop L out), m).
Proof.
  intros Hm Hl. rewrite to_bytes_enter by (intros [_ E]; discriminate E). rewrite decide_False by lia. cbv zeta. unfold lift at 1. rewrite (mbind_Some _ _ m _ m eq_refl).
  etrans; [apply (unpack_ok 0 out (Z.of_nat L)); lia|]. done.
Qed.
End big_to_bytes.

(** *** Together *)

(** C22: [bytes_to_big] reads a number with the most significant byte first and [big_to_bytes] with [justify] writes
    it back, so that the bytes are the same, zeros in front included: the value is [be_num], which the model of
    [sm2.c] takes the function for, and nothing else is touched. *)
Theorem bytes_roundtrip m x cap bs out : space m x cap → ERNUM m = 0 → is_bytes bs → 0 < be_num bs < W cap → (check m = true → be_num bs < W (nib m)) → (length bs <= length out)%nat →
  ∃ m', bytes_to_big (Z.of_nat (length bs)) bs x m = Some (tt, m') ∧ holds m' x cap (be_num bs) ∧ changed [x] m m' ∧
    big_to_bytes (Z.of_nat (length bs)) x out true m' = Some ((Z.of_nat (length bs), bs ++ drop (length bs) out), m').
Proof.
  intros Hx HE Hb Hv Hk Hl. pose proof (space_bound _ _ _ Hx) as Hc. pose proof (bytes_run m x cap Hx HE bs (Z.of_nat (length bs)) Hb) as E. rewrite Nat2Z.id, take_ge in E by done.
  rewrite E by (first [done | left; lia]). assert (bool_decide (W (nib m) <= be_num bs) && check m = false) as ->.
  { destruct (check m); [|apply andb_false_r]. specialize (Hk eq_refl). rewrite bool_decide_false by lia. done. }
  eexists. split; [done|]. pose proof (holds_put m x cap (be_num bs) ltac:(lia) Hc) as Hh. split; [done|]. split; [solve_changed|].
  pose proof (byte_length_ok _ x cap _ Hh ltac:(lia)) as [HL [HLo _]]. rewrite Z.abs_eq in HLo by lia. pose proof (be_num_bound bs Hb).
  assert (Z.of_nat (byte_length (Z.abs (be_num bs))) - 1 < Z.of_nat (length bs)) by (apply pow256_lt; rewrite ?Z.abs_eq in * by lia; lia).
  rewrite (justified_ok _ x cap _ Hh HE) by lia. by rewrite Z.abs_eq, num_bytes_be_num by (done || lia).
Qed.

(** C30: [bytes_to_big] refuses a number of more words than a variable has, but leaves its number of words in the
    length: the next [zero] of the variable (or any call that clears it) writes behind its array. *)
Theorem bytes_to_big_overflow m x cap bs : space m x cap → ERNUM m = 0 → is_bytes bs → check m = true → (nib m <= cap)%nat → W cap <= be_num bs → Z.of_nat (length bs) < 200000 →
  ∃ m', bytes_to_big (Z.of_nat (length bs)) bs x m = Some (tt, m') ∧ ERNUM m' = MR_ERR_OVERFLOW ∧ zero x m' = None.
Proof.
  intros Hx HE Hb Hk Hn Hv Hlen. pose proof (W_le _ _ Hn). pose proof (bytes_run m x cap Hx HE bs (Z.of_nat (length bs)) Hb) as E. rewrite Nat2Z.id, take_ge in E by done.
  rewrite E by (first [done | right; split; [done|lia]]). rewrite Hk, bool_decide_true by lia. eexists. split; [done|]. split; [done|]. set (v := be_num bs) in *. set (m' := Mip _ _ _ _).
  assert (cap < ndigits v)%nat as Hcv by (destruct (decide (cap < ndigits v)%nat); [done|]; pose proof (W_le (ndigits v) cap ltac:(lia)); pose proof (W_pos cap); pose proof (ndigits_lt v ltac:(lia)); lia).
  assert (Z.of_nat (ndigits v) < 65536) as Hs.
  { assert (ndigits v <= Z.to_nat 50000)%nat; [|lia]. apply ndigits_le; [pose proof (W_pos cap); lia|]. rewrite W_256. pose proof (be_num_bound bs Hb) as Hbb. fold v in Hbb.
    pose proof (Z.pow_le_mono_r 256 (Z.of_nat (length bs)) (Z.of_nat (4 * Z.to_nat 50000)) ltac:(lia) ltac:(lia)). lia. }
  assert (∀ k i ws, length ws = cap → (i <= cap < i + k)%nat → floop k i (λ i _, set_word x i 0) tt (put x (Big (Z.of_nat (ndigits v)) ws) m') = None) as Hloop.
  { clear - v m'. induction k as [|k IH]; intros i ws Hw Hi; [lia|]. cbn [floop]. destruct (decide (i < cap)%nat) as [Hic|Hic].
    - rewrite (mbind_Some _ _ _ _ _ (set_at m' x _ ws i 0 ltac:(lia))). apply IH; [by rewrite length_insert|lia].
    - unfold set_word, get_big, mbind, M_bind, lift. rewrite bigs_put. cbn [words]. by rewrite decide_False by lia. }
  assert (bigs m' !! x = Some (Big (Z.of_nat (ndigits v)) (digits cap 0))) as Em by apply lookup_insert_eq.
  unfold zero. rewrite <- (Z.add_0_r (Z.of_nat (ndigits v))) in Em. rewrite (mbind_Some _ _ _ _ _ (mr_lent_space m' x (ndigits v) 0 _ Em ltac:(lia) ltac:(by left))). rewrite Z.add_0_r in Em.
  unfold mbind at 1, M_bind at 1. rewrite <- (put_same x _ m' Em). rewrite (Hloop (ndigits v) 0%nat (digits cap 0) (digits_length _ _) ltac:(lia)). done.
Qed.

Lemma bytes_roundtrip_witness : ∃ m', bytes_to_big 6 [0; 1; 2; 3; 4; 5] 2 (Mip 2 true 0 {[2%positive := big_of 2 7]}) = Some (tt, m') ∧ holds m' 2 2 4328719365 ∧
  changed [2%positive] (Mip 2 true 0 {[2%positive := big_of 2 7]}) m' ∧ big_to_bytes 6 2 [9; 9; 9; 9; 9; 9; 9] true m' = Some ((6, [0; 1; 2; 3; 4; 5; 9]), m').
Proof.
  apply (bytes_roundtrip (Mip 2 true 0 {[2%positive := big_of 2 7]}) 2 2 [0; 1; 2; 3; 4; 5] [9; 9; 9; 9; 9; 9; 9]); [|done| |done|done|cbn; lia].
  - apply (holds_space _ _ _ 7). split; [done|]. split; [done|lia].
  - repeat constructor; done.
Defined.

Lemma bytes_to_big_overflow_witness : ∃ m', bytes_to_big 5 [1; 0; 0; 0; 0] 2 (Mip 1 true 0 {[2%positive := big_of 1 7]}) = Some (tt, m') ∧ ERNUM m' = MR_ERR_OVERFLOW ∧ zero 2 m' = None.
Proof.
  apply (bytes_to_big_overflow (Mip 1 true 0 {[2%positive := big_of 1 7]}) 2 1 [1; 0; 0; 0; 0]); [|done| |done|done|done|done].
  - apply (holds_space _ _ _ 7). split; [done|]. split; [done|lia].
  - repeat constructor; done.
Defined.
